(* ===== verification/_CoqProject ===== *)
-Q . S2P
Prelude.v
JsMap.v
JsString.v
JsSort.v
JsDate.v
JsNumber.v
JsFloat.v
Effects.v
Url.v
QueryStrings.v
Json.v
JsonText.v
Sse.v
ServingAudit.v
Routes.v
Services.v
KeyStore.v
SignupLimits.v
Access.v
OrgAccess.v
TenantServices.v
ActiveOrg.v
ApiKeys.v
Passwords.v
Invites.v
Members.v
Catalog.v
CatalogServer.v
PlaygroundParams.v
Playground.v
BackendSource.v
AutoRecharge.v
StripeWebhook.v
Billing.v
AuthCallback.v
Accounts.v
Operators.v
ModelProviders.v
Extended.v
Proxies.v
OrgProxies.v
OperatorProxies.v
Connections.v
SelfService.v
UserProxies.v
GatewayUsage.v
