(* ===== verification/Prelude.v ===== *)
(** * The Experiential web application: a verification library

    A Rocq model of the server and domain code of the web application under [src/apps/web/], with
    the theorems that make it correct. The application is a Next.js server: an edge proxy decides
    who may reach which path; route handlers and server components act on Supabase (sessions,
    PostgREST tables, definer functions), on Stripe, on a mailer and on the Python backend; pure
    libraries shape the gateway's usage telemetry, its URLs and its query strings.

    ** How code becomes Rocq

    Pure functions are Rocq functions with the source's names. Strings are [String.string], one
    character per ASCII unit; counts, cents and milliseconds are [Z]; where the source computes with
    fractions or [NaN] the value is a binary64 ([JsNumber.number]). A [Map] or plain object whose
    iteration order matters is an association list in insertion order ([JsMap]); an absent or null
    value is [None], and where the source tells the two apart so does the model. An asynchronous function over the
    services is a [prog] of [Effects]: it returns, throws, or issues a command and continues with
    the answer. The services are not under [src/], so their answers are left open: a theorem with
    [spec I Q [] p] says that whatever is answered, every command satisfies [I] of the events so
    far and every ending satisfies [Q]; [run] executes a program against a concrete handler; [pool]
    interleaves several.

    ** Files, bottom up

    - [Prelude]: tactics, hint databases, lemmas on lists, decisions and integer sums.
    - [JsMap], [JsString], [JsSort], [JsDate], [JsNumber]: what the sources use of JavaScript's
      [Map], [String], [Array.sort], [Date] and [Number]. [JsFloat]: binary64 rounding of money:
      a whole number of cents survives division, multiplication and [Math.round].
    - [Effects]: programs, [spec], [run], [pool], [embed].
    - [Url]: [encodeURIComponent], [URLSearchParams], template-literal paths and the URL parser's
      dot segments.
    - [QueryStrings]: the query strings of lib/gateway-telemetry.ts, lib/serving-telemetry.ts and
      lib/audit-log.ts with their parsers: what the URL carries is what was asked.
    - [Json], [ServingAudit]: JSON values; the routing-audit payload parser of lib/serving-audit.ts.
    - [Routes]: lib/routes.ts (every path builder, the reserved slugs) and lib/legacy-query.ts.
    - [Services]: PostgREST answers, thrown values, responses.
    - [Access]: proxy.ts, lib/auth/redirects.ts, lib/auth/cookies.ts, lib/auth/cron.ts. The proxy
      gates everything off its allowlist; sign-in returns to where one was going.
    - [BackendSource]: lib/backend-source.ts, every method of the data source: one request each, in the
      resource its arguments name, under the right credential, and errors are mapped as meant.
    - [AutoRecharge]: lib/billing/auto-recharge.ts. Charges are licensed by an own claim, a claim is
      exclusive under every interleaving of pollers whose clocks have moved on, each charge is booked,
      the summary adds up.
    - [StripeWebhook]: app/api/stripe/webhook/route.ts, lib/billing/stripe.ts,
      lib/auth/spend-unlock.ts. Only verified paid money becomes credit, and only once.
    - [Billing]: the checkout, recharge-settings, recharge-poller and spend-alert routes with
      lib/billing/stripe.ts, spend-alert-email.ts and launch-grant.ts. What checkout asks of Stripe is what
      the webhook later credits; only managers spend; amounts are exact; every due alert is settled.
    - [AuthCallback]: app/auth/callback/route.ts with lib/auth/admin.ts (account cleanup),
      lib/auth/signin-methods.ts and lib/auth/password-recovery.ts. A session is seated only for an
      undisputed, provisioned account; tickets open exactly their own recovery flow. A sign-out that
      answers an error is not looked at, and its session stands.
    - [JsonText]: [JSON.stringify] and [JSON.parse]; what is written of wire values reads back.
    - [Sse]: lib/sse.ts, the event-stream reader: its result does not depend on where reads end.
    - [OrgAccess]: lib/auth/org-access.ts, orgs.ts, admin.ts, server.ts, claims.ts: the access gate
      every organization-scoped surface passes, its role and single-sign-on checks, and lib/http.ts's
      error mapping. A request-scoped React [cache] is [Effects.cached].
    - [TenantServices]: the commands of the tenant routes, [gate] (the access gate inside a route),
      the step lemmas their proofs share, and lib/audit.ts (redaction).
    - [ActiveOrg]: lib/active-org.ts, lib/data-cache.ts, app/api/active-org and app/api/orgs: the
      workspace every root-level page renders is one the session was granted; the tolerant resolution
      lets the framework's own control flow through.
    - [ApiKeys]: lib/api-keys/, app/api/keys/ and lib/playground/serving-key.ts: minting, rotation,
      revocation, listing. Keys are minted and rotated only for those who may, and secrets are
      disclosed exactly when stored.
    - [Invites], [Members]: lib/members/, lib/admin/invite-email.ts and the member routes: who joins,
      what the invitation mail carries, role changes and removals, and the last administrator.
    - [Catalog]: lib/models-catalog/ (families, serving, format's figures, promotions) and
      components/models-catalog/filtering.ts: chips, promoted prices, the filters and the two views.
    - [CatalogServer]: lib/models-catalog/server.ts: paging is complete, an outage is not hammered, the
      shared read is anonymous and the viewer's overlay private.
    - [PlaygroundParams], [Playground]: lib/playground/ and app/api/playground/chat: the rail's
      parameters against the route's allowlist; a completion arrives whole whatever the network
      does, and the key minted for it is always revoked.
    - [KeyStore]: components/keys/store.ts, the browser's shared cache of keys and provider connections
      with its loads in flight: one load per key at a time, nothing shown is invented or lost to a
      failure, and mutations show.
    - [SignupLimits]: lib/auth/signup-rate-limit.ts: how often one address may start, sign in, be mailed.
    - [Passwords], [Accounts]: lib/auth/password.ts, signup-gate.ts, verification.ts,
      instant-signup.ts and the nine public account routes (app/auth/otp, app/auth/password, app/signup,
      app/api/signup and below): who is mailed, signed in, created, and may set which password.
    - [Operators]: app/api/admin/ users, orgs, invitations and superadmin-keys with
      lib/admin/superadmin-keys.ts: what the platform's operators do to accounts, tenants and each other;
      an operator always remains and live machine keys belong to operators, served one request after
      the other; two schedules of concurrent requests show where that fails.
    - [ModelProviders]: lib/model-providers.ts, lib/provider-fields.ts and the connect form: what each provider's
      account takes; rotating a key keeps its configuration.
    - [Extended]: routes over the tenant services and services of their own: the manager's gate, the
      data source as the signed-in user (lib/data-source.ts), and the steps their proofs share.
    - [Proxies]: how a route relays the backend's answers and refusals (lib/http.ts).
    - [OrgProxies]: some seventy handlers under app/api/orgs/: whatever they send stays in the
      organization the gate let the user into, and refusals come back as they were.
    - [OperatorProxies]: the proxies under app/api/admin/: the operators' alone, with bodies that were
      checked, and the shared catalog purged after it was changed.
    - [Connections]: app/api/orgs/ provider-connections, connections, data and the rename, with
      lib/provider-connections.ts: credentials, balances, broadcast settings, the privacy wipe.
    - [SelfService]: app/api/account and app/api/welcome: deleting one's account strands no organization
      and leaves an operator, served one after the other (two at once may not); each greeting is shown
      by exactly one of a user's tabs.
    - [UserProxies]: app/api/aliases, models, gateway and join-requests: what leaves the organization to
      the backend is the signed-in user's own, with what it carries checked against its rails.
    - [GatewayUsage]: lib/gateway-usage.ts. Series, stacks, periods, streaks and rankings agree with
      the summary figures.

    ** Bounds and fuel

    A [prog] is a well-founded tree, so every modelled handler ends. [GatewayUsage.day_loop] runs on
    fuel: as many iterations as there are days between its ends ([loop_fuel]); the theorems state
    that the result is produced ([Some]), for dates with four-digit years. [JsNumber.dec_digits] has
    one unit per bit of the number, which its round-trip lemma shows to be enough. [Sse.drain] has one
    unit per buffered character and [JsonText.json_parse] two per character: both are shown to reach
    the end ([read_is_chunk_independent], [json_parse_stringify]). [CatalogServer.page_offsets] has
    one unit per missing row ([catalog_joined]). Other recursion is structural.

    ** Assumptions

    Cryptographic digests and token decoding are parameters of the definitions that use them; what a
    theorem needs of them (no collision on the messages compared) is a hypothesis of that theorem.
    Strings are modelled byte-wise within ASCII: UTF-16 and case mapping outside ASCII are not. A
    response stream is the finite list of its decoded reads and the way it ends; [Promise.all] of
    independent reads is asked in order, and [CatalogServer.FetchAll] keeps the order of settling.

    ** Not modelled

    React components and pages (rendering), the browser-side fetch wrappers, the documentation
    texts, the Python backend, the SQL migrations, infrastructure and tests; of the route handlers,
    those not listed above. PROJECT.json lists them component by component. *)

From stdpp Require Export base tactics list option strings gmap.
From stdpp Require Export sorting.
From Stdlib Require Export ZArith Lia Sorting.Sorted.

#[export] Set Default Goal Selector "!".
#[export] Set Warnings "-clear-no-such-hyp,-register-all".

(** Hint databases of the library: [js] holds resolution hints for the JavaScript collections,
    [jsrw] their rewriting equations. *)
Create HintDb js.
Create Rewrite HintDb jsrw.

(** ** Booleans and decisions *)

(** Split every boolean connective and reflected test in sight. *)
Ltac bool_simpl :=
  repeat match goal with
  | H : _ && _ = true |- _ => apply andb_prop in H as [? ?]
  | H : _ || _ = false |- _ => apply orb_false_elim in H as [? ?]
  | H : negb _ = true |- _ => apply negb_true_iff in H
  | H : negb _ = false |- _ => apply negb_false_iff in H
  | H : bool_decide _ = true |- _ => apply bool_decide_eq_true in H
  | H : bool_decide _ = false |- _ => apply bool_decide_eq_false in H
  | H : Is_true _ |- _ => apply Is_true_true in H
  end.

(** Destruct the scrutinee of a [match] in the goal or in a hypothesis, keeping the equation. *)
Ltac split_match :=
  match goal with
  | |- context [match ?x with _ => _ end] => destruct x eqn:?
  | H : context [match ?x with _ => _ end] |- _ => destruct x eqn:?
  end.

(** Run a definition on every branch and close the branches by computation. *)
Ltac crush_branches :=
  repeat (split_match; simplify_eq/=); try done; try congruence.

(** ** Lists *)

Section lists.
Context {A B : Type}.

Lemma existsb_bool_decide (P : A -> Prop) `{forall x, Decision (P x)} (l : list A) :
  existsb (fun x => bool_decide (P x)) l = true <-> exists x, x ∈ l /\ P x.
Proof.
  rewrite existsb_exists. split; intros (x & Hin & Hx); exists x.
  - apply list_elem_of_In in Hin. by bool_simpl.
  - rewrite <- list_elem_of_In. by rewrite bool_decide_eq_true.
Qed.

(** [Array.prototype.find]. *)
Fixpoint find_first (f : A -> bool) (l : list A) : option A :=
  match l with
  | [] => None
  | x :: l' => if f x then Some x else find_first f l'
  end.

Lemma find_first_Some f l x :
  find_first f l = Some x ->
  exists pre post, l = pre ++ x :: post /\ f x = true /\ Forall (fun y => f y = false) pre.
Proof.
  induction l as [|y l IH]; intros H; simplify_eq/=. destruct (f y) eqn:Hy; simplify_eq.
  - by exists [], l.
  - destruct (IH H) as (pre & post & -> & Hx & Hpre). exists (y :: pre), post. by repeat constructor.
Qed.

Lemma find_first_elem f l x : find_first f l = Some x -> x ∈ l /\ f x = true.
Proof. intros (pre & post & -> & Hx & _)%find_first_Some. split; [set_solver|done]. Qed.

Lemma find_first_ext f g l : (forall x, f x = g x) -> find_first f l = find_first g l.
Proof. intros Hfg. induction l as [|x l IH]; simpl; [done|]. by rewrite Hfg, IH. Qed.

Lemma find_first_and f g l x : find_first g l = Some x -> f x = true ->
  find_first (fun y => f y && g y) l = Some x.
Proof.
  intros Hg Hf. induction l as [|y l IH]; simplify_eq/=. destruct (g y) eqn:Hy; simplify_eq.
  - by rewrite Hf.
  - rewrite andb_false_r. auto.
Qed.

Lemma find_first_None f l : find_first f l = None <-> Forall (fun y => f y = false) l.
Proof.
  induction l as [|y l IH]; simpl; [by split; constructor|].
  rewrite Forall_cons. destruct (f y) eqn:?; naive_solver.
Qed.

(** Left folds over a concatenation and over a filter. *)
Lemma foldl_filter (f : B -> A -> B) (P : A -> Prop) `{forall x, Decision (P x)} l b :
  foldl (fun b x => if decide (P x) then f b x else b) b l = foldl f b (filter P l).
Proof.
  revert b. induction l as [|x l IH]; intros b; simpl; [done|].
  rewrite IH, filter_cons. by case_decide.
Qed.

Lemma filter_none (P : A -> Prop) `{forall x, Decision (P x)} (l : list A) :
  (forall x, x ∈ l -> ~ P x) -> filter P l = [].
Proof.
  induction l as [|x l IH]; intros H'; [done|]. rewrite filter_cons.
  rewrite decide_False by (apply H'; left). apply IH. intros y Hy. apply H'. by right.
Qed.

Lemma Forall_snoc (P : A -> Prop) (l : list A) (x : A) : Forall P (l ++ [x]) <-> Forall P l /\ P x.
Proof. rewrite Forall_app, Forall_cons, Forall_nil. tauto. Qed.

Lemma StronglySorted_weaken (R R' : A -> A -> Prop) l :
  (forall x y, R x y -> R' x y) -> StronglySorted R l -> StronglySorted R' l.
Proof.
  intros HR. induction 1 as [|x l Hl IH Hx]; constructor; [done|].
  eapply Forall_impl; [exact Hx|]. auto.
Qed.

Lemma filter_every (P : A -> Prop) `{forall x, Decision (P x)} (l : list A) :
  (forall x, x ∈ l -> P x) -> filter P l = l.
Proof.
  induction l as [|x l IH]; intros H'; [done|]. rewrite filter_cons.
  rewrite decide_True by (apply H'; left). f_equal. apply IH. intros y Hy. apply H'. by right.
Qed.
End lists.

#[export] Hint Resolve find_first_elem : js.

(** Integer sums. *)
Definition sumZ (l : list Z) : Z := foldr Z.add 0%Z l.

Lemma sumZ_app l1 l2 : sumZ (l1 ++ l2) = (sumZ l1 + sumZ l2)%Z.
Proof. induction l1; simpl; lia. Qed.

Lemma sumZ_zeros {A} (l : list A) : sumZ (map (fun _ => 0%Z) l) = 0%Z.
Proof. induction l; simpl; lia. Qed.

Lemma sumZ_map_add {A} (f g : A -> Z) l :
  sumZ (map (fun x => f x + g x)%Z l) = (sumZ (map f l) + sumZ (map g l))%Z.
Proof. induction l; simpl; lia. Qed.

Lemma sumZ_map_ext_in {A} (f g : A -> Z) l :
  (forall x, x ∈ l -> f x = g x) -> sumZ (map f l) = sumZ (map g l).
Proof.
  induction l as [|x l IH]; intros H; simpl; [done|].
  rewrite (H x) by set_solver. rewrite IH; [done|]. intros y Hy. apply H. set_solver.
Qed.

Lemma sumZ_map_nonneg {A} (f : A -> Z) l :
  (forall x, x ∈ l -> 0 <= f x)%Z -> (0 <= sumZ (map f l))%Z.
Proof.
  induction l as [|x l IH]; intros H; simpl; [lia|].
  pose proof (H x ltac:(set_solver)). assert (0 <= sumZ (map f l))%Z; [|lia].
  apply IH. intros y Hy. apply H. set_solver.
Qed.

Lemma foldl_add_sumZ {A} (f : A -> Z) l a :
  foldl (fun s x => s + f x)%Z a l = (a + sumZ (map f l))%Z.
Proof. revert a. induction l as [|x l IH]; intros a; simpl; [lia|]. rewrite IH. lia. Qed.

#[export] Hint Rewrite sumZ_app @sumZ_zeros : jsrw.
