(* ===== verification/JsMap.v ===== *)
(** * JavaScript [Map] and [Set]: insertion-ordered association lists

    [new Map()], [m.get], [m.set], [m.has], [m.keys()], [m.values()] and [m.entries()] as the
    language defines them: a key keeps the position of its first insertion when it is set again.
    [to_gmap] relates a map to stdpp's [gmap], which forgets the order; [accumulate] is the
    source's idiom [map.set(k, f(map.get(k) ?? zero, x))] over a loop. *)

From S2P Require Import Prelude.

Section jsmap.
Context {K V : Type} `{EqDecision K}.
Implicit Types (m : list (K * V)) (k : K) (v : V).

Fixpoint mget m k : option V :=
  match m with
  | [] => None
  | (k', v) :: m' => if decide (k = k') then Some v else mget m' k
  end.

Definition mhas m k : bool := match mget m k with Some _ => true | None => false end.

Fixpoint mset m k v : list (K * V) :=
  match m with
  | [] => [(k, v)]
  | (k', v') :: m' => if decide (k = k') then (k', v) :: m' else (k', v') :: mset m' k v
  end.

(** [m.delete(k)]. *)
Definition mdelete m k : list (K * V) := filter (fun kv => kv.1 <> k) m.

Definition mkeys m : list K := map fst m.
Definition mvalues m : list V := map snd m.

(** A [Map] never holds a key twice. *)
Definition mwf m : Prop := NoDup (mkeys m).

Lemma mget_set_eq m k v : mget (mset m k v) k = Some v.
Proof. induction m as [|[k' v'] m IH]; simpl; repeat (case_decide; simpl); done || congruence. Qed.

Lemma mget_set_ne m k k' v : k <> k' -> mget (mset m k v) k' = mget m k'.
Proof.
  intros Hne. induction m as [|[k1 v1] m IH]; simpl; repeat (case_decide; simpl); congruence.
Qed.

Lemma mget_set m k k' v : mget (mset m k v) k' = if decide (k = k') then Some v else mget m k'.
Proof. case_decide; subst; auto using mget_set_eq, mget_set_ne. Qed.

Lemma mget_delete m k k' : mget (mdelete m k) k' = if decide (k = k') then None else mget m k'.
Proof.
  unfold mdelete. induction m as [|[k1 v1] m IH]; simpl; [by case_decide|]. rewrite filter_cons; simpl.
  repeat (case_decide; simpl); congruence.
Qed.

Lemma mget_None m k : mget m k = None <-> k ∉ mkeys m.
Proof.
  induction m as [|[k' v'] m IH]; simpl; [set_solver|].
  case_decide; set_solver.
Qed.

Lemma mget_Some_elem m k v : mget m k = Some v -> (k, v) ∈ m.
Proof. induction m as [|[k' v'] m IH]; simpl; [done|]. case_decide; simplify_eq; set_solver. Qed.

Lemma elem_get_Some m k v : mwf m -> (k, v) ∈ m -> mget m k = Some v.
Proof.
  unfold mwf. induction m as [|[k' v'] m IH]; simpl; intros Hwf Hin; [set_solver|].
  apply NoDup_cons in Hwf as [Hk' Hwf]. apply elem_of_cons in Hin as [?|Hin]; simplify_eq.
  - by rewrite decide_True.
  - rewrite decide_False; [by apply IH|]. intros ->. apply Hk'.
    apply list_elem_of_fmap. by exists (k', v).
Qed.

Lemma mkeys_set m k v : mkeys (mset m k v) = if mhas m k then mkeys m else mkeys m ++ [k].
Proof.
  unfold mhas. induction m as [|[k' v'] m IH]; simpl; [done|]. case_decide; simpl; [done|].
  rewrite IH. by destruct (mget m k).
Qed.

Lemma mwf_empty : mwf [].
Proof. constructor. Qed.

Lemma mwf_set m k v : mwf m -> mwf (mset m k v).
Proof.
  unfold mwf. rewrite mkeys_set. unfold mhas. destruct (mget m k) eqn:Hk; [done|].
  apply mget_None in Hk. intros Hwf. apply NoDup_app. split; [done|]. split; [set_solver|].
  apply NoDup_singleton.
Qed.

Lemma elem_keys_set m k k' v : k' ∈ mkeys (mset m k v) <-> k' = k \/ k' ∈ mkeys m.
Proof.
  rewrite mkeys_set. unfold mhas. destruct (mget m k) as [v'|] eqn:Hk; [|set_solver].
  apply mget_Some_elem in Hk. assert (k ∈ mkeys m) by (apply list_elem_of_fmap; by exists (k, v')).
  set_solver.
Qed.

Lemma mhas_keys m k : mhas m k = true <-> k ∈ mkeys m.
Proof.
  unfold mhas. destruct (mget m k) eqn:Hk.
  - split; [|done]. intros _. apply mget_Some_elem in Hk. apply list_elem_of_fmap. by eexists (_, _).
  - apply mget_None in Hk. done.
Qed.

(** The map a loop of [mset]s builds; [Array.from(new Map(pairs))] and [new Map(pairs)]. *)
Definition of_pairs (l : list (K * V)) : list (K * V) := foldl (fun m p => mset m p.1 p.2) [] l.

Lemma mwf_foldl_set {A} (f : A -> K) (g : list (K * V) -> A -> V) l m :
  mwf m -> mwf (foldl (fun m a => mset m (f a) (g m a)) m l).
Proof. revert m. induction l as [|a l IH]; intros m Hm; simpl; [done|]. by apply IH, mwf_set. Qed.

(** Pairs with distinct keys are kept as they are. *)
Lemma of_pairs_NoDup l : NoDup (mkeys l) -> of_pairs l = l.
Proof.
  unfold of_pairs. induction l as [|[k v] l IH] using rev_ind; intros Hnd; [done|].
  unfold mkeys in Hnd. rewrite map_app in Hnd. apply NoDup_app in Hnd as (Hl & Hk & _).
  rewrite foldl_app, IH by done. simpl.
  assert (mget l k = None) as Hn by (apply mget_None; intros Hin; by apply (Hk k Hin); left).
  clear -Hn. induction l as [|[k' v'] l IH]; simpl in *; [done|]. case_decide; [done|].
  by rewrite IH.
Qed.

Lemma mwf_of_pairs l : mwf (of_pairs l).
Proof. apply (mwf_foldl_set fst (fun _ p => p.2)), mwf_empty. Qed.
End jsmap.

#[export] Hint Resolve mwf_empty mwf_set mwf_of_pairs : js.
#[export] Hint Rewrite @mget_set_eq : jsrw.

(** Forgetting the order is a refinement of the finite map [gmap]. *)
Section to_gmap.
Context {K V : Type} `{Countable K}.

Definition to_gmap (m : list (K * V)) : gmap K V := list_to_map m.

Lemma to_gmap_get m k : to_gmap m !! k = mget m k.
Proof.
  unfold to_gmap. induction m as [|[k' v'] m IH]; simpl; [done|].
  case_decide; subst; [by rewrite lookup_insert_eq|]. by rewrite lookup_insert_ne.
Qed.

Lemma to_gmap_set m k v : to_gmap (mset m k v) = <[k := v]> (to_gmap m).
Proof.
  apply map_eq. intros k'. rewrite to_gmap_get, mget_set.
  case_decide; subst; [by rewrite lookup_insert_eq|]. by rewrite lookup_insert_ne, to_gmap_get.
Qed.
End to_gmap.

(** ** The accumulation loop [m.set(f(a), g(m.get(f(a)) ?? z, a))] *)
Section accumulate.
Context {A K V : Type} `{EqDecision K}.
Variables (f : A -> K) (g : V -> A -> V) (z : V).

Definition mstep (m : list (K * V)) (a : A) : list (K * V) :=
  mset m (f a) (g (default z (mget m (f a))) a).

Definition accumulate (l : list A) : list (K * V) := foldl mstep [] l.

Lemma mwf_accumulate l : mwf (accumulate l).
Proof.
  apply (mwf_foldl_set f (fun m a => g (default z (mget m (f a))) a)), mwf_empty.
Qed.

Lemma mget_foldl_step l m k :
  mget (foldl mstep m l) k =
    if bool_decide (k ∈ map f l)
    then Some (foldl g (default z (mget m k)) (filter (fun a => f a = k) l))
    else mget m k.
Proof.
  revert m. induction l as [|a l IH]; intros m; simpl; [done|].
  rewrite IH, filter_cons. unfold mstep. rewrite mget_set.
  destruct (decide (f a = k)) as [<-|Hne]; simpl.
  - rewrite (bool_decide_true (f a ∈ f a :: _)) by set_solver.
    case_bool_decide as Hin; [done|].
    rewrite filter_none; [done|]. intros a' Ha' Heq. apply Hin.
    rewrite <- Heq. by apply list_elem_of_fmap_2.
  - case_bool_decide; case_bool_decide; set_solver.
Qed.

(** Each key holds the fold of its own elements, in order; no other key is present. *)
Lemma mget_accumulate l k :
  mget (accumulate l) k =
    if bool_decide (k ∈ map f l) then Some (foldl g z (filter (fun a => f a = k) l)) else None.
Proof. apply mget_foldl_step. Qed.

Lemma mget_accumulate_default l k :
  default z (mget (accumulate l) k) = foldl g z (filter (fun a => f a = k) l).
Proof.
  rewrite mget_accumulate. case_bool_decide as Hin; [done|]. simpl.
  rewrite filter_none; [done|]. intros a Ha Heq. apply Hin.
  rewrite <- Heq. by apply list_elem_of_fmap_2.
Qed.

Lemma elem_keys_accumulate l k : k ∈ mkeys (accumulate l) <-> k ∈ map f l.
Proof.
  rewrite <- mhas_keys. unfold mhas. rewrite mget_accumulate. case_bool_decide; naive_solver.
Qed.
End accumulate.

#[export] Hint Resolve mwf_accumulate : js.

(** The key order does not depend on what is accumulated. *)
Lemma mkeys_accumulate {A K V W} `{EqDecision K} (f : A -> K) (g : V -> A -> V) (z : V)
    (g' : W -> A -> W) (z' : W) l :
  mkeys (accumulate f g z l) = mkeys (accumulate f g' z' l).
Proof.
  unfold accumulate. induction l as [|a l IH] using rev_ind; [done|].
  rewrite !foldl_app. cbn [foldl].
  set (m := foldl (mstep f g z) [] l) in *. set (m' := foldl (mstep f g' z') [] l) in *.
  unfold mstep. rewrite !mkeys_set, IH.
  assert (mhas m (f a) = mhas m' (f a)) as ->; [|done].
  apply Bool.eq_iff_eq_true. by rewrite !mhas_keys, IH.
Qed.

(** ** Sums over the entries of a map *)
Section sums.
Context {K V : Type} `{EqDecision K}.
Variable (w : V -> Z).

Lemma sumZ_values_set (m : list (K * V)) k v :
  mwf m ->
  sumZ (map w (mvalues (mset m k v))) =
    (sumZ (map w (mvalues m)) + w v - match mget m k with Some v0 => w v0 | None => 0 end)%Z.
Proof.
  unfold mwf, mvalues. induction m as [|[k' v'] m IH]; simpl; intros Hwf; [lia|].
  apply NoDup_cons in Hwf as [_ Hwf]. specialize (IH Hwf).
  case_decide; simpl; [lia|]. unfold mvalues in IH. rewrite IH. lia.
Qed.

(** An accumulation that adds [h a] to its own key adds up to the plain sum. *)
Lemma sumZ_values_accumulate {A} (f : A -> K) (g : V -> A -> V) (z : V) (h : A -> Z) l :
  w z = 0%Z -> (forall v a, w (g v a) = w v + h a)%Z ->
  sumZ (map w (mvalues (accumulate f g z l))) = sumZ (map h l).
Proof.
  intros Hz Hg. unfold accumulate.
  assert (forall m, mwf m -> sumZ (map w (mvalues (foldl (mstep f g z) m l))) =
    (sumZ (map w (mvalues m)) + sumZ (map h l))%Z) as Hgen; [|by rewrite Hgen; [|constructor]].
  induction l as [|a l IH]; intros m Hm; simpl; [lia|].
  rewrite IH by (by apply mwf_set). unfold mstep. rewrite sumZ_values_set by done.
  rewrite Hg. destruct (mget m (f a)); simpl; lia.
Qed.
End sums.

(** Reading a map over a list of distinct keys that covers it visits every entry once. *)
Lemma sumZ_covering {K} `{EqDecision K} (m : list (K * Z)) (l : list K) :
  mwf m -> NoDup l -> (forall k, k ∈ mkeys m -> k ∈ l) ->
  sumZ (map (fun k => default 0%Z (mget m k)) l) = sumZ (mvalues m).
Proof.
  unfold mwf, mvalues. induction m as [|[k v] m IH]; simpl; intros Hwf Hl Hsub.
  { apply sumZ_zeros. }
  apply NoDup_cons in Hwf as [Hk Hwf]. rewrite <- IH; [|done|done|set_solver].
  assert (k ∈ l) as Hkl by set_solver. clear IH Hwf Hsub.
  induction l as [|k' l IHl]; [set_solver|]. apply NoDup_cons in Hl as [Hk' Hl]. simpl.
  destruct (decide (k' = k)) as [->|Hne].
  - simpl. assert (mget m k = None) as -> by by apply mget_None. simpl.
    rewrite (sumZ_map_ext_in (fun k' => default 0%Z (if decide (k' = k) then Some v else mget m k'))
      (fun k' => default 0%Z (mget m k'))); [lia|].
    intros x Hx. rewrite decide_False; [done|]. by intros ->.
  - rewrite IHl; [lia|done|set_solver].
Qed.

(** ** [Array.from(new Set(l))]: the distinct elements, in order of first occurrence *)
Section js_set.
Context {K : Type} `{EqDecision K}.

Definition set_add (acc : list K) (x : K) : list K := if decide (x ∈ acc) then acc else acc ++ [x].

Definition js_set (l : list K) : list K := foldl set_add [] l.

Lemma elem_foldl_set_add l acc x : x ∈ foldl set_add acc l <-> x ∈ acc \/ x ∈ l.
Proof.
  revert acc. induction l as [|y l IH]; intros acc; simpl; [set_solver|].
  rewrite IH. unfold set_add. case_decide; set_solver.
Qed.

Lemma elem_js_set l x : x ∈ js_set l <-> x ∈ l.
Proof. unfold js_set. rewrite elem_foldl_set_add. set_solver. Qed.

Lemma NoDup_js_set l : NoDup (js_set l).
Proof.
  unfold js_set. assert (NoDup (@nil K)) as Hn by constructor. revert Hn.
  generalize (@nil K) as acc. induction l as [|y l IH]; intros acc Hn; simpl; [done|].
  apply IH. unfold set_add. case_decide; [done|].
  apply NoDup_app. split; [done|]. split; [set_solver|apply NoDup_singleton].
Qed.
End js_set.

(** A map filled from rows keyed by one of their fields holds rows under their own key. *)
Lemma mget_foldl_by_key {K V} `{EqDecision K} (f : V -> K) (l : list V) m k v :
  mget (foldl (fun m x => mset m (f x) x) m l) k = Some v ->
  (v ∈ l /\ f v = k) \/ mget m k = Some v.
Proof.
  revert m. induction l as [|x l IH]; intros m; simpl; [by right|].
  intros [[Hv Hk]|Hm]%IH; [left; set_solver|].
  rewrite mget_set in Hm. case_decide; simplify_eq; [left; set_solver|by right].
Qed.
