(* ===== verification/JsString.v ===== *)
(** * JavaScript strings

    The string operations the sources use, on [string]. A character stands for one code unit; the
    slices, searches and comparisons below are only applied to ASCII text (paths, identifiers,
    event lines, dates), where code units, bytes and characters coincide. Non-ASCII literals of
    the source are written as their UTF-8 bytes and are only concatenated or compared. *)

From S2P Require Import Prelude.
From Stdlib Require Export Ascii String.
(* stdpp and the Standard Library both name list operations: keep the list ones. *)
From stdpp Require Export list.

#[local] Open Scope Z_scope.
#[export] Set Warnings "-notation-overridden".

#[global] Arguments String.append : simpl nomatch.

(** The double quote and the line break, as characters. *)
Definition quote : ascii := ascii_of_nat 34.
Definition LF : ascii := ascii_of_nat 10.
Definition CR : ascii := ascii_of_nat 13.

(** ** Searching and slicing *)

(** [s.startsWith(p)]. *)
Fixpoint starts_with (p s : string) : bool :=
  match p, s with
  | EmptyString, _ => true
  | String a p', String b s' => bool_decide (a = b) && starts_with p' s'
  | _, EmptyString => false
  end.

(** [s.includes(p)]. *)
Fixpoint includes (p s : string) : bool :=
  starts_with p s || match s with EmptyString => false | String _ s' => includes p s' end.

(** [s.includes(c)] for one character. *)
Fixpoint includes_char (c : ascii) (s : string) : bool :=
  match s with
  | EmptyString => false
  | String a s' => bool_decide (a = c) || includes_char c s'
  end.

(** [s.slice(0, n)] and [s.slice(n)] for [0 <= n]. *)
Fixpoint str_take (n : nat) (s : string) : string :=
  match n, s with
  | S n', String a s' => String a (str_take n' s')
  | _, _ => EmptyString
  end.

Fixpoint str_drop (n : nat) (s : string) : string :=
  match n, s with
  | S n', String _ s' => str_drop n' s'
  | O, _ => s
  | _, EmptyString => EmptyString
  end.

(** [s.indexOf(c)] with the two sides of the first occurrence: what the callers slice out. *)
Fixpoint cut (c : ascii) (s : string) : option (string * string) :=
  match s with
  | EmptyString => None
  | String a s' =>
      if decide (a = c) then Some (EmptyString, s')
      else match cut c s' with Some (x, y) => Some (String a x, y) | None => None end
  end.

(** [s.split(c)]. *)
Fixpoint split_on (c : ascii) (s : string) : list string :=
  match s with
  | EmptyString => [EmptyString]
  | String a s' =>
      if decide (a = c) then EmptyString :: split_on c s'
      else match split_on c s' with
           | x :: xs => String a x :: xs
           | [] => [String a EmptyString]
           end
  end.

(** [l.join(sep)]. *)
Fixpoint join (sep : string) (l : list string) : string :=
  match l with
  | [] => EmptyString
  | [x] => x
  | x :: l' => x +:+ sep +:+ join sep l'
  end.

(** [s.replace(/c$/, "")]. *)
Fixpoint strip_last (c : ascii) (s : string) : string :=
  match s with
  | EmptyString => EmptyString
  | String a EmptyString => if decide (a = c) then EmptyString else s
  | String a s' => String a (strip_last c s')
  end.

(** [s.replace(/^c/, "")]. *)
Definition strip_first (c : ascii) (s : string) : string :=
  match s with
  | String a s' => if decide (a = c) then s' else s
  | EmptyString => EmptyString
  end.

(** White space of [String.prototype.trim], within ASCII. *)
Definition is_space (a : ascii) : bool :=
  let n := nat_of_ascii a in
  bool_decide ((9 <= n <= 13)%nat \/ n = 32%nat).

Fixpoint trim_start (s : string) : string :=
  match s with
  | String a s' => if is_space a then trim_start s' else s
  | EmptyString => EmptyString
  end.

Fixpoint trim_end (s : string) : string :=
  match s with
  | EmptyString => EmptyString
  | String a s' =>
      match trim_end s' with
      | EmptyString => if is_space a then EmptyString else String a EmptyString
      | t => String a t
      end
  end.

Definition trim (s : string) : string := trim_end (trim_start s).

(** [toLowerCase], within ASCII. *)
Definition lower_ascii (a : ascii) : ascii :=
  let n := nat_of_ascii a in
  if decide ((65 <= n <= 90)%nat) then ascii_of_nat (n + 32) else a.

Fixpoint to_lower (s : string) : string :=
  match s with
  | EmptyString => EmptyString
  | String a s' => String (lower_ascii a) (to_lower s')
  end.

(** A non-empty run of characters none of which is [c]: the regular expression [^[^c]+$]. *)
Definition nonempty_without (c : ascii) (s : string) : bool :=
  bool_decide (s <> EmptyString) && negb (includes_char c s).

(** JavaScript truthiness of a string. *)
Definition truthy (s : string) : bool := bool_decide (s <> EmptyString).

(** ** Lemmas *)

Lemma append_assoc a b c : (a +:+ b) +:+ c = a +:+ (b +:+ c).
Proof. induction a; simpl; congruence. Qed.

Lemma append_nil_r a : a +:+ EmptyString = a.
Proof. induction a; simpl; congruence. Qed.

Lemma starts_with_spec p s : starts_with p s = true <-> exists t, s = p +:+ t.
Proof.
  revert s. induction p as [|a p IH]; intros s; simpl.
  - split; [by exists s|done].
  - destruct s as [|b s]; [split; [done|by intros [t ?]]|].
    rewrite andb_true_iff, bool_decide_eq_true, IH. split.
    + intros [-> [t ->]]. by exists t.
    + intros [t Ht]. simplify_eq. eauto.
Qed.

Lemma starts_with_append p t : starts_with p (p +:+ t) = true.
Proof. apply starts_with_spec. eauto. Qed.

Lemma starts_with_refl p : starts_with p p = true.
Proof. rewrite <- (append_nil_r p) at 2. apply starts_with_append. Qed.

Lemma includes_char_append c a b :
  includes_char c (a +:+ b) = includes_char c a || includes_char c b.
Proof. induction a as [|x a IH]; simpl; [done|]. by rewrite IH, orb_assoc. Qed.

Lemma cut_Some c s x y :
  cut c s = Some (x, y) <-> s = x +:+ String c y /\ includes_char c x = false.
Proof.
  revert x y. induction s as [|a s IH]; intros x y; simpl.
  { split; [done|]. intros [Hs _]. by destruct x. }
  case_decide as Ha.
  - subst. split; [by intros [= <- <-]|]. intros [Hs Hx].
    destruct x as [|b x]; simplify_eq/=; [done|]. by rewrite bool_decide_true in Hx.
  - destruct (cut c s) as [[x' y']|] eqn:Hc.
    + split.
      * intros [= <- <-]. destruct (IH x' y') as [[-> Hx'] _]; [done|]. simpl.
        by rewrite bool_decide_false.
      * intros [Hs Hx]. destruct x as [|b x]; simplify_eq/=. bool_simpl.
        destruct (IH x y) as [_ Heq]. specialize (Heq ltac:(done)). by simplify_eq.
    + split; [done|]. intros [Hs Hx]. destruct x as [|b x]; simplify_eq/=. bool_simpl.
      destruct (IH x y) as [_ Heq]. by specialize (Heq ltac:(done)).
Qed.

Lemma cut_None c s : cut c s = None <-> includes_char c s = false.
Proof.
  induction s as [|a s IH]; simpl; [done|]. case_decide as Ha.
  - by rewrite bool_decide_true.
  - rewrite bool_decide_false by done. rewrite <- IH. by destruct (cut c s) as [[]|].
Qed.

Lemma cut_length c s x y : cut c s = Some (x, y) -> (String.length y < String.length s)%nat.
Proof.
  revert x. induction s as [|a s IH]; intros x; simpl; [done|].
  case_decide; [intros; simplify_eq; lia|].
  destruct (cut c s) as [[x' y']|]; [|done]. intros. simplify_eq. specialize (IH _ eq_refl). lia.
Qed.

Lemma length_append a b : String.length (a +:+ b) = (String.length a + String.length b)%nat.
Proof. induction a; simpl; lia. Qed.

Lemma append_inj_l a b c : a +:+ b = a +:+ c -> b = c.
Proof. induction a; simpl; intros; simplify_eq; auto. Qed.

Lemma append_inj_length a b c d :
  String.length a = String.length c -> a +:+ b = c +:+ d -> a = c /\ b = d.
Proof.
  revert c. induction a as [|x a IH]; intros [|y c] Hl H; simplify_eq/=; [done|].
  destruct (IH c) as [-> ->]; [lia|done|done].
Qed.

#[export] Hint Resolve starts_with_append starts_with_refl : js.
#[export] Hint Rewrite append_assoc append_nil_r includes_char_append : jsrw.

(** ** Lexicographic comparison, [a <= b] and [a < b] on strings *)

Definition str_le (a b : string) : bool :=
  match String.compare a b with Gt => false | _ => true end.
Definition str_lt (a b : string) : bool :=
  match String.compare a b with Lt => true | _ => false end.

Lemma ascii_compare_refl a : Ascii.compare a a = Eq.
Proof. unfold Ascii.compare. apply N.compare_refl. Qed.

Lemma str_compare_app a b c d :
  String.length a = String.length c ->
  String.compare (a +:+ b) (c +:+ d) =
    match String.compare a c with Eq => String.compare b d | r => r end.
Proof.
  revert c. induction a as [|x a IH]; intros [|y c] Hl; simplify_eq/=; [done|].
  destruct (Ascii.compare x y); [|done..]. apply IH. lia.
Qed.

Lemma str_compare_refl a : String.compare a a = Eq.
Proof. induction a as [|x a IH]; simpl; [done|]. by rewrite ascii_compare_refl. Qed.

(** The default comparator of [Array.prototype.sort] on strings, as a sign. *)
Definition str_cmp (a b : string) : Z :=
  match String.compare a b with Lt => -1 | Eq => 0 | Gt => 1 end.

Lemma ascii_compare_N a b : Ascii.compare a b = (N_of_ascii a ?= N_of_ascii b)%N.
Proof. done. Qed.

Lemma N_of_ascii_inj a b : N_of_ascii a = N_of_ascii b -> a = b.
Proof. intros H. by rewrite <- (ascii_N_embedding a), <- (ascii_N_embedding b), H. Qed.

Lemma str_compare_le_trans a b c :
  String.compare a b <> Gt -> String.compare b c <> Gt -> String.compare a c <> Gt.
Proof.
  revert b c. induction a as [|x a IH]; intros [|y b] [|z c]; simpl; try done.
  rewrite !ascii_compare_N. specialize (IH b c).
  destruct (N.compare_spec (N_of_ascii x) (N_of_ascii y));
    destruct (N.compare_spec (N_of_ascii y) (N_of_ascii z));
    destruct (N.compare_spec (N_of_ascii x) (N_of_ascii z)); auto; try lia; done.
Qed.

(** A nullable string that passes a truthiness test: neither absent nor empty. *)
Definition present (o : option string) : option string :=
  match o with Some s => if truthy s then Some s else None | None => None end.

Lemma present_Some o s : present o = Some s <-> o = Some s /\ s <> EmptyString.
Proof.
  unfold present, truthy. destruct o as [s'|]; [|naive_solver].
  case_bool_decide; naive_solver.
Qed.

(** Trimming a string without white space changes nothing. *)
Lemma trim_free s : (forall a, is_space a = true -> includes_char a s = false) -> trim s = s.
Proof.
  intros H. unfold trim. assert (trim_start s = s) as ->.
  { destruct s as [|a s]; [done|]. cbn. destruct (is_space a) eqn:Ha; [|done].
    specialize (H a Ha). cbn in H. by rewrite bool_decide_true in H. }
  induction s as [|a s IH]; [done|]. cbn. rewrite IH.
  - destruct s; [|done]. destruct (is_space a) eqn:Ha; [|done].
    specialize (H a Ha). cbn in H. by rewrite bool_decide_true in H.
  - intros b Hb. specialize (H b Hb). cbn in H. by bool_simpl.
Qed.

(** Trimming twice is trimming once. *)
Lemma trim_end_idem s : trim_end (trim_end s) = trim_end s.
Proof.
  induction s as [|a s IH]; [done|]. simpl. destruct (trim_end s) as [|b t] eqn:Ht.
  - destruct (is_space a) eqn:Ha; simpl; [done|]. by rewrite Ha.
  - simpl. simpl in IH. destruct (trim_end t) eqn:Ht2; [destruct (is_space b); [discriminate IH|by rewrite IH]|by rewrite IH].
Qed.

Lemma trim_start_idem s : trim_start (trim_start s) = trim_start s.
Proof. induction s as [|a s IH]; [done|]. simpl. destruct (is_space a) eqn:Ha; [done|]. simpl. by rewrite Ha. Qed.

Lemma trim_start_end s : trim_start s = s -> trim_start (trim_end s) = trim_end s.
Proof.
  destruct s as [|a s]; [done|]. simpl. destruct (is_space a) eqn:Ha.
  - intros H. exfalso. assert (String.length (trim_start s) <= String.length s)%nat as Hl.
    { clear. induction s as [|b s IH]; [done|]. simpl. destruct (is_space b); simpl; lia. }
    rewrite H in Hl. simpl in Hl. lia.
  - intros _. destruct (trim_end s); simpl; by rewrite Ha.
Qed.

Lemma trim_idem s : trim (trim s) = trim s.
Proof. unfold trim. rewrite (trim_start_end (trim_start s)), trim_end_idem; [done|]. apply trim_start_idem. Qed.

Lemma split_on_free c s : includes_char c s = false -> split_on c s = [s].
Proof.
  induction s as [|a s IH]; cbn [includes_char split_on]; intros H; [done|].
  bool_simpl. rewrite decide_False by done. by rewrite IH.
Qed.
