(* ===== verification/JsSort.v ===== *)
(** * [Array.prototype.sort]: the stable sort of the language

    A comparator returns a number of which only the sign is read. [sort] is an insertion sort; the
    characterisation at the end shows that any stable sorted rearrangement is the same list, so
    the choice of algorithm is not observable. [cmp_or] is the source's [a || b] on numbers. *)

From S2P Require Import Prelude JsString.
From Stdlib Require Import Sorting.Permutation Sorting.Sorted.

#[local] Open Scope Z_scope.

(** A consistent comparator, the precondition the language puts on [js_sort]'s argument. *)
Class Comparator {A} (cmp : A -> A -> Z) : Prop := {
  cmp_flip : forall x y, Z.sgn (cmp y x) = - Z.sgn (cmp x y);
  cmp_trans : forall x y z, cmp x y <= 0 -> cmp y z <= 0 -> cmp x z <= 0
}.

(** [x || y] on numbers: the left operand unless it is zero. *)
Definition cmp_or (a b : Z) : Z := if decide (a = 0) then b else a.

(** [(x, y) => x.f - y.f] and its reverse. *)
Definition by_key {A} (f : A -> Z) (x y : A) : Z := f x - f y.
Definition by_key_desc {A} (f : A -> Z) (x y : A) : Z := f y - f x.

#[export] Instance by_key_comparator {A} (f : A -> Z) : Comparator (by_key f).
Proof. unfold by_key. constructor; intros; lia. Qed.

#[export] Instance by_key_desc_comparator {A} (f : A -> Z) : Comparator (by_key_desc f).
Proof. unfold by_key_desc. constructor; intros; lia. Qed.

#[export] Instance cmp_or_comparator {A} (c1 c2 : A -> A -> Z) `{!Comparator c1, !Comparator c2} :
  Comparator (fun x y => cmp_or (c1 x y) (c2 x y)).
Proof.
  constructor.
  - intros x y. unfold cmp_or. pose proof (cmp_flip (cmp := c1) x y).
    pose proof (cmp_flip (cmp := c2) x y). repeat case_decide; lia.
  - intros x y z. unfold cmp_or.
    pose proof (cmp_flip (cmp := c1) x y). pose proof (cmp_flip (cmp := c1) y z).
    pose proof (cmp_flip (cmp := c1) x z).
    pose proof (cmp_trans (cmp := c1) x y z). pose proof (cmp_trans (cmp := c1) y z x).
    pose proof (cmp_trans (cmp := c1) z x y). pose proof (cmp_trans (cmp := c2) x y z).
    repeat case_decide; lia.
Qed.

#[export] Instance comparator_on {A B} (c : B -> B -> Z) (f : A -> B) `{!Comparator c} :
  Comparator (fun x y => c (f x) (f y)).
Proof.
  constructor; intros; [apply (cmp_flip (cmp := c))|].
  by apply (cmp_trans (cmp := c) _ (f y)).
Qed.

(** The default order of [sort()] on strings. *)
#[export] Instance str_cmp_comparator : Comparator str_cmp.
Proof.
  unfold str_cmp. constructor.
  - intros x y. rewrite (String.compare_antisym y x). by destruct (String.compare x y).
  - intros x y z. pose proof (str_compare_le_trans x y z).
    destruct (String.compare x y), (String.compare y z), (String.compare x z); naive_solver lia.
Qed.

Section js_sort.
Context {A : Type} (cmp : A -> A -> Z).

Fixpoint sort_insert (x : A) (l : list A) : list A :=
  match l with
  | [] => [x]
  | y :: l' => if decide (cmp x y <= 0) then x :: y :: l' else y :: sort_insert x l'
  end.

Definition js_sort (l : list A) : list A := foldr sort_insert [] l.

Lemma sort_insert_Permutation x l : sort_insert x l ≡ₚ x :: l.
Proof.
  induction l as [|y l IH]; simpl; [done|]. case_decide; [done|].
  rewrite IH. apply Permutation_swap.
Qed.

Lemma sort_Permutation l : js_sort l ≡ₚ l.
Proof. induction l as [|x l IH]; simpl; [done|]. by rewrite sort_insert_Permutation, IH. Qed.

Lemma elem_sort x l : x ∈ js_sort l <-> x ∈ l.
Proof. by rewrite sort_Permutation. Qed.

Lemma length_sort l : length (js_sort l) = length l.
Proof. by rewrite sort_Permutation. Qed.

Lemma sumZ_sort (w : A -> Z) l : sumZ (map w (js_sort l)) = sumZ (map w l).
Proof.
  induction l as [|x l IH]; simpl; [done|]. rewrite <- IH. generalize (js_sort l) as s.
  induction s as [|y s IHs]; simpl; [done|]. case_decide; simpl; lia.
Qed.

Context `{!Comparator cmp}.

Lemma cmp_refl x : cmp x x = 0.
Proof. pose proof (cmp_flip (cmp := cmp) x x). lia. Qed.

Lemma cmp_total x y : cmp x y <= 0 \/ cmp y x <= 0.
Proof. pose proof (cmp_flip (cmp := cmp) x y). lia. Qed.

Definition js_sorted (l : list A) : Prop := StronglySorted (fun x y => cmp x y <= 0) l.

Lemma sort_insert_sorted x l : js_sorted l -> js_sorted (sort_insert x l).
Proof.
  unfold js_sorted. induction 1 as [|y l Hl IH Hy]; simpl; [repeat constructor|].
  case_decide as Hxy; constructor; try done.
  - by constructor.
  - constructor; [done|]. eapply Forall_impl; [exact Hy|]. intros z Hz.
    by apply (cmp_trans (cmp := cmp) x y z).
  - rewrite sort_insert_Permutation. constructor; [|done]. destruct (cmp_total x y); lia.
Qed.

Lemma sort_sorted l : js_sorted (js_sort l).
Proof. induction l as [|x l IH]; simpl; [constructor|]. by apply sort_insert_sorted. Qed.

(** Stability: the elements that tie with [x] keep their relative order. *)
Definition ties (x : A) (l : list A) : list A := filter (fun y => cmp x y = 0) l.

Lemma sort_insert_ties z x l : js_sorted l -> ties z (sort_insert x l) = ties z (x :: l).
Proof.
  unfold ties, js_sorted. induction 1 as [|y l Hl IH Hy]; simpl; [done|].
  case_decide as Hxy; [done|]. rewrite filter_cons, IH, !filter_cons.
  pose proof (cmp_flip (cmp := cmp) x y). pose proof (cmp_flip (cmp := cmp) z x).
  pose proof (cmp_flip (cmp := cmp) z y). pose proof (cmp_trans (cmp := cmp) x z y).
  repeat case_decide; try done. lia.
Qed.

Lemma sort_stable x l : ties x (js_sort l) = ties x l.
Proof.
  induction l as [|y l IH]; simpl; [done|]. rewrite sort_insert_ties by apply sort_sorted.
  unfold ties in *. by rewrite !filter_cons, IH.
Qed.

Lemma ties_head x l : js_sorted (x :: l) -> ties x (x :: l) = x :: ties x l.
Proof. intros _. unfold ties. by rewrite filter_cons, decide_True by apply cmp_refl. Qed.

(** Any stable js_sorted rearrangement is [js_sort]'s result. *)
Lemma stable_sorted_unique l1 l2 :
  js_sorted l1 -> js_sorted l2 -> l1 ≡ₚ l2 -> (forall x, ties x l1 = ties x l2) -> l1 = l2.
Proof.
  unfold js_sorted. revert l2. induction l1 as [|x l1 IH]; intros l2 H1 H2 Hp Ht.
  { by apply Permutation_nil_l in Hp. }
  destruct l2 as [|y l2]; [by apply Permutation_nil_r in Hp|].
  assert (cmp x y = 0) as Hxy.
  { inversion H1 as [|? ? Hs1 Hx]. inversion H2 as [|? ? Hs2 Hy]. subst.
    assert (cmp x y <= 0).
    { assert (y ∈ x :: l1) as Hin by (rewrite Hp; left).
      apply elem_of_cons in Hin as [->|Hin]; [by rewrite cmp_refl|].
      rewrite Forall_forall in Hx. by apply Hx. }
    assert (cmp y x <= 0).
    { assert (x ∈ y :: l2) as Hin by (rewrite <- Hp; left).
      apply elem_of_cons in Hin as [->|Hin]; [by rewrite cmp_refl|].
      rewrite Forall_forall in Hy. by apply Hy. }
    pose proof (cmp_flip (cmp := cmp) x y). lia. }
  assert (x = y) as <-.
  { specialize (Ht x). unfold ties in Ht. rewrite !filter_cons in Ht.
    rewrite decide_True in Ht by apply cmp_refl. rewrite decide_True in Ht by done.
    by simplify_eq. }
  f_equal. apply IH.
  - by inversion H1.
  - by inversion H2.
  - by apply Permutation_cons_inv in Hp.
  - intros z. specialize (Ht z). unfold ties in *. rewrite !filter_cons in Ht.
    case_decide; by simplify_eq.
Qed.

(** The first element is minimal. *)
Lemma sort_head_le l x l' : js_sort l = x :: l' -> forall y, y ∈ l -> cmp x y <= 0.
Proof.
  intros Hs y Hy. apply elem_sort in Hy. pose proof (sort_sorted l) as Hsorted.
  rewrite Hs in Hy, Hsorted. unfold js_sorted in Hsorted.
  inversion Hsorted as [|? ? _ Hall]; subst.
  apply elem_of_cons in Hy as [->|Hy]; [by rewrite cmp_refl|].
  rewrite Forall_forall in Hall. by apply Hall.
Qed.
(** The element the order prefers, the earliest of those that tie, read without sorting. *)
Definition first_best (l : list A) : option A := find_first (fun x => forallb (fun y => cmp x y <=? 0) l) l.

Lemma forallb_le x l : forallb (fun y => cmp x y <=? 0) l = true <-> forall y, y ∈ l -> cmp x y <= 0.
Proof. rewrite forallb_forall. setoid_rewrite <- list_elem_of_In. by setoid_rewrite Z.leb_le. Qed.

Lemma head_insert x l : head (sort_insert x l) =
  Some match l with [] => x | y :: _ => if decide (cmp x y <= 0) then x else y end.
Proof. destruct l; simpl; [done|]. by case_decide. Qed.

Lemma first_best_elem l x : first_best l = Some x -> x ∈ l /\ forall y, y ∈ l -> cmp x y <= 0.
Proof. intros [Hx Hall]%find_first_elem. by rewrite forallb_le in Hall. Qed.

Lemma head_sort l : head (js_sort l) = first_best l.
Proof.
  induction l as [|x l IH]; [done|]. simpl. rewrite head_insert. unfold first_best. simpl.
  assert ((cmp x x <=? 0) = true) as -> by (pose proof (cmp_refl x); lia). simpl.
  destruct (js_sort l) as [|h s] eqn:Hs.
  { assert (l = []) as -> by (apply nil_length_inv; by rewrite <- length_sort, Hs). done. }
  simpl in IH. symmetry in IH. destruct (first_best_elem _ _ IH) as [Hh Hmin].
  case_decide as Hxh.
  - assert (forallb (fun y => cmp x y <=? 0) l = true) as ->; [|done].
    apply forallb_le. intros y Hy. apply (cmp_trans (cmp := cmp) x h y); auto.
  - destruct (forallb _ l) eqn:Hx; [rewrite forallb_le in Hx; by apply Hx in Hh|].
    symmetry. apply (find_first_and (fun y => cmp y x <=? 0)); [done|]. destruct (cmp_total x h); lia.
Qed.

(** Repeating elements in place changes nothing. *)
Lemma first_best_repeat (n : A -> nat) l : (forall x, x ∈ l -> n x <> 0%nat) ->
  first_best (flat_map (fun x => repeat x (n x)) l) = first_best l.
Proof.
  intros Hn. unfold first_best. set (big := flat_map _ l).
  assert (forall x, forallb (fun y => cmp x y <=? 0) big = forallb (fun y => cmp x y <=? 0) l) as Hall.
  { intros x. apply Bool.eq_iff_eq_true. rewrite !forallb_le. apply forall_proper. intros y.
    assert (y ∈ big <-> y ∈ l) as ->; [|done]. unfold big. rewrite list_elem_of_In, in_flat_map.
    setoid_rewrite <- list_elem_of_In. split.
    - intros (z & Hz & Hy). apply list_elem_of_In in Hy. by apply repeat_spec in Hy as ->.
    - intros Hy. exists y. specialize (Hn y Hy). destruct (n y); [done|]. split; [done|left]. }
  rewrite (find_first_ext _ _ big Hall). generalize (fun x => forallb (fun y => cmp x y <=? 0) l) as f.
  unfold big. clear big Hall. intros f. induction l as [|x l IH]; simpl; [done|].
  rewrite <- IH by (intros y Hy; apply Hn; by right). specialize (Hn x ltac:(left)).
  destruct (f x) eqn:Hf.
  - destruct (n x); [done|]. simpl. by rewrite Hf.
  - clear Hn. induction (n x) as [|k IHk]; simpl; [done|]. by rewrite Hf.
Qed.
End js_sort.

#[export] Hint Resolve sort_sorted sort_Permutation : js.
