(* ===== verification/JsDate.v ===== *)
(** * JavaScript dates, in UTC

    The proleptic Gregorian calendar as the language specifies it (DayFromYear, YearFromTime,
    MakeDay), the ten-character day strings [YYYY-MM-DD] that [toISOString().slice(0, 10)] makes
    and [new Date(`${day}T00:00:00Z`)] reads, and the full [toISOString]. A day is its number
    since 1970-01-01. The round trips hold for every valid calendar day of the years 0 to 9999,
    where day strings have four year digits; [day_le_iff] is the fact every range test of the
    sources rests on: day strings compare like the days they name. *)

From S2P Require Import Prelude JsString.

#[local] Open Scope Z_scope.
(* Let [lia] reason about quotients and remainders by constants. *)
#[local] Ltac Zify.zify_post_hook ::= Z.to_euclidean_division_equations.

(** ** Fixed-width decimal numbers *)

Definition digit (n : Z) : ascii := ascii_of_N (Z.to_N (48 + n)).

Fixpoint pad (w : nat) (n : Z) : string :=
  match w with
  | O => EmptyString
  | S w' => pad w' (n / 10) +:+ String (digit (n mod 10)) EmptyString
  end.

Definition digit_value (a : ascii) : option Z :=
  let n := Z.of_N (N_of_ascii a) - 48 in
  if decide (0 <= n <= 9) then Some n else None.

Lemma N_of_digit n : 0 <= n <= 9 -> N_of_ascii (digit n) = Z.to_N (48 + n).
Proof. intros Hn. unfold digit. apply N_ascii_embedding. lia. Qed.

Lemma digit_value_digit n : 0 <= n <= 9 -> digit_value (digit n) = Some n.
Proof.
  intros Hn. unfold digit_value. rewrite N_of_digit by done.
  rewrite decide_True by lia. f_equal. lia.
Qed.

Lemma digit_of_value a n : digit_value a = Some n -> digit n = a.
Proof.
  unfold digit_value, digit. case_decide; intros ?; simplify_eq.
  rewrite <- (ascii_N_embedding a) at 2. f_equal. lia.
Qed.

Lemma digit_value_range a n : digit_value a = Some n -> 0 <= n <= 9.
Proof. unfold digit_value. case_decide; intros; simplify_eq. lia. Qed.

Lemma digit_compare a b :
  0 <= a <= 9 -> 0 <= b <= 9 -> Ascii.compare (digit a) (digit b) = (a ?= b).
Proof.
  intros Ha Hb. unfold Ascii.compare. rewrite !N_of_digit by done.
  rewrite Z2N.inj_compare by lia. apply Zcompare_plus_compat.
Qed.

Lemma length_pad w n : String.length (pad w n) = w.
Proof.
  revert n. induction w as [|w IH]; intros n; simpl; [done|].
  rewrite length_append, IH. simpl. lia.
Qed.

Ltac pad_lia :=
  change (10 ^ Z.of_nat 2) with 100 in *; change (10 ^ Z.of_nat 3) with 1000 in *;
  change (10 ^ Z.of_nat 4) with 10000 in *; lia.

(** Numbers of the same width compare like their digits. *)
Lemma pad_compare w a b :
  0 <= a < 10 ^ Z.of_nat w -> 0 <= b < 10 ^ Z.of_nat w ->
  String.compare (pad w a) (pad w b) = (a ?= b).
Proof.
  revert a b. induction w as [|w IH]; intros a b Ha Hb.
  { simpl in *. assert (a = 0) as -> by lia. by assert (b = 0) as -> by lia. }
  rewrite Nat2Z.inj_succ, Z.pow_succ_r in Ha, Hb by lia. cbn [pad].
  specialize (IH (a / 10) (b / 10)). generalize dependent (10 ^ Z.of_nat w). intros p IH Ha Hb.
  rewrite str_compare_app by by rewrite !length_pad. rewrite IH by lia. simpl.
  rewrite digit_compare by lia.
  destruct (Z.compare_spec (a / 10) (b / 10)); [|symmetry; apply Z.compare_lt_iff; lia
    |symmetry; apply Z.compare_gt_iff; lia].
  destruct (Z.compare_spec (a mod 10) (b mod 10)); symmetry;
    [apply Z.compare_eq_iff|apply Z.compare_lt_iff|apply Z.compare_gt_iff]; lia.
Qed.

(** ** The calendar *)

Definition is_leap (y : Z) : bool :=
  bool_decide (y mod 4 = 0 /\ (y mod 100 <> 0 \/ y mod 400 = 0)).

Definition leap_day (y : Z) : Z := if is_leap y then 1 else 0.

(** DayFromYear: the day number of January 1st. *)
Definition day_from_year (y : Z) : Z :=
  365 * (y - 1970) + (y - 1969) / 4 - (y - 1901) / 100 + (y - 1601) / 400.

Lemma day_from_year_succ y : day_from_year (y + 1) = day_from_year y + 365 + leap_day y.
Proof. unfold day_from_year, leap_day, is_leap. case_bool_decide; lia. Qed.

(** YearFromTime: an estimate from the mean year length, corrected by at most one. *)
Definition year_from_day (d : Z) : Z :=
  let y := 1970 + 400 * d / 146097 in
  if decide (d < day_from_year y) then y - 1
  else if decide (day_from_year (y + 1) <= d) then y + 1 else y.

Lemma year_from_day_spec d :
  day_from_year (year_from_day d) <= d < day_from_year (year_from_day d + 1).
Proof. unfold year_from_day. repeat case_decide; unfold day_from_year in *; lia. Qed.

(** Days before each month of a year. *)
Definition month_start (leap : Z) (m : Z) : Z :=
  match m with
  | 1 => 0 | 2 => 31 | 3 => 59 + leap | 4 => 90 + leap | 5 => 120 + leap | 6 => 151 + leap
  | 7 => 181 + leap | 8 => 212 + leap | 9 => 243 + leap | 10 => 273 + leap | 11 => 304 + leap
  | 12 => 334 + leap | _ => 365 + leap
  end.

Definition days_in_month (leap m : Z) : Z := month_start leap (m + 1) - month_start leap m.

(** MonthFromTime, from the day within the year. *)
Definition month_of (leap : Z) (doy : Z) : Z :=
  if decide (doy < 31) then 1 else if decide (doy < 59 + leap) then 2
  else if decide (doy < 90 + leap) then 3 else if decide (doy < 120 + leap) then 4
  else if decide (doy < 151 + leap) then 5 else if decide (doy < 181 + leap) then 6
  else if decide (doy < 212 + leap) then 7 else if decide (doy < 243 + leap) then 8
  else if decide (doy < 273 + leap) then 9 else if decide (doy < 304 + leap) then 10
  else if decide (doy < 334 + leap) then 11 else 12.

Record civil := Civil { cy : Z; cm : Z; cd : Z }.

Definition civil_of_day (d : Z) : civil :=
  let y := year_from_day d in
  let doy := d - day_from_year y in
  let m := month_of (leap_day y) doy in
  Civil y m (doy - month_start (leap_day y) m + 1).

(** MakeDay: the day of the month may lie outside the month, which carries. *)
Definition make_day (y m dt : Z) : Z := day_from_year y + month_start (leap_day y) m + dt - 1.

Definition valid_civil (c : civil) : Prop :=
  1 <= cm c <= 12 /\ 1 <= cd c <= days_in_month (leap_day (cy c)) (cm c).

Lemma leap_day_range y : 0 <= leap_day y <= 1.
Proof. unfold leap_day. case_match; lia. Qed.

Ltac month_cases m :=
  assert (m = 1 \/ m = 2 \/ m = 3 \/ m = 4 \/ m = 5 \/ m = 6 \/ m = 7 \/ m = 8 \/ m = 9 \/ m = 10
    \/ m = 11 \/ m = 12) as Hmonth by lia;
  repeat (destruct Hmonth as [->|Hmonth] || subst m).

Lemma month_of_spec leap doy :
  0 <= leap <= 1 -> 0 <= doy < 365 + leap ->
  let m := month_of leap doy in
  1 <= m <= 12 /\ month_start leap m <= doy < month_start leap (m + 1).
Proof. intros Hl Hd. unfold month_of. repeat case_decide; simpl; lia. Qed.

Lemma month_of_unique leap doy m :
  0 <= leap <= 1 -> 1 <= m <= 12 -> month_start leap m <= doy < month_start leap (m + 1) ->
  month_of leap doy = m.
Proof. intros Hl Hm Hd. month_cases m; simpl in Hd; unfold month_of; repeat case_decide; lia. Qed.

Lemma civil_of_day_valid d : valid_civil (civil_of_day d).
Proof.
  pose proof (year_from_day_spec d) as Hy. rewrite day_from_year_succ in Hy.
  pose proof (leap_day_range (year_from_day d)).
  destruct (month_of_spec (leap_day (year_from_day d)) (d - day_from_year (year_from_day d)))
    as [Hm Hs]; [lia|lia|].
  unfold valid_civil, civil_of_day, days_in_month. simpl. lia.
Qed.

Lemma make_day_civil d : make_day (cy (civil_of_day d)) (cm (civil_of_day d)) (cd (civil_of_day d)) = d.
Proof. unfold make_day, civil_of_day. simpl. lia. Qed.

Lemma day_from_year_mono y y' : y <= y' -> day_from_year y <= day_from_year y'.
Proof. unfold day_from_year. lia. Qed.

Lemma year_from_day_unique d y : day_from_year y <= d < day_from_year (y + 1) -> year_from_day d = y.
Proof.
  intros Hd. pose proof (year_from_day_spec d).
  destruct (Z.lt_trichotomy (year_from_day d) y) as [Hlt|[->|Hlt]]; [|done|].
  - pose proof (day_from_year_mono (year_from_day d + 1) y). lia.
  - pose proof (day_from_year_mono (y + 1) (year_from_day d)). lia.
Qed.

Lemma month_start_range leap m : 0 <= leap <= 1 -> 1 <= m <= 12 -> 
  0 <= month_start leap m /\ month_start leap (m + 1) <= 365 + leap.
Proof. intros Hl Hm. month_cases m; simpl; lia. Qed.

(** Every valid date is found again from its day number. *)
Lemma civil_of_make_day c : valid_civil c -> civil_of_day (make_day (cy c) (cm c) (cd c)) = c.
Proof.
  destruct c as [y m dt]. unfold valid_civil, days_in_month. simpl. intros [Hm Hd].
  pose proof (leap_day_range y). pose proof (month_start_range (leap_day y) m ltac:(done) Hm).
  assert (year_from_day (make_day y m dt) = y) as Hy.
  { apply year_from_day_unique. rewrite day_from_year_succ. unfold make_day. lia. }
  unfold civil_of_day. rewrite Hy.
  assert (month_of (leap_day y) (make_day y m dt - day_from_year y) = m) as ->.
  { apply month_of_unique; [done|done|]. unfold make_day. lia. }
  f_equal. unfold make_day. lia.
Qed.

(** Chronological order of dates. *)
Definition civil_compare (a b : civil) : comparison :=
  match cy a ?= cy b with
  | Eq => match cm a ?= cm b with Eq => cd a ?= cd b | r => r end
  | r => r
  end.

Lemma month_start_mono leap m m' :
  0 <= leap <= 1 -> 1 <= m -> m < m' -> m' <= 12 -> month_start leap (m + 1) <= month_start leap m'.
Proof. intros Hl H1 H2 H3. month_cases m; month_cases m'; simpl; lia. Qed.

Lemma make_day_lt a b :
  valid_civil a -> valid_civil b -> civil_compare a b = Lt ->
  make_day (cy a) (cm a) (cd a) < make_day (cy b) (cm b) (cd b).
Proof.
  destruct a as [y m d], b as [y' m' d']. unfold valid_civil, civil_compare, make_day, days_in_month.
  simpl. intros [Hm Hd] [Hm' Hd'].
  pose proof (leap_day_range y). pose proof (leap_day_range y').
  pose proof (month_start_range (leap_day y) m ltac:(done) Hm).
  pose proof (month_start_range (leap_day y') m' ltac:(done) Hm').
  destruct (Z.compare_spec y y') as [->|Hlt|]; [|intros _|done].
  - destruct (Z.compare_spec m m') as [->|Hlt|]; [|intros _|done].
    + rewrite Z.compare_lt_iff. lia.
    + pose proof (month_start_mono (leap_day y') m m'). lia.
  - pose proof (day_from_year_mono (y + 1) y'). rewrite day_from_year_succ in *. lia.
Qed.

Lemma civil_compare_flip a b : civil_compare b a = CompOpp (civil_compare a b).
Proof.
  unfold civil_compare. rewrite (Z.compare_antisym (cy a)). destruct (cy a ?= cy b); simpl; try done.
  rewrite (Z.compare_antisym (cm a)). destruct (cm a ?= cm b); simpl; try done.
  by rewrite (Z.compare_antisym (cd a)).
Qed.

Lemma civil_compare_eq a b : civil_compare a b = Eq -> a = b.
Proof.
  destruct a, b. unfold civil_compare. simpl.
  repeat match goal with |- context [?x ?= ?y] => destruct (Z.compare_spec x y) end; congruence.
Qed.

Lemma civil_compare_day d d' : civil_compare (civil_of_day d) (civil_of_day d') = (d ?= d').
Proof.
  pose proof (civil_of_day_valid d) as Hv. pose proof (civil_of_day_valid d') as Hv'.
  pose proof (make_day_civil d) as Hd. pose proof (make_day_civil d') as Hd'.
  pose proof (make_day_lt _ _ Hv Hv'). pose proof (make_day_lt _ _ Hv' Hv).
  pose proof (civil_compare_flip (civil_of_day d) (civil_of_day d')) as Hf.
  destruct (civil_compare (civil_of_day d) (civil_of_day d')) eqn:Hc; symmetry.
  - apply civil_compare_eq in Hc. rewrite Hc in *. apply Z.compare_eq_iff. lia.
  - apply Z.compare_lt_iff. lia.
  - apply Z.compare_gt_iff. simpl in Hf. lia.
Qed.

(** ** Day strings *)

(** The year of [toISOString]: four digits from 0 to 9999, a sign and six digits outside. *)
Definition year_string (y : Z) : string :=
  if decide (0 <= y <= 9999) then pad 4 y
  else (if decide (y < 0) then "-" else "+")%string +:+ pad 6 (Z.abs y).

Definition date_string (c : civil) : string :=
  year_string (cy c) +:+ "-"%string +:+ pad 2 (cm c) +:+ "-"%string +:+ pad 2 (cd c).

(** [toISOString().slice(0, 10)] of midnight of a day. *)
Definition day_string (d : Z) : string := str_take 10 (date_string (civil_of_day d)).

(** [toISOString()] of a time in milliseconds. *)
Definition iso_string (ms : Z) : string :=
  let t := ms mod 86400000 in
  date_string (civil_of_day (ms / 86400000)) +:+ "T"%string +:+ pad 2 (t / 3600000) +:+ ":"%string
    +:+ pad 2 (t / 60000 mod 60) +:+ ":"%string +:+ pad 2 (t / 1000 mod 60) +:+ "."%string
    +:+ pad 3 (t mod 1000) +:+ "Z"%string.

Fixpoint digits_value (acc : Z) (l : list ascii) : option Z :=
  match l with
  | [] => Some acc
  | a :: l' => match digit_value a with Some n => digits_value (10 * acc + n) l' | None => None end
  end.

(** [new Date(`${s}T00:00:00Z`)] for a [YYYY-MM-DD] string naming a calendar day; other strings
    (an invalid date) give [None]. *)
Definition parse_day (s : string) : option Z :=
  match list_ascii_of_string s with
  | [a; b; c; d; s1; e; f; s2; g; h] =>
      y ← digits_value 0 [a; b; c; d]; m ← digits_value 0 [e; f]; dd ← digits_value 0 [g; h];
      if decide (s1 = "-"%char /\ s2 = "-"%char /\ 1 <= m <= 12 /\ 1 <= dd <= days_in_month (leap_day y) m)
      then Some (make_day y m dd) else None
  | _ => None
  end.

(** ** Timestamps *)

(** Two digits in a range, then the rest. *)
Definition two_digits (lo hi : Z) (s : string) : option (Z * string) :=
  match s with
  | String a (String b s') =>
      n ← digits_value 0 [a; b]; if decide (lo <= n <= hi) then Some (n, s') else None
  | _ => None
  end.

Definition expect (c : ascii) (s : string) : option string :=
  match s with String a s' => if decide (a = c) then Some s' else None | _ => None end.

(** The digits of a fraction of a second: the milliseconds they begin with, and the rest. *)
Fixpoint fraction_ms (weight ms : Z) (s : string) : Z * string :=
  match s with
  | String a s' =>
      match digit_value a with
      | Some n => fraction_ms (weight / 10) (ms + weight * n) s'
      | None => (ms, s)
      end
  | EmptyString => (ms, s)
  end.

(** The offset a timestamp ends with, in minutes. *)
Definition zone_minutes (s : string) : option Z :=
  match s with
  | String "Z" EmptyString => Some 0
  | String sign s' =>
      if decide (sign = "+"%char \/ sign = "-"%char) then
        '(h, s1) ← two_digits 0 23 s'; s2 ← expect ":" s1; '(m, s3) ← two_digits 0 59 s2;
        if decide (s3 = EmptyString)
        then Some (if decide (sign = "-"%char) then - (60 * h + m) else 60 * h + m) else None
      else None
  | EmptyString => None
  end.

(** [new Date(s).getTime()] of a timestamp [YYYY-MM-DDTHH:MM:SS(.fraction)(Z|+HH:MM|-HH:MM)], in
    milliseconds; other strings (an invalid date, whose time is [NaN]) give [None]. *)
Definition parse_timestamp (s : string) : option Z :=
  day ← parse_day (str_take 10 s);
  s1 ← expect "T" (str_drop 10 s);
  '(h, s2) ← two_digits 0 23 s1; s3 ← expect ":" s2;
  '(m, s4) ← two_digits 0 59 s3; s5 ← expect ":" s4;
  '(sec, s6) ← two_digits 0 59 s5;
  let '(ms, s7) := match expect "." s6 with Some s' => fraction_ms 100 0 s' | None => (0, s6) end in
  zone ← zone_minutes s7;
  Some (86400000 * day + 3600000 * h + 60000 * (m - zone) + 1000 * sec + ms).

Example parse_timestamp_examples :
  map parse_timestamp ["1970-01-01T00:00:00Z"; "2024-02-29T12:34:56.789123+00:00";
    "2024-02-29T12:34:56.5-01:30"; "2024-02-30T00:00:00Z"; "yesterday"] =
  [Some 0; Some 1709210096789; Some 1709215496500; None; None].
Proof. vm_compute. reflexivity. Qed.

(** The days whose strings have four year digits. *)
Definition day_ok (d : Z) : Prop := 0 <= year_from_day d <= 9999.

#[export] Instance day_ok_dec d : Decision (day_ok d).
Proof. unfold day_ok. apply _. Defined.

Lemma day_ok_iff d : day_ok d <-> day_from_year 0 <= d < day_from_year 10000.
Proof.
  unfold day_ok. pose proof (year_from_day_spec d) as Hy. split.
  - intros Ho. pose proof (day_from_year_mono 0 (year_from_day d)).
    pose proof (day_from_year_mono (year_from_day d + 1) 10000). lia.
  - intros Hd. split.
    + destruct (decide (0 <= year_from_day d)); [done|].
      pose proof (day_from_year_mono (year_from_day d + 1) 0). lia.
    + destruct (decide (year_from_day d <= 9999)); [done|].
      pose proof (day_from_year_mono 10000 (year_from_day d)). lia.
Qed.

Lemma day_ok_between a b d : day_ok a -> day_ok b -> a <= d <= b -> day_ok d.
Proof. rewrite !day_ok_iff. lia. Qed.

Lemma day_ok_civil d : day_ok d -> 0 <= cy (civil_of_day d) <= 9999.
Proof. done. Qed.

Lemma days_in_month_le leap m : 0 <= leap <= 1 -> 1 <= m <= 12 -> days_in_month leap m <= 31.
Proof. intros Hl Hm. unfold days_in_month. month_cases m; simpl; lia. Qed.

Lemma civil_bounds d : 1 <= cm (civil_of_day d) <= 12 /\ 1 <= cd (civil_of_day d) <= 31.
Proof.
  pose proof (civil_of_day_valid d) as [Hm Hd].
  pose proof (days_in_month_le _ _ (leap_day_range (cy (civil_of_day d))) Hm). lia.
Qed.

Lemma day_string_ok d :
  day_ok d ->
  day_string d = pad 4 (cy (civil_of_day d)) +:+ "-"%string +:+ pad 2 (cm (civil_of_day d))
    +:+ "-"%string +:+ pad 2 (cd (civil_of_day d)).
Proof.
  intros Hd. unfold day_string, date_string, year_string. rewrite decide_True by exact Hd.
  reflexivity.
Qed.

(** Day strings compare like the days they name. *)
Lemma day_compare d d' :
  day_ok d -> day_ok d' -> String.compare (day_string d) (day_string d') = (d ?= d').
Proof.
  intros Hd Hd'. rewrite !day_string_ok by done. rewrite <- civil_compare_day.
  pose proof (civil_bounds d). pose proof (civil_bounds d').
  pose proof (day_ok_civil d Hd). pose proof (day_ok_civil d' Hd').
  unfold civil_compare.
  rewrite str_compare_app by by rewrite !length_pad. rewrite pad_compare by pad_lia.
  destruct (cy _ ?= cy _); try done.
  rewrite (str_compare_app "-" _ "-") by done. rewrite str_compare_refl.
  rewrite str_compare_app by by rewrite !length_pad. rewrite pad_compare by pad_lia.
  destruct (cm _ ?= cm _); try done.
  rewrite (str_compare_app "-" _ "-") by done. rewrite str_compare_refl.
  rewrite pad_compare by pad_lia. done.
Qed.

Lemma day_le_iff d d' : day_ok d -> day_ok d' -> str_le (day_string d) (day_string d') = bool_decide (d <= d').
Proof.
  intros Hd Hd'. unfold str_le. rewrite day_compare by done.
  destruct (Z.compare_spec d d'); case_bool_decide; lia || done.
Qed.

Lemma day_string_inj d d' : day_ok d -> day_ok d' -> day_string d = day_string d' -> d = d'.
Proof.
  intros Hd Hd' He. pose proof (day_compare d d' Hd Hd') as Hc.
  rewrite He, str_compare_refl in Hc. symmetry in Hc. by apply Z.compare_eq_iff in Hc.
Qed.

Lemma list_ascii_app a b :
  list_ascii_of_string (a +:+ b) = list_ascii_of_string a ++ list_ascii_of_string b.
Proof. induction a; simpl; congruence. Qed.

Lemma digits_value_app acc l1 l2 :
  digits_value acc (l1 ++ l2) = match digits_value acc l1 with Some v => digits_value v l2 | None => None end.
Proof. revert acc. induction l1 as [|a l1 IH]; intros acc; simpl; [done|]. by destruct (digit_value a). Qed.

Lemma digits_value_pad w n acc :
  0 <= n < 10 ^ Z.of_nat w ->
  digits_value acc (list_ascii_of_string (pad w n)) = Some (acc * 10 ^ Z.of_nat w + n).
Proof.
  revert n acc. induction w as [|w IH]; intros n acc Hn.
  { simpl in *. f_equal. lia. }
  rewrite Nat2Z.inj_succ, Z.pow_succ_r in Hn |- * by lia. cbn [pad].
  rewrite list_ascii_app, digits_value_app. specialize (IH (n / 10) acc).
  generalize dependent (10 ^ Z.of_nat w). intros p IH Hn. rewrite IH by lia. simpl.
  rewrite digit_value_digit by lia. f_equal.
  replace (acc * (10 * p)) with (10 * (acc * p)) by ring. generalize (acc * p). lia.
Qed.

(** Reading back the string of a day gives the day. *)
Lemma parse_day_string d : day_ok d -> parse_day (day_string d) = Some d.
Proof.
  intros Hd. pose proof (civil_bounds d). pose proof (day_ok_civil d Hd).
  rewrite day_string_ok by done. unfold parse_day. rewrite !list_ascii_app.
  pose proof (digits_value_pad 4 (cy (civil_of_day d)) 0 ltac:(pad_lia)) as Hy.
  pose proof (digits_value_pad 2 (cm (civil_of_day d)) 0 ltac:(pad_lia)) as Hm.
  pose proof (digits_value_pad 2 (cd (civil_of_day d)) 0 ltac:(pad_lia)) as Hdd.
  cbn [pad list_ascii_of_string app String.append] in *.
  rewrite Hy, Hm, Hdd. cbn [mbind option_bind]. rewrite !Z.mul_0_l, !Z.add_0_l.
  rewrite decide_True.
  - by rewrite make_day_civil.
  - pose proof (civil_of_day_valid d) as [? ?]. done.
Qed.

Lemma pad_two a b n : digits_value 0 [a; b] = Some n -> pad 2 n = String a (String b EmptyString).
Proof.
  simpl. destruct (digit_value a) as [x|] eqn:Ha; [|done]. destruct (digit_value b) as [y|] eqn:Hb; [|done].
  intros ?. simplify_eq. pose proof (digit_value_range _ _ Ha). pose proof (digit_value_range _ _ Hb).
  apply digit_of_value in Ha, Hb. cbn [pad String.append].
  replace (10 * (10 * 0 + x) + y) with (10 * x + y) by lia.
  replace ((10 * x + y) mod 10) with y by lia. replace ((10 * x + y) / 10 mod 10) with x by lia.
  by rewrite Ha, Hb.
Qed.

Lemma pad_four a b c d n :
  digits_value 0 [a; b; c; d] = Some n ->
  0 <= n <= 9999 /\ pad 4 n = String a (String b (String c (String d EmptyString))).
Proof.
  simpl. destruct (digit_value a) as [x|] eqn:Ha; [|done]. destruct (digit_value b) as [y|] eqn:Hb; [|done].
  destruct (digit_value c) as [z|] eqn:Hc; [|done]. destruct (digit_value d) as [t|] eqn:Hd; [|done].
  intros ?. simplify_eq.
  pose proof (digit_value_range _ _ Ha). pose proof (digit_value_range _ _ Hb).
  pose proof (digit_value_range _ _ Hc). pose proof (digit_value_range _ _ Hd).
  apply digit_of_value in Ha, Hb, Hc, Hd. split; [lia|]. cbn [pad String.append].
  set (n := 10 * _ + t).
  replace (n mod 10) with t by lia. replace (n / 10 mod 10) with z by lia.
  replace (n / 10 / 10 mod 10) with y by lia. replace (n / 10 / 10 / 10 mod 10) with x by lia.
  by rewrite Ha, Hb, Hc, Hd.
Qed.

(** A day string names exactly one day, whose string it is. *)
Lemma parse_day_Some s d : parse_day s = Some d -> day_ok d /\ day_string d = s.
Proof.
  unfold parse_day. intros H. rewrite <- (string_of_list_ascii_of_string s).
  destruct (list_ascii_of_string s) as [|a [|b [|c [|d0 [|s1 [|e [|f [|s2 [|g [|h [|]]]]]]]]]]]; try done.
  destruct (digits_value 0 [a; b; c; d0]) as [y|] eqn:Hy; [|done].
  destruct (digits_value 0 [e; f]) as [m|] eqn:Hm; [|done].
  destruct (digits_value 0 [g; h]) as [dd|] eqn:Hdd; [|done]. simpl in H.
  case_decide as Hv; [|done]. simplify_eq. destruct Hv as (-> & -> & Hv).
  apply pad_four in Hy as [Hy Hpy]. apply pad_two in Hm, Hdd.
  pose proof (civil_of_make_day (Civil y m dd) Hv) as Hc. simpl in Hc.
  assert (day_ok (make_day y m dd)) as Hok.
  { unfold day_ok. apply (f_equal cy) in Hc. simpl in Hc. lia. }
  split; [done|]. rewrite day_string_ok by done. rewrite Hc. cbn [cy cm cd].
  by rewrite Hpy, Hm, Hdd.
Qed.

#[export] Hint Resolve parse_day_string civil_of_day_valid : js.
