(* ===== verification/JsNumber.v ===== *)
(** * JavaScript numbers

    Counts, token totals, micro-dollar amounts and millisecond times are integers in the sources;
    they are [Z] in the models, which is what binary64 computes as long as the values stay below
    2^53. Where the source divides, the model computes in the kernel's binary64 floats, and
    [number_of_Z] is the (exact, below 2^53) conversion. *)

From S2P Require Import Prelude JsString JsDate.
From Stdlib Require Export Uint63 PrimFloat FloatOps SpecFloat.
From Stdlib Require FloatAxioms.

#[local] Open Scope Z_scope.
#[local] Set Warnings "-inexact-float".

Abbreviation number := PrimFloat.float.

Definition number_of_Z (z : Z) : number :=
  if decide (z < 0) then PrimFloat.opp (PrimFloat.of_uint63 (Uint63.of_Z (- z)))
  else PrimFloat.of_uint63 (Uint63.of_Z z).

(** The double nearest to the rational [± m / d], ties to even. *)
Definition number_of_ratio (s : bool) (m d : positive) : number :=
  SF2Prim (SFdiv 53 1024 (S754_finite s m 0) (S754_finite false d 0)).

(** The double nearest to an integer. *)
Definition number_of_integer (neg : bool) (p : positive) : number := SF2Prim (binary_round 53 1024 neg p 0).

(** [Math.round(x)]: the integer [n] with [n - 1/2 <= x < n + 1/2]; [None] where the result is not
    finite. The two zeros are one integer. *)
Definition round_half_up (m e : Z) : Z :=
  if decide (0 <= e) then m * 2 ^ e else (2 * m + 2 ^ (- e)) / (2 * 2 ^ (- e)).

Definition math_round (x : number) : option Z :=
  match Prim2SF x with
  | S754_zero _ => Some 0
  | S754_finite s m e => Some (round_half_up (if s then Z.neg m else Z.pos m) e)
  | _ => None
  end.

(** [Number.isFinite(x)]. *)
Definition is_finite (x : number) : bool :=
  match Prim2SF x with S754_zero _ | S754_finite _ _ _ => true | _ => false end.

(** The exact value [m * 2^e] lies in the half-open unit interval around its rounding. *)
Lemma round_half_up_spec m e :
  e < 0 ->
  (2 * round_half_up m e - 1) * 2 ^ (- e) <= 2 * m < (2 * round_half_up m e + 1) * 2 ^ (- e).
Proof.
  intros He. unfold round_half_up. rewrite decide_False by lia.
  assert (0 < 2 ^ (- e)) as Hd by (apply Z.pow_pos_nonneg; lia).
  set (d := 2 ^ (- e)) in *.
  pose proof (Z.div_mod (2 * m + d) (2 * d)). pose proof (Z.mod_pos_bound (2 * m + d) (2 * d)).
  nia.
Qed.

Lemma round_half_up_integer n : round_half_up n 0 = n.
Proof. unfold round_half_up. rewrite decide_True by lia. lia. Qed.

(** [Number.isInteger(x)]. *)
Definition is_integer (x : number) : bool :=
  match Prim2SF x with
  | S754_zero _ => true
  | S754_finite _ m e => bool_decide (0 <= e) || bool_decide (Z.pos m mod 2 ^ (- e) = 0)
  | _ => false
  end.

(** ** [Number(s)]: the StringNumericLiteral grammar

    Leading and trailing white space is dropped, the empty string is zero, a decimal literal is
    rounded to the nearest double, and [0x], [0o] and [0b] literals take no sign. Anything else is
    [NaN]. *)
Definition digit_in_base (base : Z) (a : ascii) : option Z :=
  let n := Z.of_N (N_of_ascii (lower_ascii a)) in
  let v := if decide (48 <= n <= 57) then Some (n - 48)
           else if decide (97 <= n <= 122) then Some (n - 87) else None in
  v ≫= fun d => if decide (d < base) then Some d else None.

(** The digits at the front: their value, how many there are, and the rest. *)
Fixpoint take_digits (base acc : Z) (count : nat) (s : string) : Z * nat * string :=
  match s with
  | String a s' =>
      match digit_in_base base a with
      | Some d => take_digits base (acc * base + d) (S count) s'
      | None => (acc, count, s)
      end
  | EmptyString => (acc, count, s)
  end.

(** [m * 10^e] as the nearest double. *)
Definition scale10 (neg : bool) (m e : Z) : number :=
  let zero := if neg then PrimFloat.neg_zero else PrimFloat.zero in
  match m with
  | Z.pos p =>
      match 10 ^ Z.abs e with
      | Z.pos q => if decide (0 <= e) then number_of_integer neg (p * q) else number_of_ratio neg p q
      | _ => zero
      end
  | _ => zero
  end.

(** The exponent part at the end of a decimal literal. *)
Definition take_exponent (s : string) : option Z :=
  match s with
  | EmptyString => Some 0
  | String e s' =>
      if bool_decide (lower_ascii e = "e"%char) then
        let '(neg, s1) :=
          match s' with
          | String "-" s1 => (true, s1)
          | String "+" s1 => (false, s1)
          | _ => (false, s')
          end in
        match take_digits 10 0 0 s1 with
        | (v, S _, EmptyString) => Some (if neg : bool then - v else v)
        | _ => None
        end
      else None
  end.

Definition decimal_literal (neg : bool) (s : string) : number :=
  if bool_decide (s = "Infinity") then (if neg then PrimFloat.neg_infinity else PrimFloat.infinity)
  else
    let '(ip, ni, s1) := take_digits 10 0 0 s in
    let '(m, nf, s2) :=
      match s1 with
      | String "." s1' => take_digits 10 ip 0 s1'
      | _ => (ip, 0%nat, s1)
      end in
    if bool_decide (ni + nf = 0)%nat then PrimFloat.nan
    else match take_exponent s2 with
         | Some e => scale10 neg m (e - Z.of_nat nf)
         | None => PrimFloat.nan
         end.

Definition radix_literal (base : Z) (s : string) : number :=
  match take_digits base 0 0 s with
  | (Z.pos p, S _, EmptyString) => number_of_integer false p
  | (_, S _, EmptyString) => PrimFloat.zero
  | _ => PrimFloat.nan
  end.

Definition to_number (s : string) : number :=
  match trim s with
  | EmptyString => PrimFloat.zero
  | String "0" (String ("x" | "X") s') => radix_literal 16 s'
  | String "0" (String ("o" | "O") s') => radix_literal 8 s'
  | String "0" (String ("b" | "B") s') => radix_literal 2 s'
  | String "-" s' => decimal_literal true s'
  | String "+" s' => decimal_literal false s'
  | t => decimal_literal false t
  end.

Example to_number_decimal : map to_number ["12.5"; " 5 "; ""; "1e3"; "-0.25"; "0x1F"; ".5"; "5."] =
  [12.5; 5; 0; 1000; -0.25; 31; 0.5; 5]%float.
Proof. vm_compute. reflexivity. Qed.

Example to_number_nan : map (fun s => is_finite (to_number s)) ["abc"; "1 2"; "."; "1e"; "Infinity"; "1_000"] =
  [false; false; false; false; false; false].
Proof. vm_compute. reflexivity. Qed.

Example to_number_rounds : to_number "0.1" = 0.1%float /\ to_number "123456789012345678901234567890" =
  123456789012345678901234567890%float /\ to_number "4.35" = 4.35%float.
Proof. by vm_compute. Qed.

(** ** [String(n)] of an integer *)
Fixpoint dec_digits (fuel : nat) (n : Z) (acc : string) : string :=
  match fuel with
  | O => acc
  | S fuel' =>
      let acc' := String (digit (n mod 10)) acc in
      if decide (n < 10) then acc' else dec_digits fuel' (n / 10) acc'
  end.

Definition string_of_Z (n : Z) : string :=
  if decide (n < 0) then "-" +:+ dec_digits (S (Z.to_nat (Z.log2 (- n)))) (- n) EmptyString
  else dec_digits (S (Z.to_nat (Z.log2 n))) n EmptyString.

(** [/^\d+$/.test(s)], with the number [s] then reads as. *)
Definition decimal_Z (s : string) : option Z :=
  match take_digits 10 0 0 s with
  | (v, S _, EmptyString) => Some v
  | _ => None
  end.

Lemma digit_in_base_digit n : 0 <= n <= 9 -> digit_in_base 10 (digit n) = Some n.
Proof.
  intros Hn. assert (n ∈ [0; 1; 2; 3; 4; 5; 6; 7; 8; 9]) as Hin.
  { rewrite !elem_of_cons. lia. }
  repeat (apply elem_of_cons in Hin as [->|Hin]; [done|]). by apply elem_of_nil in Hin.
Qed.

Lemma take_dec_digits fuel n c acc :
  0 <= n < 10 ^ Z.of_nat fuel -> (0 < fuel)%nat ->
  exists k, take_digits 10 0 c (dec_digits fuel n acc) = take_digits 10 n (c + S k) acc.
Proof.
  revert n acc. induction fuel as [|fuel IH]; intros n acc Hn Hf; [lia|].
  cbn [dec_digits]. pose proof (Z.mod_pos_bound n 10 ltac:(lia)) as Hm.
  case_decide as Hlt.
  - exists 0%nat. rewrite Z.mod_small by lia. cbn [take_digits].
    rewrite digit_in_base_digit by lia. f_equal. lia.
  - destruct fuel as [|fuel]; [simpl in Hn; lia|].
    destruct (IH (n / 10) (String (digit (n mod 10)) acc)) as [k Hk]; [|lia|].
    + rewrite Nat2Z.inj_succ, Z.pow_succ_r in Hn by lia.
      split; [apply Z.div_pos; lia|]. apply Z.div_lt_upper_bound; lia.
    + exists (S k). rewrite Hk. cbn [take_digits]. rewrite digit_in_base_digit by lia.
      f_equal; [|lia]. pose proof (Z.div_mod n 10). lia.
Qed.

Lemma decimal_string n : 0 <= n -> decimal_Z (string_of_Z n) = Some n.
Proof.
  intros Hn. unfold decimal_Z, string_of_Z. rewrite decide_False by lia.
  destruct (take_dec_digits (S (Z.to_nat (Z.log2 n))) n 0 EmptyString) as [k ->]; [|lia|done].
  split; [done|]. rewrite Nat2Z.inj_succ, Z2Nat.id by apply Z.log2_nonneg.
  destruct (decide (n = 0)) as [->|]; [by vm_compute|].
  pose proof (Z.log2_spec n ltac:(lia)) as [_ H].
  eapply Z.lt_le_trans; [exact H|]. apply Z.pow_le_mono_l. lia.
Qed.

Lemma string_of_Z_nonempty n : string_of_Z n <> EmptyString.
Proof.
  unfold string_of_Z. case_decide; [done|]. cbn [dec_digits]. case_decide; [done|].
  assert (forall f m a s, dec_digits f m (String a s) <> EmptyString) as H'; [|apply H'].
  induction f as [|f IH]; intros m a s; cbn [dec_digits]; [done|]. case_decide; [done|apply IH].
Qed.

(** A decimal text holds digits only. *)
Lemma take_digits_free base acc k s v k' c :
  take_digits base acc k s = (v, k', EmptyString) -> digit_in_base base c = None ->
  includes_char c s = false.
Proof.
  intros H Hc. revert acc k H. induction s as [|a s IH]; intros acc k H; [done|].
  cbn in H |- *. destruct (digit_in_base base a) as [d|] eqn:Ha; [|done].
  rewrite (IH _ _ H). case_bool_decide; [congruence|done].
Qed.

Lemma decimal_free s n c : decimal_Z s = Some n -> digit_in_base 10 c = None -> includes_char c s = false.
Proof.
  unfold decimal_Z. destruct (take_digits 10 0 0 s) as [[v [|k]] [|]] eqn:H; intros; simplify_eq.
  by eapply take_digits_free.
Qed.

Lemma space_not_digit a : is_space a = true -> digit_in_base 10 a = None.
Proof. by destruct a as [[] [] [] [] [] [] [] []]. Qed.

Lemma trim_decimal s n : decimal_Z s = Some n -> trim s = s.
Proof. intros H. apply trim_free. intros a Ha. eapply decimal_free; [done|by apply space_not_digit]. Qed.

(** ** Truncation and [parseInt(s, 10)] *)

(** The integer part, toward zero; [None] for [NaN] and the infinities. *)
Definition trunc (x : number) : option Z :=
  match Prim2SF x with
  | S754_zero _ => Some 0
  | S754_finite neg m e =>
      let n := if decide (0 <= e) then Z.pos m * 2 ^ e else Z.pos m / 2 ^ (- e) in
      Some (if neg then - n else n)
  | _ => None
  end.

(** White space, a sign, and as many digits as there are; [None] is [NaN]. *)
Definition parse_int (s : string) : option Z :=
  let unsigned t := match take_digits 10 0 0 t with (v, S _, _) => Some v | _ => None end in
  match trim_start s with
  | String "-" t => Z.opp <$> unsigned t
  | String "+" t => unsigned t
  | t => unsigned t
  end.

Example parse_int_examples : map parse_int ["12"; " -7px"; "3.9"; "x1"; ""] =
  [Some 12; Some (-7); Some 3; None; None] /\ map trunc [2.9%float; (-2.9)%float] = [Some 2; Some (-2)].
Proof. by vm_compute. Qed.

Lemma ltb_leb x y : PrimFloat.ltb x y = true -> PrimFloat.leb x y = true.
Proof.
  rewrite FloatAxioms.ltb_spec, FloatAxioms.leb_spec. unfold SFltb, SFleb. by destruct (SFcompare _ _) as [[]|].
Qed.

(** ** [String(x)]: the shortest decimal that reads back

    Integers below 2^53 print as such. Otherwise, the fewest digits [s] and the scale [t] with
    [s * 10^t] reading back as the number: the nearest candidate of each length first. *)
Definition decimal_length (n : Z) : Z := Z.of_nat (String.length (string_of_Z n)).

(** The [n] with [10^(n-1) <= p/q < 10^n]. *)
Definition decimal_point (p q : Z) : Z :=
  if decide (q <= p) then decimal_length (p / q) else 1 - decimal_length ((q - 1) / p).

(** [p/q] in units of [10^t], rounded half up, down and up. *)
Definition decimal_candidates (p q t : Z) : list Z :=
  let '(p, q) := if decide (0 <= t) then (p, q * 10 ^ t) else (p * 10 ^ (- t), q) in
  [(2 * p + q) / (2 * q); p / q; p / q + 1].

Definition shortest_decimal (x : number) (p q : Z) : option (Z * Z) :=
  let n := decimal_point p q in
  let attempt k :=
    let t := n - Z.of_nat k in
    (fun s => (s, t)) <$> find_first (fun s => PrimFloat.eqb (scale10 false s t) x) (decimal_candidates p q t) in
  foldr (fun k r => match attempt k with Some d => Some d | None => r end) None (seq 1 17).

Definition zeros (n : Z) : string := String.string_of_list_ascii (repeat "0"%char (Z.to_nat n)).

Fixpoint strip_zeros (s : string) : string :=
  match s with
  | EmptyString => EmptyString
  | String a s =>
      match strip_zeros s with
      | EmptyString => if bool_decide (a = "0"%char) then EmptyString else String a EmptyString
      | t => String a t
      end
  end.

(** The digits [ds] with the decimal point after the first [n]. *)
Definition decimal_text (ds : string) (n : Z) : string :=
  let k := Z.of_nat (String.length ds) in
  if decide (k <= n <= 21) then ds +:+ zeros (n - k)
  else if decide (0 < n <= 21) then str_take (Z.to_nat n) ds +:+ "." +:+ str_drop (Z.to_nat n) ds
  else if decide (-6 < n <= 0) then "0." +:+ zeros (- n) +:+ ds
  else
    let e := n - 1 in
    let mantissa := if decide (k = 1) then ds else str_take 1 ds +:+ "." +:+ str_drop 1 ds in
    mantissa +:+ "e" +:+ (if decide (0 <= e) then "+" else EmptyString) +:+ string_of_Z e.

Definition positive_text (x : number) (m : positive) (e : Z) : string :=
  let '(p, q) := if decide (0 <= e) then (Z.pos m * 2 ^ e, 1) else (Z.pos m, 2 ^ (- e)) in
  match shortest_decimal x p q with
  | Some (s, t) => decimal_text (strip_zeros (string_of_Z s)) (decimal_length s + t)
  | None => "NaN"
  end.

(** The integer a number is, when it is one below 2^53 in magnitude. *)
Definition safe_integer_of (x : number) : option Z :=
  match trunc x with
  | Some z => if decide (Z.abs z < 2 ^ 53 /\ (PrimFloat.eqb (number_of_Z z) x = true)) then Some z else None
  | None => None
  end.

Definition number_text (x : number) : string :=
  match safe_integer_of x with
  | Some z => string_of_Z z
  | None =>
      match Prim2SF x with
      | S754_nan => "NaN"
      | S754_infinity s => if s then "-Infinity" else "Infinity"
      | S754_zero _ => "0"
      | S754_finite true m e => "-" +:+ positive_text (PrimFloat.opp x) m e
      | S754_finite false m e => positive_text x m e
      end
  end.

Example number_text_examples :
  map number_text [0; -0; 42; -7; 0.1; 1.5; 12345678.9; 1e21; 1.5e-7; 123456789012345680000; 0.000001;
                   5e-324; -2.5; 4.35; 9007199254740993; 1e300]%float =
  ["0"; "0"; "42"; "-7"; "0.1"; "1.5"; "12345678.9"; "1e+21"; "1.5e-7"; "123456789012345680000"; "0.000001";
   "5e-324"; "-2.5"; "4.35"; "9007199254740992"; "1e+300"].
Proof. vm_compute. reflexivity. Qed.

(** ** Integers as doubles *)
Lemma digits2_pos_shift p d : Zdigits2 (Z.pos (Pos.iter xO p d)) = Zdigits2 (Z.pos p) + Z.pos d.
Proof.
  revert p. induction d as [|d IH] using Pos.peano_ind; intros p; [simpl; lia|].
  rewrite Pos.iter_succ_r, IH. simpl. lia.
Qed.

Lemma digits2_pos_bound p : 2 ^ (Zdigits2 (Z.pos p) - 1) <= Z.pos p < 2 ^ Zdigits2 (Z.pos p).
Proof.
  simpl. induction p as [p IH|p IH|]; simpl digits2_pos; [| |done].
  all: rewrite Pos2Z.inj_succ; replace (Z.succ _ - 1) with (Z.succ (Z.pos (digits2_pos p) - 1)) by lia;
    rewrite !Z.pow_succ_r by lia; lia.
Qed.

Lemma binary_round_exact s p :
  Zdigits2 (Z.pos p) <= 53 ->
  exists m e, binary_round 53 1024 s p 0 = S754_finite s m e /\ e <= 0 /\ Z.pos m = Z.pos p * 2 ^ (- e).
Proof.
  intros Hd. unfold binary_round.
  assert (1 <= Zdigits2 (Z.pos p)) as H1 by (simpl; lia).
  set (D := Zdigits2 (Z.pos p)) in *. change (Z.pos (digits2_pos p)) with D.
  assert (fexp 53 1024 (D + 0) = D - 53) as Hf. { unfold fexp, SpecFloat.emin. lia. }
  rewrite Hf. unfold shl_align. replace (D - 53 - 0) with (D - 53) by lia.
  assert (forall m e, Zdigits2 (Z.pos m) = D - e -> e = D - 53 ->
    binary_round_aux 53 1024 s (Z.pos m) e loc_Exact = S754_finite s m e) as Haux.
  { intros m e Hm He. unfold binary_round_aux, shr_fexp. rewrite Hm.
    assert (fexp 53 1024 (D - e + e) - e = 0) as ->. { unfold fexp, SpecFloat.emin. lia. }
    cbn [shr shr_record_of_loc shr_m loc_of_shr_record round_nearest_even]. rewrite Hm.
    assert (fexp 53 1024 (D - e + e) - e = 0) as ->. { unfold fexp, SpecFloat.emin. lia. }
    cbn [shr shr_m]. by rewrite (proj2 (Z.leb_le e (1024 - 53))) by lia. }
  destruct (D - 53) as [|d|d] eqn:HD.
  - exists p, 0. split; [apply Haux; unfold D in *; lia|]. split; lia.
  - lia.
  - exists (Pos.iter xO p d), (Z.neg d). split; [|split; [lia|]].
    + apply Haux; [rewrite digits2_pos_shift; fold D; lia|lia].
    + clear. change (- Z.neg d) with (Z.pos d). induction d as [|d IH] using Pos.peano_ind; [simpl; lia|].
      rewrite Pos2Z.inj_succ, Z.pow_succ_r, Pos.iter_succ by lia. lia.
Qed.

Lemma of_uint63_round p : Z.pos p < 2 ^ 53 ->
  Prim2SF (PrimFloat.of_uint63 (Uint63.of_Z (Z.pos p))) = binary_round 53 1024 false p 0.
Proof.
  intros Hp. rewrite FloatAxioms.of_uint63_spec. rewrite of_Z_spec.
  rewrite Z.mod_small; [done|]. split; [lia|]. change wB with (2^63). 
  etrans; [exact Hp|]. by vm_compute.
Qed.

Lemma Zdigits2_le p : Z.pos p < 2 ^ 53 -> Zdigits2 (Z.pos p) <= 53.
Proof.
  intros Hp. pose proof (digits2_pos_bound p) as [H _].
  destruct (Z_le_gt_dec (Zdigits2 (Z.pos p)) 53) as [|Hd]; [done|].
  assert (2 ^ 53 <= 2 ^ (Zdigits2 (Z.pos p) - 1)) by (apply Z.pow_le_mono_r; lia). lia.
Qed.

Lemma number_of_Z_round z : 0 < Z.abs z < 2 ^ 53 ->
  exists m e, Prim2SF (number_of_Z z) = S754_finite (bool_decide (z < 0)) m e /\ e <= 0 /\ Z.pos m = Z.abs z * 2 ^ (- e) /\
    number_of_Z z = number_of_integer (bool_decide (z < 0)) (Z.to_pos (Z.abs z)).
Proof.
  intros Hz. destruct z as [|p|p]; [lia|..].
  - destruct (binary_round_exact false p) as (m & e & H & He & Hm); [apply Zdigits2_le; lia|].
    exists m, e. unfold number_of_Z, number_of_integer. rewrite decide_False by lia. rewrite bool_decide_eq_false_2 by lia.
    rewrite of_uint63_round by lia. simpl Z.abs. simpl Z.to_pos. split; [done|]. split; [done|]. split; [done|].
    rewrite <- of_uint63_round by lia. by rewrite FloatAxioms.SF2Prim_Prim2SF.
  - destruct (binary_round_exact true p) as (m & e & H & He & Hm); [apply Zdigits2_le; lia|].
    destruct (binary_round_exact false p) as (m' & e' & H' & He' & Hm'); [apply Zdigits2_le; lia|].
    exists m, e. unfold number_of_Z, number_of_integer. rewrite decide_True by lia. rewrite bool_decide_eq_true_2 by lia.
    assert (Prim2SF (- of_uint63 (of_Z (- Z.neg p))) = S754_finite true m e) as HP.
    { rewrite FloatAxioms.opp_spec. change (- Z.neg p) with (Z.pos p). rewrite of_uint63_round by lia.
      revert H H'. unfold binary_round. destruct (shl_align _ _ _) as [mz ez]. unfold binary_round_aux.
      destruct (shr_fexp _ _ _ _ _) as [r1 e1]. destruct (shr_fexp _ _ _ _ _) as [r2 e2].
      destruct (shr_m r2); try done. destruct (e2 <=? 1024 - 53); intros; by simplify_eq/=. }
    split; [done|]. split; [done|]. split; [done|]. 
    simpl Z.to_pos. rewrite H, <- HP. by rewrite FloatAxioms.SF2Prim_Prim2SF.
Qed.

(** Below 2^53 an integer is its own truncation, and reads back from its decimal text. *)
Lemma trunc_number_of_Z z : Z.abs z < 2 ^ 53 -> trunc (number_of_Z z) = Some z.
Proof.
  intros Hz. destruct (decide (z = 0)) as [->|]; [by vm_compute|].
  destruct (number_of_Z_round z) as (m & e & Hp & He & Hm & _); [lia|].
  unfold trunc. rewrite Hp. f_equal.
  assert ((if decide (0 <= e) then Z.pos m * 2 ^ e else Z.pos m / 2 ^ (- e)) = Z.abs z) as ->.
  { clear Hp. case_decide as H0; [assert (e = 0) as -> by lia; change (- 0) with 0 in Hm; rewrite Z.pow_0_r in *; lia|].
    rewrite Hm. apply Z.div_mul. assert (0 < 2 ^ (- e)) by (apply Z.pow_pos_nonneg; lia). lia. }
  case_bool_decide; lia.
Qed.

Lemma number_of_Z_finite z : Z.abs z < 2 ^ 53 -> is_finite (number_of_Z z) = true.
Proof.
  intros Hz. destruct (decide (z = 0)) as [->|]; [by vm_compute|].
  destruct (number_of_Z_round z) as (m & e & Hp & _); [lia|]. unfold is_finite. by rewrite Hp.
Qed.

Lemma safe_integer_of_Z z : Z.abs z < 2 ^ 53 -> safe_integer_of (number_of_Z z) = Some z.
Proof.
  intros Hz. unfold safe_integer_of. rewrite trunc_number_of_Z by done. rewrite decide_True; [done|].
  split; [done|]. rewrite FloatAxioms.eqb_spec. destruct (decide (z = 0)) as [->|]; [by vm_compute|].
  destruct (number_of_Z_round z) as (m & e & -> & _); [lia|]. unfold SFeqb, SFcompare.
  destruct (bool_decide (z < 0)); rewrite Z.compare_refl, Pos.compare_cont_refl; done.
Qed.

Lemma number_text_of_Z z : Z.abs z < 2 ^ 53 -> number_text (number_of_Z z) = string_of_Z z.
Proof. intros Hz. unfold number_text. by rewrite safe_integer_of_Z. Qed.

(** A decimal text goes through [Number(s)] as a decimal literal. *)
Lemma to_number_digits s n : 0 <= n -> decimal_Z s = Some n -> to_number s = decimal_literal false s.
Proof.
  intros Hn Hs. unfold to_number. rewrite (trim_decimal s n) by done.
  assert (forall c, digit_in_base 10 c = None -> includes_char c s = false) as Hfree by (intros; by eapply decimal_free).
  destruct s as [|a s]; [done|].
  pose proof (Hfree "-"%char eq_refl) as Hm. pose proof (Hfree "+"%char eq_refl) as Hp.
  simpl in Hm, Hp. 
  destruct (decide (a = "0"%char)) as [->|Ha].
  - destruct s as [|b s]; [done|].
    pose proof (Hfree "x"%char eq_refl) as H1. pose proof (Hfree "X"%char eq_refl) as H2.
    pose proof (Hfree "o"%char eq_refl) as H3. pose proof (Hfree "O"%char eq_refl) as H4.
    pose proof (Hfree "b"%char eq_refl) as H5. pose proof (Hfree "B"%char eq_refl) as H6.
    clear - H1 H2 H3 H4 H5 H6. by destruct b as [[] [] [] [] [] [] [] []].
  - clear - Ha Hm Hp. by destruct a as [[] [] [] [] [] [] [] []].
Qed.

Lemma decimal_literal_digits neg s n :
  decimal_Z s = Some n -> decimal_literal neg s = scale10 neg n 0.
Proof.
  intros Hs. pose proof (decimal_free s n "I"%char Hs eq_refl) as HI. unfold decimal_literal.
  rewrite bool_decide_eq_false_2 by (intros ->; done). unfold decimal_Z in Hs.
  destruct (take_digits 10 0 0 s) as [[v [|k]] [|]]; simplify_eq. simpl. done.
Qed.

Lemma scale10_integer neg z : 0 < z -> scale10 neg z 0 = number_of_integer neg (Z.to_pos z).
Proof. intros Hz. destruct z as [|p|p]; [lia| |lia]. unfold scale10. simpl. by rewrite Pos.mul_1_r. Qed.

Lemma to_number_string z : Z.abs z < 2 ^ 53 -> to_number (string_of_Z z) = number_of_Z z.
Proof.
  intros Hz. destruct (decide (z = 0)) as [->|]; [by vm_compute|].
  destruct (number_of_Z_round z) as (m & e & _ & _ & _ & ->); [lia|].
  destruct (decide (0 < z)) as [Hp|Hn].
  - rewrite (to_number_digits _ z), (decimal_literal_digits _ _ z), scale10_integer; try lia; try (by apply decimal_string; lia).
    rewrite bool_decide_eq_false_2 by lia. by rewrite Z.abs_eq by lia.
  - assert (decimal_Z (dec_digits (S (Z.to_nat (Z.log2 (- z)))) (- z) EmptyString) = Some (- z)) as Hd.
    { pose proof (decimal_string (- z)) as H. unfold string_of_Z in H. rewrite decide_False in H by lia. apply H. lia. }
    unfold string_of_Z. rewrite decide_True by lia. set (ds := dec_digits _ _ _) in *. clearbody ds.
    assert (trim ("-" +:+ ds) = "-" +:+ ds) as Htrim.
    { apply trim_free. intros a Ha. simpl. rewrite (decimal_free ds _ a Hd (space_not_digit a Ha)).
      rewrite bool_decide_eq_false_2; [done|]. by intros <-. }
    unfold to_number. rewrite Htrim. simpl "+:+". cbn.
    rewrite (decimal_literal_digits _ _ _ Hd), scale10_integer by lia.
    rewrite bool_decide_eq_true_2 by lia. by rewrite Z.abs_neq by lia.
Qed.
