(* ===== verification/JsFloat.v ===== *)
(** * Rounding errors of JavaScript arithmetic

    What binary64 multiplication and division promise about whole numbers of cents: a result is within
    one part in 2^52 of the exact one, so that dividing a count of cents by a hundred, multiplying by a
    hundred and rounding gives the count back. The kernel's floats are specified by [SpecFloat]; a
    positive number's exact value is counted in units of 2^-1074, the least positive double. *)

From S2P Require Import Prelude JsString JsDate JsNumber.

#[local] Open Scope Z_scope.
#[local] Set Warnings "-inexact-float".

(** ** [x.toFixed(f)]: the integer [n] with [n / 10^f] nearest to [x], the larger of two *)
Definition fixed_text (f n : Z) : string :=
  let ds := string_of_Z n in
  if decide (f <= 0) then ds
  else
    let ds := zeros (f + 1 - Z.of_nat (String.length ds)) +:+ ds in
    let k := (String.length ds - Z.to_nat f)%nat in
    str_take k ds +:+ "." +:+ str_drop k ds.

Definition to_fixed (f : Z) (x : number) : string :=
  match Prim2SF x with
  | S754_zero _ => fixed_text f 0
  | S754_finite s m e =>
      if PrimFloat.leb 1e21 (PrimFloat.abs x) then number_text x
      else (if s then "-" else EmptyString) +:+ fixed_text f (round_half_up (Z.pos m * 10 ^ f) e)
  | _ => number_text x
  end.

Example to_fixed_examples : map (to_fixed 2) [25; 0.5; 1.005; 12.345; -1.5; 1e21; 0.125; 10000]%float =
  ["25.00"; "0.50"; "1.00"; "12.35"; "-1.50"; "1e+21"; "0.13"; "10000.00"] /\ to_fixed 0 2.5 = "3".
Proof. split; vm_compute; reflexivity. Qed.

(** ** Shifting right and rounding *)
Lemma shr_1_m r : 0 <= shr_m r -> shr_m (shr_1 r) = shr_m r / 2.
Proof. destruct r as [[|[p|p|]|p] b s]; simpl; intros H; try lia; rewrite ?Z.div_1_l; Z.to_euclidean_division_equations; lia. Qed.

Lemma iter_shr_m p r : 0 <= shr_m r -> shr_m (iter_pos shr_1 p r) = shr_m r / 2 ^ Z.pos p.
Proof.
  assert (forall p r, 0 <= shr_m r -> 0 <= shr_m (iter_pos shr_1 p r)) as Hpos.
  { intros q. induction q as [q IH|q IH|]; intros r' H; simpl; [apply IH, IH|apply IH, IH|];
      rewrite ?shr_1_m by done; try (by apply IH); try (by apply Z.div_pos); done. }
  revert r. induction p as [p IH|p IH|]; intros r H; simpl iter_pos; [| |by apply shr_1_m].
  all: assert (0 < 2 ^ Z.pos p) by (apply Z.pow_pos_nonneg; lia).
  - assert (0 <= shr_m (shr_1 r)) as H1 by (rewrite shr_1_m by done; by apply Z.div_pos).
    rewrite IH, IH, shr_1_m, !Z.div_div by (try apply Hpos; lia).
    f_equal. replace (Z.pos p~1) with (1 + Z.pos p + Z.pos p) by lia. rewrite !Z.pow_add_r by lia. lia.
  - rewrite IH, IH, Z.div_div by (try apply Hpos; lia).
    f_equal. replace (Z.pos p~0) with (Z.pos p + Z.pos p) by lia. by rewrite Z.pow_add_r by lia.
Qed.

Lemma shr_record_m m l : shr_m (shr_record_of_loc m l) = m.
Proof. by destruct l as [|[]]. Qed.

Lemma round_even_near m l : round_nearest_even m l = m \/ round_nearest_even m l = m + 1.
Proof. unfold round_nearest_even. destruct l as [|[]]; try destruct (Z.even m); auto. Qed.

Lemma digits2_unique p d : 2 ^ (d - 1) <= Z.pos p < 2 ^ d -> Zdigits2 (Z.pos p) = d.
Proof.
  intros H. pose proof (digits2_pos_bound p) as Hb. pose proof (Pos2Z.is_pos (digits2_pos p)).
  simpl Zdigits2 in *. set (e := Z.pos (digits2_pos p)) in *.
  assert (d - 1 < e). { apply (Z.pow_lt_mono_r_iff 2); lia. }
  assert (e - 1 < d). { destruct (Z_le_gt_dec d 0) as [Hd|Hd]; [|apply (Z.pow_lt_mono_r_iff 2); lia].
    destruct (decide (d = 0)) as [->|]; [simpl in H; lia|]. rewrite (Z.pow_neg_r 2 d) in H; lia. }
  lia.
Qed.

(** Rounding [A/B] units of [2^ex], known to [mx] whole units, of which there are at least [2^52]. *)
Lemma round_aux_near s mx ex lx A B :
  0 < B -> mx * B <= A < (mx + 1) * B -> 2 ^ 52 <= mx ->
  -1074 <= Zdigits2 mx + ex - 53 <= 969 ->
  exists m e, binary_round_aux 53 1024 s mx ex lx = S754_finite s m e /\ 2 ^ 52 <= Z.pos m < 2 ^ 53 /\ ex <= e /\
    Z.abs (Z.pos m * 2 ^ (e - ex) * B - A) * 2 ^ 52 <= A.
Proof.
  intros HB HA Hm Hr. destruct mx as [|p|p]; [lia| |lia].
  pose proof (digits2_pos_bound p) as HD. assert (0 < Zdigits2 (Z.pos p)) as HD0 by (simpl; lia).
  remember (Zdigits2 (Z.pos p)) as D eqn:HDdef.
  assert (53 <= D) as HD53. { assert (52 < D); [|lia]. apply (Z.pow_lt_mono_r_iff 2); lia. }
  remember (D - 53) as k eqn:Hk0.
  assert (shr_m (shr_fexp 53 1024 (Z.pos p) ex lx).1 = Z.pos p / 2 ^ k /\
          (shr_fexp 53 1024 (Z.pos p) ex lx).2 = ex + k) as [Hs He].
  { unfold shr_fexp. rewrite <- HDdef. assert (fexp 53 1024 (D + ex) - ex = k) as -> by (unfold fexp, SpecFloat.emin; lia).
    destruct k as [|q|q]; [|..|lia]; simpl.
    - rewrite shr_record_m. rewrite Z.div_1_r. by rewrite Z.add_0_r.
    - rewrite iter_shr_m; by rewrite shr_record_m. }
  unfold binary_round_aux. destruct (shr_fexp 53 1024 (Z.pos p) ex lx) as [r1 e1]. simpl in Hs, He. subst e1.
  rewrite Hs. set (m1 := Z.pos p / 2 ^ k) in *.
  assert (0 < 2 ^ k) as Hk by (apply Z.pow_pos_nonneg; lia).
  assert (m1 * 2 ^ k <= Z.pos p < (m1 + 1) * 2 ^ k) as Hm1.
  { unfold m1. pose proof (Z.div_mod (Z.pos p) (2 ^ k)). pose proof (Z.mod_pos_bound (Z.pos p) (2 ^ k)). lia. }
  assert (2 ^ (D - 1) = 2 ^ 52 * 2 ^ k) as E1 by (rewrite <- Z.pow_add_r by lia; f_equal; lia).
  assert (2 ^ D = 2 ^ 53 * 2 ^ k) as E2 by (rewrite <- Z.pow_add_r by lia; f_equal; lia).
  assert (2 ^ 52 <= m1 < 2 ^ 53) as Hb by nia.
  set (m2 := round_nearest_even _ _). 
  assert (m2 = m1 \/ m2 = m1 + 1) as Hm2 by apply round_even_near. clearbody m2.
  assert (Z.abs (m2 * 2 ^ k * B - A) * 2 ^ 52 <= A) as Hnear.
  { assert (Z.abs (m2 * 2 ^ k * B - A) <= 2 ^ k * B) as Ha by nia.
    assert (2 ^ 52 * (2 ^ k * B) <= A) by nia. nia. }
  destruct m2 as [|q|q]; [lia| |lia].
  destruct (decide (Z.pos q < 2 ^ 53)) as [Hq|Hq].
  - exists q, (ex + k). unfold shr_fexp. rewrite (digits2_unique q 53) by (split; [change (53 - 1) with 52|]; lia).
    assert (fexp 53 1024 (53 + (ex + k)) - (ex + k) = 0) as -> by (unfold fexp, SpecFloat.emin; lia).
    simpl. rewrite (proj2 (Z.leb_le _ _)) by lia. do 2 (split; [by auto with lia|]). split; [lia|].
    by replace (ex + k - ex) with k by lia.
  - assert (q = 9007199254740992%positive) as -> by lia.
    exists 4503599627370496%positive, (ex + k + 1). unfold shr_fexp.
    change (Zdigits2 9007199254740992) with 54.
    assert (fexp 53 1024 (54 + (ex + k)) - (ex + k) = 1) as -> by (unfold fexp, SpecFloat.emin; lia).
    simpl. rewrite (proj2 (Z.leb_le _ _)) by lia. do 2 (split; [done|]). split; [lia|].
    replace (ex + k + 1 - ex) with (k + 1) by lia. rewrite Z.pow_add_r by lia.
    by replace (4503599627370496 * (2 ^ k * 2 ^ 1)) with (9007199254740992 * 2 ^ k) by lia.
Qed.

(** ** Multiplication and division *)

(** A positive double with a full significand. *)
Definition double_of (x : number) (m : positive) (e : Z) : Prop :=
  Prim2SF x = S754_finite false m e /\ 2 ^ 52 <= Z.pos m < 2 ^ 53.

Lemma full_digits m : 2 ^ 52 <= Z.pos m < 2 ^ 53 -> Zdigits2 (Z.pos m) = 53.
Proof. intros H. apply digits2_unique. by change (53 - 1) with 52. Qed.

Lemma mul_near x m e y m' e' :
  double_of x m e -> double_of y m' e' -> -900 <= e + e' <= 800 ->
  exists m2 e2, double_of (x * y)%float m2 e2 /\ e + e' <= e2 /\
    Z.abs (Z.pos m2 * 2 ^ (e2 - (e + e')) - Z.pos m * Z.pos m') * 2 ^ 52 <= Z.pos m * Z.pos m'.
Proof.
  intros [Hx Hm] [Hy Hm'] He.
  assert (2 ^ 104 <= Z.pos (m * m') < 2 ^ 106) as Hp by nia.
  destruct (round_aux_near false (Z.pos (m * m')) (e + e') loc_Exact (Z.pos (m * m')) 1) as (m2 & e2 & Hr & Hd & Hle & Hn);
    [lia|lia|lia| |].
  - pose proof (digits2_pos_bound (m * m')) as HD. remember (Zdigits2 (Z.pos (m * m'))) as D eqn:HDdef.
    assert (0 < D) by (subst; simpl; lia).
    assert (D - 1 < 106 /\ 104 < D); [|lia]. split; apply (Z.pow_lt_mono_r_iff 2); lia.
  - exists m2, e2. split; [|split; [done|]]; [|by rewrite Z.mul_1_r in Hn].
    split; [|done]. by rewrite FloatAxioms.mul_spec, Hx, Hy.
Qed.

Lemma div_near x m e y m' e' :
  double_of x m e -> double_of y m' e' -> -800 <= e - e' <= 800 ->
  exists m2 e2, double_of (x / y)%float m2 e2 /\ e - e' - 53 <= e2 /\
    Z.abs (Z.pos m2 * 2 ^ (e2 - (e - e' - 53)) * Z.pos m' - Z.pos m * 2 ^ 53) * 2 ^ 52 <= Z.pos m * 2 ^ 53.
Proof.
  intros [Hx Hm] [Hy Hm'] He.
  pose proof (Z.div_mod (Z.pos m * 2 ^ 53) (Z.pos m')) as Hdm.
  pose proof (Z.mod_pos_bound (Z.pos m * 2 ^ 53) (Z.pos m')) as Hmod.
  set (q := Z.pos m * 2 ^ 53 / Z.pos m') in *. set (r := (Z.pos m * 2 ^ 53) mod Z.pos m') in *.
  assert (2 ^ 52 <= q < 2 ^ 55) as Hq by nia.
  destruct (round_aux_near false q (e - e' - 53) (new_location (Z.pos m') r) (Z.pos m * 2 ^ 53) (Z.pos m'))
    as (m2 & e2 & Hr & Hd & Hle & Hn); [lia|nia|lia| |].
  - destruct q as [|q|q]; [lia| |lia]. pose proof (digits2_pos_bound q) as HD. remember (Zdigits2 (Z.pos q)) as D eqn:HDdef.
    assert (0 < D) by (subst; simpl; lia).
    assert (D - 1 < 55 /\ 52 < D); [|lia]. split; apply (Z.pow_lt_mono_r_iff 2); lia.
  - exists m2, e2. split; [|done]. split; [|done].
    rewrite FloatAxioms.div_spec, Hx, Hy. unfold FloatAxioms.SF64div, SFdiv, SFdiv_core_binary.
    change FloatOps.prec with 53. change FloatOps.emax with 1024. rewrite !full_digits by done.
    assert (fexp 53 1024 (53 + e - (53 + e')) = e - e' - 53) as -> by (unfold fexp, SpecFloat.emin; lia).
    rewrite Z.min_l by lia. replace (e - e' - (e - e' - 53)) with 53 by lia.
    rewrite Z.shiftl_mul_pow2 by lia. unfold q, r, Z.div, Z.modulo in *. by destruct (Z.div_eucl _ _).
Qed.

(** A double above the least exponent has a full significand. *)
Lemma full_significand x s m e :
  Prim2SF x = S754_finite s m e -> -1074 <= e /\ Z.pos m < 2 ^ 53 /\ (-1074 < e -> 2 ^ 52 <= Z.pos m).
Proof.
  intros Hx. pose proof (FloatAxioms.Prim2SF_valid x) as Hv. rewrite Hx in Hv. simpl in Hv.
  apply andb_true_iff in Hv as [Hc _]. apply Z.eqb_eq in Hc.
  unfold fexp, SpecFloat.emin, FloatOps.prec, FloatOps.emax in Hc.
  pose proof (digits2_pos_bound m) as HD. simpl Zdigits2 in HD. set (D := Z.pos (digits2_pos m)) in *.
  split; [lia|]. split.
  - eapply Z.lt_le_trans; [apply HD|]. apply Z.pow_le_mono_r; lia.
  - intros He. assert (D = 53) as HD53 by lia. rewrite HD53 in HD. apply HD.
Qed.

Lemma double_of_Z c : 0 < c < 2 ^ 53 ->
  exists m e, double_of (number_of_Z c) m e /\ -52 <= e <= 0 /\ Z.pos m = c * 2 ^ (- e).
Proof.
  intros Hc. destruct (number_of_Z_round c) as (m & e & Hx & He & Hm & _); [lia|].
  rewrite bool_decide_eq_false_2 in Hx by lia. rewrite Z.abs_eq in Hm by lia.
  destruct (full_significand _ _ _ _ Hx) as (Hmin & Hlt & Hfull).
  assert (-53 < e) as He52.
  { destruct (Z_le_gt_dec e (-53)) as [Hle|]; [|lia].
    assert (2 ^ 53 <= 2 ^ (- e)) by (apply Z.pow_le_mono_r; lia). nia. }
  exists m, e. split; [split; [done|split; [apply Hfull; lia|done]]|]. split; [lia|done].
Qed.

(** Order of doubles is order of their exact values. *)
Lemma leb_value x m e y m' e' k :
  double_of x m e -> double_of y m' e' -> k <= e -> k <= e' ->
  PrimFloat.leb x y = true -> Z.pos m * 2 ^ (e - k) <= Z.pos m' * 2 ^ (e' - k).
Proof.
  intros [Hx Hm] [Hy Hm'] He He'. rewrite FloatAxioms.leb_spec, Hx, Hy. unfold SFleb, SFcompare.
  assert (0 < 2 ^ (e - k)) by (apply Z.pow_pos_nonneg; lia).
  assert (0 < 2 ^ (e' - k)) by (apply Z.pow_pos_nonneg; lia).
  destruct (Z.compare_spec e e') as [->|Hlt|Hgt]; [|intros _|done].
  - change (Pos.compare_cont Eq m m') with (m ?= m')%positive.
    destruct (Pos.compare_spec m m'); intros; [by subst|nia|done].
  - assert (2 ^ (e' - k) = 2 ^ (e - k) * 2 ^ (e' - e)) as -> by (rewrite <- Z.pow_add_r by lia; f_equal; lia).
    assert (2 ^ 1 <= 2 ^ (e' - e)) by (apply Z.pow_le_mono_r; lia).
    assert (Z.pos m <= Z.pos m' * 2 ^ (e' - e)) by nia. nia.
Qed.

(** A number between two positive ones has a full significand. *)
Lemma double_between x lo m e hi :
  double_of lo m e -> -1000 < e -> PrimFloat.leb lo x = true -> PrimFloat.leb x hi = true ->
  is_finite hi = true -> exists m' e', double_of x m' e' /\ e <= e'.
Proof.
  intros [Hlo Hm] He. rewrite !FloatAxioms.leb_spec, Hlo. unfold SFleb, SFcompare, is_finite.
  destruct (Prim2SF x) as [|[]| |[] m' e'] eqn:Hx; try done.
  - intros _. destruct (Prim2SF hi) as [|[]| |]; done.
  - intros H _ _. assert (e <= e') as Hle by (destruct (Z.compare_spec e e'); [lia|lia|done]).
    destruct (full_significand _ _ _ _ Hx) as (_ & Hlt & Hfull). exists m', e'. split; [|done].
    split; [done|]. split; [apply Hfull; lia|done].
Qed.

(** ** Cents *)
Lemma double_hundred : double_of 100 7036874417766400 (-46).
Proof. by split; vm_compute. Qed.

(** [Math.round] of a positive double below [2^52]: the whole number within a half. *)
Lemma math_round_value x m e : double_of x m e -> e < 0 ->
  exists n, math_round x = Some n /\ (2 * n - 1) * 2 ^ (- e) <= 2 * Z.pos m < (2 * n + 1) * 2 ^ (- e).
Proof.
  intros [Hx _] He. unfold math_round. rewrite Hx. eexists. split; [done|]. by apply round_half_up_spec.
Qed.

(** A number near [c] rounds to it: [X/W] within a part in [2^50] of [c], and [m 2^e = X/W]. *)
Lemma rounds_to x m e c W X Y :
  double_of x m e -> e < 0 -> 0 < c < 2 ^ 40 -> 0 < W -> 0 < Y ->
  Z.abs (X - c * W) * 2 ^ 50 <= c * W -> X = Z.pos m * Y -> W = 2 ^ (- e) * Y ->
  math_round x = Some c.
Proof.
  intros Hx He Hc HW HY HX -> HWe. destruct (math_round_value x m e Hx He) as (n & -> & Hn). f_equal.
  assert (Z.abs (Z.pos m * Y - c * W) * 1024 <= W) as Hnear by nia.
  assert ((2 * n - 1) * W <= 2 * (Z.pos m * Y) < (2 * n + 1) * W) as Hn' by (rewrite HWe; nia).
  assert (n < c + 1) by nia. assert (c - 1 < n) by nia. lia.
Qed.

(** Cents divided by a hundred and multiplied back: within a part in [2^50]. *)
Lemma hundred_near c : 0 < c < 2 ^ 40 ->
  exists m e Y, double_of (number_of_Z c / 100 * 100)%float m e /\ -110 <= e < 0 /\ 0 < Y /\
    Z.abs (Z.pos m * Y - c * (2 ^ (- e) * Y)) * 2 ^ 50 <= c * (2 ^ (- e) * Y).
Proof.
  intros Hc. destruct (double_of_Z c) as (m & e & Hx & He & Hm); [lia|].
  destruct (div_near _ _ _ _ _ _ Hx double_hundred) as (m1 & e1 & H1 & Hj1 & N1); [lia|].
  assert (Z.pos m * 2 ^ 53 = c * 2 ^ (53 - e)) as HX0.
  { rewrite Hm. rewrite <- Z.mul_assoc, <- Z.pow_add_r by lia. do 2 f_equal. lia. }
  replace (e - -46 - 53) with (e - 7) in * by lia. rewrite HX0 in N1.
  remember (e1 - (e - 7)) as j1 eqn:Hj. assert (0 < 2 ^ j1) by (apply Z.pow_pos_nonneg; lia).
  assert (j1 < 60) as Hj60.
  { destruct (Z_lt_le_dec j1 60) as [|Hge]; [done|]. destruct Hx as [_ Hx], H1 as [_ H1].
    assert (2 ^ 60 <= 2 ^ j1) by (apply Z.pow_le_mono_r; lia).
    assert (2 ^ 112 <= Z.pos m1 * 2 ^ j1) by nia. nia. }
  destruct (mul_near _ _ _ _ _ _ H1 double_hundred) as (m2 & e2 & H2 & Hj2 & N2); [lia|].
  remember (e2 - (e1 + -46)) as j2 eqn:Hj'. assert (0 < 2 ^ j2) by (apply Z.pow_pos_nonneg; lia).
  remember (2 ^ (53 - e)) as W eqn:HW. assert (0 < W) by (subst W; apply Z.pow_pos_nonneg; lia).
  assert (Z.abs (Z.pos m2 * (2 ^ j2 * 2 ^ j1) - c * W) * 2 ^ 50 <= c * W) as Hnear.
  { remember (Z.pos m1 * 7036874417766400) as X1 eqn:HX1.
    replace (Z.pos m1 * 2 ^ j1 * 7036874417766400) with (X1 * 2 ^ j1) in N1 by (subst; lia).
    replace (Z.pos m2 * (2 ^ j2 * 2 ^ j1)) with (Z.pos m2 * 2 ^ j2 * 2 ^ j1) by lia.
    remember (Z.pos m2 * 2 ^ j2) as X2. remember (2 ^ j1) as J.
    assert (Z.abs (X2 * J - X1 * J) * 2 ^ 52 <= X1 * J) by (rewrite <- Z.mul_sub_distr_r, Z.abs_mul, (Z.abs_eq J) by lia; nia).
    lia. }
  assert (e2 < 0) as He2.
  { destruct (Z_lt_le_dec e2 0) as [|Hge]; [done|]. destruct H2 as [_ H2].
    assert (W <= 2 ^ j2 * 2 ^ j1) by (rewrite HW, <- Z.pow_add_r by lia; apply Z.pow_le_mono_r; lia). nia. }
  exists m2, e2, (2 ^ j2 * 2 ^ j1). split; [done|]. split; [lia|]. split; [lia|].
  replace (2 ^ (- e2) * (2 ^ j2 * 2 ^ j1)) with W; [done|]. rewrite HW, <- !Z.pow_add_r by lia. f_equal. lia.
Qed.

(** Dividing cents by a hundred, multiplying by a hundred and rounding is the identity. *)
Lemma cents_survive c : 0 < c < 2 ^ 40 ->
  math_round (number_of_Z c / 100 * 100)%float = Some c.
Proof.
  intros Hc. destruct (hundred_near c Hc) as (m & e & Y & Hx & He & HY & Hn).
  assert (0 < 2 ^ (- e)) by (apply Z.pow_pos_nonneg; lia).
  eapply (rounds_to _ _ _ c (2 ^ (- e) * Y) _ Y Hx); [lia|lia|nia|done|exact Hn|done|done].
Qed.

(** What [x * 100] rounds to, for [x] between two whole numbers of dollars. *)
Lemma cents_between x a b ma ea mb eb :
  double_of (number_of_Z a) ma ea -> double_of (number_of_Z b) mb eb -> 0 < a -> a <= b -> b < 2 ^ 40 ->
  Z.pos ma = a * 2 ^ (- ea) -> Z.pos mb = b * 2 ^ (- eb) -> -52 <= ea <= 0 -> ea <= eb <= 0 ->
  PrimFloat.leb (number_of_Z a) x = true -> PrimFloat.leb x (number_of_Z b) = true ->
  exists c, math_round (x * 100)%float = Some c /\ 100 * a <= c <= 100 * b.
Proof.
  intros Ha Hb Ha0 Hab Hb40 Hma Hmb Hea Heb Hlo Hhi.
  destruct (double_between x _ _ _ _ Ha ltac:(lia) Hlo Hhi) as (m & e & Hx & He); [apply number_of_Z_finite; lia|].
  pose proof (leb_value _ _ _ _ _ _ ea Ha Hx ltac:(lia) He Hlo) as L1.
  pose proof (leb_value _ _ _ _ _ _ ea Hx Hb He ltac:(lia) Hhi) as L2.
  rewrite Z.sub_diag, Z.pow_0_r, Z.mul_1_r, Hma in L1. rewrite Hmb in L2.
  rewrite <- Z.mul_assoc, <- Z.pow_add_r in L2 by lia. replace (- eb + (eb - ea)) with (- ea) in L2 by lia.
  assert (e <= 0) as He0.
  { destruct (Z_le_gt_dec e 0) as [|Hgt]; [done|]. destruct Hx as [_ Hx].
    assert (2 ^ (- ea) * 2 ^ 1 <= 2 ^ (e - ea)) by (rewrite <- Z.pow_add_r by lia; apply Z.pow_le_mono_r; lia).
    assert (0 < 2 ^ (- ea)) by (apply Z.pow_pos_nonneg; lia). nia. }
  destruct (mul_near _ _ _ _ _ _ Hx double_hundred) as (m2 & e2 & H2 & Hj & N); [lia|].
  remember (e2 - (e + -46)) as j eqn:Hj'. assert (0 < 2 ^ j) by (apply Z.pow_pos_nonneg; lia).
  remember (2 ^ (e - ea)) as K eqn:HK. assert (0 < K) by (subst K; apply Z.pow_pos_nonneg; lia).
  remember (2 ^ (- ea)) as U eqn:HU. assert (0 < U) by (subst U; apply Z.pow_pos_nonneg; lia).
  remember (Z.pos m * K) as V eqn:HV.
  assert (Z.abs (Z.pos m2 * (2 ^ j * K) - V * 7036874417766400) * 2 ^ 52 <= V * 7036874417766400) as N'.
  { replace (Z.pos m2 * (2 ^ j * K) - V * 7036874417766400) with ((Z.pos m2 * 2 ^ j - Z.pos m * 7036874417766400) * K)
      by (subst V; lia). rewrite Z.abs_mul, (Z.abs_eq K) by lia. nia. }
  assert (e2 < 0) as He2.
  { destruct (Z_lt_le_dec e2 0) as [|Hge]; [done|]. destruct H2 as [_ H2].
    assert (2 ^ 46 * U <= 2 ^ j * K).
    { subst K U. rewrite <- !Z.pow_add_r by lia. apply Z.pow_le_mono_r; lia. }
    nia. }
  destruct (math_round_value _ _ _ H2 He2) as (c & -> & Hc). exists c. split; [done|].
  assert (2 ^ (- e2) * (2 ^ j * K) = U * 2 ^ 46) as HW.
  { subst K U. rewrite <- !Z.pow_add_r by lia. f_equal. lia. }
  remember (2 ^ (- e2)) as P. remember (2 ^ j * K) as Y. assert (0 < Y) by nia.
  assert ((2 * c - 1) * (U * 2 ^ 46) <= 2 * (Z.pos m2 * Y) < (2 * c + 1) * (U * 2 ^ 46)) as Hc' by (rewrite <- HW; nia).
  assert (a * U * 7036874417766400 <= V * 7036874417766400 <= b * U * 7036874417766400) as HVb by lia.
  remember (Z.pos m2 * Y) as X. remember (V * 7036874417766400) as V'. clear - N' Hc' HVb Hb40 Ha0 Hab H1.
  replace 7036874417766400 with (100 * 2 ^ 46) in HVb by done. remember (U * 2 ^ 46) as D.
  replace (a * U * (100 * 2 ^ 46)) with (100 * a * D) in HVb by lia.
  replace (b * U * (100 * 2 ^ 46)) with (100 * b * D) in HVb by lia.
  assert (0 < D) by lia. assert (Z.abs (X - V') * 16 <= D) by nia.
  split; [assert (100 * a - 1 < c); [nia|lia]|assert (c < 100 * b + 1); [nia|lia]].
Qed.

Lemma cents_of_dollars x a b :
  0 < a -> a <= b -> b < 2 ^ 40 -> PrimFloat.leb (number_of_Z a) x = true -> PrimFloat.leb x (number_of_Z b) = true ->
  exists c, math_round (x * 100)%float = Some c /\ 100 * a <= c <= 100 * b.
Proof.
  intros Ha Hab Hb Hlo Hhi.
  destruct (double_of_Z a) as (ma & ea & Da & Hea & Hma); [lia|].
  destruct (double_of_Z b) as (mb & eb & Db & Heb & Hmb); [lia|].
  eapply (cents_between x a b); eauto.
  destruct (Z_le_gt_dec ea eb) as [|Hgt]; [lia|].
  destruct Da as [_ Da], Db as [_ Db]. 
  assert (2 ^ (- ea) * 2 ^ 1 <= 2 ^ (- eb)) by (rewrite <- Z.pow_add_r by lia; apply Z.pow_le_mono_r; lia).
  assert (0 < 2 ^ (- ea)) by (apply Z.pow_pos_nonneg; lia). nia.
Qed.

Lemma value_leb x m e y m' e' k :
  double_of x m e -> double_of y m' e' -> k <= e -> k <= e' ->
  Z.pos m * 2 ^ (e - k) <= Z.pos m' * 2 ^ (e' - k) -> PrimFloat.leb x y = true.
Proof.
  intros [Hx Hm] [Hy Hm'] He He' H. rewrite FloatAxioms.leb_spec, Hx, Hy. unfold SFleb, SFcompare.
  assert (0 < 2 ^ (e - k)) by (apply Z.pow_pos_nonneg; lia).
  assert (0 < 2 ^ (e' - k)) by (apply Z.pow_pos_nonneg; lia).
  destruct (Z.compare_spec e e') as [->|Hlt|Hgt]; [|done|].
  - change (Pos.compare_cont Eq m m') with (m ?= m')%positive.
    destruct (Pos.compare_spec m m'); [done|done|nia].
  - assert (2 ^ (e - k) = 2 ^ (e' - k) * 2 ^ (e - e')) as E by (rewrite <- Z.pow_add_r by lia; f_equal; lia).
    rewrite E in H. assert (2 ^ 1 <= 2 ^ (e - e')) by (apply Z.pow_le_mono_r; lia).
    assert (Z.pos m' < Z.pos m * 2 ^ (e - e')) by nia. nia.
Qed.

(** Comparisons, read the other way round. *)
Lemma SFcompare_flip x y : SFcompare y x = option_map CompOpp (SFcompare x y).
Proof.
  destruct x as [sx|sx| |sx mx ex], y as [sy|sy| |sy my ey]; try destruct sx; try destruct sy; try done; simpl.
  all: rewrite (Z.compare_antisym ex ey); destruct (ex ?= ey); simpl; try done.
  all: change (Pos.compare_cont Eq mx my) with (mx ?= my)%positive; change (Pos.compare_cont Eq my mx) with (my ?= mx)%positive;
    rewrite (Pos.compare_antisym mx my); by destruct (mx ?= my)%positive.
Qed.

Lemma leb_not_ltb x y : PrimFloat.leb x y = true -> PrimFloat.ltb y x = false.
Proof.
  rewrite FloatAxioms.leb_spec, FloatAxioms.ltb_spec. unfold SFleb, SFltb.
  rewrite (SFcompare_flip (Prim2SF x)). by destruct (SFcompare (Prim2SF x) (Prim2SF y)) as [[]|].
Qed.

Lemma not_ltb_leb x y : is_finite x = true -> is_finite y = true -> PrimFloat.ltb x y = false -> PrimFloat.leb y x = true.
Proof.
  rewrite FloatAxioms.leb_spec, FloatAxioms.ltb_spec. unfold SFleb, SFltb, is_finite.
  rewrite (SFcompare_flip (Prim2SF x)). intros Hx Hy.
  destruct (SFcompare (Prim2SF x) (Prim2SF y)) as [[]|] eqn:Hc; try done. exfalso. revert Hc.
  destruct (Prim2SF x) as [| | |[] ? ?], (Prim2SF y) as [| | |[] ? ?]; try done; simpl; by destruct (_ ?= _).
Qed.

(** The exact value of a quotient by a hundred, in units of [2^(e-60)]. *)
Lemma dollars_value c : 0 < c < 2 ^ 40 ->
  exists m1 e1 e X, double_of (number_of_Z c / 100)%float m1 e1 /\ -52 <= e <= 0 /\ e - 60 <= e1 /\
    Z.pos m1 * 2 ^ (e1 - (e - 60)) * 100 = X * 2 ^ 7 /\
    Z.abs (X - c * 2 ^ (53 - e)) * 2 ^ 52 <= c * 2 ^ (53 - e).
Proof.
  intros Hc. destruct (double_of_Z c) as (m & e & Hx & He & Hm); [lia|].
  destruct (div_near _ _ _ _ _ _ Hx double_hundred) as (m1 & e1 & H1 & Hj1 & N1); [lia|].
  assert (Z.pos m * 2 ^ 53 = c * 2 ^ (53 - e)) as HX0.
  { rewrite Hm. rewrite <- Z.mul_assoc, <- Z.pow_add_r by lia. do 2 f_equal. lia. }
  replace (e - -46 - 53) with (e - 7) in * by lia. rewrite HX0 in N1.
  exists m1, e1, e, (Z.pos m1 * 2 ^ (e1 - (e - 7)) * 7036874417766400).
  do 3 (split; [done || lia|]). split; [|done].
  replace (e1 - (e - 60)) with (e1 - (e - 7) + 53) by lia. rewrite Z.pow_add_r by lia. lia.
Qed.

Lemma at_least_dollars c a : 0 < a -> 100 * a < c -> c < 2 ^ 40 ->
  PrimFloat.leb (number_of_Z a) (number_of_Z c / 100) = true.
Proof.
  intros Ha Hac Hc. destruct (dollars_value c) as (m1 & e1 & e & X & H1 & He & He1 & HX & N); [lia|].
  destruct (double_of_Z a) as (ma & ea & Da & Hea & Hma); [lia|].
  eapply (value_leb _ _ _ _ _ _ (e - 60)); [done..|lia|lia|].
  rewrite Hma, <- Z.mul_assoc, <- Z.pow_add_r by lia. replace (- ea + (ea - (e - 60))) with (53 - e + 7) by lia.
  rewrite Z.pow_add_r by lia. remember (2 ^ (53 - e)) as W. assert (0 < W) by (subst; apply Z.pow_pos_nonneg; lia).
  assert (100 * a * W <= X) by nia. lia.
Qed.

Lemma at_most_dollars c b : 0 < c < 100 * b -> b < 2 ^ 30 ->
  PrimFloat.leb (number_of_Z c / 100) (number_of_Z b) = true.
Proof.
  intros Hc Hb. destruct (dollars_value c) as (m1 & e1 & e & X & H1 & He & He1 & HX & N); [lia|].
  destruct (double_of_Z b) as (mb & eb & Db & Heb & Hmb); [lia|].
  eapply (value_leb _ _ _ _ _ _ (e - 60)); [done..|lia|lia|].
  rewrite Hmb, <- Z.mul_assoc, <- Z.pow_add_r by lia. replace (- eb + (eb - (e - 60))) with (53 - e + 7) by lia.
  rewrite Z.pow_add_r by lia. remember (2 ^ (53 - e)) as W. assert (0 < W) by (subst; apply Z.pow_pos_nonneg; lia).
  assert (X <= 100 * b * W) by nia. lia.
Qed.

(** ** Subtraction *)
Lemma iter_xO p d : Z.pos (Pos.iter xO p d) = Z.pos p * 2 ^ Z.pos d.
Proof.
  induction d as [|d IH] using Pos.peano_ind; [simpl; lia|].
  rewrite Pos2Z.inj_succ, Z.pow_succ_r, Pos.iter_succ by lia. lia.
Qed.

Lemma shl_align_value p e k : k <= e -> Z.pos (shl_align p e k).1 = Z.pos p * 2 ^ (e - k).
Proof.
  intros Hk. unfold shl_align. destruct (k - e) as [|d|d] eqn:Hd; simpl fst; [|lia|].
  - replace (e - k) with 0 by lia. lia.
  - rewrite iter_xO. do 2 f_equal. lia.
Qed.

Lemma binary_round_near s p e : -900 <= e -> Zdigits2 (Z.pos p) + e <= 900 ->
  exists m e' k, binary_round 53 1024 s p e = S754_finite s m e' /\ 2 ^ 52 <= Z.pos m < 2 ^ 53 /\
    e - 53 <= k <= e /\ k <= e' /\ Z.pos m * 2 ^ (e' - k) <= 2 * (Z.pos p * 2 ^ (e - k)).
Proof.
  intros He Hd. unfold binary_round. change (Z.pos (digits2_pos p)) with (Zdigits2 (Z.pos p)).
  pose proof (digits2_pos_bound p) as HD. assert (0 < Zdigits2 (Z.pos p)) as HD0 by (simpl; lia).
  remember (Zdigits2 (Z.pos p)) as D eqn:HDdef.
  assert (fexp 53 1024 (D + e) = D + e - 53) as -> by (unfold fexp, SpecFloat.emin; lia).
  set (k := Z.min e (D + e - 53)).
  assert (exists q, shl_align p e (D + e - 53) = (q, k) /\ Z.pos q = Z.pos p * 2 ^ (e - k)) as (q & -> & Hq).
  { destruct (decide (D + e - 53 <= e)) as [Hle|Hgt].
    - pose proof (shl_align_value p e (D + e - 53) Hle) as Hv. unfold shl_align in *.
      replace k with (D + e - 53) by lia.
      destruct (D + e - 53 - e) eqn:Hz; simpl in Hv; eexists; (split; [f_equal; lia|done]).
    - exists p. unfold shl_align. replace k with e by lia. rewrite Z.sub_diag, Z.mul_1_r.
      by destruct (D + e - 53 - e) eqn:Hz; [|..|lia]. }
  assert (2 ^ (D - 1) * 2 ^ (e - k) <= Z.pos q < 2 ^ D * 2 ^ (e - k)) as Hb.
  { rewrite Hq. assert (0 < 2 ^ (e - k)) by (apply Z.pow_pos_nonneg; lia). nia. }
  rewrite <- !Z.pow_add_r in Hb by lia.
  assert (Zdigits2 (Z.pos q) = D + (e - k)) as Hdq.
  { apply digits2_unique. by replace (D + (e - k) - 1) with (D - 1 + (e - k)) by lia. }
  destruct (round_aux_near s (Z.pos q) k loc_Exact (Z.pos q) 1) as (m & e' & Hr & Hm & Hk & Hn); [lia|lia| |rewrite Hdq; lia|].
  - etrans; [|apply Hb]. apply Z.pow_le_mono_r; lia.
  - exists m, e', k. split; [done|]. split; [done|]. split; [lia|]. split; [done|]. rewrite <- Hq. lia.
Qed.

(** Cents that came from a whole number pass the tolerance of the whole-cents test. *)
Lemma whole_cents c : 0 < c < 2 ^ 20 ->
  PrimFloat.ltb 0.000001 (PrimFloat.abs (number_of_Z c - number_of_Z c / 100 * 100)) = false.
Proof.
  intros Hc. destruct (hundred_near c) as (m & e & Y & Hy & He & HY & Hn); [lia|].
  destruct (double_of_Z c) as (mc & ec & Hx & Hec & Hmc); [lia|].
  set (y := (number_of_Z c / 100 * 100)%float) in *. clearbody y.
  destruct Hx as [Hx _], Hy as [Hy _].
  set (ez := Z.min ec e).
  pose proof (shl_align_value mc ec ez ltac:(lia)) as V1. pose proof (shl_align_value m e ez ltac:(lia)) as V2.
  rewrite Hmc, <- Z.mul_assoc, <- Z.pow_add_r in V1 by lia. replace (- ec + (ec - ez)) with (- ez) in V1 by lia.
  assert (Z.abs (c * 2 ^ (- ez) - Z.pos m * 2 ^ (e - ez)) * 2 ^ 50 <= c * 2 ^ (- ez)) as HD.
  { assert (Z.abs (Z.pos m - c * 2 ^ (- e)) * 2 ^ 50 <= c * 2 ^ (- e)) as H0.
    { replace (Z.pos m * Y - c * (2 ^ (- e) * Y)) with ((Z.pos m - c * 2 ^ (- e)) * Y) in Hn by lia.
      rewrite Z.abs_mul, (Z.abs_eq Y) in Hn by lia. nia. }
    assert (2 ^ (- ez) = 2 ^ (- e) * 2 ^ (e - ez)) as -> by (rewrite <- Z.pow_add_r by lia; f_equal; lia).
    remember (2 ^ (e - ez)) as F. assert (0 < F) by (subst; apply Z.pow_pos_nonneg; lia).
    replace (c * (2 ^ (- e) * F) - Z.pos m * F) with ((c * 2 ^ (- e) - Z.pos m) * F) by lia.
    rewrite Z.abs_mul, (Z.abs_eq F) by lia. nia. }
  assert (Prim2SF (PrimFloat.abs (number_of_Z c - y)) =
    SFabs (binary_normalize 53 1024 (c * 2 ^ (- ez) - Z.pos m * 2 ^ (e - ez)) ez false)) as Hsub.
  { rewrite FloatAxioms.abs_spec, FloatAxioms.sub_spec, Hx, Hy. unfold FloatAxioms.SF64sub, SFsub.
    fold ez. cbn [cond_Zopp]. by rewrite V1, V2. }
  remember (c * 2 ^ (- ez) - Z.pos m * 2 ^ (e - ez)) as d eqn:Hd.
  assert (d = 0 \/ exists s p, Z.abs d = Z.pos p /\ binary_normalize 53 1024 d ez false = binary_round 53 1024 s p ez)
    as [->|(s & p & Hp & HR)].
  { destruct d as [|p|p]; [by left|right; by exists false, p|right; by exists true, p]. }
  { rewrite FloatAxioms.ltb_spec, Hsub. by vm_compute. }
  rewrite Hp in HD.
  destruct (binary_round_near s p ez) as (m' & e' & k & Hr & Hm' & Hk & Hk' & Hv); [lia| |].
  { pose proof (digits2_pos_bound p) as [Hlo _]. assert (0 < Zdigits2 (Z.pos p)) by (simpl; lia).
    remember (Zdigits2 (Z.pos p)) as D.
    assert (2 ^ (- ez) <= 2 ^ 120) by (apply Z.pow_le_mono_r; lia).
    assert (D - 1 < 200); [|lia]. apply (Z.pow_lt_mono_r_iff 2); [lia..|]. 
    change (2 ^ 200) with (2 ^ 120 * 2 ^ 80). nia. }
  assert (double_of (PrimFloat.abs (number_of_Z c - y)) m' e') as Habs.
  { split; [|done]. by rewrite Hsub, HR, Hr. }
  assert (double_of 0.000001 4722366482869645 (-72)) as Heps by (by split; vm_compute).
  assert (PrimFloat.leb (PrimFloat.abs (number_of_Z c - y)) 0.000001 = true) as Hle.
  { eapply (value_leb _ _ _ _ _ _ (-300) Habs Heps); [lia|lia|].
    replace (e' - -300) with (e' - k + (k + 300)) by lia. rewrite Z.pow_add_r, Z.mul_assoc by lia.
    assert (2 ^ (ez - k) * 2 ^ (k + 300) = 2 ^ (ez + 300)) as E1 by (rewrite <- Z.pow_add_r by lia; f_equal; lia).
    assert (2 ^ (- ez) * 2 ^ (ez + 300) = 2 ^ 300) as E2 by (rewrite <- Z.pow_add_r by lia; f_equal; lia).
    remember (2 ^ (k + 300)) as K. assert (0 < K) by (subst; apply Z.pow_pos_nonneg; lia).
    remember (2 ^ (ez + 300)) as Z3. assert (0 < Z3) by (subst; apply Z.pow_pos_nonneg; lia).
    assert (Z.pos m' * 2 ^ (e' - k) * K <= 2 * (Z.pos p * Z3)) by (rewrite <- E1; nia).
    assert (Z.pos p * 2 ^ 50 * Z3 <= c * 2 ^ 300) by (rewrite <- E2; nia).
    assert (c * 2 ^ 300 <= 2 ^ 20 * 2 ^ 300) by nia.
    change (2 ^ 300) with (2 ^ 250 * 2 ^ 50) in *. change (-72 - -300) with 228.
    change (2 ^ 250) with (2 ^ 228 * 2 ^ 22) in *. lia. }
  by eapply leb_not_ltb.
Qed.
