(* ===== verification/Effects.v ===== *)
(** * Effectful programs

    The server code is asynchronous functions over external services: Supabase, Stripe, the
    mailer, the clock. [prog E Err A] is such a function: it returns, throws, or issues a command
    of [E] and continues with the service's answer. The services are not under [src/], so nothing
    is assumed of their answers: [spec] quantifies over all of them, and [run] executes a program
    against a concrete handler. [pool] interleaves several programs over one shared world, one
    command at a time, under an arbitrary schedule. *)

From S2P Require Import Prelude.

(** A set of commands with the type of each command's answer. *)
Record effects := Effects { cmd : Type; ans : cmd -> Type }.

Section prog.
Context (E : effects) (Err : Type).

Inductive prog (A : Type) : Type :=
| Ret (a : A)
| Throw (e : Err)
| Vis (c : cmd E) (k : ans E c -> prog A).

Inductive outcome (A : Type) : Type := Done (a : A) | Raised (e : Err).

Inductive event : Type := Ev (c : cmd E) (x : ans E c).
End prog.

Arguments Ret {E Err A} a.
Arguments Throw {E Err A} e.
Arguments Vis {E Err A} c k.
Arguments Done {Err A} a.
Arguments Raised {Err A} e.
Arguments Ev {E} c x.

Section operations.
Context {E : effects} {Err : Type}.

#[global] Instance prog_ret : MRet (prog E Err) := fun A a => Ret a.

#[global] Instance prog_bind : MBind (prog E Err) :=
  fun A B f =>
    fix go (p : prog E Err A) : prog E Err B :=
      match p with
      | Ret a => f a
      | Throw e => Throw e
      | Vis c k => Vis c (fun x => go (k x))
      end.

(** Issue a command and return its answer. *)
Definition call (c : cmd E) : prog E Err (ans E c) := Vis c Ret.

(** [try { p } catch (e) { h(e) }]. *)
Definition try_catch {A} (p : prog E Err A) (h : Err -> prog E Err A) : prog E Err A :=
  (fix go (p : prog E Err A) : prog E Err A :=
     match p with
     | Ret a => Ret a
     | Throw e => h e
     | Vis c k => Vis c (fun x => go (k x))
     end) p.

(** [for (const x of l) { s = body(s, x) }]. *)
Fixpoint for_of {S A} (body : S -> A -> prog E Err S) (l : list A) (s : S) : prog E Err S :=
  match l with
  | [] => Ret s
  | x :: l' => mbind (for_of body l') (body s x)
  end.

(** ** What every environment allows

    [spec I Q tr p]: starting after the events [tr], whatever the services answer, every command
    [p] issues satisfies [I] of the events before it, and every way [p] ends satisfies [Q] of all
    the events and the outcome. A program is a well-founded tree, so [spec] also says that [p]
    ends. *)
Fixpoint spec {A} (I : list (event E) -> cmd E -> Prop)
    (Q : list (event E) -> outcome Err A -> Prop) (tr : list (event E)) (p : prog E Err A) : Prop :=
  match p with
  | Ret a => Q tr (Done a)
  | Throw e => Q tr (Raised e)
  | Vis c k => I tr c /\ forall x, spec I Q (tr ++ [Ev c x]) (k x)
  end.

Implicit Types (I : list (event E) -> cmd E -> Prop) (tr : list (event E)).

Lemma spec_impl {A} I I' Q Q' tr (p : prog E Err A) :
  (forall tr c, I tr c -> I' tr c) -> (forall tr o, Q tr o -> Q' tr o) ->
  spec I Q tr p -> spec I' Q' tr p.
Proof.
  intros HI HQ. revert tr. induction p as [a|e|c k IH]; intros tr H; simpl in *; [auto..|].
  destruct H. split; auto.
Qed.

Lemma spec_and {A} I I' Q Q' tr (p : prog E Err A) :
  spec I Q tr p -> spec I' Q' tr p -> spec (fun tr c => I tr c /\ I' tr c) (fun tr o => Q tr o /\ Q' tr o) tr p.
Proof.
  revert tr. induction p as [a|e|c k IH]; intros tr H H'; simpl in *; [auto..|].
  destruct H as [Hc Hk], H' as [Hc' Hk']. split; [auto|]. intros x. by apply IH.
Qed.

Lemma spec_post {A} I Q Q' tr (p : prog E Err A) :
  spec I Q tr p -> (forall tr o, Q tr o -> Q' tr o) -> spec I Q' tr p.
Proof. intros H HQ. revert H. apply spec_impl; auto. Qed.

Lemma spec_bind {A B} I Q tr (p : prog E Err A) (f : A -> prog E Err B) :
  spec I Q tr (mbind f p) <->
  spec I (fun tr o => match o with Done a => spec I Q tr (f a) | Raised e => Q tr (Raised e) end)
    tr p.
Proof.
  revert tr. induction p as [a|e|c k IH]; intros tr; simpl; [done..|].
  split; intros [Hc Hk]; split; auto; intros x; apply IH, Hk.
Qed.

Lemma spec_try {A} I Q tr (p : prog E Err A) h :
  spec I Q tr (try_catch p h) <->
  spec I (fun tr o => match o with Done a => Q tr (Done a) | Raised e => spec I Q tr (h e) end)
    tr p.
Proof.
  revert tr. induction p as [a|e|c k IH]; intros tr; simpl; [done..|].
  split; intros [Hc Hk]; split; auto; intros x; apply IH, Hk.
Qed.

(** A program that asks nothing ends at once. *)
Lemma spec_end {A} tr (p : prog E Err A) : 
  spec (fun _ _ => False) (fun _ _ => True) tr p -> spec (fun _ _ => False) (fun tr' _ => tr' = tr) tr p.
Proof. destruct p; simpl; [done..|]. by intros []. Qed.

(** Nothing is asked of a program that nothing is asked of. *)
Lemma spec_any {A} tr (p : prog E Err A) : spec (fun _ _ => True) (fun _ _ => True) tr p.
Proof. revert tr. induction p; intros tr; simpl; auto. Qed.

(** The events only grow. *)
Lemma spec_prefix {A} I Q tr (p : prog E Err A) :
  spec I Q tr p -> spec I (fun tr' o => (exists q, tr' = tr ++ q) /\ Q tr' o) tr p.
Proof.
  revert tr. induction p as [a|e|c k IH]; intros tr H; simpl in *.
  1-2: split; [exists []; by rewrite app_nil_r|done].
  destruct H as [Hc Hk]. split; [done|]. intros x. eapply spec_post; [by apply IH|].
  intros tr' o [[q ->] HQ]. split; [|done]. exists (Ev c x :: q). by rewrite <- app_assoc.
Qed.

(** A loop keeps an invariant of the elements already visited. *)
Lemma spec_for_of {S A} I (R : list (event E) -> Err -> Prop)
    (Inv : list A -> list (event E) -> S -> Prop) (body : S -> A -> prog E Err S) l tr s :
  Inv [] tr s ->
  (forall pre x post tr s, l = pre ++ x :: post -> Inv pre tr s ->
    spec I (fun tr o => match o with
                        | Done s' => Inv (pre ++ [x]) tr s'
                        | Raised e => R tr e
                        end) tr (body s x)) ->
  spec I (fun tr o => match o with Done s' => Inv l tr s' | Raised e => R tr e end)
    tr (for_of body l s).
Proof.
  intros H0 Hstep.
  assert (forall post pre tr s, l = pre ++ post -> Inv pre tr s ->
    spec I (fun tr o => match o with Done s' => Inv l tr s' | Raised e => R tr e end)
      tr (for_of body post s)) as Hgen; [|by apply (Hgen l [])].
  clear H0 tr s. induction post as [|x post IH]; intros pre tr s Hl Hinv; simpl.
  { by rewrite Hl, app_nil_r. }
  apply spec_bind. eapply spec_post; [by eapply Hstep|].
  intros tr' [s'|e]; [|done]. apply IH. by rewrite Hl, <- app_assoc.
Qed.
End operations.

(** ** A program over fewer services is one over more *)
Section embed.
Context {E F : effects} {Err Err' : Type}.
Variables (inj : cmd E -> cmd F) (back : forall c, ans F (inj c) -> ans E c) (err : Err -> Err').

Fixpoint embed {A} (p : prog E Err A) : prog F Err' A :=
  match p with
  | Ret a => Ret a
  | Throw e => Throw (err e)
  | Vis c k => Vis (inj c) (fun x => embed (k (back c x)))
  end.

(** The smaller program's events among the larger's, as [view] reads them off, obey its
    specification. *)
Variable view : list (event F) -> list (event E).
Hypothesis view_snoc : forall tr c x, view (tr ++ [Ev (inj c) x]) = view tr ++ [Ev c (back c x)].

Definition embedded (e : event F) : Prop := exists c x, e = Ev (inj c) x.

Lemma spec_embed {A} (Ie : list (event E) -> cmd E -> Prop) Qe (I : list (event F) -> cmd F -> Prop)
    tr (p : prog E Err A) :
  (forall tr' c, Ie (view tr') c -> I tr' (inj c)) ->
  spec Ie Qe (view tr) p ->
  spec I (fun tr' o =>
    (exists q, tr' = tr ++ q /\ Forall embedded q) /\
    match o with
    | Done a => Qe (view tr') (Done a)
    | Raised e' => exists e, e' = err e /\ Qe (view tr') (Raised e)
    end) tr (embed p).
Proof.
  intros HI. revert tr. induction p as [a|e|c k IH]; intros tr H; simpl in *.
  - split; [exists []; by rewrite app_nil_r|done].
  - split; [exists []; by rewrite app_nil_r|eauto].
  - destruct H as [Hc Hk]. split; [auto|]. intros x. eapply spec_post.
    + apply IH. rewrite view_snoc. apply Hk.
    + intros tr' o [(q & -> & Hq) H]. split; [|done]. exists (Ev (inj c) x :: q).
      rewrite <- app_assoc. split; [done|]. constructor; [by eexists _, _|done].
Qed.
End embed.

(** ** Request-scoped caching

    A read wrapped in React's [cache] is asked once per request and answers the same from then on.
    [cached] runs a program that way: a cacheable command already in the log is answered from it. *)
Section cached.
Context {E : effects} {Err : Type} `{EqDecision (cmd E)} (cacheable : cmd E -> bool).

Fixpoint logged (l : list (event E)) (c : cmd E) : option (ans E c) :=
  match l with
  | [] => None
  | Ev c' x :: l' =>
      match decide (c' = c) with
      | left H => Some (eq_rect c' (ans E) x c H)
      | right _ => logged l' c
      end
  end.

Fixpoint cached_from {A} (l : list (event E)) (p : prog E Err A) : prog E Err A :=
  match p with
  | Ret a => Ret a
  | Throw e => Throw e
  | Vis c k =>
      if cacheable c then
        match logged l c with
        | Some x => cached_from l (k x)
        | None => Vis c (fun x => cached_from (Ev c x :: l) (k x))
        end
      else Vis c (fun x => cached_from l (k x))
  end.

Definition cached {A} (p : prog E Err A) : prog E Err A := cached_from [] p.

(** Repeated cacheable reads agree. *)
Definition coherent (tr : list (event E)) : Prop :=
  forall c x y, cacheable c = true -> Ev c x ∈ tr -> Ev c y ∈ tr -> x = y.

Lemma logged_Some l c x : logged l c = Some x -> Ev c x ∈ l.
Proof.
  induction l as [|[c' y] l IH]; simpl; [done|]. destruct (decide (c' = c)) as [->|].
  - intros [=<-]. left.
  - intros H. right. auto.
Qed.

Lemma logged_None l c x : logged l c = None -> Ev c x ∉ l.
Proof.
  induction l as [|[c' y] l IH]; simpl; intros H Hin; [by apply elem_of_nil in Hin|].
  destruct (decide (c' = c)) as [->|Hne]; [done|].
  apply elem_of_cons in Hin as [Hin|Hin]; [|by apply IH].
  apply Hne. exact (f_equal (fun e => match e with Ev c _ => c end) (eq_sym Hin)).
Qed.

Lemma Ev_cmd (c c' : cmd E) x y : Ev c x = Ev c' y -> c = c'.
Proof. intros H. exact (f_equal (fun e : event E => match e with Ev c _ => c end) H). Qed.

Lemma Ev_inj (c : cmd E) x y : Ev c x = Ev c y -> x = y.
Proof.
  intros H. apply (f_equal (fun e => logged [e] c)) in H. simpl in H.
  by rewrite decide_True_pi with (HP := eq_refl) in H; injection H.
Qed.

Lemma coherent_snoc tr c x :
  coherent tr -> (cacheable c = true -> forall y, Ev c y ∈ tr -> y = x) -> coherent (tr ++ [Ev c x]).
Proof.
  intros Hco Hx c' y z Hc'. rewrite !elem_of_app, !list_elem_of_singleton.
  intros [Hy|Hy] [Hz|Hz]; [by eapply Hco| | |].
  - pose proof (Ev_cmd _ _ _ _ Hz) as ->. apply Ev_inj in Hz as ->. by apply Hx.
  - pose proof (Ev_cmd _ _ _ _ Hy) as ->. apply Ev_inj in Hy as ->. symmetry. by apply Hx.
  - apply (Ev_inj c'). congruence.
Qed.

(** The events that are not cacheable, in order. *)
Definition uncached (tr : list (event E)) : list (event E) :=
  filter (fun e => cacheable match e with Ev c _ => c end = false) tr.

Lemma uncached_snoc tr e : uncached (tr ++ [e]) = uncached tr ++ uncached [e].
Proof. apply filter_app. Qed.

Lemma uncached_hit c x : cacheable c = true -> uncached [Ev c x] = [].
Proof. intros Hc. unfold uncached. by rewrite filter_cons, decide_False by congruence. Qed.

(** What every coherent environment allows a program, every environment allows it cached. The
    statement must depend on the set of events and the order of the uncacheable ones only: a cached
    program repeats no cacheable read. *)
Lemma spec_cached_order {A} (I : list (event E) -> cmd E -> Prop) Q (p : prog E Err A) :
  (forall tr tr' c, (forall e, e ∈ tr <-> e ∈ tr') -> uncached tr = uncached tr' -> I tr c -> I tr' c) ->
  (forall tr tr' o, (forall e, e ∈ tr <-> e ∈ tr') -> uncached tr = uncached tr' -> Q tr o -> Q tr' o) ->
  spec (fun tr c => coherent tr -> I tr c) (fun tr o => coherent tr -> Q tr o) [] p ->
  spec I Q [] (cached p).
Proof.
  intros HI HQ. unfold cached.
  assert (forall l vtr tr, (forall e, e ∈ vtr <-> e ∈ tr) -> uncached vtr = uncached tr -> coherent vtr ->
    (forall c x, cacheable c = true -> Ev c x ∈ vtr <-> Ev c x ∈ l) ->
    spec (fun tr c => coherent tr -> I tr c) (fun tr o => coherent tr -> Q tr o) vtr p ->
    spec I Q tr (cached_from l p)) as Hgen.
  2: { apply Hgen; [done|done|by intros ???? H%elem_of_nil|done]. }
  induction p as [a|e|c k IH]; intros l vtr tr Htr Hun Hco Hl H; simpl in *; [by eapply HQ, H..|].
  destruct H as [Hc Hk].
  assert (forall x e, e ∈ vtr ++ [Ev c x] <-> e ∈ tr ++ [Ev c x]) as Hnext.
  { intros x e. by rewrite !elem_of_app, Htr. }
  assert (forall x, uncached (vtr ++ [Ev c x]) = uncached (tr ++ [Ev c x])) as Hunext.
  { intros x. by rewrite !uncached_snoc, Hun. }
  destruct (cacheable c) eqn:Hcache; [destruct (logged l c) as [x|] eqn:Hx|].
  - assert (Ev c x ∈ vtr) as Hin by (by apply Hl, logged_Some).
    apply (IH x l (vtr ++ [Ev c x])); [| | | |apply Hk].
    + intros e. rewrite elem_of_app, list_elem_of_singleton, <- Htr. naive_solver.
    + by rewrite uncached_snoc, uncached_hit, app_nil_r.
    + apply coherent_snoc; [done|]. intros _ y Hy. by eapply Hco.
    + intros c' y Hc'. rewrite elem_of_app, list_elem_of_singleton, <- Hl by done.
      split; [|by left]. intros [?|Hy]; [done|]. pose proof (Ev_cmd _ _ _ _ Hy) as ->.
      by apply Ev_inj in Hy as ->.
  - split; [by eapply HI, Hc|]. intros x. apply (IH x _ (vtr ++ [Ev c x])); [done|done| | |apply Hk].
    + apply coherent_snoc; [done|]. intros _ y Hy%Hl; [|done]. by destruct (logged_None _ _ y Hx).
    + intros c' y Hc'. rewrite elem_of_app, list_elem_of_singleton, elem_of_cons, Hl by done. tauto.
  - split; [by eapply HI, Hc|]. intros x. apply (IH x l (vtr ++ [Ev c x])); [done|done| | |apply Hk].
    + apply coherent_snoc; [done|congruence].
    + intros c' y Hc'. rewrite elem_of_app, list_elem_of_singleton, <- Hl by done.
      split; [|by left]. intros [?|Hy]; [done|]. apply Ev_cmd in Hy. congruence.
Qed.

Lemma spec_cached {A} (I : list (event E) -> cmd E -> Prop) Q (p : prog E Err A) :
  (forall tr tr' c, (forall e, e ∈ tr <-> e ∈ tr') -> I tr c -> I tr' c) ->
  (forall tr tr' o, (forall e, e ∈ tr <-> e ∈ tr') -> Q tr o -> Q tr' o) ->
  spec (fun tr c => coherent tr -> I tr c) (fun tr o => coherent tr -> Q tr o) [] p ->
  spec I Q [] (cached p).
Proof. intros HI HQ. apply spec_cached_order; intros tr tr' x H _; [apply HI|apply HQ]; done. Qed.
End cached.

(** Execute a program symbolically: take the answer of each command and split on what the code
    tests. [exec_step] leaves a command's licence as a goal unless it is trivial. *)
Ltac exec_step :=
  lazymatch goal with
  | |- spec _ _ _ ?p =>
      match p with
      | context [match ?x with _ => _ end] => destruct x eqn:?
      end
  | |- _ /\ forall _, _ => split; [try exact Logic.I|intros ?]
  end.

Ltac exec_cbn := cbn [mbind prog_bind mret prog_ret call try_catch embed spec].
Ltac exec := exec_cbn; repeat (exec_step; exec_cbn).

(** Find an event among those of a symbolic execution. *)
Ltac in_trace :=
  first
  [ assumption
  | apply elem_of_app; right; apply elem_of_cons; left; reflexivity
  | apply elem_of_app; left; in_trace ].

(** ** Concrete environments *)
Section run.
Context {E : effects} {Err W : Type}.

(** A handler answers every command and updates the world. *)
Definition handler := W -> forall c : cmd E, W * ans E c.

Variable h : handler.

Fixpoint run {A} (p : prog E Err A) (w : W) : outcome Err A * list (event E) * W :=
  match p with
  | Ret a => (Done a, [], w)
  | Throw e => (Raised e, [], w)
  | Vis c k =>
      let '(w1, x) := h w c in
      let '(o, tr, w2) := run (k x) w1 in
      (o, Ev c x :: tr, w2)
  end.

Lemma spec_run {A} I Q tr (p : prog E Err A) w :
  spec I Q tr p -> Q (tr ++ (run p w).1.2) (run p w).1.1.
Proof.
  revert tr w. induction p as [a|e|c k IH]; intros tr w H; simpl in *; [by rewrite app_nil_r..|].
  destruct H as [_ H]. destruct (h w c) as [w1 x]. specialize (IH x (tr ++ [Ev c x]) w1 (H x)).
  destruct (run (k x) w1) as [[o tr'] w2]. simpl in *. by rewrite <- app_assoc in IH.
Qed.

(** Every command of a run was licensed by the events before it. *)
Lemma spec_run_licensed {A} I Q tr0 (p : prog E Err A) w pre c x post :
  spec I Q tr0 p -> (run p w).1.2 = pre ++ Ev c x :: post -> I (tr0 ++ pre) c.
Proof.
  revert tr0 w pre. induction p as [a|e|c0 k IH]; intros tr0 w pre H Hrun; simpl in *.
  1-2: by destruct pre.
  destruct H as [Hc Hk]. destruct (h w c0) as [w1 y] eqn:Hh. specialize (IH y (tr0 ++ [Ev c0 y]) w1).
  destruct (run (k y) w1) as [[o tr] w2]. destruct pre as [|e pre]; simpl in *.
  - injection Hrun as He _. rewrite app_nil_r. by subst c.
  - injection Hrun as <- Hrun. specialize (IH pre (Hk y) Hrun). by rewrite <- app_assoc in IH.
Qed.

(** The events of a run are the handler's answers, world after world. *)
Fixpoint follows (w : W) (tr : list (event E)) (w' : W) : Prop :=
  match tr with
  | [] => w' = w
  | Ev c x :: tr' => (h w c).2 = x /\ follows (h w c).1 tr' w'
  end.

Lemma run_follows {A} (p : prog E Err A) w : follows w (run p w).1.2 (run p w).2.
Proof.
  revert w. induction p as [a|e|c k IH]; intros w; simpl; [done..|].
  destruct (h w c) as [w1 x] eqn:Hc. specialize (IH x w1).
  destruct (run (k x) w1) as [[o tr] w2]. simpl in *. by rewrite Hc.
Qed.

Lemma follows_app w tr1 tr2 w' :
  follows w (tr1 ++ tr2) w' <-> exists w1, follows w tr1 w1 /\ follows w1 tr2 w'.
Proof.
  revert w. induction tr1 as [|[c x] tr1 IH]; intros w; simpl; [naive_solver|].
  rewrite IH. naive_solver.
Qed.

(** Every event of a run is an answer of the handler in some world. *)
Lemma follows_answer w tr w' c x : follows w tr w' -> Ev c x ∈ tr -> exists w1, (h w1 c).2 = x.
Proof.
  intros Hf Hin. apply list_elem_of_split in Hin as (tr1 & tr2 & ->).
  apply follows_app in Hf as (w1 & _ & Hf). simpl in Hf. naive_solver.
Qed.

(** What every licensed command keeps, a run keeps. *)
Lemma run_keeps {A} I Q (p : prog E Err A) (Inv : W -> Prop) w :
  spec I Q [] p -> Inv w ->
  (forall pre w1 c, follows w pre w1 -> I pre c -> Inv w1 -> Inv (h w1 c).1) -> Inv (run p w).2.
Proof.
  intros Hp H0 Hstep. enough (forall pre w1, follows w pre w1 -> Inv w1 -> spec I Q pre p -> Inv (run p w1).2) as H
    by (by apply (H [])).
  clear Hp H0. induction p as [a|e|c k IH]; intros pre w1 Hf Hw Hp; simpl in *; [done..|].
  destruct Hp as [Hc Hk]. specialize (Hstep pre w1 c Hf Hc Hw). destruct (h w1 c) as [w2 x] eqn:Hh.
  specialize (IH x (pre ++ [Ev c x]) w2). destruct (run (k x) w2) as [[o tr] w3]. apply IH; [|done|apply Hk].
  apply follows_app. exists w1. split; [done|]. simpl. by rewrite Hh.
Qed.

Lemma run_bind {A B} (p : prog E Err A) (f : A -> prog E Err B) w :
  run (mbind f p) w =
    let '(o, tr, w1) := run p w in
    match o with
    | Done a => let '(o', tr', w2) := run (f a) w1 in (o', tr ++ tr', w2)
    | Raised e => (Raised e, tr, w1)
    end.
Proof.
  revert w. induction p as [a|e|c k IH]; intros w; simpl.
  - by destruct (run (f a) w) as [[? ?] ?].
  - done.
  - destruct (h w c) as [w1 x]. change (prog_bind A B f (k x)) with (mbind f (k x)).
    rewrite IH. destruct (run (k x) w1) as [[[a|e] tr] w2]; [|done].
    by destruct (run (f a) w2) as [[? ?] ?].
Qed.

Lemma run_try {A} (p : prog E Err A) (hd : Err -> prog E Err A) w :
  run (try_catch p hd) w =
    let '(o, tr, w1) := run p w in
    match o with
    | Done a => (Done a, tr, w1)
    | Raised e => let '(o', tr', w2) := run (hd e) w1 in (o', tr ++ tr', w2)
    end.
Proof.
  revert w. induction p as [a|e|c k IH]; intros w; simpl.
  - done.
  - by destruct (run (hd e) w) as [[? ?] ?].
  - destruct (h w c) as [w1 x].
    match goal with |- context [run ?q w1] => change q with (try_catch (k x) hd) end. rewrite IH.
    destruct (run (k x) w1) as [[[a|e] tr] w2]; [done|]. by destruct (run (hd e) w2) as [[? ?] ?].
Qed.

(** How a run ends and what it leaves, whatever it issues. *)
Definition runs {A} (p : prog E Err A) (w : W) (o : outcome Err A) (w' : W) : Prop :=
  exists tr, run p w = (o, tr, w').

Lemma runs_ret {A} (a : A) w : runs (Ret a) w (Done a) w.
Proof. by eexists. Qed.

Lemma runs_vis {A} (c : cmd E) (k : ans E c -> prog E Err A) w o w' :
  runs (k (h w c).2) (h w c).1 o w' -> runs (Vis c k) w o w'.
Proof.
  intros [tr Hr]. exists (Ev c (h w c).2 :: tr). simpl. destruct (h w c) as [w1 x]. simpl in *. by rewrite Hr.
Qed.

Lemma runs_bind {A B} (p : prog E Err A) (f : A -> prog E Err B) w a w1 o w2 :
  runs p w (Done a) w1 -> runs (f a) w1 o w2 -> runs (mbind f p) w o w2.
Proof. intros [tr Hp] [tr' Hf]. eexists. rewrite run_bind, Hp, Hf. done. Qed.

Lemma runs_try {A} (p : prog E Err A) hd w a w1 : runs p w (Done a) w1 -> runs (try_catch p hd) w (Done a) w1.
Proof. intros [tr Hp]. eexists. by rewrite run_try, Hp. Qed.
End run.

Arguments handler : clear implicits.

(** ** Interleavings

    One step of thread [i] runs its next command against the shared world. A schedule is the
    list of threads that move; a thread that has ended (or does not exist) ignores its turn. *)
Section pool.
Context {E : effects} {Err W A : Type}.
Variable h : handler E W.

Definition thread_step (w : W) (p : prog E Err A) : W * prog E Err A :=
  match p with
  | Vis c k => let '(w1, x) := h w c in (w1, k x)
  | _ => (w, p)
  end.

Definition pool_step (st : W * list (prog E Err A)) (i : nat) : W * list (prog E Err A) :=
  match st.2 !! i with
  | Some p => let '(w1, p1) := thread_step st.1 p in (w1, <[i := p1]> st.2)
  | None => st
  end.

Definition pool (st : W * list (prog E Err A)) (sched : list nat) : W * list (prog E Err A) :=
  foldl pool_step st sched.

(** An invariant of every step holds after every schedule. *)
Lemma pool_invariant (J : W * list (prog E Err A) -> Prop) st sched :
  J st ->
  (forall w ts i p, J (w, ts) -> ts !! i = Some p ->
    J ((thread_step w p).1, <[i := (thread_step w p).2]> ts)) ->
  J (pool st sched).
Proof.
  intros H0 Hstep. unfold pool. revert st H0.
  induction sched as [|i sched IH]; intros st H0; simpl; [done|].
  apply IH. unfold pool_step. destruct st as [w ts]; simpl. destruct (ts !! i) as [p|] eqn:Hi; [|done].
  specialize (Hstep w ts i p H0 Hi). by destruct (thread_step w p).
Qed.

(** *** Something taken once

    [won e]: the event takes it, which no event does after one that did. Of several threads, each
    within its specification, at most one took it, and one did when it is taken at the end and was not. *)
Section taken.
Context (won : event E -> bool) (taken : W -> Prop) (answers : event E -> Prop).
Hypothesis takes : forall w c, won (Ev c (h w c).2) = true -> ~ taken w /\ taken (h w c).1.
Hypothesis stays : forall w c, won (Ev c (h w c).2) = false -> taken (h w c).1 <-> taken w.
Hypothesis answered_by : forall w c, answers (Ev c (h w c).2).

Definition winner (hs : list (list (event E))) (i : nat) : Prop := exists tr e, hs !! i = Some tr /\ e ∈ tr /\ won e = true.

Lemma winner_snoc hs i tr e j : hs !! i = Some tr ->
  winner (<[i := tr ++ [e]]> hs) j <-> winner hs j \/ (j = i /\ won e = true).
Proof.
  intros Hi. unfold winner. destruct (decide (j = i)) as [->|Hj].
  - rewrite list_lookup_insert_eq by (by eapply lookup_lt_Some). split.
    + intros (tr' & e' & [= <-] & [He|He%list_elem_of_singleton]%elem_of_app & Hw); [left; eauto 6|right; by subst].
    + intros [(tr' & e' & Hi' & He & Hw)|[_ Hw]].
      * rewrite Hi in Hi'. injection Hi' as <-. exists (tr ++ [e]), e'. split; [done|]. split; [apply elem_of_app; by left|done].
      * exists (tr ++ [e]), e. split; [done|]. split; [apply elem_of_app; right; left|done].
  - rewrite list_lookup_insert_ne by done. naive_solver.
Qed.

Lemma pool_takes_once I Q w ts sched :
  Forall (spec (A := A) I Q []) ts ->
  exists hs, Forall2 (spec I Q) hs (pool (w, ts) sched).2 /\ Forall (Forall answers) hs /\
    (forall i j, winner hs i -> winner hs j -> i = j) /\
    (taken (pool (w, ts) sched).1 <-> taken w \/ exists i, winner hs i).
Proof.
  intros Hts. apply (pool_invariant (fun st => exists hs, Forall2 (spec I Q) hs st.2 /\ Forall (Forall answers) hs /\
    (forall i j, winner hs i -> winner hs j -> i = j) /\ (taken st.1 <-> taken w \/ exists i, winner hs i))).
  - assert (forall i, ~ winner (replicate (length ts) []) i) as Hno.
    { intros i (tr & e & [-> _]%lookup_replicate & He & _). by apply elem_of_nil in He. }
    exists (replicate (length ts) []). split; [by apply Forall2_replicate_l; [|done]|].
    split; [by apply Forall_replicate|]. split; [intros i j Hi; by destruct (Hno i)|]. naive_solver.
  - intros w1 ts1 i p (hs & Hsp & Han & Hone & Hall) Hi. simpl in *.
    destruct (Forall2_lookup_r _ _ _ _ _ Hsp Hi) as (tr & Htr & Hp).
    destruct p as [a|e|c k]; simpl; [by exists hs; rewrite list_insert_id..|].
    destruct (h w1 c) as [w2 x] eqn:Hh. simpl. exists (<[i := tr ++ [Ev c x]]> hs).
    pose proof (takes w1 c) as Ht. pose proof (stays w1 c) as Hs. pose proof (answered_by w1 c) as Ha.
    rewrite Hh in Ht, Hs, Ha. simpl in Ht, Hs, Ha.
    split; [by apply Forall2_insert; [|apply Hp]|].
    split. { apply Forall_insert; [done|]. apply Forall_app. split; [by eapply Forall_lookup_1|by constructor]. }
    pose proof (winner_snoc hs i tr (Ev c x)) as Hw. split.
    + intros j1 j2 H1%Hw H2%Hw; [|done..]. destruct H1 as [H1|[-> H1]], H2 as [H2|[-> H2]]; [by apply Hone| | |done];
        exfalso; apply Ht; [done| |done|]; apply Hall; right; eauto.
    + destruct (won (Ev c x)) eqn:Hc.
      * split; [|by intros _; apply Ht]. intros _. right. exists i. apply Hw; auto.
      * rewrite Hs, Hall by done. f_equiv. split; intros [j Hj]; exists j; [apply Hw; auto|].
        apply Hw in Hj; [|done]. by destruct Hj as [Hj|[_ Hj]].
Qed.
End taken.
End pool.
