(* ===== verification/Url.v ===== *)
(** * URLs: percent-encoding, query strings, request paths

    [encodeURIComponent]/[decodeURIComponent], [URLSearchParams], and the template literals the
    data source builds its paths from. Strings are UTF-8 bytes, which is what the encoders escape.
    [path_segments] reads a template's path without looking inside the encoded arguments;
    [render_segments] is the theorem that the rendered URL has exactly those segments. *)

From S2P Require Import Prelude JsMap JsString.

#[local] Open Scope N_scope.

(** ** Percent-encoding *)
Definition hex_digit (n : N) : ascii := ascii_of_N (if decide (n < 10) then 48 + n else 55 + n).

Definition hex_value (a : ascii) : option N :=
  let n := N_of_ascii a in
  if decide (48 <= n <= 57) then Some (n - 48)
  else if decide (65 <= n <= 70) then Some (n - 55)
  else if decide (97 <= n <= 102) then Some (n - 87)
  else None.

Definition pct (a : ascii) (s : string) : string :=
  String "%" (String (hex_digit (N_of_ascii a / 16)) (String (hex_digit (N_of_ascii a mod 16)) s)).

(** Escape every character that is not kept. *)
Fixpoint escape (keep : ascii -> bool) (s : string) : string :=
  match s with
  | EmptyString => EmptyString
  | String a s' => if keep a then String a (escape keep s') else pct a (escape keep s')
  end.

Definition alnum (a : ascii) : bool :=
  let n := N_of_ascii a in
  bool_decide (48 <= n <= 57 \/ 65 <= n <= 90 \/ 97 <= n <= 122).

Definition unreserved (a : ascii) : bool := alnum a || includes_char a "-_.!~*'()".

Definition encodeURIComponent (s : string) : string := escape unreserved s.

(** [None] is the [URIError] of a malformed escape. *)
Fixpoint decodeURIComponent (s : string) : option string :=
  match s with
  | EmptyString => Some EmptyString
  | String "%" (String h (String l s')) =>
      match hex_value h, hex_value l, decodeURIComponent s' with
      | Some x, Some y, Some t => Some (String (ascii_of_N (16 * x + y)) t)
      | _, _, _ => None
      end
  | String "%" _ => None
  | String a s' => match decodeURIComponent s' with Some t => Some (String a t) | None => None end
  end.

(** ** [application/x-www-form-urlencoded] *)
Definition form_keep (a : ascii) : bool := alnum a || includes_char a "*-._".

Fixpoint form_encode (s : string) : string :=
  match s with
  | EmptyString => EmptyString
  | String " " s' => String "+" (form_encode s')
  | String a s' => if form_keep a then String a (form_encode s') else pct a (form_encode s')
  end.

(** A malformed escape is kept as it is. *)
Fixpoint form_decode (s : string) : string :=
  match s with
  | EmptyString => EmptyString
  | String "+" s' => String " " (form_decode s')
  | String "%" (String h (String l s') as t) =>
      match hex_value h, hex_value l with
      | Some x, Some y => String (ascii_of_N (16 * x + y)) (form_decode s')
      | _, _ => String "%" (form_decode t)
      end
  | String a s' => String a (form_decode s')
  end.

Definition params := list (string * string).

Definition params_get (ps : params) (k : string) : option string := mget ps k.

(** [params.set(k, v)]: the first occurrence takes the value, later ones go. *)
Fixpoint params_set (ps : params) (k v : string) : params :=
  match ps with
  | [] => [(k, v)]
  | (k', v') :: ps' =>
      if decide (k' = k) then (k, v) :: List.filter (fun p => negb (bool_decide (p.1 = k))) ps'
      else (k', v') :: params_set ps' k v
  end.

Definition param_string (p : string * string) : string :=
  form_encode p.1 +:+ "=" +:+ form_encode p.2.

Definition params_string (ps : params) : string := join "&" (map param_string ps).

Definition param_parse (s : string) : option (string * string) :=
  if truthy s then
    match cut "=" s with
    | Some (k, v) => Some (form_decode k, form_decode v)
    | None => Some (form_decode s, EmptyString)
    end
  else None.

(** [new URLSearchParams(s)]. *)
Definition params_parse (s : string) : params := omap param_parse (split_on "&" (strip_first "?" s)).

(** ** Lemmas: the encoders *)
Lemma N_of_ascii_bound a : N_of_ascii a < 256.
Proof. apply N_ascii_bounded. Qed.

Lemma hex_value_digit n : n < 16 -> hex_value (hex_digit n) = Some n.
Proof.
  intros Hn. unfold hex_value, hex_digit.
  rewrite N_ascii_embedding by (case_decide; lia).
  repeat case_decide; try lia; f_equal; lia.
Qed.

Lemma pct_value a : ascii_of_N (16 * (N_of_ascii a / 16) + N_of_ascii a mod 16) = a.
Proof. rewrite <- N.div_mod by lia. apply ascii_N_embedding. Qed.

Lemma decode_pct a s :
  decodeURIComponent (pct a s) =
    match decodeURIComponent s with Some t => Some (String a t) | None => None end.
Proof.
  unfold pct. cbn [decodeURIComponent]. pose proof (N_of_ascii_bound a).
  rewrite !hex_value_digit by (first [apply N.mod_lt | apply N.Div0.div_lt_upper_bound]; lia).
  by rewrite pct_value.
Qed.

Lemma form_decode_pct a s : form_decode (pct a s) = String a (form_decode s).
Proof.
  unfold pct. cbn [form_decode]. pose proof (N_of_ascii_bound a).
  rewrite !hex_value_digit by (first [apply N.mod_lt | apply N.Div0.div_lt_upper_bound]; lia).
  by rewrite pct_value.
Qed.

(** A character other than the escape character decodes to itself. *)
Lemma decode_char a s :
  a <> "%"%char ->
  decodeURIComponent (String a s) =
    match decodeURIComponent s with Some t => Some (String a t) | None => None end.
Proof. intros Ha. destruct a as [[] [] [] [] [] [] [] []]; done. Qed.

Lemma form_decode_char a s :
  a <> "%"%char -> a <> "+"%char -> form_decode (String a s) = String a (form_decode s).
Proof. intros H1 H2. destruct a as [[] [] [] [] [] [] [] []]; done. Qed.

Theorem decode_encode s : decodeURIComponent (encodeURIComponent s) = Some s.
Proof.
  unfold encodeURIComponent. induction s as [|a s IH]; [done|]. cbn [escape].
  destruct (unreserved a) eqn:Ha; [|by rewrite decode_pct, IH].
  rewrite decode_char by (by intros ->). by rewrite IH.
Qed.

Lemma encode_inj s t : encodeURIComponent s = encodeURIComponent t -> s = t.
Proof. intros H. apply (f_equal decodeURIComponent) in H. rewrite !decode_encode in H. congruence. Qed.

Lemma form_encode_cons a s :
  form_encode (String a s) =
    if bool_decide (a = " "%char) then String "+" (form_encode s)
    else if form_keep a then String a (form_encode s) else pct a (form_encode s).
Proof. destruct a as [[] [] [] [] [] [] [] []]; done. Qed.

Theorem form_decode_encode s : form_decode (form_encode s) = s.
Proof.
  induction s as [|a s IH]; [done|]. rewrite form_encode_cons.
  case_bool_decide as Ha; [subst; cbn [form_decode]; by rewrite IH|].
  destruct (form_keep a) eqn:Hk; [|by rewrite form_decode_pct, IH].
  rewrite form_decode_char by (by intros ->). by rewrite IH.
Qed.

(** A reserved character never appears in what the encoders write. *)
Definition plain (c : ascii) : bool :=
  negb (bool_decide (c = "%"%char)) && negb (bool_decide (c = "+"%char)) &&
  bool_decide (hex_value c = None).

Lemma hex_digit_plain c n : n < 16 -> plain c = true -> hex_digit n <> c.
Proof.
  intros Hn Hc <-. unfold plain in Hc. bool_simpl. rewrite hex_value_digit in * by done. done.
Qed.

Lemma includes_pct c a s : plain c = true -> includes_char c (pct a s) = includes_char c s.
Proof.
  intros Hc. unfold pct. cbn [includes_char]. pose proof (N_of_ascii_bound a).
  rewrite !bool_decide_false; [done|..].
  - apply hex_digit_plain; [apply N.mod_lt; lia|done].
  - apply hex_digit_plain; [apply N.Div0.div_lt_upper_bound; lia|done].
  - intros <-. done.
Qed.

Lemma includes_escape keep c s :
  plain c = true -> keep c = false -> includes_char c (escape keep s) = false.
Proof.
  intros Hc Hk. induction s as [|a s IH]; cbn [escape]; [done|].
  destruct (keep a) eqn:Ha; [|by rewrite includes_pct].
  cbn [includes_char]. rewrite bool_decide_false by congruence. done.
Qed.

Lemma includes_form c s :
  plain c = true -> form_keep c = false -> includes_char c (form_encode s) = false.
Proof.
  intros Hc Hk. induction s as [|a s IH]; [done|]. rewrite form_encode_cons.
  case_bool_decide as Ha.
  - cbn [includes_char]. rewrite bool_decide_false; [done|]. intros <-. done.
  - destruct (form_keep a) eqn:Hka; [|by rewrite includes_pct].
    cbn [includes_char]. rewrite bool_decide_false by congruence. done.
Qed.

(** ** Query strings *)
Lemma split_on_char c s t :
  includes_char c s = false -> split_on c (s +:+ String c t) = s :: split_on c t.
Proof.
  induction s as [|a s IH]; cbn [includes_char String.append split_on]; intros H.
  - by rewrite decide_True.
  - bool_simpl. rewrite decide_False by done. by rewrite IH.
Qed.

Lemma split_on_join c l :
  l <> [] -> Forall (fun s => includes_char c s = false) l ->
  split_on c (join (String c EmptyString) l) = l.
Proof.
  intros Hne Hl. induction Hl as [|s l Hs Hl IH]; [done|].
  destruct l as [|s' l]; [by apply split_on_free|].
  change (join _ (s :: s' :: l)) with (s +:+ String c (join (String c EmptyString) (s' :: l))).
  rewrite split_on_char by done. by rewrite IH.
Qed.

Lemma cut_app c s t : includes_char c s = false -> cut c (s +:+ String c t) = Some (s, t).
Proof.
  induction s as [|a s IH]; cbn [includes_char String.append cut]; intros H.
  - by rewrite decide_True.
  - bool_simpl. rewrite decide_False by done. by rewrite IH.
Qed.

Lemma param_string_free p : includes_char "&" (param_string p) = false.
Proof.
  unfold param_string. rewrite !includes_char_append.
  by rewrite !includes_form by done.
Qed.

Lemma param_parse_string p : param_parse (param_string p) = Some p.
Proof.
  destruct p as [k v]. unfold param_parse, param_string. cbn [fst snd].
  unfold truthy. rewrite bool_decide_true by (by destruct (form_encode k)).
  change ("=" +:+ form_encode v) with (String "=" (form_encode v)).
  rewrite cut_app by (by apply includes_form). by rewrite !form_decode_encode.
Qed.

(** A query string never starts with a question mark. *)
Lemma params_string_no_mark ps : strip_first "?" (params_string ps) = params_string ps.
Proof.
  destruct ps as [|p ps]; [done|]. unfold params_string.
  assert (exists a s, join "&" (map param_string (p :: ps)) = String a s /\ a <> "?"%char)
    as (a & s & -> & Ha).
  2: { unfold strip_first. by rewrite decide_False. }
  assert (includes_char "?" (param_string p) = false) as Hq.
  { unfold param_string. rewrite !includes_char_append. by rewrite !includes_form by done. }
  assert (param_string p <> EmptyString) as Hne
    by (unfold param_string; by destruct (form_encode p.1)).
  destruct (param_string p) as [|a s] eqn:Hp; [done|]. cbn [includes_char] in Hq. bool_simpl.
  cbn [map]. rewrite Hp. destruct ps; cbn [map join]; eexists a, _; done.
Qed.

(** A query string reads back as the parameters it was written from. *)
Theorem params_roundtrip ps : params_parse (params_string ps) = ps.
Proof.
  unfold params_parse. rewrite params_string_no_mark. unfold params_string.
  destruct ps as [|p ps]; [done|]. rewrite split_on_join; [|done|].
  - generalize (p :: ps) as l. induction l as [|q l IH]; [done|].
    cbn [map]. rewrite <- IH at 2. unfold omap; cbn [list_omap]. by rewrite param_parse_string.
  - apply Forall_map, Forall_true. intros q. apply param_string_free.
Qed.

(** So does the query part of a URL, its question mark included. *)
Lemma params_roundtrip_mark ps : params_parse ("?" +:+ params_string ps) = ps.
Proof.
  rewrite <- (params_roundtrip ps) at 2. unfold params_parse. by rewrite params_string_no_mark.
Qed.

(** ** Request paths

    A template literal is a list of pieces: its literal text, [${encodeURIComponent(x)}], and other
    interpolations (query strings, enumerations). *)
Inductive piece := Lit (s : string) | Enc (x : string) | Raw (s : string).

Definition render_piece (p : piece) : string :=
  match p with Lit s | Raw s => s | Enc x => encodeURIComponent x end.

Definition render (t : list piece) : string := foldr (fun p s => render_piece p +:+ s) EmptyString t.

(** Characters of the template, with each encoded argument as one token. *)
Inductive token := Chr (a : ascii) | Arg (x : string).

#[global] Instance token_eq_dec : EqDecision token.
Proof. solve_decision. Defined.

Fixpoint chars (s : string) : list token :=
  match s with EmptyString => [] | String a s' => Chr a :: chars s' end.

Definition piece_tokens (p : piece) : list token :=
  match p with Lit s | Raw s => chars s | Enc x => [Arg x] end.

Definition tokens (t : list piece) : list token := flat_map piece_tokens t.

Fixpoint token_string (l : list token) : string :=
  match l with
  | [] => EmptyString
  | Chr a :: l' => String a (token_string l')
  | Arg x :: l' => encodeURIComponent x +:+ token_string l'
  end.

Fixpoint path_tokens (l : list token) : list token :=
  match l with
  | Chr "?" :: _ | [] => []
  | tk :: l' => tk :: path_tokens l'
  end.

Fixpoint split_tokens (l : list token) : list (list token) :=
  match l with
  | [] => [[]]
  | Chr "/" :: l' => [] :: split_tokens l'
  | tk :: l' =>
      match split_tokens l' with
      | seg :: segs => (tk :: seg) :: segs
      | [] => [[tk]]
      end
  end.

Definition path_segments (t : list piece) : list (list token) := split_tokens (path_tokens (tokens t)).

(** The part of a URL before its query. *)
Definition before_query (s : string) : string :=
  match cut "?" s with Some (p, _) => p | None => s end.

Lemma token_string_app l1 l2 : token_string (l1 ++ l2) = token_string l1 +:+ token_string l2.
Proof.
  induction l1 as [|[a|x] l1 IH]; cbn [app token_string]; [done|by rewrite IH|].
  by rewrite IH, append_assoc.
Qed.

Lemma token_string_chars s : token_string (chars s) = s.
Proof. induction s as [|a s IH]; cbn [chars token_string]; [done|by rewrite IH]. Qed.

Lemma render_tokens t : render t = token_string (tokens t).
Proof.
  induction t as [|p t IH]; [done|]. cbn [render foldr tokens flat_map].
  change (flat_map piece_tokens t) with (tokens t).
  change (foldr _ _ t) with (render t). rewrite token_string_app, <- IH. f_equal.
  destruct p; cbn [render_piece piece_tokens token_string]; rewrite ?token_string_chars;
    [done| |done]. by rewrite append_nil_r.
Qed.

Lemma before_query_arg x s :
  before_query (encodeURIComponent x +:+ s) = encodeURIComponent x +:+ before_query s.
Proof.
  assert (includes_char "?" (encodeURIComponent x) = false) as Hx by (by apply includes_escape).
  unfold before_query. induction (encodeURIComponent x) as [|a e IH]; [done|].
  cbn [includes_char] in Hx. bool_simpl. cbn [String.append cut]. rewrite decide_False by done.
  specialize (IH ltac:(done)). destruct (cut "?" (e +:+ s)) as [[u v]|]; by rewrite IH.
Qed.

Lemma before_query_tokens l : before_query (token_string l) = token_string (path_tokens l).
Proof.
  induction l as [|[a|x] l IH]; [done| |].
  - destruct (decide (a = "?"%char)) as [->|Hne]; [done|].
    assert (path_tokens (Chr a :: l) = Chr a :: path_tokens l) as ->
      by (destruct a as [[] [] [] [] [] [] [] []]; done).
    cbn [token_string]. rewrite <- IH. unfold before_query. cbn [cut].
    rewrite decide_False by done. by destruct (cut "?" (token_string l)) as [[u v]|].
  - cbn [path_tokens token_string]. by rewrite before_query_arg, IH.
Qed.

Lemma split_on_arg x s :
  split_on "/" (encodeURIComponent x +:+ s) =
    match split_on "/" s with
    | seg :: segs => (encodeURIComponent x +:+ seg) :: segs
    | [] => []
    end.
Proof.
  assert (includes_char "/" (encodeURIComponent x) = false) as Hx by (by apply includes_escape).
  induction (encodeURIComponent x) as [|a e IH]; cbn [String.append].
  - by destruct (split_on "/" s).
  - cbn [includes_char] in Hx. bool_simpl. cbn [split_on]. rewrite decide_False by done.
    specialize (IH ltac:(done)). rewrite IH. destruct (split_on "/" s) eqn:Hs; [|done].
    destruct s; cbn [split_on] in Hs; [done|]. repeat case_match; done.
Qed.

Lemma split_tokens_string l : split_on "/" (token_string l) = map token_string (split_tokens l).
Proof.
  induction l as [|[a|x] l IH]; [done| |].
  - destruct (decide (a = "/"%char)) as [->|Hne].
    + cbn [token_string split_on split_tokens map]. by rewrite decide_True, IH.
    + assert (split_tokens (Chr a :: l) =
        match split_tokens l with seg :: segs => (Chr a :: seg) :: segs | [] => [[Chr a]] end) as ->
        by (destruct a as [[] [] [] [] [] [] [] []]; done).
      cbn [token_string split_on]. rewrite decide_False by done. rewrite IH.
      by destruct (split_tokens l).
  - cbn [token_string split_tokens]. rewrite split_on_arg, IH.
    destruct (split_tokens l) as [|seg segs] eqn:Hl; [|done].
    exfalso. clear IH. destruct l as [|[a|y] l]; cbn [split_tokens] in Hl; [done| |].
    + destruct a as [[] [] [] [] [] [] [] []]; try done; by destruct (split_tokens l).
    + by destruct (split_tokens l).
Qed.

(** The path of the rendered URL has exactly the template's segments, whatever the arguments. *)
Theorem render_segments t :
  split_on "/" (before_query (render t)) = map token_string (path_segments t).
Proof. by rewrite render_tokens, before_query_tokens, split_tokens_string. Qed.

(** ** Dot segments

    The URL parser resolves [.] and [..] segments (also spelt with [%2e]); [encodeURIComponent]
    leaves dots alone. *)
Definition single_dot (s : string) : bool := bool_decide (s ∈ ["."; "%2e"; "%2E"]).

Definition double_dot (s : string) : bool :=
  bool_decide (s ∈ [".."; ".%2e"; ".%2E"; "%2e."; "%2E."; "%2e%2e"; "%2e%2E"; "%2E%2e"; "%2E%2E"]).

(** The path the parser keeps, segment by segment; [acc] is the path so far, reversed. *)
Fixpoint resolve_dots (acc segs : list string) : list string :=
  match segs with
  | [] => rev acc
  | s :: segs' =>
      if double_dot s then
        match segs' with
        | [] => rev (EmptyString :: tail acc)
        | _ => resolve_dots (tail acc) segs'
        end
      else if single_dot s then
        match segs' with
        | [] => rev (EmptyString :: acc)
        | _ => resolve_dots acc segs'
        end
      else resolve_dots (s :: acc) segs'
  end.

Lemma resolve_dots_none acc segs :
  Forall (fun s => single_dot s = false /\ double_dot s = false) segs ->
  resolve_dots acc segs = rev acc ++ segs.
Proof.
  intros Hs. revert acc. induction Hs as [|s segs [H1 H2] Hs IH]; intros acc; simpl.
  - by rewrite app_nil_r.
  - rewrite H1, H2, IH. simpl. by rewrite <- app_assoc.
Qed.

(** An encoded argument is a dot segment only when the argument is. *)
Lemma dot_argument x :
  single_dot (encodeURIComponent x) || double_dot (encodeURIComponent x) = true ->
  x = "." \/ x = "..".
Proof.
  intros H. pose proof (decode_encode x) as Hd.
  unfold single_dot, double_dot in H. apply orb_prop in H.
  rewrite !bool_decide_eq_true in H.
  assert (encodeURIComponent x ∈ [".";"%2e";"%2E";"..";".%2e";".%2E";"%2e.";"%2E.";"%2e%2e";"%2e%2E";"%2E%2e";"%2E%2E"])
    as Hin by set_solver. clear H.
  repeat (apply elem_of_cons in Hin as [Heq|Hin];
    [rewrite Heq in Hd; vm_compute in Hd; injection Hd as <-; vm_compute in Heq;
     first [discriminate|by left|by right]|]).
  by apply elem_of_nil in Hin.
Qed.
