(* ===== verification/QueryStrings.v ===== *)
(** * Query strings of the reads (lib/audit-log.ts, lib/gateway-telemetry.ts,
    lib/serving-telemetry.ts)

    The filters of the audit log, the usage telemetry and the serving log travel as query strings:
    the client builds them, a proxy route parses them back. *)

From S2P Require Import Prelude JsMap JsString JsDate JsNumber Url.

#[local] Open Scope Z_scope.

(** [if (x) params.set(k, x)] for a nullable string. *)
Definition set_present (k : string) (v : option string) (ps : params) : params :=
  match present v with Some s => params_set ps k s | None => ps end.

(** [if (n !== undefined) params.set(k, String(n))]. *)
Definition set_number (k : string) (n : option Z) (ps : params) : params :=
  match n with Some n => params_set ps k (string_of_Z n) | None => ps end.

Definition set_defined (k : string) (v : option string) (ps : params) : params :=
  match v with Some s => params_set ps k s | None => ps end.

(** ** lib/audit-log.ts *)
Record AuditLogQuery := {
  action : option string;
  objectType : option string;
  before : option string;
  audit_limit : option Z;
}.

Definition auditLogQueryString (query : AuditLogQuery) : string :=
  let ps := set_number "limit" (audit_limit query)
              (set_present "before" (before query)
                 (set_present "object_type" (objectType query)
                    (set_present "action" (action query) []))) in
  let qs := params_string ps in
  if truthy qs then "?" +:+ qs else "".

(** ** lib/gateway-telemetry.ts *)
Inductive ServingWindow := W24h | W7d | W30d.
Inductive UsageLane := Platform | Byok.

#[global] Instance ServingWindow_eq_dec : EqDecision ServingWindow.
Proof. solve_decision. Defined.

Definition window_key (w : ServingWindow) : string :=
  match w with W24h => "24h" | W7d => "7d" | W30d => "30d" end.

Definition lane_key (l : UsageLane) : string :=
  match l with Platform => "platform" | Byok => "byok" end.

Definition WINDOW_KEYS : list ServingWindow := [W24h; W7d; W30d].
Definition LANE_KEYS : list UsageLane := [Platform; Byok].

Definition DEFAULT_SERVING_WINDOW : ServingWindow := W7d.
Definition USAGE_PAGE_SIZE : Z := 50.

(** [KEYS.includes(raw) ? raw : undefined]. *)
Definition window_of (raw : option string) : option ServingWindow :=
  raw ≫= fun s => find_first (fun w => bool_decide (window_key w = s)) WINDOW_KEYS.

Definition lane_of (raw : option string) : option UsageLane :=
  raw ≫= fun s => find_first (fun l => bool_decide (lane_key l = s)) LANE_KEYS.

(** [UUID_PATTERN], case-insensitive. *)
Definition is_hex (a : ascii) : bool := match hex_value a with Some _ => true | None => false end.

Fixpoint hex_groups (groups : list nat) (s : string) : bool :=
  match groups with
  | [] => bool_decide (s = EmptyString)
  | n :: groups' =>
      bool_decide (String.length (str_take n s) = n) &&
      forallb is_hex (list_ascii_of_string (str_take n s)) &&
      match groups' with
      | [] => bool_decide (str_drop n s = EmptyString)
      | _ => match str_drop n s with
             | String "-" s' => hex_groups groups' s'
             | _ => false
             end
      end
  end.

Definition is_uuid (s : string) : bool := hex_groups [8; 4; 4; 4; 12]%nat s.

Record TelemetryViewState := {
  window : ServingWindow;
  model : option string;
  agentId : option string;
  lane : option UsageLane;
  errorsOnly : bool;
  live : bool;
}.

Definition DEFAULT_TELEMETRY_VIEW : TelemetryViewState :=
  {| window := DEFAULT_SERVING_WINDOW; model := None; agentId := None; lane := None;
     errorsOnly := false; live := false |}.

(** A page's search parameters: a repeated key is an array. *)
Inductive search_value := Single (s : string) | Repeated (l : list string).

Definition search_params := string -> option search_value.

(** The search parameters of a query string, as the framework hands them to a page. *)
Definition search_params_of (ps : params) : search_params := fun k =>
  match map snd (List.filter (fun p => bool_decide (p.1 = k)) ps) with
  | [] => None
  | [v] => Some (Single v)
  | vs => Some (Repeated vs)
  end.

Definition single (sp : search_params) (k : string) : option string :=
  match sp k with Some (Single s) => present (Some s) | _ => None end.

Definition parseTelemetryView (sp : search_params) : TelemetryViewState :=
  {| window := default DEFAULT_SERVING_WINDOW (window_of (single sp "window"));
     model := single sp "model";
     agentId := single sp "agent" ≫= fun a => if is_uuid a then Some a else None;
     lane := lane_of (single sp "lane");
     errorsOnly := bool_decide (single sp "status" = Some "error");
     live := bool_decide (single sp "live" = Some "1") |}.

Definition telemetryViewQueryString (state : TelemetryViewState) : string :=
  let ps := [] in
  let ps := if bool_decide (window state = DEFAULT_SERVING_WINDOW) then ps
            else params_set ps "window" (window_key (window state)) in
  let ps := set_defined "model" (model state) ps in
  let ps := set_defined "agent" (agentId state) ps in
  let ps := set_defined "lane" (lane_key <$> lane state) ps in
  let ps := if errorsOnly state then params_set ps "status" "error" else ps in
  let ps := if live state then params_set ps "live" "1" else ps in
  params_string ps.

Record UsageTimeseriesQuery := {
  q_window : option ServingWindow;
  q_model : option string;
  q_apiKeyId : option string;
  q_lane : option UsageLane;
}.

Definition usageTimeseriesParams (query : UsageTimeseriesQuery) : params :=
  set_present "lane" (lane_key <$> q_lane query)
    (set_present "api_key_id" (q_apiKeyId query)
       (set_present "model" (q_model query)
          (set_present "window" (window_key <$> q_window query) []))).

Definition usageTimeseriesQueryString (query : UsageTimeseriesQuery) : string :=
  params_string (usageTimeseriesParams query).

Definition usageTimeseriesQueryFromSearchParams (ps : params) : UsageTimeseriesQuery :=
  {| q_window := window_of (params_get ps "window");
     q_model := present (params_get ps "model");
     q_apiKeyId := present (params_get ps "api_key_id");
     q_lane := lane_of (params_get ps "lane") |}.

Record Cursor := { ts : string; cursor_id : string; after : string }.

Record UsageRequestsQuery := {
  timeseries : UsageTimeseriesQuery;
  error_status : bool;
  cursor : option Cursor;
  limit : option Z;
}.

Definition set_cursor (c : option Cursor) (ps : params) : params :=
  match c with
  | Some c =>
      params_set (params_set (params_set ps "cursor_ts" (ts c)) "cursor_id" (cursor_id c))
        "cursor_after" (after c)
  | None => ps
  end.

(** [if (cursorTs && cursorId && cursorAfter) query.cursor = ...]. *)
Definition cursor_of (ps : params) : option Cursor :=
  match present (params_get ps "cursor_ts"), present (params_get ps "cursor_id"),
        present (params_get ps "cursor_after") with
  | Some t, Some i, Some a => Some {| ts := t; cursor_id := i; after := a |}
  | _, _, _ => None
  end.

(** [if (limit && /^\d+$/.test(limit)) query.limit = Number(limit)]. *)
Definition limit_of (ps : params) : option Z := params_get ps "limit" ≫= decimal_Z.

Definition usageRequestsQueryString (query : UsageRequestsQuery) : string :=
  let ps := params_parse (usageTimeseriesQueryString (timeseries query)) in
  let ps := if error_status query then params_set ps "status" "error" else ps in
  let ps := set_cursor (cursor query) ps in
  params_string (set_number "limit" (limit query) ps).

Definition usageRequestsQueryFromSearchParams (ps : params) : UsageRequestsQuery :=
  {| timeseries := usageTimeseriesQueryFromSearchParams ps;
     error_status := bool_decide (params_get ps "status" = Some "error");
     cursor := cursor_of ps;
     limit := limit_of ps |}.

Definition usageRequestsQueryFromView (view : TelemetryViewState) (cursor : option Cursor) :
    UsageRequestsQuery :=
  {| timeseries := {| q_window := Some (window view); q_model := model view;
                      q_apiKeyId := agentId view; q_lane := lane view |};
     error_status := errorsOnly view; cursor := cursor; limit := Some USAGE_PAGE_SIZE |}.

(** ** lib/serving-telemetry.ts *)
Inductive ServingRequestStatus := StatusOk | StatusError.

Definition status_key (s : ServingRequestStatus) : string :=
  match s with StatusOk => "ok" | StatusError => "error" end.

Definition status_of (raw : option string) : option ServingRequestStatus :=
  if bool_decide (raw = Some "ok") then Some StatusOk
  else if bool_decide (raw = Some "error") then Some StatusError else None.

Record ServingRequestQuery := {
  s_endpoint : option string;
  s_status : option ServingRequestStatus;
  s_window : option ServingWindow;
  s_cursor : option Cursor;
  s_limit : option Z;
}.

Definition servingRequestQueryString (query : ServingRequestQuery) : string :=
  params_string
    (set_number "limit" (s_limit query)
       (set_cursor (s_cursor query)
          (set_present "window" (window_key <$> s_window query)
             (set_present "status" (status_key <$> s_status query)
                (set_present "endpoint" (s_endpoint query) []))))).

Definition servingRequestQueryFromSearchParams (ps : params) : ServingRequestQuery :=
  {| s_endpoint := present (params_get ps "endpoint");
     s_status := status_of (params_get ps "status");
     s_window := window_of (params_get ps "window");
     s_cursor := cursor_of ps;
     s_limit := limit_of ps |}.

(** ** Lemmas *)

(** What a reader finds under a key of the parameters being built. *)
Lemma params_get_set ps k v k' :
  params_get (params_set ps k v) k' = if decide (k' = k) then Some v else params_get ps k'.
Proof.
  unfold params_get. induction ps as [|[k1 v1] ps IH]; cbn [params_set mget].
  - by case_decide.
  - destruct (decide (k1 = k)) as [->|Hne]; cbn [mget].
    + destruct (decide (k' = k)) as [->|Hne']; [done|].
      clear IH. induction ps as [|[k2 v2] ps IH]; [done|]. cbn [List.filter fst].
      case_bool_decide; cbn [negb mget]; [rewrite IH; by case_decide; simplify_eq|].
      by case_decide.
    + rewrite IH. repeat case_decide; simplify_eq; done.
Qed.

Lemma params_get_present ps k v k' :
  params_get (set_present k v ps) k' =
    if decide (k' = k) then match present v with Some s => Some s | None => params_get ps k' end
    else params_get ps k'.
Proof.
  unfold set_present. destruct (present v); [apply params_get_set|by case_decide].
Qed.

Lemma params_get_number ps k n k' :
  params_get (set_number k n ps) k' =
    if decide (k' = k) then match n with Some n => Some (string_of_Z n) | None => params_get ps k' end
    else params_get ps k'.
Proof. unfold set_number. destruct n; [apply params_get_set|by case_decide]. Qed.

#[export] Hint Rewrite params_get_set params_get_present params_get_number : jsrw.

Lemma window_of_key w : window_of (Some (window_key w)) = Some w.
Proof. by destruct w. Qed.
Lemma lane_of_key l : lane_of (Some (lane_key l)) = Some l.
Proof. by destruct l. Qed.
Lemma present_window w : present (window_key <$> w) = window_key <$> w.
Proof. by destruct w as [[]|]. Qed.
Lemma present_lane l : present (lane_key <$> l) = lane_key <$> l.
Proof. by destruct l as [[]|]. Qed.
Lemma present_status s : present (status_key <$> s) = status_key <$> s.
Proof. by destruct s as [[]|]. Qed.

Definition cursor_ok (c : option Cursor) : Prop :=
  forall c', c = Some c' -> ts c' <> "" /\ cursor_id c' <> "" /\ after c' <> "".

Definition no_empty (o : option string) : Prop := o <> Some "".

Lemma present_no_empty o : no_empty o -> present o = o.
Proof. unfold no_empty, present, truthy. destruct o; [|done]. intros. by rewrite bool_decide_true by congruence. Qed.

Lemma present_some s : s <> "" -> present (Some s) = Some s.
Proof. intros. apply present_no_empty. intros [=]. done. Qed.

(** A literal key is not among literal keys. *)
Ltac key_free := apply (bool_decide_unpack _); vm_compute; exact Logic.I.

(** Decide equalities of literal keys. *)
Ltac decide_keys :=
  repeat match goal with
  | |- context [decide (?a = ?b)] =>
      first [rewrite (decide_True (P := a = b)) by done
            |rewrite (decide_False (P := a = b)) by done]
  end.

(** Read a key through the writes that built the parameters. *)
Ltac read_params :=
  repeat (rewrite ?params_get_set, ?params_get_present, ?params_get_number;
          rewrite ?decide_False by done; rewrite ?decide_True by done);
  cbn [params_get mget].

Lemma cursor_of_set c ps :
  cursor_ok c -> (forall k, params_get ps k <> None -> k ∉ ["cursor_ts"; "cursor_id"; "cursor_after"]) ->
  cursor_of (set_cursor c ps) = c.
Proof.
  intros Hc Hps. unfold cursor_of. destruct c as [[t i a]|]; cbn [set_cursor ts cursor_id after].
  - destruct (Hc _ eq_refl) as (Ht & Hi & Ha). simpl in *. read_params.
    by rewrite !present_some.
  - destruct (params_get ps "cursor_ts") eqn:Hget; [|done].
    exfalso. apply (Hps "cursor_ts"); [congruence|left].
Qed.

Lemma params_get_cursor c ps k :
  k ∉ ["cursor_ts"; "cursor_id"; "cursor_after"] -> params_get (set_cursor c ps) k = params_get ps k.
Proof.
  intros Hk. destruct c as [c|]; [|done]. cbn [set_cursor].
  rewrite !params_get_set, !decide_False; [done|..]; intros ->; apply Hk; set_solver.
Qed.

Lemma cursor_of_number k n ps :
  k ∉ ["cursor_ts"; "cursor_id"; "cursor_after"] -> cursor_of (set_number k n ps) = cursor_of ps.
Proof.
  intros Hk. unfold cursor_of. rewrite !params_get_number.
  rewrite !decide_False; [done|..]; intros <-; apply Hk; set_solver.
Qed.

Lemma limit_of_set n ps :
  (forall n', n = Some n' -> 0 <= n') -> params_get ps "limit" = None ->
  limit_of (set_number "limit" n ps) = n.
Proof.
  intros Hn Hps. unfold limit_of. read_params. destruct n as [n|]; [|by rewrite Hps].
  cbn. apply decimal_string. by apply Hn.
Qed.

(** The keys of the timeseries filters. *)
Lemma timeseries_keys q k :
  k ∉ ["window"; "model"; "api_key_id"; "lane"] -> params_get (usageTimeseriesParams q) k = None.
Proof.
  intros Hk. unfold usageTimeseriesParams. rewrite !params_get_present.
  rewrite !decide_False; [done|..]; intros ->; apply Hk; set_solver.
Qed.

Lemma timeseries_read q ps :
  no_empty (q_model q) -> no_empty (q_apiKeyId q) ->
  (forall k, k ∈ ["window"; "model"; "api_key_id"; "lane"] ->
    params_get ps k = params_get (usageTimeseriesParams q) k) ->
  usageTimeseriesQueryFromSearchParams ps = q.
Proof.
  intros Hm Hk Hps. destruct q as [w m a l]. simpl in *.
  unfold usageTimeseriesQueryFromSearchParams. rewrite !Hps by set_solver.
  unfold usageTimeseriesParams; cbn [q_window q_model q_apiKeyId q_lane]. read_params.
  rewrite present_window, present_lane.
  f_equal; [by destruct w as [[]|]| | |by destruct l as [[]|]];
    rewrite ?(present_no_empty m), ?(present_no_empty a) by done.
  - by destruct m; [apply present_no_empty|].
  - by destruct a; [apply present_no_empty|].
Qed.

(** ** Properties *)

(** The request-log filters survive the trip through the URL: whatever the filter values contain,
    the query string the client writes is parsed back by the proxy route to the same query, as long
    as the strings are not empty and the page size is not negative. *)
Theorem usage_requests_roundtrip q :
  no_empty (q_model (timeseries q)) -> no_empty (q_apiKeyId (timeseries q)) ->
  cursor_ok (cursor q) -> (forall n, limit q = Some n -> 0 <= n) ->
  usageRequestsQueryFromSearchParams (params_parse (usageRequestsQueryString q)) = q.
Proof.
  intros Hm Hk Hc Hn. destruct q as [tq es c n]. simpl in *.
  unfold usageRequestsQueryString, usageTimeseriesQueryString; cbn [timeseries error_status cursor limit].
  rewrite !params_roundtrip.
  set (base := usageTimeseriesParams tq).
  set (ps1 := if es then params_set base "status" "error" else base).
  assert (forall k, k <> "status" -> params_get ps1 k = params_get base k) as Hps1.
  { intros k Hne. unfold ps1. destruct es; [|done]. by rewrite params_get_set, decide_False. }
  unfold usageRequestsQueryFromSearchParams. f_equal.
  - apply timeseries_read; [done..|]. intros k Hin.
    assert (k <> "limit" /\ k <> "status" /\ k ∉ ["cursor_ts"; "cursor_id"; "cursor_after"])
      as (? & ? & ?).
    { repeat (apply elem_of_cons in Hin as [->|Hin]; [split; [done|]; split; [done|]; key_free|]).
      by apply elem_of_nil in Hin. }
    by rewrite params_get_number, decide_False, params_get_cursor, Hps1.
  - rewrite params_get_number, decide_False, params_get_cursor by (done || key_free).
    unfold ps1. destruct es; [by rewrite params_get_set, decide_True, bool_decide_true|].
    unfold base. rewrite timeseries_keys; [done|]. key_free.
  - rewrite cursor_of_number by key_free.
    apply cursor_of_set; [done|]. intros k Hne Hin. apply Hne.
    assert (k <> "status" /\ k ∉ ["window"; "model"; "api_key_id"; "lane"]) as [? ?].
    { repeat (apply elem_of_cons in Hin as [->|Hin]; [split; [done|]; key_free|]).
      by apply elem_of_nil in Hin. }
    rewrite Hps1 by done. by apply timeseries_keys.
  - apply limit_of_set; [done|].
    rewrite params_get_cursor by key_free.
    rewrite Hps1 by done. apply timeseries_keys. key_free.
Qed.

(** The serving log's filters survive the trip through the URL, like the request log's. *)
Theorem serving_requests_roundtrip q :
  no_empty (s_endpoint q) -> cursor_ok (s_cursor q) -> (forall n, s_limit q = Some n -> 0 <= n) ->
  servingRequestQueryFromSearchParams (params_parse (servingRequestQueryString q)) = q.
Proof.
  intros He Hc Hn. destruct q as [e s w c n]. simpl in *.
  unfold servingRequestQueryString, servingRequestQueryFromSearchParams.
  cbn [s_endpoint s_status s_window s_cursor s_limit]. rewrite params_roundtrip.
  set (base := set_present "window" _ _).
  assert (forall k, k ∉ ["limit"; "cursor_ts"; "cursor_id"; "cursor_after"] ->
    params_get (set_number "limit" n (set_cursor c base)) k = params_get base k) as Hbase.
  { intros k Hk. apply not_elem_of_cons in Hk as [Hk1 Hk2].
    by rewrite params_get_number, decide_False, params_get_cursor. }
  assert (forall k, k ∉ ["window"; "status"; "endpoint"] -> params_get base k = None) as Hnone.
  { intros k Hk. unfold base. rewrite !params_get_present.
    rewrite !decide_False; [done|..]; intros ->; apply Hk; set_solver. }
  rewrite !Hbase by key_free. f_equal.
  - unfold base. read_params. rewrite (present_no_empty e) by done.
    by destruct e; [apply present_no_empty|].
  - unfold base. read_params. rewrite present_status. by destruct s as [[]|].
  - unfold base. read_params. rewrite present_window. by destruct w as [[]|].
  - rewrite cursor_of_number by key_free. apply cursor_of_set; [done|].
    intros k Hne Hin. apply Hne, Hnone.
    repeat (apply elem_of_cons in Hin as [->|Hin]; [key_free|]). by apply elem_of_nil in Hin.
  - apply limit_of_set; [done|]. rewrite params_get_cursor by key_free. apply Hnone. key_free.
Qed.

Lemma elem_keys_params_set ps k v k' :
  k' ∈ map fst (params_set ps k v) -> k' = k \/ k' ∈ map fst ps.
Proof.
  induction ps as [|[k1 v1] ps IH]; cbn [params_set map fst]; [set_solver|].
  case_decide; cbn [map fst]; [|set_solver].
  intros [->|Hin]%elem_of_cons; [by left|right; right].
  apply list_elem_of_In, in_map_iff in Hin as (p & <- & Hp). apply filter_In in Hp as [Hp _].
  apply list_elem_of_In, in_map. done.
Qed.

Lemma NoDup_params_set ps k v : NoDup (map fst ps) -> NoDup (map fst (params_set ps k v)).
Proof.
  induction ps as [|[k1 v1] ps IH]; cbn [params_set map fst]; intros Hnd; [by apply NoDup_singleton|].
  apply NoDup_cons in Hnd as [Hk1 Hnd]. case_decide as Heq; cbn [map fst].
  - subst. apply NoDup_cons. split.
    + intros Hin. apply list_elem_of_In, in_map_iff in Hin as (p & Hp & Hin).
      apply filter_In in Hin as [_ Hf]. bool_simpl. done.
    + clear IH. induction ps as [|[k2 v2] ps IHps]; [constructor|]. cbn [List.filter fst].
      apply NoDup_cons in Hnd as [Hk2 Hnd]. cbn [map fst] in Hk1.
      assert (NoDup (map fst (List.filter (fun p => negb (bool_decide (p.1 = k))) ps))) as IH'
        by (apply IHps; [set_solver|done]).
      case_bool_decide; cbn [negb map fst]; [done|]. apply NoDup_cons. split; [|done].
      intros Hin. apply Hk2. apply list_elem_of_In, in_map_iff in Hin as (p & <- & Hp).
      apply filter_In in Hp as [Hp _]. apply list_elem_of_In. exact (in_map fst ps p Hp).
  - apply NoDup_cons. split; [|by apply IH]. intros [->|Hin]%elem_keys_params_set; done.
Qed.

Lemma single_params ps k :
  NoDup (map fst ps) -> single (search_params_of ps) k = present (params_get ps k).
Proof.
  unfold single, search_params_of, params_get. intros Hnd.
  induction ps as [|[k1 v1] ps IH]; [done|]. cbn [map fst] in Hnd.
  apply NoDup_cons in Hnd as [Hk1 Hnd]. cbn [List.filter fst mget].
  case_bool_decide as Heq.
  - subst. rewrite decide_True by done.
    assert (List.filter (fun p => bool_decide (p.1 = k)) ps = []) as ->; [|done].
    clear IH Hnd. induction ps as [|[k2 v2] ps IH]; [done|]. cbn [List.filter fst map] in *.
    rewrite bool_decide_false by set_solver. apply IH. set_solver.
  - rewrite decide_False by done. by apply IH.
Qed.

(** The Telemetry page's filters are the URL: opening the link a view writes gives the same view,
    defaults included. *)
Theorem telemetry_view_roundtrip v :
  no_empty (model v) -> (forall a, agentId v = Some a -> is_uuid a = true) ->
  parseTelemetryView (search_params_of (params_parse (telemetryViewQueryString v))) = v.
Proof.
  intros Hm Ha. unfold telemetryViewQueryString. rewrite params_roundtrip.
  destruct v as [w m a l es li]. cbn [window model agentId lane errorsOnly live] in *.
  set (p1 := if bool_decide (w = _) then [] else _).
  set (p2 := set_defined "model" m p1). set (p3 := set_defined "agent" a p2).
  set (p4 := set_defined "lane" _ p3). set (p5 := if es then _ else p4).
  set (p6 := if li then _ else p5).
  assert (NoDup (map fst p6)) as Hnd.
  { assert (NoDup (map (@fst string string) [])) as H0 by constructor.
    assert (NoDup (map fst p1)) by (unfold p1; case_bool_decide; auto using NoDup_params_set).
    assert (NoDup (map fst p2)) by (unfold p2; destruct m; cbn; auto using NoDup_params_set).
    assert (NoDup (map fst p3)) by (unfold p3; destruct a; cbn; auto using NoDup_params_set).
    assert (NoDup (map fst p4)) by (unfold p4; destruct l; cbn; auto using NoDup_params_set).
    assert (NoDup (map fst p5)) by (unfold p5; destruct es; auto using NoDup_params_set).
    unfold p6; destruct li; auto using NoDup_params_set. }
  unfold parseTelemetryView. rewrite !single_params by done.
  assert (forall k, params_get p6 k =
    if decide (k = "live") then if li then Some "1" else None
    else if decide (k = "status") then if es then Some "error" else None
    else if decide (k = "lane") then lane_key <$> l
    else if decide (k = "agent") then a
    else if decide (k = "model") then m
    else if decide (k = "window") then if bool_decide (w = DEFAULT_SERVING_WINDOW) then None
      else Some (window_key w)
    else None) as Hget.
  { intros k. unfold p6, p5, p4, p3, p2, p1, set_defined.
    destruct li, es, l, a, m; cbn [fmap option_fmap option_map];
      case_bool_decide; rewrite ?params_get_set; cbn [params_get mget];
      repeat (case_decide; subst; try done). }
  rewrite !Hget. decide_keys. rewrite (present_no_empty m) by done. f_equal.
  - case_bool_decide; [by subst|]. by destruct w.
  - destruct a as [a|]; [|done]. specialize (Ha a eq_refl).
    rewrite present_some by (by intros ->).
    unfold mbind, option_bind. by rewrite Ha.
  - by destruct l as [[]|].
  - by destruct es.
  - by destruct li.
Qed.

(** ** Witnesses *)
Definition demo_cursor : Cursor := {| ts := "2026-01-01T00:00:00Z"; cursor_id := "r/1"; after := "x=y&z" |}.

Definition demo_requests : UsageRequestsQuery :=
  {| timeseries := {| q_window := Some W24h; q_model := Some "gpt 5 & co"; q_apiKeyId := None;
                      q_lane := Some Byok |};
     error_status := true; cursor := Some demo_cursor; limit := Some 50 |}.

Lemma usage_requests_roundtrip_witness :
  usageRequestsQueryFromSearchParams (params_parse (usageRequestsQueryString demo_requests)) =
    demo_requests.
Proof.
  apply usage_requests_roundtrip; [done|done|by intros c [=<-]|by intros n [=<-]].
Defined.

Definition demo_serving : ServingRequestQuery :=
  {| s_endpoint := Some "chat/fast"; s_status := Some StatusError; s_window := None;
     s_cursor := Some demo_cursor; s_limit := Some 25 |}.

Lemma serving_requests_roundtrip_witness :
  servingRequestQueryFromSearchParams (params_parse (servingRequestQueryString demo_serving)) =
    demo_serving.
Proof.
  apply serving_requests_roundtrip; [done|by intros c [=<-]|by intros n [=<-]].
Defined.

Definition demo_view : TelemetryViewState :=
  {| window := W30d; model := Some "claude+opus"; lane := Some Platform; errorsOnly := true;
     agentId := Some "0a1b2c3d-0000-4000-8000-00000000000F"; live := true |}.

Lemma telemetry_view_roundtrip_witness :
  parseTelemetryView (search_params_of (params_parse (telemetryViewQueryString demo_view))) =
    demo_view.
Proof. apply telemetry_view_roundtrip; [done|by intros a [=<-]]. Defined.
