(* ===== verification/Json.v ===== *)
(** * JSON values

    The values that cross the services' boundaries: request bodies, response bodies, and the parsed
    payloads the sources test with [typeof]. An absent object member is JavaScript's [undefined].
    Numbers are binary64. *)

From S2P Require Import Prelude JsMap JsString JsNumber.
From Stdlib Require FloatAxioms.

Inductive json :=
| JNull
| JBool (b : bool)
| JNum (x : number)
| JStr (s : string)
| JArr (l : list json)
| JObj (o : list (string * json)).

(** Object member access: [None] is [undefined]. Access on a value that is not an object is what
    optional chaining makes of it for [null] and primitives without such a member. *)
Definition jget (j : json) (k : string) : option json :=
  match j with JObj o => mget o k | _ => None end.

Definition jstr (j : json) : option string := match j with JStr s => Some s | _ => None end.
Definition jbool (j : json) : option bool := match j with JBool b => Some b | _ => None end.
Definition jnum (j : json) : option number := match j with JNum x => Some x | _ => None end.
Definition jarr (j : json) : option (list json) := match j with JArr l => Some l | _ => None end.

(** [typeof o?.k === "string" ? o.k : null]. *)
Definition jget_str (j : json) (k : string) : option string := jget j k ≫= jstr.

(** A nullable string as JSON. *)
Definition of_nullable (o : option string) : json := match o with Some s => JStr s | None => JNull end.

Definition of_strings (l : list string) : json := JArr (map JStr l).

(** An object literal: members whose value is [undefined] are not serialized. *)
Definition obj (members : list (string * option json)) : json :=
  JObj (omap (fun m => match m.2 with Some v => Some (m.1, v) | None => None end) members).

(** [Number(v)] of a database scalar (a column is never an array or an object here). *)
Definition json_number (j : json) : number :=
  match j with
  | JNull => PrimFloat.zero
  | JBool b => if b then PrimFloat.one else PrimFloat.zero
  | JNum x => x
  | JStr s => to_number s
  | JArr _ | JObj _ => PrimFloat.nan
  end.

(** ** Decidable equality *)
#[export] Instance spec_float_eq_dec : EqDecision spec_float.
Proof. solve_decision. Defined.
#[export] Instance number_eq_dec : EqDecision number.
Proof.
  intros x y. destruct (decide (Prim2SF x = Prim2SF y)) as [H|H].
  - left. by apply FloatAxioms.Prim2SF_inj.
  - right. by intros ->.
Defined.
#[export] Instance json_eq_dec : EqDecision json.
Proof.
  unfold EqDecision. fix go 1. intros a b.
  destruct a as [|x|x|x|l|o], b as [|y|y|y|l'|o']; try (right; congruence).
  - by left.
  - destruct (decide (x = y)); [left|right]; congruence.
  - destruct (decide (x = y)); [left|right]; congruence.
  - destruct (decide (x = y)); [left|right]; congruence.
  - assert (Decision (l = l')) as [H|H]; [|by left; f_equal|right; congruence].
    revert l'. induction l as [|z l IH]; intros [|z' l']; [by left|right; congruence..|].
    destruct (go z z'); [|right; congruence]. destruct (IH l'); [left|right]; congruence.
  - assert (Decision (o = o')) as [H|H]; [|by left; f_equal|right; congruence].
    revert o'. induction o as [|[k z] o IH]; intros [|[k' z'] o']; [by left|right; congruence..|].
    destruct (decide (k = k')); [|right; congruence].
    destruct (go z z'); [|right; congruence]. destruct (IH o'); [left|right]; congruence.
Defined.
