(* ===== verification/JsonText.v ===== *)
(** * JSON text

    [JSON.stringify] and [JSON.parse], which the sources use on request and event bodies. What
    stringify writes of numbers that are integers below 2^53, parse reads back. *)

From S2P Require Import Prelude JsMap JsString JsNumber Url Json.

#[local] Open Scope Z_scope.

(** ** [JSON.stringify(v)] *)
Definition backslash : ascii := ascii_of_nat 92.

Definition hex_lower (n : N) : ascii := ascii_of_N (if decide (n < 10)%N then 48 + n else 87 + n)%N.

(** One character of a string literal. *)
Definition json_char (a : ascii) : string :=
  let n := N_of_ascii a in
  if decide (a = quote) then String backslash (String quote EmptyString)
  else if decide (a = backslash) then String backslash (String backslash EmptyString)
  else if decide (n = 8)%N then String backslash "b"
  else if decide (n = 9)%N then String backslash "t"
  else if decide (n = 10)%N then String backslash "n"
  else if decide (n = 12)%N then String backslash "f"
  else if decide (n = 13)%N then String backslash "r"
  else if decide (n < 32)%N
  then String backslash ("u00" +:+ String (hex_lower (n / 16)) (String (hex_lower (n mod 16)) EmptyString))
  else String a EmptyString.

Fixpoint json_chars (s : string) : string :=
  match s with EmptyString => EmptyString | String a s => json_char a +:+ json_chars s end.

Definition string_text (s : string) : string := String quote (json_chars s +:+ String quote EmptyString).

(** A number that is not finite is written as null. *)
Definition num_text (x : number) : string := if is_finite x then number_text x else "null".

Fixpoint stringify (j : json) : string :=
  match j with
  | JNull => "null"
  | JBool b => if b then "true" else "false"
  | JNum x => num_text x
  | JStr s => string_text s
  | JArr l => "[" +:+ join "," (map stringify l) +:+ "]"
  | JObj o =>
      "{" +:+ join "," ((fix members (o : list (string * json)) : list string :=
                          match o with
                          | [] => []
                          | (k, v) :: o' => (string_text k +:+ ":" +:+ stringify v) :: members o'
                          end) o) +:+ "}"
  end.

(** ** [JSON.parse(s)]: [None] where it throws *)
Definition json_space (a : ascii) : bool :=
  bool_decide (a = " "%char) || bool_decide (N_of_ascii a ∈ [9; 10; 13]%N).

Fixpoint skip_space (s : string) : string :=
  match s with
  | String a s' => if json_space a then skip_space s' else s
  | EmptyString => EmptyString
  end.

(** A code unit as text; beyond ASCII, as its UTF-8 bytes. *)
Definition code_unit (n : Z) : string :=
  let byte b := ascii_of_N (Z.to_N b) in
  if decide (n < 128) then String (byte n) EmptyString
  else if decide (n < 2048) then String (byte (192 + n / 64)) (String (byte (128 + n mod 64)) EmptyString)
  else String (byte (224 + n / 4096))
         (String (byte (128 + n / 64 mod 64)) (String (byte (128 + n mod 64)) EmptyString)).

Definition hex4 (a b c d : ascii) : option Z :=
  match digit_in_base 16 a, digit_in_base 16 b, digit_in_base 16 c, digit_in_base 16 d with
  | Some a, Some b, Some c, Some d => Some (((a * 16 + b) * 16 + c) * 16 + d)
  | _, _, _, _ => None
  end.

Definition simple_escape (e : ascii) : option ascii :=
  if decide (e = quote) then Some quote
  else if decide (e = backslash) then Some backslash
  else if decide (e = "/"%char) then Some "/"%char
  else if decide (e = "b"%char) then Some (ascii_of_nat 8)
  else if decide (e = "f"%char) then Some (ascii_of_nat 12)
  else if decide (e = "n"%char) then Some LF
  else if decide (e = "r"%char) then Some CR
  else if decide (e = "t"%char) then Some (ascii_of_nat 9)
  else None.

(** The literal after its opening quote: its value, and what follows the closing one. *)
Fixpoint parse_chars (s : string) : option (string * string) :=
  match s with
  | EmptyString => None
  | String a s1 =>
      if decide (a = quote) then Some (EmptyString, s1)
      else if decide (a = backslash) then
        match s1 with
        | String e s2 =>
            if decide (e = "u"%char) then
              match s2 with
              | String a (String b (String c (String d s3))) =>
                  match hex4 a b c d, parse_chars s3 with
                  | Some n, Some (t, r) => Some (code_unit n +:+ t, r)
                  | _, _ => None
                  end
              | _ => None
              end
            else
              match simple_escape e, parse_chars s2 with
              | Some c, Some (t, r) => Some (String c t, r)
              | _, _ => None
              end
        | EmptyString => None
        end
      else if decide (N_of_ascii a < 32)%N then None
      else match parse_chars s1 with Some (t, r) => Some (String a t, r) | None => None end
  end.

Definition number_char (a : ascii) : bool :=
  includes_char a "+-.eE0123456789".

Fixpoint take_number (s : string) : string * string :=
  match s with
  | String a s' =>
      if number_char a then let '(t, r) := take_number s' in (String a t, r) else (EmptyString, s)
  | EmptyString => (EmptyString, EmptyString)
  end.

(** The grammar of a JSON number: no leading zero or plus, digits around the point. *)
Definition number_grammar (t : string) : bool :=
  let u := strip_first "-" t in
  let '(_, n, rest) := take_digits 10 0 0 u in
  let exponent s := bool_decide (s = EmptyString) ||
    match s with String e _ => bool_decide (lower_ascii e = "e"%char) | EmptyString => false end &&
    bool_decide (take_exponent s <> None) in
  bool_decide (0 < n)%nat && (bool_decide (n = 1)%nat || negb (starts_with "0" u)) &&
  match rest with
  | String "." s => let '(_, k, s') := take_digits 10 0 0 s in bool_decide (0 < k)%nat && exponent s'
  | s => exponent s
  end.

Definition parse_num (s : string) : option (json * string) :=
  let '(t, r) := take_number s in
  if number_grammar t then Some (JNum (to_number t), r) else None.

Fixpoint parse_value (fuel : nat) (s : string) : option (json * string) :=
  match fuel with
  | O => None
  | S fuel =>
      let s := skip_space s in
      match s with
      | EmptyString => None
      | String a s1 =>
          if decide (a = quote) then
            match parse_chars s1 with Some (t, r) => Some (JStr t, r) | None => None end
          else if decide (a = "["%char) then
            if starts_with "]" (skip_space s1) then Some (JArr [], str_drop 1 (skip_space s1))
            else match parse_elements fuel s1 with Some (l, r) => Some (JArr l, r) | None => None end
          else if decide (a = "{"%char) then
            if starts_with "}" (skip_space s1) then Some (JObj [], str_drop 1 (skip_space s1))
            else match parse_members fuel s1 with
                 | Some (o, r) => Some (JObj (of_pairs o), r)
                 | None => None
                 end
          else if starts_with "null" s then Some (JNull, str_drop 4 s)
          else if starts_with "true" s then Some (JBool true, str_drop 4 s)
          else if starts_with "false" s then Some (JBool false, str_drop 5 s)
          else parse_num s
      end
  end
with parse_elements (fuel : nat) (s : string) : option (list json * string) :=
  match fuel with
  | O => None
  | S fuel =>
      match parse_value fuel s with
      | None => None
      | Some (v, r) =>
          let r := skip_space r in
          if starts_with "]" r then Some ([v], str_drop 1 r)
          else if starts_with "," r then
            match parse_elements fuel (str_drop 1 r) with Some (l, r) => Some (v :: l, r) | None => None end
          else None
      end
  end
with parse_members (fuel : nat) (s : string) : option (list (string * json) * string) :=
  match fuel with
  | O => None
  | S fuel =>
      let s := skip_space s in
      if negb (starts_with (String quote EmptyString) s) then None
      else
        match parse_chars (str_drop 1 s) with
        | None => None
        | Some (k, r) =>
            let r := skip_space r in
            if negb (starts_with ":" r) then None
            else
              match parse_value fuel (str_drop 1 r) with
              | None => None
              | Some (v, r) =>
                  let r := skip_space r in
                  if starts_with "}" r then Some ([(k, v)], str_drop 1 r)
                  else if starts_with "," r then
                    match parse_members fuel (str_drop 1 r) with
                    | Some (o, r) => Some ((k, v) :: o, r)
                    | None => None
                    end
                  else None
              end
        end
  end.

(** Every level of nesting takes at least one character. *)
Definition json_parse (s : string) : option json :=
  match parse_value (2 * String.length s + 2) s with
  | Some (j, r) => if bool_decide (skip_space r = EmptyString) then Some j else None
  | None => None
  end.

Example json_text_examples :
  let j := JObj [("a", JArr [JNum 1; JNum (-2.5); JNull]); ("b", JStr (String quote (String LF "x")));
                 ("c", JObj [("d", JBool false)])]%float in
  json_parse (stringify j) = Some j /\
  json_parse " [ 1e3 , {} , [ ] ] " = Some (JArr [JNum 1000; JObj []; JArr []])%float /\
  map json_parse ["01"; "+1"; "1."; "[1,]"; "nul"; "1 2"; "-"] = repeat None 7.
Proof. by vm_compute. Qed.

(** ** What parse reads back *)

(** Values whose numbers are integers below 2^53 and whose objects have distinct keys. *)
Fixpoint wire_json (j : json) : Prop :=
  match j with
  | JNum x => exists z, Z.abs z < 2 ^ 53 /\ x = number_of_Z z
  | JArr l => (fix all (l : list json) : Prop := match l with [] => True | v :: l' => wire_json v /\ all l' end) l
  | JObj o =>
      NoDup (map fst o) /\
      (fix all (o : list (string * json)) : Prop :=
         match o with [] => True | (_, v) :: o' => wire_json v /\ all o' end) o
  | _ => True
  end.

Lemma parse_json_char a t :
  parse_chars (json_char a +:+ t) =
    match parse_chars t with Some (t', r) => Some (String a t', r) | None => None end.
Proof. destruct a as [[] [] [] [] [] [] [] []]; reflexivity. Qed.

Lemma parse_json_chars s r : parse_chars (json_chars s +:+ String quote r) = Some (s, r).
Proof.
  induction s as [|a s IH]; [done|]. cbn [json_chars]. by rewrite append_assoc, parse_json_char, IH.
Qed.

(** What may follow a value. *)
Definition stops (r : string) : Prop :=
  match r with EmptyString => True | String a _ => number_char a = false end.

Lemma take_number_app t r :
  (forall a, includes_char a t = true -> number_char a = true) -> stops r -> take_number (t +:+ r) = (t, r).
Proof.
  intros Ht Hr. induction t as [|a t IH]; simpl.
  - destruct r as [|a r]; [done|]. simpl in Hr. simpl. by rewrite Hr.
  - rewrite (Ht a) by (simpl; by rewrite bool_decide_eq_true_2). rewrite IH; [done|].
    intros b Hb. apply Ht. simpl. by rewrite Hb, orb_true_r.
Qed.

Lemma dec_digits_lead fuel n acc :
  0 < n < 10 ^ Z.of_nat fuel -> starts_with "0" (dec_digits fuel n acc) = false.
Proof.
  revert n acc. induction fuel as [|fuel IH]; intros n acc Hn; [simpl in Hn; lia|].
  cbn [dec_digits]. case_decide as Hlt.
  - rewrite Z.mod_small by lia. assert (n ∈ [1; 2; 3; 4; 5; 6; 7; 8; 9]) as Hin by (rewrite !elem_of_cons; lia).
    repeat (apply elem_of_cons in Hin as [->|Hin]; [done|]). by apply elem_of_nil in Hin.
  - apply IH. rewrite Nat2Z.inj_succ, Z.pow_succ_r in Hn by lia.
    split; [apply Z.div_str_pos; lia|]. apply Z.div_lt_upper_bound; lia.
Qed.

Lemma log2_digits n : 0 < n -> n < 10 ^ Z.of_nat (S (Z.to_nat (Z.log2 n))).
Proof.
  intros Hn. rewrite Nat2Z.inj_succ, Z2Nat.id by apply Z.log2_nonneg.
  pose proof (Z.log2_spec n Hn) as [_ H]. eapply Z.lt_le_trans; [exact H|].
  apply Z.pow_le_mono_l. lia.
Qed.

Lemma string_of_Z_lead n : 0 < n -> starts_with "0" (string_of_Z n) = false.
Proof.
  intros Hn. unfold string_of_Z. rewrite decide_False by lia. apply dec_digits_lead.
  split; [done|by apply log2_digits].
Qed.

Lemma digits_grammar s n :
  decimal_Z s = Some n -> (n = 0 -> s = "0") -> (0 < n -> starts_with "0" s = false) -> 0 <= n ->
  forall t, strip_first "-" t = s -> number_grammar t = true.
Proof.
  intros Hs H0 Hp Hn t Ht. unfold number_grammar. rewrite Ht. destruct (decide (n = 0)) as [->|].
  { by rewrite H0. }
  unfold decimal_Z in Hs. destruct (take_digits 10 0 0 s) as [[v [|k]] [|]] eqn:Hd; simplify_eq.
  rewrite Hp by lia. cbn [negb]. by rewrite orb_true_r.
Qed.

Lemma strip_first_free s : includes_char "-" s = false -> strip_first "-" s = s.
Proof. destruct s as [|a s]; [done|]. simpl. case_bool_decide; [done|]. intros _. unfold strip_first. by rewrite decide_False. Qed.

Lemma string_of_Z_neg n : n < 0 -> string_of_Z n = String "-" (string_of_Z (- n)).
Proof. intros Hn. unfold string_of_Z. rewrite decide_True by lia. by rewrite decide_False by lia. Qed.

Lemma integer_grammar z : number_grammar (string_of_Z z) = true.
Proof.
  destruct (decide (z < 0)) as [Hz|Hz].
  - rewrite string_of_Z_neg by done. eapply (digits_grammar (string_of_Z (- z)) (- z)); try lia.
    + apply decimal_string. lia.
    + intros _. apply string_of_Z_lead. lia.
    + done.
  - eapply (digits_grammar (string_of_Z z) z); try lia.
    + apply decimal_string. lia.
    + by intros ->.
    + apply string_of_Z_lead.
    + apply strip_first_free. by eapply decimal_free; [apply decimal_string; lia|].
Qed.

Lemma digit_number_char a d : digit_in_base 10 a = Some d -> number_char a = true.
Proof. destruct a as [[] [] [] [] [] [] [] []]; vm_compute; (discriminate || reflexivity). Qed.

Lemma integer_chars z a : includes_char a (string_of_Z z) = true -> number_char a = true.
Proof.
  assert (forall n, 0 <= n -> includes_char a (string_of_Z n) = true -> number_char a = true) as Hpos.
  { intros n Hn Ha. destruct (digit_in_base 10 a) as [d|] eqn:Hd; [by eapply digit_number_char|].
    rewrite (decimal_free _ n a) in Ha; [done|by apply decimal_string|done]. }
  destruct (decide (z < 0)) as [Hz|Hz]; [|apply Hpos; lia].
  rewrite string_of_Z_neg by done. simpl. intros [H|H]%orb_prop; [|by eapply (Hpos (- z)); [lia|]].
  bool_simpl. by subst.
Qed.

Lemma parse_integer z r : Z.abs z < 2 ^ 53 -> stops r ->
  parse_num (num_text (number_of_Z z) +:+ r) = Some (JNum (number_of_Z z), r).
Proof.
  intros Hz Hr. unfold parse_num, num_text. rewrite number_of_Z_finite, number_text_of_Z by done.
  rewrite take_number_app by (done || apply integer_chars). by rewrite integer_grammar, to_number_string.
Qed.

Lemma string_of_Z_cons z : exists a t, string_of_Z z = String a t.
Proof. destruct (string_of_Z z) as [|a t] eqn:H; [by apply string_of_Z_nonempty in H|eauto]. Qed.

(** The first character of a text that parses as a number. *)
Lemma number_char_first a :
  number_char a = true ->
  json_space a = false /\ a <> quote /\ a <> "["%char /\ a <> "{"%char /\ a <> "n"%char /\
  a <> "t"%char /\ a <> "f"%char.
Proof. destruct a as [[] [] [] [] [] [] [] []]; vm_compute; first [discriminate | by repeat split]. Qed.

Lemma skip_space_visible a s : json_space a = false -> skip_space (String a s) = String a s.
Proof. intros Ha. simpl. by rewrite Ha. Qed.

Lemma parse_value_integer fuel z r :
  Z.abs z < 2 ^ 53 -> stops r -> (0 < fuel)%nat ->
  parse_value fuel (num_text (number_of_Z z) +:+ r) = Some (JNum (number_of_Z z), r).
Proof.
  intros Hz Hr Hf. destruct fuel as [|fuel]; [lia|]. pose proof (parse_integer z r Hz Hr) as Hp.
  assert (exists a t, num_text (number_of_Z z) = String a t /\ number_char a = true) as (a & t & Ht & Ha).
  { unfold num_text. rewrite number_of_Z_finite, number_text_of_Z by done.
    destruct (string_of_Z_cons z) as (a & t & Ht). exists a, t. split; [done|].
    apply (integer_chars z). rewrite Ht. simpl. by rewrite bool_decide_eq_true_2. }
  rewrite Ht in *. apply number_char_first in Ha as (Hs & ? & ? & ? & ? & ? & ?).
  change (String a t +:+ r) with (String a (t +:+ r)) in *. cbn [parse_value].
  rewrite skip_space_visible by done. do 3 rewrite decide_False by done.
  cbn [starts_with]. do 3 rewrite bool_decide_eq_false_2 by congruence. exact Hp.
Qed.

Definition member_text (kv : string * json) : string := string_text kv.1 +:+ ":" +:+ stringify kv.2.

Lemma stringify_obj o : stringify (JObj o) = "{" +:+ join "," (map member_text o) +:+ "}".
Proof. cbn [stringify]. do 3 f_equal. by induction o as [|[k v] o ->]. Qed.

Lemma stops_char a r : number_char a = false -> stops (String a r).
Proof. done. Qed.

Lemma join_cons {A} (f : A -> string) x y l :
  join "," (map f (x :: y :: l)) = f x +:+ "," +:+ join "," (map f (y :: l)).
Proof. done. Qed.

(** [j] parses back from its text, whatever follows. *)
Definition reads_back (j : json) : Prop :=
  forall fuel r, (2 * String.length (stringify j) <= fuel)%nat -> stops r ->
    parse_value fuel (stringify j +:+ r) = Some (j, r).

Lemma parse_elements_join l fuel r :
  l <> [] -> Forall reads_back l ->
  (2 * String.length (join "," (map stringify l)) + 1 <= fuel)%nat ->
  parse_elements fuel (join "," (map stringify l) +:+ String "]" r) = Some (l, r).
Proof.
  revert fuel. induction l as [|v l IH]; intros fuel Hne Hl Hf; [done|].
  apply Forall_cons in Hl as [Hv Hl]. destruct fuel as [|fuel]; [lia|]. cbn [parse_elements].
  destruct l as [|w l].
  - cbn [map join] in *. by rewrite Hv by (lia || done).
  - rewrite (join_cons stringify) in Hf |- *. rewrite !length_append in Hf.
    change (String.length ",") with 1%nat in Hf. rewrite !append_assoc, Hv by (lia || done).
    cbn -[parse_elements join map]. by rewrite IH by (lia || done).
Qed.

Lemma parse_members_join o fuel r :
  o <> [] -> Forall (fun kv => reads_back kv.2) o ->
  (2 * String.length (join "," (map member_text o)) + 1 <= fuel)%nat ->
  parse_members fuel (join "," (map member_text o) +:+ String "}" r) = Some (o, r).
Proof.
  revert fuel. induction o as [|[k v] o IH]; intros fuel Hne Ho Hf; [done|].
  apply Forall_cons in Ho as [Hv Ho]. destruct fuel as [|fuel]; [lia|].
  assert (forall t, (2 * String.length (stringify v) <= fuel)%nat -> stops t ->
    parse_members (S fuel) (member_text (k, v) +:+ t) =
      (let r := skip_space t in
       if starts_with "}" r then Some ([(k, v)], str_drop 1 r)
       else if starts_with "," r then
         match parse_members fuel (str_drop 1 r) with
         | Some (o, r) => Some ((k, v) :: o, r)
         | None => None
         end
       else None)) as Hstep.
  { intros t Hlen Ht. unfold member_text. cbn [fst snd]. rewrite !append_assoc. unfold string_text.
    cbn [parse_members String.append]. rewrite skip_space_visible by done.
    cbn [starts_with str_drop]. rewrite bool_decide_eq_true_2 by done. cbn [andb negb].
    rewrite append_assoc. cbn [String.append]. rewrite parse_json_chars.
    rewrite skip_space_visible by done. cbn [starts_with str_drop].
    rewrite bool_decide_eq_true_2 by done. cbn [andb negb]. by rewrite Hv. }
  assert (String.length (stringify v) < String.length (member_text (k, v)))%nat as Hlen.
  { unfold member_text. cbn [fst snd]. rewrite !length_append. simpl. lia. }
  destruct o as [|kv o].
  - cbn [map join] in *. by rewrite Hstep by (lia || done).
  - rewrite (join_cons member_text) in Hf |- *. rewrite !length_append in Hf.
    change (String.length ",") with 1%nat in Hf. rewrite !append_assoc, Hstep by (lia || done).
    cbn -[parse_members join map member_text]. by rewrite IH by (lia || done).
Qed.

Lemma wire_arr l : wire_json (JArr l) <-> Forall wire_json l.
Proof.
  simpl. induction l as [|v l IH]; [split; [constructor|done]|]. rewrite Forall_cons. naive_solver.
Qed.

Lemma wire_obj o : wire_json (JObj o) <-> NoDup (map fst o) /\ Forall (fun kv => wire_json kv.2) o.
Proof.
  cbn [wire_json]. f_equiv. induction o as [|[k v] o IH]; [split; [constructor|done]|].
  rewrite Forall_cons. naive_solver.
Qed.

(** The first character of a wire value's text. *)
Lemma stringify_head j : wire_json j -> exists a t, stringify j = String a t /\ json_space a = false /\
  a <> "]"%char /\ a <> "}"%char.
Proof.
  destruct j as [|[]|x|s|l|o]; try (by eexists _, _).
  intros (z & Hz & ->). simpl. unfold num_text. rewrite number_of_Z_finite, number_text_of_Z by done.
  destruct (string_of_Z_cons z) as (a & t & Ht). exists a, t. split; [done|].
  assert (number_char a = true) as Ha.
  { apply (integer_chars z). rewrite Ht. simpl. by rewrite bool_decide_eq_true_2. }
  pose proof (number_char_first a Ha) as [? _]. split; [done|]. by split; intros ->.
Qed.

Lemma join_head l r : l <> [] -> Forall wire_json l -> exists a t,
  join "," (map stringify l) +:+ r = String a t /\ json_space a = false /\ a <> "]"%char.
Proof.
  intros Hne Hl. destruct l as [|v l]; [done|]. apply Forall_cons in Hl as [Hv _].
  destruct (stringify_head v Hv) as (a & t & Ht & Ha & Hb & _).
  destruct l as [|w l]; [|rewrite (join_cons stringify), append_assoc]; cbn [map join]; rewrite Ht;
    eexists a, _; by repeat split.
Qed.

Lemma str_head_false c a s t : s = String a t -> a <> c -> starts_with (String c EmptyString) s = false.
Proof. intros -> Hc. simpl. by rewrite bool_decide_eq_false_2. Qed.

Lemma reads_back_arr l : Forall wire_json l -> Forall reads_back l -> reads_back (JArr l).
Proof.
  intros Hw Hl [|fuel] r Hf Hr; cbn [stringify] in *; [rewrite length_append in Hf; simpl in Hf; lia|].
  rewrite !length_append in Hf. change (String.length "[") with 1%nat in Hf.
  change (String.length "]") with 1%nat in Hf. rewrite append_assoc. cbn [String.append].
  rewrite append_assoc. cbn [parse_value]. rewrite skip_space_visible by done. rewrite decide_False by done.
  rewrite decide_True by done. destruct l as [|v l]; [done|].
  destruct (join_head (v :: l) (String "]" r)) as (a & t & Ht & Ha & Hb); [done|done|].
  change ("]" +:+ r) with (String "]" r). rewrite Ht at 1. rewrite skip_space_visible by done.
  rewrite (str_head_false "]" a _ t) by done. by rewrite parse_elements_join by (done || lia).
Qed.

Lemma reads_back_obj o :
  NoDup (map fst o) -> Forall (fun kv => reads_back kv.2) o -> reads_back (JObj o).
Proof.
  intros Hnd Ho [|fuel] r Hf Hr; rewrite stringify_obj in *; [rewrite length_append in Hf; simpl in Hf; lia|].
  rewrite !length_append in Hf. change (String.length "{") with 1%nat in Hf.
  change (String.length "}") with 1%nat in Hf. rewrite append_assoc. cbn [String.append].
  rewrite append_assoc. cbn [parse_value]. rewrite skip_space_visible by done. rewrite decide_False by done.
  rewrite decide_False by done. rewrite decide_True by done. destruct o as [|kv o]; [done|].
  assert (exists t, join "," (map member_text (kv :: o)) +:+ String "}" r = String quote t) as [t Ht].
  { destruct o; [|rewrite (join_cons member_text), append_assoc]; cbn [map join]; by eexists. }
  change ("}" +:+ r) with (String "}" r). rewrite Ht at 1. rewrite skip_space_visible by done.
  rewrite (str_head_false "}" quote _ t) by done. rewrite parse_members_join by (done || lia).
  by rewrite of_pairs_NoDup.
Qed.

Lemma wire_reads_back j : wire_json j -> reads_back j.
Proof.
  revert j. fix IH 1. intros [| [] |x|s|l|o] Hw.
  1-3: by intros [|fuel] r Hf Hr; [simpl in Hf; lia|].
  - destruct Hw as (z & Hz & ->). intros fuel r Hf Hr. cbn [stringify] in *. apply parse_value_integer; [done..|].
    destruct fuel; [|lia]. unfold num_text in Hf. rewrite number_of_Z_finite, number_text_of_Z in Hf by done.
    destruct (string_of_Z_cons z) as (a & t & Ht). rewrite Ht in Hf. simpl in Hf. lia.
  - intros [|fuel] r Hf Hr; [simpl in Hf; lia|]. cbn [stringify parse_value]. unfold string_text.
    cbn [String.append]. rewrite skip_space_visible by done. rewrite decide_True by done.
    rewrite append_assoc. cbn [String.append]. by rewrite parse_json_chars.
  - apply wire_arr in Hw. apply reads_back_arr; [done|].
    induction l as [|v l IHl]; [constructor|]. apply Forall_cons in Hw as [Hv Hw].
    constructor; [by apply IH|by apply IHl].
  - apply wire_obj in Hw as [Hnd Hw]. apply reads_back_obj; [done|]. clear Hnd.
    induction o as [|[k v] o IHo]; [constructor|]. apply Forall_cons in Hw as [Hv Hw].
    constructor; [by apply IH|by apply IHo].
Qed.

(** [JSON.parse] reads back what [JSON.stringify] wrote of a wire value. *)
Lemma json_parse_stringify j : wire_json j -> json_parse (stringify j) = Some j.
Proof.
  intros Hw. unfold json_parse. pose proof (wire_reads_back j Hw (2 * String.length (stringify j) + 2)%nat EmptyString) as H.
  rewrite append_nil_r in H. by rewrite H by (done || lia).
Qed.

(** What stringify writes of a wire value holds no control character, so no line break. *)
Fixpoint visible (s : string) : bool :=
  match s with EmptyString => true | String a s => (32 <=? N_of_ascii a)%N && visible s end.

Lemma visible_append a b : visible (a +:+ b) = visible a && visible b.
Proof. induction a as [|x a IH]; [done|]. cbn [String.append visible]. by rewrite IH, andb_assoc. Qed.

Lemma visible_free s c : visible s = true -> (N_of_ascii c < 32)%N -> includes_char c s = false.
Proof.
  intros Hs Hc. induction s as [|a s IH]; [done|]. simpl in *. bool_simpl. rewrite IH by done.
  rewrite bool_decide_eq_false_2; [done|]. intros ->. apply N.leb_le in H. lia.
Qed.

Lemma visible_json_chars s : visible (json_chars s) = true.
Proof.
  induction s as [|a s IH]; [done|]. cbn [json_chars]. rewrite visible_append, IH, andb_true_r.
  destruct a as [[] [] [] [] [] [] [] []]; reflexivity.
Qed.

Lemma visible_string_text s : visible (string_text s) = true.
Proof. unfold string_text. cbn [visible]. by rewrite visible_append, visible_json_chars. Qed.

Lemma visible_digit a d : digit_in_base 10 a = Some d -> (32 <=? N_of_ascii a)%N = true.
Proof. destruct a as [[] [] [] [] [] [] [] []]; vm_compute; (discriminate || reflexivity). Qed.

Lemma visible_all s : (forall a, includes_char a s = true -> (32 <=? N_of_ascii a)%N = true) -> visible s = true.
Proof.
  induction s as [|a s IH]; [done|]. intros H. simpl. rewrite H by (simpl; by rewrite bool_decide_eq_true_2).
  apply IH. intros b Hb. apply H. simpl. by rewrite Hb, orb_true_r.
Qed.

Lemma visible_integer z : visible (string_of_Z z) = true.
Proof.
  assert (forall n, 0 <= n -> visible (string_of_Z n) = true) as Hpos.
  { intros n Hn. apply visible_all. intros a Ha.
    destruct (digit_in_base 10 a) as [d|] eqn:Hd; [by eapply visible_digit|].
    rewrite (decimal_free _ n a) in Ha; [done|by apply decimal_string|done]. }
  destruct (decide (z < 0)) as [Hz|Hz]; [|apply Hpos; lia].
  rewrite string_of_Z_neg by done. simpl. apply Hpos. lia.
Qed.

Lemma visible_join l : Forall (fun s => visible s = true) l -> visible (join "," l) = true.
Proof.
  induction l as [|s l IH]; [done|]. intros [Hs Hl]%Forall_cons. destruct l as [|t l]; [done|].
  change (join "," (s :: t :: l)) with (s +:+ "," +:+ join "," (t :: l)).
  by rewrite !visible_append, Hs, IH.
Qed.

Lemma stringify_visible j : wire_json j -> visible (stringify j) = true.
Proof.
  revert j. fix IH 1. intros [| [] |x|s|l|o] Hw; try done.
  - destruct Hw as (z & Hz & ->). cbn [stringify]. unfold num_text.
    rewrite number_of_Z_finite, number_text_of_Z by done. apply visible_integer.
  - apply visible_string_text.
  - apply wire_arr in Hw. cbn [stringify]. rewrite !visible_append, visible_join; [done|].
    induction l as [|v l IHl]; [constructor|]. apply Forall_cons in Hw as [Hv Hw].
    constructor; [by apply IH|by apply IHl].
  - apply wire_obj in Hw as [_ Hw]. rewrite stringify_obj, !visible_append, visible_join; [done|].
    induction o as [|[k v] o IHo]; [constructor|]. apply Forall_cons in Hw as [Hv Hw].
    constructor; [|by apply IHo]. unfold member_text. cbn [fst snd].
    rewrite !visible_append, visible_string_text, IH; done.
Qed.
