(* ===== verification/Sse.v ===== *)
(** * Server-sent events (lib/sse.ts)

    The one reader every streaming surface shares. It consumes a response body chunk by chunk; what it
    yields depends on the text alone, not on where the chunks end. A chunk is what the streaming
    [TextDecoder] makes of one read. *)

From S2P Require Import Prelude JsString.

#[local] Open Scope nat_scope.

(** ** [readSseData] *)
Record reader := Reader { buffer : string; dataLines : list string }.

(** [takeEvent]: the joined payload, if any line was collected; the lines are reset. *)
Definition takeEvent (lines : list string) : list string :=
  match lines with [] => [] | _ => [join (String LF EmptyString) lines] end.

Definition data_field (line : string) : string := strip_first " " (str_drop 5 line).

(** One line: what it yields, and the lines then collected. *)
Definition take_line (lines : list string) (line : string) : list string * list string :=
  if bool_decide (line = EmptyString) then (takeEvent lines, [])
  else if starts_with "data:" line then ([], lines ++ [data_field line])
  else ([], lines).

(** The inner loop: whole lines leave the buffer. *)
Fixpoint drain (fuel : nat) (st : reader) : list string * reader :=
  match fuel with
  | O => ([], st)
  | S fuel =>
      match cut LF (buffer st) with
      | None => ([], st)
      | Some (line, rest) =>
          let '(out, lines) := take_line (dataLines st) (strip_last CR line) in
          let '(outs, st') := drain fuel (Reader rest lines) in
          (out ++ outs, st')
      end
  end.

(** A read: the decoded text is appended and the loop runs; every iteration shortens the buffer. *)
Definition feed (st : reader) (text : string) : list string * reader :=
  let b := buffer st +:+ text in drain (S (String.length b)) (Reader b (dataLines st)).

(** The end of the body: a last line may lack its line break, a last event its blank line. *)
Definition finish (st : reader) : list string :=
  let lines :=
    if bool_decide (buffer st <> EmptyString) && starts_with "data:" (buffer st)
    then dataLines st ++ [data_field (strip_last CR (buffer st))] else dataLines st in
  takeEvent lines.

(** Every payload, in order: [chunks] are the decoded reads, [tail] what [decode()] flushes. *)
Fixpoint read_from (st : reader) (chunks : list string) (tail : string) : list string :=
  match chunks with
  | [] => let '(out, st') := feed st tail in out ++ finish st'
  | chunk :: chunks => let '(out, st') := feed st chunk in out ++ read_from st' chunks tail
  end.

Definition readSseData (chunks : list string) (tail : string) : list string :=
  read_from (Reader EmptyString []) chunks tail.

(** What was read before the body failed: whole lines only, nothing flushed. *)
Fixpoint read_open (st : reader) (chunks : list string) : list string :=
  match chunks with
  | [] => []
  | chunk :: chunks => let '(out, st') := feed st chunk in out ++ read_open st' chunks
  end.

Example reads_events :
  readSseData ["data: a"; String CR (String LF "da"); "ta:b" +:+ String LF (String LF ": note" +:+ String LF "data:c")] EmptyString
    = ["a" +:+ String LF "b"; "c"].
Proof. reflexivity. Qed.

(** ** The reference: the whole text, line by line *)

(** The payloads of a list of lines, blank lines ending events. *)
Fixpoint line_events (lines : list string) (l : list string) : list string :=
  match l with
  | [] => takeEvent lines
  | line :: l => let '(out, lines) := take_line lines line in out ++ line_events lines l
  end.

Definition text_events (text : string) : list string :=
  line_events [] (map (strip_last CR) (split_on LF text)).

(** ** Lemmas *)
Lemma split_on_line c x y : includes_char c x = false -> split_on c (x +:+ String c y) = x :: split_on c y.
Proof.
  induction x as [|a x IH]; simpl; intros Hx.
  - by rewrite decide_True.
  - bool_simpl. rewrite decide_False by done. by rewrite IH.
Qed.

(** The events of the lines of a text, given the lines already collected. *)
Definition events_from (lines : list string) (text : string) : list string :=
  line_events lines (map (strip_last CR) (split_on LF text)).

(** The loop yields the events of the lines it takes and leaves no whole line. *)
Lemma drain_events fuel st t : String.length (buffer st) < fuel ->
  events_from (dataLines st) (buffer st +:+ t) =
    (drain fuel st).1 ++ events_from (dataLines (drain fuel st).2) (buffer (drain fuel st).2 +:+ t).
Proof.
  revert st. induction fuel as [|fuel IH]; intros [b lines] Hf; [lia|]. cbn [drain buffer dataLines] in *.
  destruct (cut LF b) as [[line rest]|] eqn:Hcut; [|done].
  pose proof (cut_length _ _ _ _ Hcut) as Hlen. apply cut_Some in Hcut as [-> Hline].
  destruct (take_line lines (strip_last CR line)) as [out lines'] eqn:Htake.
  specialize (IH (Reader rest lines')). cbn [buffer dataLines] in IH.
  destruct (drain fuel (Reader rest lines')) as [outs st']. cbn [fst snd].
  unfold events_from at 1. rewrite append_assoc. cbn [String.append]. rewrite split_on_line by done.
  cbn [map line_events]. rewrite Htake. rewrite <- app_assoc. f_equal. apply IH. lia.
Qed.

Lemma drain_free fuel st : String.length (buffer st) < fuel ->
  includes_char LF (buffer (drain fuel st).2) = false.
Proof.
  revert st. induction fuel as [|fuel IH]; intros [b lines] Hf; [lia|]. cbn [drain buffer dataLines] in *.
  destruct (cut LF b) as [[line rest]|] eqn:Hcut; [|by apply cut_None].
  pose proof (cut_length _ _ _ _ Hcut) as Hlen.
  destruct (take_line lines (strip_last CR line)) as [out lines'].
  specialize (IH (Reader rest lines')). cbn [buffer] in IH.
  destruct (drain fuel (Reader rest lines')) as [outs st']. apply IH. lia.
Qed.

Lemma starts_with_strip b : starts_with "data:" (strip_last CR b) = starts_with "data:" b.
Proof.
  assert (forall p, includes_char CR p = false -> forall b, starts_with p (strip_last CR b) = starts_with p b) as H; [|by apply H].
  clear b. intros p. induction p as [|c p IH]; [done|]. simpl. intros Hp b. bool_simpl.
  destruct b as [|a [|a' b]]; [done| |].
  - simpl. case_decide as Ha; [|done]. subst. simpl. by rewrite bool_decide_eq_false_2.
  - change (strip_last CR (String a (String a' b))) with (String a (strip_last CR (String a' b))).
    cbn [starts_with]. by rewrite IH.
Qed.

Lemma finish_events st : includes_char LF (buffer st) = false ->
  events_from (dataLines st) (buffer st) = finish st.
Proof.
  intros Hb. unfold events_from, finish. rewrite split_on_free by done. cbn [map line_events].
  unfold take_line. rewrite starts_with_strip. case_bool_decide as Hs.
  - assert (starts_with "data:" (buffer st) = false) as ->; [|by rewrite andb_false_r, app_nil_r].
    rewrite <- starts_with_strip. by rewrite Hs.
  - rewrite bool_decide_eq_true_2 by (intros Hn; by rewrite Hn in Hs).
    by destruct (starts_with "data:" (buffer st)).
Qed.

Lemma read_events chunks tail st :
  read_from st chunks tail = events_from (dataLines st) (buffer st +:+ foldr String.append tail chunks).
Proof.
  revert st. induction chunks as [|chunk chunks IH]; intros st; cbn [read_from foldr].
  - unfold feed. set (b := buffer st +:+ tail).
    pose proof (drain_events (S (String.length b)) (Reader b (dataLines st)) EmptyString) as H.
    pose proof (drain_free (S (String.length b)) (Reader b (dataLines st))) as Hfree.
    destruct (drain _ _) as [out st']. cbn [buffer dataLines fst snd] in *.
    rewrite !append_nil_r in H. rewrite H by lia. by rewrite finish_events by (apply Hfree; lia).
  - unfold feed. set (b := buffer st +:+ chunk).
    pose proof (drain_events (S (String.length b)) (Reader b (dataLines st)) (foldr String.append tail chunks)) as H.
    destruct (drain _ _) as [out st']. cbn [buffer dataLines fst snd] in *.
    rewrite IH, <- append_assoc. fold b. symmetry. apply H. lia.
Qed.

(** An event as a producer frames it: [data: payload] and a blank line. *)
Definition frame (payload : string) : string := "data: " +:+ payload +:+ String LF (String LF EmptyString).

Lemma strip_last_free c s : includes_char c s = false -> strip_last c s = s.
Proof.
  induction s as [|a [|b s] IH]; [done| |].
  - simpl. intros H. bool_simpl. by rewrite decide_False.
  - intros H. change (strip_last c (String a (String b s))) with (String a (strip_last c (String b s))).
    rewrite IH; [done|]. by apply orb_false_elim in H as [_ H].
Qed.

Lemma frame_events payload text :
  includes_char LF payload = false -> includes_char CR payload = false ->
  events_from [] (frame payload +:+ text) = payload :: events_from [] text.
Proof.
  intros Hlf Hcr. unfold events_from.
  assert (frame payload +:+ text = ("data: " +:+ payload) +:+ String LF (String LF text)) as ->
    by (unfold frame; by rewrite !append_assoc).
  rewrite split_on_line by (by rewrite includes_char_append, Hlf).
  cbn [split_on]. rewrite decide_True by done. cbn [map line_events].
  rewrite strip_last_free by (by rewrite includes_char_append, Hcr).
  unfold take_line at 1. rewrite bool_decide_eq_false_2 by done. cbn [String.append starts_with].
  repeat rewrite bool_decide_eq_true_2 by done. cbn [andb app].
  unfold data_field. cbn [str_drop strip_first]. rewrite decide_True by done. done.
Qed.

(** Framed payloads read back, however the stream is cut. *)
Lemma frames_read payloads chunks :
  Forall (fun p => includes_char LF p = false /\ includes_char CR p = false) payloads ->
  foldr String.append EmptyString chunks = foldr String.append EmptyString (map frame payloads) ->
  readSseData chunks EmptyString = payloads.
Proof.
  intros Hp Hc. unfold readSseData. rewrite read_events. cbn [buffer dataLines String.append]. rewrite Hc.
  clear Hc. induction Hp as [|p payloads [H1 H2] _ IH]; [done|]. cbn [map foldr].
  by rewrite frame_events, IH.
Qed.

(** ** Properties *)

(** C34. Wherever the network cuts the body, the reader yields the events of its text: the payloads read
    from any sequence of chunks are those of the text they make up, taken line by line. *)
Theorem read_is_chunk_independent chunks tail :
  readSseData chunks tail = text_events (foldr String.append tail chunks).
Proof. apply read_events. Qed.
