(* ===== verification/ServingAudit.v ===== *)
(** * The routing audit parser (lib/serving-audit.ts)

    The operator-only payload of one served call's routing decision, validated field by field. *)

From S2P Require Import Prelude JsMap JsString JsNumber QueryStrings Json.

#[local] Open Scope Z_scope.

Inductive ServingLeg := LegServing | LegOptimization | LegEval | LegOverhead.

Definition leg_key (l : ServingLeg) : string :=
  match l with
  | LegServing => "serving" | LegOptimization => "optimization"
  | LegEval => "eval" | LegOverhead => "overhead"
  end.

Definition SERVING_LEGS : list ServingLeg := [LegServing; LegOptimization; LegEval; LegOverhead].

Definition ERROR_BEFORE_ROUTING : string := "error-before-routing".

Record ServingRoutingAudit := {
  id : string;
  org_id : string;
  endpoint_id : string;
  endpoint_label : string;
  model : option string;
  provider_model : option string;
  cluster_id : option string;
  cluster_label : option string;
  routing_reason : option string;
  router_cost_usd : option number;
  leg : ServingLeg;
  input_tokens : number;
  output_tokens : number;
  cached_tokens : number;
  cost_usd : option number;
  latency_ms : option number;
  ttfb_ms : option number;
  status : ServingRequestStatus;
  error_message : option string;
  created_at : string;
}.

Record AuditOrg := { audit_org_id : string; audit_org_name : string; audit_org_slug : string }.

Record ServingRoutingAuditPayload := {
  request : ServingRoutingAudit;
  org : option AuditOrg;
}.

Definition routingFailedBeforePolicy (audit : ServingRoutingAudit) : bool :=
  bool_decide (routing_reason audit = Some ERROR_BEFORE_ROUTING).

Definition ROUTER_COST_NOT_RECORDED : string := "not recorded".

Definition activatedCluster (audit : ServingRoutingAudit) : option string :=
  let label := present (cluster_label audit) in
  match cluster_id audit, label with
  | None, None => None
  | Some i, None => Some ("Cluster " +:+ i)
  | None, Some l => Some l
  | Some i, Some l => Some (l +:+ " (cluster " +:+ i +:+ ")")
  end.

(** A value read off a record: [None] is [undefined]. *)
Definition stringOrNull (v : option json) : option string := v ≫= jstr.

Definition finite (x : number) : option number := if is_finite x then Some x else None.

Definition numberOrNull (v : option json) : option number :=
  match v with
  | Some (JNum x) => finite x
  | Some (JStr s) => if bool_decide (trim s <> "") then finite (to_number s) else None
  | _ => None
  end.

Definition countOrZero (v : option json) : number := default PrimFloat.zero (numberOrNull v).

Definition recordOrNull (v : option json) : option (list (string * json)) :=
  match v with Some (JObj o) => Some o | _ => None end.

Definition parse_leg (v : option json) : option ServingLeg :=
  find_first (fun l => bool_decide (stringOrNull v = Some (leg_key l))) SERVING_LEGS.

Definition parseAudit (raw : option json) : option ServingRoutingAudit :=
  source ← recordOrNull raw;
  let field k := mget source k in
  match stringOrNull (field "id"), stringOrNull (field "org_id"),
        stringOrNull (field "endpoint_id"), stringOrNull (field "endpoint_label"),
        stringOrNull (field "created_at"), status_of (stringOrNull (field "status")),
        parse_leg (field "leg") with
  | Some i, Some o, Some ei, Some el, Some c, Some st, Some l =>
      Some {| cached_tokens := countOrZero (field "cached_tokens");
              cluster_id := stringOrNull (field "cluster_id");
              cluster_label := stringOrNull (field "cluster_label");
              cost_usd := numberOrNull (field "cost_usd");
              created_at := c;
              endpoint_id := ei;
              endpoint_label := el;
              error_message := stringOrNull (field "error_message");
              id := i;
              input_tokens := countOrZero (field "input_tokens");
              latency_ms := numberOrNull (field "latency_ms");
              leg := l;
              model := stringOrNull (field "model");
              org_id := o;
              output_tokens := countOrZero (field "output_tokens");
              provider_model := stringOrNull (field "provider_model");
              router_cost_usd := numberOrNull (field "router_cost_usd");
              routing_reason := stringOrNull (field "routing_reason");
              status := st;
              ttfb_ms := numberOrNull (field "ttfb_ms") |}
  | _, _, _, _, _, _, _ => None
  end.

Definition parseOrg (raw : option json) : option AuditOrg :=
  source ← recordOrNull raw;
  i ← stringOrNull (mget source "id");
  n ← stringOrNull (mget source "name");
  s ← stringOrNull (mget source "slug");
  Some {| audit_org_id := i; audit_org_name := n; audit_org_slug := s |}.

Definition parseServingRoutingAudit (raw : option json) : option ServingRoutingAuditPayload :=
  source ← recordOrNull raw;
  request ← parseAudit (mget source "request");
  Some {| org := parseOrg (mget source "org"); request := request |}.

(** ** The backend's serialization *)
Definition of_number (x : option number) : json := match x with Some x => JNum x | None => JNull end.

Definition audit_json (a : ServingRoutingAudit) : json := JObj
  [("id", JStr (id a)); ("org_id", JStr (org_id a)); ("endpoint_id", JStr (endpoint_id a));
   ("endpoint_label", JStr (endpoint_label a)); ("model", of_nullable (model a));
   ("provider_model", of_nullable (provider_model a)); ("cluster_id", of_nullable (cluster_id a));
   ("cluster_label", of_nullable (cluster_label a));
   ("routing_reason", of_nullable (routing_reason a));
   ("router_cost_usd", of_number (router_cost_usd a)); ("leg", JStr (leg_key (leg a)));
   ("input_tokens", JNum (input_tokens a)); ("output_tokens", JNum (output_tokens a));
   ("cached_tokens", JNum (cached_tokens a)); ("cost_usd", of_number (cost_usd a));
   ("latency_ms", of_number (latency_ms a)); ("ttfb_ms", of_number (ttfb_ms a));
   ("status", JStr (status_key (status a))); ("error_message", of_nullable (error_message a));
   ("created_at", JStr (created_at a))].

Definition org_json (o : option AuditOrg) : json :=
  match o with
  | Some o => JObj [("id", JStr (audit_org_id o)); ("name", JStr (audit_org_name o));
                    ("slug", JStr (audit_org_slug o))]
  | None => JNull
  end.

Definition payload_json (p : ServingRoutingAuditPayload) : json :=
  JObj [("request", audit_json (request p)); ("org", org_json (org p))].

(** Every number of the audit is finite. *)
Definition numbers_finite (a : ServingRoutingAudit) : bool :=
  is_finite (input_tokens a) && is_finite (output_tokens a) && is_finite (cached_tokens a) &&
  forallb (fun o => match o with Some x => is_finite x | None => true end)
    [router_cost_usd a; cost_usd a; latency_ms a; ttfb_ms a].

(** The field holds a string. *)
Definition is_string (v : option json) : bool :=
  match v with Some (JStr _) => true | _ => false end.

(** ** Lemmas *)
Lemma stringOrNull_nullable o : stringOrNull (Some (of_nullable o)) = o.
Proof. by destruct o. Qed.

Lemma stringOrNull_string s : stringOrNull (Some (JStr s)) = Some s.
Proof. done. Qed.

Lemma numberOrNull_number o :
  match o with Some x => is_finite x | None => true end = true ->
  numberOrNull (Some (of_number o)) = o.
Proof. destruct o as [x|]; [|done]. simpl. unfold finite. by intros ->. Qed.

Lemma countOrZero_number x : is_finite x = true -> countOrZero (Some (JNum x)) = x.
Proof. intros H. unfold countOrZero. simpl. unfold finite. by rewrite H. Qed.

Lemma finite_finite x y : finite x = Some y -> is_finite y = true.
Proof. unfold finite. destruct (is_finite x) eqn:?; by intros [=<-]. Qed.

Lemma numberOrNull_finite v :
  match numberOrNull v with Some x => is_finite x | None => true end = true.
Proof.
  destruct v as [[| |x|s| |]|]; try done; simpl.
  - destruct (finite x) eqn:H; [by eapply finite_finite|done].
  - case_bool_decide; [|done]. destruct (finite (to_number s)) eqn:H'; [by eapply finite_finite|done].
Qed.

Lemma countOrZero_finite v : is_finite (countOrZero v) = true.
Proof. pose proof (numberOrNull_finite v) as H. unfold countOrZero. by destruct (numberOrNull v). Qed.

(** Look up literal keys in a literal object. *)
Ltac read_members :=
  repeat match goal with
  | |- context [mget ?l ?k] => let v := eval hnf in (mget l k) in change (mget l k) with v
  end.

Lemma parse_leg_key l : parse_leg (Some (JStr (leg_key l))) = Some l.
Proof. by destruct l. Qed.

Lemma status_of_key st : status_of (stringOrNull (Some (JStr (status_key st)))) = Some st.
Proof. by destruct st. Qed.

Lemma parseAudit_json a : numbers_finite a = true -> parseAudit (Some (audit_json a)) = Some a.
Proof.
  destruct a. unfold numbers_finite. intros H. cbn in H. bool_simpl.
  unfold parseAudit, audit_json.
  cbn [recordOrNull mbind option_bind id org_id endpoint_id endpoint_label model provider_model
    cluster_id cluster_label routing_reason router_cost_usd leg input_tokens output_tokens
    cached_tokens cost_usd latency_ms ttfb_ms status error_message created_at].
  read_members. rewrite parse_leg_key, status_of_key.
  rewrite !stringOrNull_string, !stringOrNull_nullable, !countOrZero_number, !numberOrNull_number
    by done. done.
Qed.

Lemma parseOrg_json o : parseOrg (Some (org_json o)) = o.
Proof. by destruct o as [[]|]. Qed.

(** ** Properties *)

(** The routing audit the backend serializes is read back exactly, organization included, whenever
    its numbers are finite. *)
Theorem audit_roundtrip p :
  numbers_finite (request p) = true ->
  parseServingRoutingAudit (Some (payload_json p)) = Some p.
Proof.
  destruct p as [a o]. intros H. unfold parseServingRoutingAudit, payload_json. simpl in H |- *.
  rewrite parseAudit_json by done. simpl. by rewrite parseOrg_json.
Qed.

(** What makes a value an audit row: identity, status and leg are present and well-typed. *)
Definition audit_shaped (v : option json) : bool :=
  match recordOrNull v with
  | Some o =>
      forallb (fun k => is_string (mget o k))
        ["id"; "org_id"; "endpoint_id"; "endpoint_label"; "created_at"] &&
      existsb (fun s => bool_decide (stringOrNull (mget o "status") = Some s)) ["ok"; "error"] &&
      existsb (fun l => bool_decide (stringOrNull (mget o "leg") = Some (leg_key l))) SERVING_LEGS
  | None => false
  end.

Lemma is_string_Some v : is_string v = match stringOrNull v with Some _ => true | None => false end.
Proof. by destruct v as [[]|]. Qed.

Lemma status_of_Some o :
  existsb (fun s => bool_decide (o = Some s)) ["ok"; "error"] =
    match status_of o with Some _ => true | None => false end.
Proof. unfold status_of. simpl. by repeat case_bool_decide. Qed.

Lemma parse_leg_Some v :
  existsb (fun l => bool_decide (stringOrNull v = Some (leg_key l))) SERVING_LEGS =
    match parse_leg v with Some _ => true | None => false end.
Proof. unfold parse_leg. simpl. by repeat case_bool_decide. Qed.

(** The parser trusts nothing: it accepts a payload exactly when the row's identity, status and leg
    have their types, whatever the other fields hold, and every number it hands on is finite, so no
    decimal string, NaN or infinity reaches the arithmetic of the panel. *)
Theorem audit_parse_total v :
  (is_Some (parseAudit v) <-> audit_shaped v = true) /\
  forall a, parseAudit v = Some a -> numbers_finite a = true.
Proof.
  unfold parseAudit, audit_shaped. destruct (recordOrNull v) as [o|];
    [|split; [split; [by intros []|done]|done]].
  cbn [mbind option_bind forallb]. rewrite !is_string_Some.
  rewrite (status_of_Some (stringOrNull (mget o "status"))), (parse_leg_Some (mget o "leg")).
  destruct (stringOrNull (mget o "id")), (stringOrNull (mget o "org_id")),
    (stringOrNull (mget o "endpoint_id")), (stringOrNull (mget o "endpoint_label")),
    (stringOrNull (mget o "created_at")), (status_of _), (parse_leg _); simpl;
    try (split; [split; [by intros []|done]|done]).
  split; [by eauto|]. intros a [=<-]. unfold numbers_finite. simpl.
  by rewrite !countOrZero_finite, !numberOrNull_finite.
Qed.

(** ** Witnesses *)
Definition demo_payload : ServingRoutingAuditPayload :=
  {| request :=
       {| id := "r1"; org_id := "o1"; endpoint_id := "e1"; endpoint_label := "chat";
          model := Some "m"; provider_model := None; cluster_id := None; cluster_label := Some "c";
          routing_reason := Some ERROR_BEFORE_ROUTING; router_cost_usd := Some 0%float;
          leg := LegServing; input_tokens := 12; output_tokens := 3; cached_tokens := 0;
          cost_usd := None; latency_ms := Some 250; ttfb_ms := None; status := StatusError;
          error_message := None; created_at := "2026-01-01" |}%float;
     org := Some {| audit_org_id := "o1"; audit_org_name := "Org"; audit_org_slug := "org" |} |}.

Lemma audit_roundtrip_witness :
  parseServingRoutingAudit (Some (payload_json demo_payload)) = Some demo_payload.
Proof. apply audit_roundtrip. vm_compute. reflexivity. Defined.
