(* ===== verification/Routes.v ===== *)
(** * Routes (lib/routes.ts, lib/legacy-query.ts)

    The path builders, the reserved first segments, and the query string of legacy redirects. *)

From S2P Require Import Prelude JsMap JsString Url QueryStrings.

(** ** Fixed paths *)
Definition signinPath : string := "/signin".
Definition modelsPath : string := "/models".
Definition overviewPath : string := "/overview".
Definition resetPasswordPath : string := "/reset-password".
Definition logsPath : string := "/logs".
Definition insightsPath : string := "/insights".
Definition docsPath : string := "/docs".
Definition docsQuickstartPath : string := "/docs/quickstart".
Definition docsCoreLoopPath : string := "/docs/core-loop".
Definition docsSetupPromptsPath : string := "/docs/setup-prompts".
Definition docsAuthenticationPath : string := "/docs/authentication".
Definition docsAnthropicPath : string := "/docs/anthropic".
Definition docsBillingPath : string := "/docs/billing".
Definition docsTelemetryPath : string := "/docs/telemetry".
Definition docsModelsPath : string := "/docs/models".
Definition docsCodingAgentsPath : string := "/docs/coding-agents".
Definition docsErrorsPath : string := "/docs/errors".
Definition docsReferencePath : string := "/docs/reference".
Definition docsInternalPath : string := "/docs/internal".
Definition usagePath : string := "/settings/usage".
Definition creditsPath : string := "/credits".
Definition signupPath : string := "/signup".
Definition ycPath : string := "/yc".
Definition ycSigninPath : string := "/signin?yc=1".
Definition apiKeysPath : string := "/api-keys".
Definition aliasesPath : string := "/aliases".
Definition settingsPath : string := "/settings".
Definition membersSettingsPath : string := "/settings/members".
Definition organizationSettingsPath : string := "/settings/organization".
Definition auditSettingsPath : string := "/settings/audit".
Definition ssoSettingsPath : string := "/settings/sso".
Definition teamsSettingsPath : string := "/settings/teams".
Definition scimSettingsPath : string := "/settings/scim".
Definition dataControlsSettingsPath : string := "/settings/data-controls".
Definition accountSettingsPath : string := "/settings/account".
Definition privacyPath : string := "/privacy".
Definition termsPath : string := "/terms".
Definition securityPath : string := "/security".
Definition adminPath : string := "/admin".
Definition adminUsersPath : string := "/admin/users".
Definition adminTelemetryPath : string := "/admin/telemetry".
Definition adminAccessPath : string := "/admin/access".
Definition adminPlatformPath : string := "/admin/platform".
Definition adminEnterprisePath : string := "/admin/enterprise".
Definition adminPromotionsPath : string := "/admin/promotions".
Definition adminExperientialCloudPath : string := "/admin/experiential-cloud".
Definition orgsPath : string := "/orgs".

(** ** Paths with parameters *)
Definition WELCOME_PARAM : string := "welcome".

Definition overviewWelcomePath : string := overviewPath +:+ "?" +:+ WELCOME_PARAM +:+ "=1".

Definition modelPath (modelSlug : string) : string := "/models/" +:+ modelSlug.

Definition adminOrgPath (orgId : string) : string := "/admin/orgs/" +:+ orgId.

Definition playgroundPath (modelSlug : option string) : string :=
  match present modelSlug with
  | Some s => "/playground?model=" +:+ encodeURIComponent s
  | None => "/playground"
  end.

Definition playgroundComparePath (modelSlugs : list string) : string :=
  if bool_decide (length modelSlugs <= 1)%nat then playgroundPath (head modelSlugs)
  else "/playground?models=" +:+ join "," (map encodeURIComponent modelSlugs).

Definition connectionsSettingsPath (returnTo : option string) : string :=
  match returnTo with
  | None => "/settings/connections"
  | Some r => "/settings/connections?returnTo=" +:+ encodeURIComponent r
  end.

(** ** Reserved slugs *)
Definition RESERVED_ROOT_SLUGS : list string :=
 ["admin"; "api"; "auth"; "cli"; "connect-traces"; "create-project"; "docs"; "onboarding";
   "orgs"; "privacy"; "security"; "signin"; "signup"; "reset-password"; "terms"; "models";
   "overview"; "credits"; "playground"; "projects"; "settings"; "logs"; "insights";
   "telemetry"; "activity"; "simulations"; "yc"; "llms.txt"; "api-keys"; "aliases"; "usage";
   "providers"; "observability"; "connections"].

Definition RESERVED_SLUG_REDIRECTS : list (string * string) :=
 [("docs", docsPath); ("models", modelsPath); ("overview", overviewPath);
   ("credits", creditsPath); ("playground", playgroundPath None);
   ("settings", connectionsSettingsPath None); ("logs", logsPath); ("insights", insightsPath);
   ("telemetry", logsPath); ("activity", insightsPath); ("simulations", modelsPath);
   ("yc", ycPath); ("usage", creditsPath); ("api-keys", apiKeysPath); ("aliases", aliasesPath);
   ("providers", connectionsSettingsPath None);
   ("observability", connectionsSettingsPath None);
   ("connections", connectionsSettingsPath None); ("signin", signinPath);
   ("privacy", privacyPath); ("terms", termsPath); ("security", securityPath);
   ("admin", adminPath); ("orgs", orgsPath)].

Definition isReservedRouteSlug (slug : string) : bool := bool_decide (slug ∈ RESERVED_ROOT_SLUGS).

(** An indexed read of a plain object also finds what [Object.prototype] defines. *)
Definition object_prototype_keys : list string :=
  ["constructor"; "__proto__"; "hasOwnProperty"; "isPrototypeOf"; "propertyIsEnumerable";
   "toLocaleString"; "toString"; "valueOf"; "__defineGetter__"; "__defineSetter__";
   "__lookupGetter__"; "__lookupSetter__"].

Inductive object_read := Own (v : string) | Inherited | Missing.

Definition read_object (o : list (string * string)) (k : string) : object_read :=
  match mget o k with
  | Some v => Own v
  | None => if bool_decide (k ∈ object_prototype_keys) then Inherited else Missing
  end.

(** [RESERVED_SLUG_REDIRECTS[slug] ?? null]; [Inherited] is a value that is not a path. *)
Definition reservedSlugRedirect (slug : string) : object_read :=
  read_object RESERVED_SLUG_REDIRECTS slug.

(** ** lib/legacy-query.ts *)
Definition legacyQueryString (searchParams : list (string * search_value)) : string :=
  let query := flat_map (fun kv => match kv.2 with
                                   | Single v => [(kv.1, v)]
                                   | Repeated l => map (pair kv.1) l
                                   end) searchParams in
  let text := params_string query in
  if truthy text then "?" +:+ text else "".

(** The query a page's search parameters came from. *)
Definition entries (searchParams : list (string * search_value)) : params :=
  flat_map (fun kv => match kv.2 with
                      | Single v => [(kv.1, v)]
                      | Repeated l => map (pair kv.1) l
                      end) searchParams.

(** ** Properties *)

(** The playground's reading of its [models] parameter. *)
Definition compared_models (path : string) : list (option string) :=
  match cut "=" path with
  | Some (_, v) => map decodeURIComponent (split_on "," v)
  | None => []
  end.

Lemma encode_no_comma s : includes_char "," (encodeURIComponent s) = false.
Proof. by apply includes_escape. Qed.

(** A comparison link carries exactly its models, in order: whatever characters the slugs contain,
    splitting the link's value at the commas and decoding gives them back. *)
Theorem compare_link_roundtrip slugs :
  (2 <= length slugs)%nat -> compared_models (playgroundComparePath slugs) = map Some slugs.
Proof.
  intros Hlen. unfold playgroundComparePath. rewrite bool_decide_false by lia.
  unfold compared_models.
  change ("/playground?models=" +:+ ?x) with ("/playground?models" +:+ String "=" x).
  rewrite cut_app by done. rewrite split_on_join.
  - rewrite map_map. apply map_ext. intros s. apply decode_encode.
  - by destruct slugs as [|? [|]]; simpl in Hlen; [lia|lia|].
  - apply Forall_map, Forall_true. intros s. apply encode_no_comma.
Qed.

(** The check behind [reserved_redirects_stay], as a computation. *)
Definition lands_inside (slug : string) : bool :=
  match reservedSlugRedirect slug with
  | Own p =>
      match split_on "/" (before_query p) with
      | "" :: seg :: _ => isReservedRouteSlug seg
      | _ => false
      end
  | Missing => negb (bool_decide (slug ∈ map fst RESERVED_SLUG_REDIRECTS))
  | Inherited => false
  end.

Lemma reserved_land_inside : forallb lands_inside RESERVED_ROOT_SLUGS = true.
Proof. vm_compute. reflexivity. Qed.

(** A reserved slug never resolves as an organization or a model, and never leaves the app: when it
    has a landing page that page is a fixed absolute path whose own first segment is reserved too
    (so the catch-all that redirects never sees it as a slug), never an inherited property. *)
Theorem reserved_redirects_stay slug :
  isReservedRouteSlug slug = true ->
  match reservedSlugRedirect slug with
  | Own p => exists seg rest, split_on "/" (before_query p) = "" :: seg :: rest /\
      isReservedRouteSlug seg = true
  | Missing => slug ∉ map fst RESERVED_SLUG_REDIRECTS
  | Inherited => False
  end.
Proof.
  unfold isReservedRouteSlug at 1. rewrite bool_decide_eq_true. intros Hin.
  pose proof reserved_land_inside as Hall. rewrite forallb_forall in Hall.
  specialize (Hall slug (proj1 (list_elem_of_In _ _) Hin)). unfold lands_inside in Hall.
  destruct (reservedSlugRedirect slug) as [p| |]; [|done|by bool_simpl].
  destruct (split_on "/" (before_query p)) as [|[] [|seg rest]]; try done. by eexists _, _.
Qed.

(** A legacy redirect preserves its query: the rebuilt string reads back as every parameter,
    repeated ones included, in order. *)
Theorem legacy_query_preserved sp :
  params_parse (legacyQueryString sp) = entries sp.
Proof.
  unfold legacyQueryString. fold (entries sp). cbv zeta.
  pose proof (params_roundtrip (entries sp)) as H. unfold truthy.
  case_bool_decide as Hne; [apply params_roundtrip_mark|].
  destruct (params_string (entries sp)); [done|]. by destruct Hne.
Qed.

Lemma compare_link_roundtrip_witness :
  compared_models (playgroundComparePath ["a,b"; "c/d=e"]) = [Some "a,b"; Some "c/d=e"].
Proof. apply compare_link_roundtrip. simpl. lia. Defined.

Lemma reserved_redirects_stay_witness :
  exists seg rest, split_on "/" (before_query "/credits") = "" :: seg :: rest /\
    isReservedRouteSlug seg = true.
Proof. exact (reserved_redirects_stay "usage" eq_refl). Defined.
