(* ===== verification/Services.v ===== *)
(** * Services shared by the server routes

    The values the effectful components exchange with the outside: PostgREST answers of the
    Supabase client, JavaScript exceptions, and the HTTP responses the routes return. *)

From S2P Require Import Prelude JsString Json Effects.

#[local] Open Scope Z_scope.

(** A PostgREST error: its message and SQLSTATE code. *)
Record db_error := DbError { error_message : string; error_code : string }.

(** A PostgREST answer: [{ data, error }]. *)
Record db_result (A : Type) := DbResult { data : option A; error : option db_error }.
Arguments DbResult {A} data error.
Arguments data {A} d.
Arguments error {A} d.

Definition db_ok {A} (x : A) : db_result A := DbResult (Some x) None.

(** A thrown value: [error.type] (where it is an object that has one), whether it is an [Error],
    its [message], [error.payment_intent?.id] with both levels of absence, and [error.digest] where
    it is a string: Next signals its redirects and not-found pages by it. *)
Record Thrown := {
  thrown_type : option string;
  thrown_is_error : bool;
  thrown_message : string;
  thrown_payment_intent : option (option string);
  thrown_digest : option string;
}.

Definition new_Error (message : string) : Thrown :=
  {| thrown_type := None; thrown_is_error := true; thrown_message := message;
     thrown_payment_intent := None; thrown_digest := None |}.

(** [error instanceof Error ? error.message : "unknown error"]. *)
Definition error_text (e : Thrown) : string :=
  if thrown_is_error e then thrown_message e else "unknown error".

(** [NextResponse.json(body, { status })]. *)
Record response := Response { resp_status : Z; resp_body : json }.

Definition json_response (body : json) : response := Response 200 body.
Definition json_error (message : string) (status : Z) : response :=
  Response status (JObj [("error", JStr message)]).

(** lib/errors.ts, and any other thrown value. *)
Inductive ds_error :=
| DataSourceNotFoundError (message : string)
| DataSourceRequestError (message : string) (status : Z) (code action : option string)
| OtherError (e : Thrown).
