(* ===== verification/KeyStore.v ===== *)
(** * The key sections' client store (components/keys/store.ts)

    Every mount of the key sections reads through one module-level cache and mutates through helpers
    that refresh it. The cache is a map of entries; a load is a promise in flight. Here the entries
    carry those promises, any number of them, and the server is a value per key that other clients may
    change at any time: a load samples it at some moment between its request and its answer. A value is
    an [option]: [None] is the [null] a load may resolve with, which is also how an entry shows that it
    has no data. *)

From S2P Require Import Prelude JsMap JsString JsNumber Url Json JsonText Services.

#[local] Open Scope Z_scope.

(** ** The entries *)
Section store.
Context {V : Type}.

Record StoreSnapshot := Snapshot { data : option V; error : option string; loading : bool }.

Definition IDLE_SNAPSHOT : StoreSnapshot := Snapshot None None false.

(** A load: requested; or answered, and not yet taken by the client. *)
Inductive flight := Requested | Answered (r : string + option V).

Record Entry := { snapshot : StoreSnapshot; in_flight : list flight }.

Abbreviation entries := (list (string * Entry)).

Definition untouched (s : StoreSnapshot) : bool :=
  match data s, error s with None, None => negb (loading s) | _, _ => false end.

(** [initialData ?? null]: given or not, and possibly [null]. *)
Definition fresh_entry (initialData : option (option V)) : Entry :=
  {| snapshot := Snapshot (default None initialData) None false; in_flight := [] |}.

Definition entryFor (m : entries) (key : string) (initialData : option (option V)) : entries :=
  match mget m key with
  | None => mset m key (fresh_entry initialData)
  | Some e =>
      match initialData with
      | Some v => if untouched (snapshot e)
                  then mset m key {| snapshot := Snapshot v None false; in_flight := in_flight e |} else m
      | None => m
      end
  end.

(** [refreshEntry] up to its [await]: nothing while a load runs, else one more load is on its way. *)
Definition refresh_start (e : Entry) : Entry :=
  if loading (snapshot e) then e
  else {| snapshot := Snapshot (data (snapshot e)) (error (snapshot e)) true; in_flight := in_flight e ++ [Requested] |}.

(** And after it, for the [i]-th load: a failure keeps the good data. *)
Definition refresh_finish (e : Entry) (i : nat) (r : string + option V) : Entry :=
  {| snapshot := match r with
                 | inr v => Snapshot v None false
                 | inl message => Snapshot (data (snapshot e)) (Some message) false
                 end;
     in_flight := delete i (in_flight e) |}.

Definition refreshMatching (m : entries) (prefix : string) : entries :=
  map (fun kv => (kv.1, if starts_with prefix kv.1 then refresh_start kv.2 else kv.2)) m.

(** [subscribe]: the first subscriber of an entry nobody loaded starts its load. *)
Definition subscribe (m : entries) (key : string) : entries :=
  map (fun kv => (kv.1, if bool_decide (kv.1 = key) && untouched (snapshot kv.2) then refresh_start kv.2 else kv.2)) m.

Definition useStoreEntry (m : entries) (key : option string) (initialData : option (option V)) : entries * StoreSnapshot :=
  match key with
  | None => (m, IDLE_SNAPSHOT)
  | Some k =>
      let m := subscribe (entryFor m k initialData) k in
      (m, match mget m k with Some e => snapshot e | None => IDLE_SNAPSHOT end)
  end.

(** ** The client and the server, step by step *)
Record world := World { server : string -> option V; cache : entries }.

Definition at_key (m : entries) (k : string) (f : Entry -> Entry) : entries :=
  map (fun kv => (kv.1, if bool_decide (kv.1 = k) then f kv.2 else kv.2)) m.

Inductive step : world -> world -> Prop :=
| step_mount w key initial :
    (forall v, initial = Some v -> forall k, key = Some k -> v = server w k) ->
    step w (World (server w) (useStoreEntry (cache w) key initial).1)
| step_server w server' : step w (World server' (cache w))
| step_mutated w prefix : step w (World (server w) (refreshMatching (cache w) prefix))
| step_answer w k e i r :
    mget (cache w) k = Some e -> in_flight e !! i = Some Requested -> (forall v, r = inr v -> v = server w k) ->
    step w (World (server w) (at_key (cache w) k (fun e => {| snapshot := snapshot e; in_flight := <[i := Answered r]> (in_flight e) |})))
| step_deliver w k e i r :
    mget (cache w) k = Some e -> in_flight e !! i = Some (Answered r) ->
    step w (World (server w) (at_key (cache w) k (fun e => refresh_finish e i r))).

(** Reachable worlds, with the server states so far. *)
Inductive reachable : list (string -> option V) -> world -> Prop :=
| reachable_init server : reachable [server] (World server [])
| reachable_step past w w' : reachable past w -> step w w' -> reachable (server w' :: past) w'.
End store.

Arguments StoreSnapshot : clear implicits.
Arguments flight : clear implicits.
Arguments Entry : clear implicits.
Arguments world : clear implicits.

(** ** Requests *)
Record Reply := { reply_ok : bool; reply_status : Z; reply_json : option json; reply_text : string }.

(** [fetchJson], given the transport's answer. *)
Definition fetchJson (answer : Thrown + Reply) : Thrown + json :=
  match answer with
  | inl e => inl e
  | inr r =>
      if negb (reply_ok r) then
        inl (new_Error (match reply_json r ≫= fun j => jget_str j "error" with
                        | Some m => m
                        | None => "The request failed (" +:+ string_of_Z (reply_status r) +:+ ")."
                        end))
      else if bool_decide (reply_text r = EmptyString) then inr JNull
      else match json_parse (reply_text r) with
           | Some j => inr j
           | None => inl (new_Error "Unexpected token in JSON")
           end
  end.

(** How the load of an entry ends: an empty answer is [null]. *)
Definition load_answer (answer : Thrown + json) : string + option json :=
  match answer with
  | inl e => inl (if thrown_is_error e then thrown_message e else "The request failed.")
  | inr JNull => inr None
  | inr payload => inr (Some payload)
  end.

Record Request := { method : string; url : string; request_body : option json }.

Definition read_of (path : string) : Request := {| method := "GET"; url := path; request_body := None |}.

(** *** Cache keys and reads *)
Definition orgKeysPrefix (org : string) : string := "keys|" +:+ org +:+ "|".

Definition flag (b : bool) : string := if b then "1" else "0".

Definition keysKey (org : string) (identity : option string) (page : Z) (showRevoked : bool) : string :=
  orgKeysPrefix org +:+ default "*" identity +:+ "|" +:+ string_of_Z page +:+ "|" +:+ flag showRevoked.

Definition useOrgApiKeys (org : option string) (page : Z) (showRevoked : bool) (identity : option string) :
    option string * Request :=
  let params := [("orgId", default EmptyString org); ("page", string_of_Z page)] in
  let params := if showRevoked then params_set params "revoked" "1" else params in
  let params := match identity with Some i => params_set params "identityId" i | None => params end in
  ((fun o => keysKey o identity page showRevoked) <$> org, read_of ("/api/keys?" +:+ params_string params)).

Definition keyLimitsKey (k : string) : string := "key-limits|" +:+ k.
Definition limits_path (k : string) : string := "/api/gateway/keys/" +:+ encodeURIComponent k +:+ "/limits".
Definition useKeyLimits (k : string) : string * Request := (keyLimitsKey k, read_of (limits_path k)).

Definition connectionsKey (org : string) : string := "connections|" +:+ org.
Definition connections_path (org : string) : string := "/api/orgs/" +:+ encodeURIComponent org +:+ "/provider-connections".
Definition useProviderConnections (org : option string) : option string * Request :=
  (connectionsKey <$> org, read_of (connections_path (default EmptyString org))).
Definition providerRoute (org provider : string) : string := connections_path org +:+ "/" +:+ provider.

Definition modelDetailKey (modelSlug : string) (org : option string) : string :=
  "model|" +:+ modelSlug +:+ "|" +:+ default "public" org.
Definition useModelDetail (modelSlug : string) (org : option string) : string * Request :=
  (modelDetailKey modelSlug org,
   read_of ("/api/models/" +:+ encodeURIComponent modelSlug +:+
            match org with Some o => "?orgId=" +:+ encodeURIComponent o | None => EmptyString end)).

Definition waterfallKey (modelSlug org : string) : string := "waterfall|" +:+ modelSlug +:+ "|" +:+ org.
Definition waterfall_path (modelSlug : string) : string := "/api/models/" +:+ encodeURIComponent modelSlug +:+ "/waterfall".
Definition useModelWaterfall (modelSlug : string) (org : option string) : option string * Request :=
  (waterfallKey modelSlug <$> org,
   read_of (waterfall_path modelSlug +:+ "?orgId=" +:+ encodeURIComponent (default EmptyString org))).

(** *** Mutations: the request, what it refreshes, what is read off the answer after that, and the text of
    a failure that is no [Error] *)
Record Mutation := { request : Request; refreshes : string; result : json -> Thrown + json; failed : string }.

Definition returned (payload : json) : Thrown + json := inr payload.

Definition nothing (_ : json) : Thrown + json := inr JNull.

Definition send (method_ path : string) (b : option json) : Request :=
  {| method := method_; url := path; request_body := b |}.

Definition number_json (x : option Z) : json := match x with Some z => JNum (number_of_Z z) | None => JNull end.

Definition mintOrgApiKey (org name : string) (expiresInDays : option Z) (identity : option string) : Mutation :=
  {| request := send "POST" "/api/keys"
       (Some (JObj ([("orgId", JStr org); ("name", JStr name); ("expiresInDays", number_json expiresInDays)] ++
                    match identity with Some i => [("identityId", JStr i)] | None => [] end)));
     refreshes := orgKeysPrefix org; result := returned; failed := "Unable to create the key." |}.

Definition revokeOrgApiKey (org key : string) : Mutation :=
  {| request := send "DELETE" ("/api/keys/" +:+ encodeURIComponent key) None;
     refreshes := orgKeysPrefix org; result := nothing; failed := "Unable to revoke the key." |}.

Definition rotateOrgApiKey (org key : string) : Mutation :=
  {| request := send "POST" ("/api/keys/" +:+ encodeURIComponent key +:+ "/rotate") (Some (JObj []));
     refreshes := orgKeysPrefix org; result := returned; failed := "Unable to rotate the key." |}.

Definition saveKeyLimits (key : string) (limits : json) : Mutation :=
  {| request := send "PUT" (limits_path key) (Some limits);
     refreshes := keyLimitsKey key; result := nothing; failed := "Unable to save the limits." |}.

(** [payload.check ?? null]: an empty answer has no [check] to read. *)
Definition check_of (payload : json) : Thrown + json :=
  match payload with
  | JNull => inl (new_Error "Cannot read properties of null (reading 'check')")
  | _ => inr (default JNull (jget payload "check"))
  end.

Definition connectProvider (org provider : string) (b : json) : Mutation :=
  {| request := send "PUT" (providerRoute org provider) (Some b);
     refreshes := connectionsKey org; result := check_of; failed := "Unable to save the provider key." |}.

Definition declareProviderBalance (org provider : string) (amountUsd : number) : Mutation :=
  {| request := send "PATCH" (providerRoute org provider) (Some (JObj [("declared_balance_usd", JNum amountUsd)]));
     refreshes := connectionsKey org; result := nothing; failed := "Unable to save the balance." |}.

Definition refreshProviderSpend (org provider : string) : Mutation :=
  {| request := send "POST" (providerRoute org provider +:+ "/spend-refresh") None;
     refreshes := connectionsKey org; result := returned; failed := "Unable to read spend from the provider." |}.

Definition checkModelDeployment (org provider model : string) (deployment : option string) : Mutation :=
  {| request := send "POST" (providerRoute org provider +:+ "/deployment-check")
       (Some (obj [("model", Some (JStr model)); ("deployment", JStr <$> deployment)]));
     refreshes := connectionsKey org; result := returned; failed := "Unable to check the deployment." |}.

Definition disconnectProvider (org provider : string) : Mutation :=
  {| request := send "DELETE" (providerRoute org provider) None;
     refreshes := connectionsKey org; result := nothing; failed := "Unable to disconnect." |}.

Definition saveModelPriority (modelSlug org : string) (ids : list string) : Mutation :=
  {| request := send "PUT" (waterfall_path modelSlug)
       (Some (JObj [("org_id", JStr org); ("model_provider_ids", of_strings ids)]));
     refreshes := waterfallKey modelSlug org; result := nothing; failed := "Unable to save the priority." |}.

Definition createLocalModel (org slug displayName baseUrl providerModelId : string) : Mutation :=
  {| request := send "POST" "/api/models"
       (Some (JObj [("org_id", JStr org); ("slug", JStr slug); ("display_name", JStr displayName);
                    ("input_modalities", of_strings ["text"]); ("output_modalities", of_strings ["text"]);
                    ("supported_params", JObj [("temperature", JBool true); ("tools", JBool true)]);
                    ("providers", JArr [JObj [("provider", JStr "local"); ("provider_model_id", JStr providerModelId);
                       ("base_url", JStr baseUrl); ("capabilities", JObj [("supports_streaming", JBool true)])]])]));
     refreshes := modelDetailKey slug (Some org); result := returned; failed := "Creating the local model failed." |}.

(** A helper's outcome and the cache it leaves: a failed request refreshes nothing. *)
Definition mutate {V} (mu : Mutation) (answer : Thrown + Reply) (m : list (string * Entry V)) :
    (string + json) * list (string * Entry V) :=
  let message (e : Thrown) := if thrown_is_error e then thrown_message e else failed mu in
  match fetchJson answer with
  | inl e => (inl (message e), m)
  | inr payload =>
      (match result mu payload with inr r => inr r | inl e => inl (message e) end, refreshMatching m (refreshes mu))
  end.

(** ** Lemmas *)
Section store_facts.
Context {V : Type}.
Implicit Types (m : list (string * Entry V)) (e : Entry V) (w : world V) (past : list (string -> option V)).

Lemma mget_map (f : string -> Entry V -> Entry V) m k : mget (map (fun kv => (kv.1, f kv.1 kv.2)) m) k = f k <$> mget m k.
Proof. induction m as [|[k' e] m IH]; simpl; [done|]. by case_decide; simplify_eq/=. Qed.

Lemma mkeys_map (f : string -> Entry V -> Entry V) m : mkeys (map (fun kv => (kv.1, f kv.1 kv.2)) m) = mkeys m.
Proof. unfold mkeys. by rewrite map_map. Qed.

Lemma mget_refresh m prefix k :
  mget (refreshMatching m prefix) k = (fun e => if starts_with prefix k then refresh_start e else e) <$> mget m k.
Proof. exact (mget_map (fun (k' : string) (e : Entry V) => if starts_with prefix k' then refresh_start e else e) m k). Qed.

Lemma mget_subscribe m key k :
  mget (subscribe m key) k =
    (fun e => if bool_decide (k = key) && untouched (snapshot e) then refresh_start e else e) <$> mget m k.
Proof. exact (mget_map (fun (k' : string) (e : Entry V) => if bool_decide (k' = key) && untouched (snapshot e) then refresh_start e else e) m k). Qed.

Lemma mget_at m k f k' : mget (at_key m k f) k' = (fun e => if bool_decide (k' = k) then f e else e) <$> mget m k'.
Proof. exact (mget_map (fun (k0 : string) (e : Entry V) => if bool_decide (k0 = k) then f e else e) m k'). Qed.

Lemma mkeys_at m k f : mkeys (at_key m k f) = mkeys m.
Proof. exact (mkeys_map (fun (k0 : string) (e : Entry V) => if bool_decide (k0 = k) then f e else e) m). Qed.

Lemma mkeys_refresh m prefix : mkeys (refreshMatching m prefix) = mkeys m.
Proof. exact (mkeys_map (fun (k : string) (e : Entry V) => if starts_with prefix k then refresh_start e else e) m). Qed.

Lemma mkeys_subscribe m key : mkeys (subscribe m key) = mkeys m.
Proof.
  exact (mkeys_map (fun (k : string) (e : Entry V) => if bool_decide (k = key) && untouched (snapshot e) then refresh_start e else e) m).
Qed.

Lemma mget_entry m key initial k : mget (entryFor m key initial) k =
  if decide (key = k) then
    Some match mget m key with
         | None => fresh_entry initial
         | Some e => match initial with
                     | Some v => if untouched (snapshot e) then {| snapshot := Snapshot v None false; in_flight := in_flight e |} else e
                     | None => e
                     end
         end
  else mget m k.
Proof.
  unfold entryFor. destruct (mget m key) as [e|] eqn:He; [destruct initial as [v|]; [destruct (untouched (snapshot e))|]|];
    rewrite ?mget_set; case_decide; simplify_eq; done.
Qed.

(** What holds of an entry at [k], given the server states so far: it is loading exactly while its one
    load is in flight; it shows what the server had; and so does what a load carries. *)
Definition entry_ok past (k : string) e : Prop :=
  (loading (snapshot e) = true <-> in_flight e <> []) /\ (length (in_flight e) <= 1)%nat /\
  (forall v, data (snapshot e) = Some v -> exists s, s ∈ past /\ s k = Some v) /\
  (forall v, Answered (inr v) ∈ in_flight e -> exists s, s ∈ past /\ s k = v).

Lemma entry_ok_past s past k e : entry_ok past k e -> entry_ok (s :: past) k e.
Proof.
  intros (H1 & H2 & H3 & H4). split_and!; [done..| |]; intros v Hv; [destruct (H3 v Hv) as (s' & ? & ?)|destruct (H4 v Hv) as (s' & ? & ?)];
    exists s'; (split; [by right|done]).
Qed.

Lemma idle_flight e : (loading (snapshot e) = true <-> in_flight e <> []) -> loading (snapshot e) = false -> in_flight e = [].
Proof. intros H Hl. destruct (in_flight e); [done|]. rewrite Hl in H. by discriminate (proj2 H). Qed.

(** The one load there is. *)
Lemma only_flight (l : list (flight V)) i x : (length l <= 1)%nat -> l !! i = Some x -> l = [x] /\ i = 0%nat.
Proof.
  intros Hl Hx. apply lookup_lt_Some in Hx as Hi. destruct l as [|y [|z l]]; simpl in *; [lia| |lia].
  assert (i = 0%nat) as -> by lia. by injection Hx as ->.
Qed.

Lemma refresh_start_ok past k e : entry_ok past k e -> entry_ok past k (refresh_start e).
Proof.
  intros (H1 & H2 & H3 & H4). unfold refresh_start. destruct (loading (snapshot e)) eqn:Hl; [by split_and!; rewrite ?Hl|].
  rewrite (idle_flight e) by (by rewrite ?Hl). split_and!; simpl; [done|lia|done|]. by intros v ?%list_elem_of_singleton.
Qed.

Lemma refresh_finish_ok past k e i r : entry_ok past k e -> in_flight e !! i = Some (Answered r) -> entry_ok past k (refresh_finish e i r).
Proof.
  intros (H1 & H2 & H3 & H4) Hr. destruct (only_flight _ _ _ H2 Hr) as [Hf ->]. unfold refresh_finish. rewrite Hf.
  split_and!; simpl; [by destruct r|lia| |by intros v ?%elem_of_nil]. destruct r as [message|v]; simpl; [done|].
  intros v' ->. apply H4. rewrite Hf. left.
Qed.

Lemma untouched_idle (s : StoreSnapshot V) : untouched s = true -> loading s = false /\ data s = None.
Proof. unfold untouched. destruct (data s), (error s); try done. by destruct (loading s). Qed.

Lemma entry_ok_mounted past s key k initial m :
  (forall v, initial = Some v -> v = s key) -> s ∈ past ->
  (forall k e, mget m k = Some e -> entry_ok past k e) ->
  forall e, mget (entryFor m key initial) k = Some e -> entry_ok past k e.
Proof.
  intros Hinit Hs Hall e. rewrite mget_entry. case_decide as Hk; [|by apply Hall]. subst k. intros [= <-].
  destruct (mget m key) as [e0|] eqn:He0.
  - specialize (Hall key e0 He0). destruct initial as [v|]; [|done]. destruct (untouched (snapshot e0)) eqn:Hu; [|done].
    apply untouched_idle in Hu as [Hl _]. destruct Hall as (H1 & H2 & H3 & H4). rewrite (idle_flight e0) by done.
    split_and!; simpl; [done|lia| |by intros v' ?%elem_of_nil].
    intros v' ->. exists s. split; [done|]. symmetry. by apply Hinit.
  - split_and!; simpl; [done|lia| |by intros v' ?%elem_of_nil]. intros v Hv. destruct initial as [w|]; simpl in Hv; [|done].
    exists s. split; [done|]. subst w. symmetry. by apply Hinit.
Qed.

Definition world_ok past w : Prop :=
  server w ∈ past /\ NoDup (mkeys (cache w)) /\ forall k e, mget (cache w) k = Some e -> entry_ok past k e.

Lemma mwf_entry m key initial : NoDup (mkeys m) -> NoDup (mkeys (entryFor m key initial)).
Proof.
  intros H. unfold entryFor. destruct (mget m key) as [e|]; [destruct initial; [destruct (untouched _)|]|]; try done;
    by apply mwf_set.
Qed.

Lemma step_ok past w w' : world_ok past w -> step w w' -> world_ok (server w' :: past) w'.
Proof.
  intros (Hs & Hnd & Hall) Hstep.
  assert (forall k e, mget (cache w) k = Some e -> entry_ok (server w' :: past) k e) as Hall' by (intros; by apply entry_ok_past, Hall).
  split; [left|]. destruct Hstep as [w [key|] initial Hinit|w s'|w prefix|w k e i r He Hf Hr|w k e i r He Hf]; simpl in *.
  - split; [rewrite mkeys_subscribe; by apply mwf_entry|].
    intros k e. rewrite mget_subscribe. intros (e0 & He0 & ->)%fmap_Some_1.
    assert (entry_ok (server w :: past) k e0) as H0.
    { eapply (entry_ok_mounted _ (server w) key); [|left|exact Hall'|exact He0]. intros v Hv. by apply (Hinit v Hv). }
    destruct (bool_decide _ && _); [by apply refresh_start_ok|done].
  - done.
  - done.
  - split; [by rewrite mkeys_refresh|].
    intros k e. rewrite mget_refresh. intros (e0 & He0 & ->)%fmap_Some_1.
    destruct (starts_with prefix k); [by apply refresh_start_ok, Hall'|by apply Hall'].
  - split; [by rewrite mkeys_at|].
    intros k' e'. rewrite mget_at. intros (e0 & He0 & ->)%fmap_Some_1. case_bool_decide as Hk; [|by apply Hall'].
    subst k'. rewrite He in He0. simplify_eq. destruct (Hall' k e0 He) as (H1 & H2 & H3 & H4).
    destruct (only_flight _ _ _ H2 Hf) as [Hone ->]. unfold entry_ok. rewrite Hone. simpl. split_and!; [|lia|done|].
    + rewrite H1, Hone. by split.
    + intros v [= <-]%list_elem_of_singleton. exists (server w). split; [left|]. symmetry. by apply Hr.
  - split; [by rewrite mkeys_at|].
    intros k' e'. rewrite mget_at. intros (e0 & He0 & ->)%fmap_Some_1. case_bool_decide as Hk; [|by apply Hall'].
    subst k'. rewrite He in He0. simplify_eq. by apply refresh_finish_ok; [apply Hall'|].
Qed.

Lemma reachable_ok past w : reachable past w -> world_ok past w.
Proof.
  induction 1 as [s|past w w' _ IH Hstep]; [|by eapply step_ok].
  split; [left|]. split; [constructor|done].
Qed.

(** *** What a step does to an entry that shows a value: it keeps it, unless a load brings another *)
Definition kept_or_loaded e e' : Prop :=
  data (snapshot e') = data (snapshot e) \/
  exists i v, in_flight e !! i = Some (Answered (inr v)) /\ data (snapshot e') = v /\ error (snapshot e') = None.

Lemma refresh_start_keeps e : data (snapshot (refresh_start e)) = data (snapshot e).
Proof. unfold refresh_start. by destruct (loading _). Qed.

Lemma shown_kept w w' k e : step w w' -> mget (cache w) k = Some e -> data (snapshot e) <> None ->
  exists e', mget (cache w') k = Some e' /\ kept_or_loaded e e'.
Proof.
  intros Hstep He Hd. unfold kept_or_loaded.
  destruct Hstep as [w [key|] initial Hinit|w s'|w prefix|w k0 e0 i r He0 Hf Hr|w k0 e0 i r He0 Hf]; simpl in *; [| by eauto..| | |].
  - rewrite mget_subscribe, mget_entry. case_decide as Hk; [subst key|]; rewrite He; simpl; (eexists; split; [done|left]).
    + destruct initial as [v|]; [destruct (untouched (snapshot e)) eqn:Hu|]; [by apply untouched_idle in Hu as [_ Hu]|..];
        destruct (_ && _); by rewrite ?refresh_start_keeps.
    + destruct (_ && _); by rewrite ?refresh_start_keeps.
  - rewrite mget_refresh, He. eexists. split; [done|left]. destruct (starts_with _ _); by rewrite ?refresh_start_keeps.
  - rewrite mget_at, He. eexists. split; [done|left]. by case_bool_decide.
  - rewrite mget_at, He. eexists. split; [done|]. case_bool_decide as Hk; [|by left]. subst k0. rewrite He in He0. simplify_eq.
    destruct r as [m|v]; [by left|right]. by exists i, v.
Qed.

(** *** Settling *)
Definition quiet_step w w' : Prop := step w w' /\ server w' = server w.

(** At rest on [v]; or an error beside [before] or [v]. *)
Definition at_rest (before v : option V) (s : StoreSnapshot V) : Prop :=
  (data s = v /\ error s = None) \/ (is_Some (error s) /\ (data s = before \/ data s = v)).

(** A load is on its way that will read [v], or has read it, or failed; or the entry is at rest. *)
Definition settling (before v : option V) e : Prop :=
  (loading (snapshot e) = true <-> in_flight e <> []) /\ (data (snapshot e) = before \/ data (snapshot e) = v) /\
  match in_flight e with
  | [] => at_rest before v (snapshot e)
  | [Requested] | [Answered (inl _)] => True
  | [Answered (inr v')] => v' = v
  | _ => False
  end.

Lemma settling_only before v e i x : settling before v e -> in_flight e !! i = Some x -> in_flight e = [x] /\ i = 0%nat.
Proof.
  intros (_ & _ & H) Hx. apply only_flight; [|done]. destruct (in_flight e) as [|[|[m|v']] [|]]; simpl; try done; lia.
Qed.

Lemma settling_start before v e : settling before v e -> settling before v (refresh_start e).
Proof.
  intros (Hl & Hd & H). unfold refresh_start. destruct (loading (snapshot e)) eqn:E; [by unfold settling; rewrite E|].
  rewrite (idle_flight e) by (by rewrite ?E). by split_and!.
Qed.

Lemma settling_step before v k w w' e : quiet_step w w' -> v = server w k -> mget (cache w) k = Some e -> settling before v e ->
  exists e', mget (cache w') k = Some e' /\ settling before v e'.
Proof.
  intros [Hstep Hserver] Hv He Hset.
  destruct Hstep as [w [key|] initial Hinit|w s'|w prefix|w k0 e0 i r He0 Hf Hr|w k0 e0 i r He0 Hf]; simpl in *; [| by eauto..| | |].
  - rewrite mget_subscribe, mget_entry. case_decide as Hk; [subst key|]; rewrite He; simpl; (eexists; split; [done|]).
    2: { by rewrite bool_decide_false by congruence. }
    rewrite bool_decide_true by done. simpl.
    destruct initial as [v'|]; [destruct (untouched (snapshot e)) eqn:Hu|];
      [|by rewrite Hu|destruct (untouched (snapshot e)); [by apply settling_start|done]].
    apply untouched_idle in Hu as [Hl _]. destruct Hset as (Hiff & _ & _).
    assert (settling before v {| snapshot := Snapshot v' None false; in_flight := in_flight e |}) as Hnew.
    { rewrite (idle_flight e) by done. rewrite (Hinit v' eq_refl k eq_refl), <- Hv.
      split; [done|]. split; [by right|by left]. }
    destruct (untouched _); [by apply settling_start|done].
  - rewrite mget_refresh, He. eexists. split; [done|]. destruct (starts_with prefix k); [by apply settling_start|done].
  - rewrite mget_at, He. eexists. split; [done|]. case_bool_decide as Hk; [|done]. subst k0.
    rewrite He in He0. simplify_eq. destruct (settling_only _ _ _ _ _ Hset Hf) as [Hone ->].
    destruct Hset as (Hiff & Hd & _). unfold settling. rewrite Hone in *. simpl. split; [by rewrite Hiff|]. split; [done|].
    destruct r as [m|v']; [done|]. by apply Hr.
  - rewrite mget_at, He. eexists. split; [done|]. case_bool_decide as Hk; [|done]. subst k0.
    rewrite He in He0. simplify_eq. destruct (settling_only _ _ _ _ _ Hset Hf) as [Hone ->].
    destruct Hset as (Hiff & Hd & H). rewrite Hone in H. unfold refresh_finish, settling, at_rest. rewrite Hone. simpl.
    destruct r as [m|v']; simpl; [split; [done|]; split; [done|right; by eauto]|]. subst v'. split; [done|]. split; [by right|by left].
Qed.

Lemma settling_steps before v k w w' : rtc quiet_step w w' -> v = server w k ->
  (exists e, mget (cache w) k = Some e /\ settling before v e) -> exists e', mget (cache w') k = Some e' /\ settling before v e'.
Proof.
  induction 1 as [w|w w1 w' Hstep _ IH]; [done|]. intros Hv (e & He & Hset). apply IH.
  - by rewrite (proj2 Hstep).
  - by eapply settling_step.
Qed.

(** A load in flight can be answered and delivered, and the entry is then at rest. *)
Lemma settling_ends before (v : option V) (k : string) w e :
  mget (cache w) k = Some e -> v = server w k -> settling before v e ->
  exists w' e', rtc quiet_step w w' /\ mget (cache w') k = Some e' /\ settling before v e' /\ in_flight e' = [].
Proof.
  intros He Hv Hset.
  assert (forall w e r, mget (cache w) k = Some e -> v = server w k -> settling before v e -> in_flight e = [Answered r] ->
    exists w' e', rtc quiet_step w w' /\ mget (cache w') k = Some e' /\ settling before v e' /\ in_flight e' = []) as Hdeliver.
  { clear. intros w e r He Hv Hset Hf.
    assert (quiet_step w (World (server w) (at_key (cache w) k (fun e => refresh_finish e 0 r)))) as Hq
      by (split; [eapply step_deliver; [exact He|by rewrite Hf]|done]).
    destruct (settling_step _ _ _ _ _ _ Hq Hv He Hset) as (e' & He' & Hset'). eexists _, e'.
    split; [by apply rtc_once|]. split; [done|]. split; [done|].
    cbn in He'. rewrite mget_at, He in He'. cbn in He'. rewrite bool_decide_true in He' by done.
    simplify_eq. cbn. by rewrite Hf. }
  assert (in_flight e = [] \/ exists x, in_flight e = [x]) as [Hf|[[|r] Hf]]; [|by exists w, e| |by eapply Hdeliver].
  { destruct Hset as (_ & _ & H). destruct (in_flight e) as [|x [|]]; [by left|right; by eexists|]. by destruct x as [|[]]. }
  set (answered := fun e : Entry V => {| snapshot := snapshot e; in_flight := <[0%nat := Answered (inr (server w k))]> (in_flight e) |}).
  assert (quiet_step w (World (server w) (at_key (cache w) k answered))) as Hq.
  { split; [|done]. eapply (step_answer w k e 0 (inr (server w k))); [done|by rewrite Hf|]. by intros v' [= <-]. }
  destruct (settling_step _ _ _ _ _ _ Hq Hv He Hset) as (e1 & He1 & Hset1).
  destruct (Hdeliver (World (server w) (at_key (cache w) k answered)) e1 (inr (server w k)) He1 Hv Hset1) as (w' & e' & Hrtc & ?).
  { cbn in He1. rewrite mget_at, He in He1. cbn in He1. rewrite bool_decide_true in He1 by done. simplify_eq. cbn. by rewrite Hf. }
  exists w', e'. split; [by eapply rtc_l|done].
Qed.
End store_facts.

(** ** Properties *)

(** C37. The store never invents and never loses. In every reachable state, for every interleaving of
    mounts, mutations, server changes and answers, late ones included: a key has one entry; an entry is
    loading exactly while a load of it is in flight, of which there is never a second; and what it shows,
    and what a load carries, is what the server had at that key. A step keeps a value an entry shows,
    unless it delivers a load that succeeded: a failed one leaves it, and only a [null] answer blanks it. *)
Theorem store_genuine {V} past (w : world V) (Hreach : reachable past w) :
  NoDup (mkeys (cache w)) /\
  (forall k e, mget (cache w) k = Some e -> entry_ok past k e) /\
  forall w' k e, step w w' -> mget (cache w) k = Some e -> data (snapshot e) <> None ->
    exists e', mget (cache w') k = Some e' /\ kept_or_loaded e e'.
Proof.
  destruct (reachable_ok _ _ Hreach) as (_ & Hnd & Hall). split_and!; [done..|]. intros w' k e. apply shown_kept.
Qed.

Lemma store_genuine_witness :
  let w := World (fun _ : string => Some 7) (useStoreEntry [] (Some "connections|o1") None).1 in
  reachable [fun _ : string => Some 7; fun _ => Some 7] w /\ NoDup (mkeys (cache w)).
Proof.
  set (w := World (fun _ : string => Some 7) (useStoreEntry [] (Some "connections|o1") None).1).
  assert (reachable [fun _ : string => Some 7; fun _ => Some 7] w) as H.
  { apply (reachable_step [fun _ : string => Some 7] (World (fun _ => Some 7) []) w); [apply reachable_init|].
    apply (step_mount (World (fun _ : string => Some 7) []) (Some "connections|o1") None). discriminate. }
  split; [exact H|]. exact (proj1 (store_genuine _ _ H)).
Defined.

(** C38. A mutation shows. When an entry a mutation refreshes is not loading at that moment, then whatever
    happens next while the server's value stays: an entry at rest shows the server's value and no error,
    or an error beside what it showed before the mutation or the server's value; and a load still in
    flight can end, leaving the entry so. *)
Theorem refresh_settles {V} past (w w' : world V) prefix k e
    (Hreach : reachable past w) (He : mget (cache w) k = Some e) (Hidle : loading (snapshot e) = false)
    (Hprefix : starts_with prefix k = true)
    (Hsteps : rtc quiet_step (World (server w) (refreshMatching (cache w) prefix)) w') :
  let shows e' := in_flight e' = [] /\ at_rest (data (snapshot e)) (server w k) (snapshot e') in
  exists e', mget (cache w') k = Some e' /\ (in_flight e' = [] -> shows e') /\
    exists w'' e'', rtc quiet_step w' w'' /\ mget (cache w'') k = Some e'' /\ shows e''.
Proof.
  intros shows.
  assert (server w = server w') as Hserver.
  { clear - Hsteps. revert Hsteps. generalize (refreshMatching (cache w) prefix) as c. generalize (server w) as s.
    intros s c H. remember (World s c) as w0 eqn:Hw0. assert (s = server w0) as Hs by (by subst). clear Hw0.
    subst s. by induction H as [|? ? ? [_ <-]]. }
  assert (forall e', settling (data (snapshot e)) (server w k) e' -> in_flight e' = [] -> shows e') as Hshows.
  { intros e' (_ & _ & Hset) Hn. rewrite Hn in Hset. by split. }
  destruct (reachable_ok _ _ Hreach) as (_ & _ & Hall). destruct (Hall k e He) as (Hl & _).
  destruct (settling_steps (data (snapshot e)) (server w k) k _ _ Hsteps) as (e' & He' & Hset); [done| |].
  - simpl. rewrite mget_refresh, He. eexists. split; [done|]. rewrite Hprefix. unfold refresh_start, settling.
    rewrite Hidle, (idle_flight e) by done. simpl. split; [done|]. split; [by left|done].
  - exists e'. split; [done|]. split; [by apply Hshows|].
    destruct (settling_ends (data (snapshot e)) (server w k) k w' e') as (w'' & e'' & Hrtc & He'' & Hset'' & Hn);
      [done|by rewrite Hserver|done|].
    exists w'', e''. split_and!; [done..|]. by apply Hshows.
Qed.

(** One entry, its load requested, answered or delivered. *)
Lemma at_only {V} (k : string) f (e : Entry V) : at_key [(k, e)] k f = [(k, f e)].
Proof. simpl. by rewrite bool_decide_true. Qed.

Lemma mget_only {V} (k : string) (e : Entry V) : mget [(k, e)] k = Some e.
Proof. simpl. by rewrite decide_True. Qed.

Lemma step_answer_only {V} (s : string -> option V) k snap r : (forall v, r = inr v -> v = s k) ->
  step (World s [(k, {| snapshot := snap; in_flight := [Requested] |})])
       (World s [(k, {| snapshot := snap; in_flight := [Answered r] |})]).
Proof.
  intros Hr. set (e := {| snapshot := snap; in_flight := [Requested] |}).
  pose proof (step_answer (World s [(k, e)]) k e 0 r (mget_only k e) eq_refl Hr) as H. cbn [server cache] in H. by rewrite at_only in H.
Qed.

Lemma step_deliver_only {V} (s : string -> option V) k snap r :
  let e := {| snapshot := snap; in_flight := [Answered r] |} in
  step (World s [(k, e)]) (World s [(k, refresh_finish e 0 r)]).
Proof.
  intros e. pose proof (step_deliver (World s [(k, e)]) k e 0 r (mget_only k e) eq_refl) as H. cbn [server cache] in H.
  by rewrite at_only in H.
Qed.

(** A world whose one entry holds what the server has, reached by a mount, its load and its answer. *)
Lemma loaded_reachable {V} (s : string -> option V) (k : string) :
  reachable [s; s; s; s] (World s [(k, fresh_entry (Some (s k)))]).
Proof.
  pose proof (step_mount (World s []) (Some k) None ltac:(done)) as H1. cbn in H1. rewrite bool_decide_true in H1 by done.
  pose proof (step_answer_only s k (Snapshot None None true) (inr (s k)) ltac:(by intros v [= <-])) as H2.
  pose proof (step_deliver_only s k (Snapshot None None true) (inr (s k))) as H3.
  eapply (reachable_step _ _ (World s _)); [|exact H3]. eapply (reachable_step _ _ (World s _)); [|exact H2].
  eapply (reachable_step _ _ (World s _)); [apply reachable_init|exact H1].
Qed.

Lemma refresh_settles_witness :
  let w := World (fun _ : string => Some 7) (refreshMatching [("connections|o1", fresh_entry (Some (Some 7)))] "connections|o1") in
  exists w'' e'', rtc quiet_step w w'' /\ mget (cache w'') "connections|o1" = Some e'' /\
    in_flight e'' = [] /\ at_rest (Some 7) (Some 7) (snapshot e'').
Proof.
  destruct (refresh_settles _ (World (fun _ : string => Some 7) [("connections|o1", fresh_entry (Some (Some 7)))])
    (World (fun _ => Some 7) (refreshMatching [("connections|o1", fresh_entry (Some (Some 7)))] "connections|o1"))
    "connections|o1" "connections|o1" (fresh_entry (Some (Some 7))) (loaded_reachable (fun _ => Some 7) "connections|o1")) as (e' & _ & _ & H);
    [reflexivity..|apply rtc_refl|exact H].
Defined.

(** A read the server answers with nothing leaves its entry blank, and the next subscriber loads again. *)
Example empty_answer_blanks :
  let answer := fetchJson (inr {| reply_ok := true; reply_status := 200; reply_json := None; reply_text := EmptyString |}) in
  let e := refresh_finish {| snapshot := Snapshot (Some JNull) None true; in_flight := [Answered (load_answer answer)] |} 0 (load_answer answer) in
  snapshot e = IDLE_SNAPSHOT /\
  in_flight <$> mget (subscribe [("k", e)] "k") "k" = Some [Requested].
Proof. split; reflexivity. Qed.

(** A mutation need not show. When a load of an entry is in flight, the refresh the mutation asks for is
    dropped: the entry takes the answer the server gave before the mutation, and nothing asks again. *)
Theorem inflight_load_hides_mutation {V} (k prefix : string) (before after : string -> option V) snap :
  let pending := {| snapshot := snap; in_flight := [Answered (inr (before k))] |} in
  loading snap = true ->
  rtc step (World before [(k, {| snapshot := snap; in_flight := [Requested] |})])
           (World after (refreshMatching [(k, pending)] prefix)) /\
  rtc quiet_step (World after (refreshMatching [(k, pending)] prefix))
           (World after [(k, {| snapshot := Snapshot (before k) None false; in_flight := [] |})]).
Proof.
  intros pending Hl.
  assert (refreshMatching [(k, pending)] prefix = [(k, pending)]) as Hdrop.
  { simpl. destruct (starts_with prefix k); [|done]. unfold refresh_start, pending. simpl. by rewrite Hl. }
  split.
  - apply (rtc_l _ _ (World before [(k, pending)])); [apply step_answer_only; by intros v [= <-]|].
    apply (rtc_l _ _ (World after [(k, pending)])); [apply (step_server (World before _))|].
    apply rtc_once, (step_mutated (World after [(k, pending)])).
  - rewrite Hdrop. apply rtc_once. split; [|done]. apply (step_deliver_only after k snap (inr (before k))).
Qed.

(** A mutation's refresh reaches every page of its organization's keys, whatever the identity, and no
    other organization's, as long as ids hold no bar. *)
Lemma keys_prefix_exact org org' identity page showRevoked :
  includes_char "|" org = false -> includes_char "|" org' = false ->
  starts_with (orgKeysPrefix org) (keysKey org' identity page showRevoked) = bool_decide (org = org').
Proof.
  intros Ho Ho'. unfold keysKey, orgKeysPrefix. case_bool_decide as Heq.
  - subst. apply starts_with_spec. eexists. by rewrite !append_assoc.
  - destruct (starts_with _ _) eqn:Hs; [|done]. apply starts_with_spec in Hs as [t Ht]. exfalso. apply Heq.
    rewrite !append_assoc in Ht. apply append_inj_l in Ht. cbn [String.append] in Ht.
    apply (f_equal (cut "|")) in Ht. rewrite !cut_app in Ht by done. congruence.
Qed.
