(* ===== verification/SignupLimits.v ===== *)
(** * Abuse limits of the public account routes (lib/auth/signup-rate-limit.ts)

    One process's sliding-window budgets and the per-address email cooldown. The module's maps are a
    record; a request's operation reads the clock once and steps the record. *)

From S2P Require Import Prelude JsMap JsString.

#[local] Open Scope Z_scope.

(** ** The module *)
Definition START_PER_IP_MAX : Z := 5.
Definition START_PER_IP_WINDOW_MS : Z := 600000.
Definition SIGNIN_PER_IP_MAX : Z := 10.
Definition SIGNIN_PER_IP_WINDOW_MS : Z := 600000.
Definition SIGNIN_PER_EMAIL_MAX : Z := 10.
Definition SIGNIN_PER_EMAIL_WINDOW_MS : Z := 600000.
Definition EMAIL_COOLDOWN_MS : Z := 60000.

Abbreviation hits := (list (string * list Z)).

(** The hits after [cutoff]. *)
Definition recent_hits (cutoff : Z) (l : list Z) : list Z := filter (fun at_ => cutoff < at_) l.

Definition withinSlidingBudget (m : hits) (key : string) (max windowMs now : Z) : bool * hits :=
  let recent := recent_hits (now - windowMs) (default [] (mget m key)) in
  if bool_decide (max <= Z.of_nat (length recent)) then (false, mset m key recent)
  else (true, mset m key (recent ++ [now])).

Record Limits := {
  startsByIp : hits;
  signinsByIp : hits;
  signinsByEmail : hits;
  lastEmailAt : list (string * Z);
}.

Definition no_limits : Limits := {| startsByIp := []; signinsByIp := []; signinsByEmail := []; lastEmailAt := [] |}.

(** [email.trim().toLowerCase()]. *)
Definition address_key (email : string) : string := to_lower (trim email).

Definition allowSignupStart (l : Limits) (ip : string) (now : Z) : bool * Limits :=
  let '(ok, m) := withinSlidingBudget (startsByIp l) ip START_PER_IP_MAX START_PER_IP_WINDOW_MS now in
  (ok, {| startsByIp := m; signinsByIp := signinsByIp l; signinsByEmail := signinsByEmail l; lastEmailAt := lastEmailAt l |}).

Definition allowSigninAttempt (l : Limits) (ip email : string) (now : Z) : bool * Limits :=
  let '(ipOk, m1) := withinSlidingBudget (signinsByIp l) ip SIGNIN_PER_IP_MAX SIGNIN_PER_IP_WINDOW_MS now in
  let '(emailOk, m2) :=
    withinSlidingBudget (signinsByEmail l) (address_key email) SIGNIN_PER_EMAIL_MAX SIGNIN_PER_EMAIL_WINDOW_MS now in
  (ipOk && emailOk, {| startsByIp := startsByIp l; signinsByIp := m1; signinsByEmail := m2; lastEmailAt := lastEmailAt l |}).

Definition with_last (l : Limits) (m : list (string * Z)) : Limits :=
  {| startsByIp := startsByIp l; signinsByIp := signinsByIp l; signinsByEmail := signinsByEmail l; lastEmailAt := m |}.

Definition allowEmailSend (l : Limits) (email : string) (now : Z) : bool * Limits :=
  let key := address_key email in
  match mget (lastEmailAt l) key with
  | Some last => if bool_decide (now - last < EMAIL_COOLDOWN_MS) then (false, l)
                 else (true, with_last l (mset (lastEmailAt l) key now))
  | None => (true, with_last l (mset (lastEmailAt l) key now))
  end.

Definition releaseEmailSend (l : Limits) (email : string) : Limits :=
  with_last l (mdelete (lastEmailAt l) (address_key email)).

(** The two headers as the request has them. *)
Definition clientIp (x_real_ip x_forwarded_for : option string) : string :=
  match present (trim <$> x_real_ip) with
  | Some realIp => realIp
  | None =>
      match present x_forwarded_for with
      | Some forwarded =>
          default "unknown"
            (last (filter (fun hop => hop <> EmptyString) (map trim (split_on "," forwarded))))
      | None => "unknown"
      end
  end.

(** ** A process's requests, one after the other *)
Inductive limit_op :=
| Start (ip : string)
| Signin (ip email : string)
| SendEmail (email : string)
| ReleaseEmail (email : string).

Definition limit_step (l : Limits) (now : Z) (op : limit_op) : bool * Limits :=
  match op with
  | Start ip => allowSignupStart l ip now
  | Signin ip email => allowSigninAttempt l ip email now
  | SendEmail email => allowEmailSend l email now
  | ReleaseEmail email => (true, releaseEmailSend l email)
  end.

(** When, what, and what was answered. *)
Abbreviation limit_log := (list (Z * limit_op * bool)).

Fixpoint limit_run (l : Limits) (calls : list (Z * limit_op)) : limit_log :=
  match calls with
  | [] => []
  | (now, op) :: calls' =>
      let '(ok, l') := limit_step l now op in (now, op, ok) :: limit_run l' calls'
  end.

(** The times at which an operation satisfying [P] was allowed. *)
Definition allowed_at (P : limit_op -> bool) (log : limit_log) : list Z :=
  omap (fun h => if P h.1.2 && h.2 then Some h.1.1 else None) log.

(** How many of them lie in the [window] milliseconds up to [t]. *)
Definition in_window (window t : Z) (l : list Z) : Z :=
  Z.of_nat (length (filter (fun at_ => t - window < at_ <= t) l)).

Definition starts_from (ip : string) (op : limit_op) : bool :=
  match op with Start ip' => bool_decide (ip' = ip) | _ => false end.
Definition signins_from (ip : string) (op : limit_op) : bool :=
  match op with Signin ip' _ => bool_decide (ip' = ip) | _ => false end.
Definition signins_to (key : string) (op : limit_op) : bool :=
  match op with Signin _ e => bool_decide (address_key e = key) | _ => false end.

(** When the address's cooldown was last reserved, were it not released since. *)
Definition reserve (key : string) (r : option Z) (h : Z * limit_op * bool) : option Z :=
  match h with
  | (now, SendEmail e, true) => if bool_decide (address_key e = key) then Some now else r
  | (_, ReleaseEmail e, _) => if bool_decide (address_key e = key) then None else r
  | _ => r
  end.

Definition reserved (key : string) (log : limit_log) : option Z := foldl (reserve key) None log.

(** Calls come in the order of the clock. *)
Definition timely (calls : list (Z * limit_op)) : Prop := Sorted Z.le (map fst calls).

(** ** Lemmas *)

(** No window of the given width holds more than [max] hits. *)
Definition paced (max window : Z) (l : list Z) : Prop := forall t, in_window window t l <= max.

Lemma in_window_app window t l l' : in_window window t (l ++ l') = in_window window t l + in_window window t l'.
Proof. unfold in_window. rewrite filter_app, length_app. lia. Qed.

Lemma in_window_sublist window t l l' : sublist l l' -> in_window window t l <= in_window window t l'.
Proof.
  unfold in_window. induction 1; [lia|..]; rewrite ?filter_cons; repeat case_decide; simpl; lia.
Qed.

Lemma paced_sublist max window l l' : sublist l l' -> paced max window l' -> paced max window l.
Proof. intros Hs H t. specialize (H t). pose proof (in_window_sublist window t _ _ Hs). lia. Qed.

(** What the map stores for a key agrees with all the hits recorded so far, as far as any later window
    reaches. *)
Definition tracks (max window last : Z) (stored all : list Z) : Prop :=
  Forall (fun a => a <= last) all /\ paced max window all /\
  forall now, last <= now -> recent_hits (now - window) stored = recent_hits (now - window) all.

Lemma recent_recent c c' l : c <= c' -> recent_hits c' (recent_hits c l) = recent_hits c' l.
Proof.
  intros Hc. unfold recent_hits. induction l as [|a l IH]; [done|]. rewrite !filter_cons.
  repeat case_decide; rewrite ?filter_cons; repeat case_decide; try lia; by rewrite IH.
Qed.

Lemma recent_app c l l' : recent_hits c (l ++ l') = recent_hits c l ++ recent_hits c l'.
Proof. apply filter_app. Qed.

Lemma in_window_late window last now t all :
  Forall (fun a => a <= last) all -> last <= now <= t ->
  in_window window t all <= Z.of_nat (length (recent_hits (now - window) all)).
Proof.
  intros Hall Ht. unfold in_window, recent_hits. induction Hall as [|a all Ha Hall IH]; [done|].
  rewrite !filter_cons. repeat case_decide; simpl; lia.
Qed.

Lemma tracks_nil max window last : 0 <= max -> tracks max window last [] [].
Proof. intros Hmax. split; [constructor|]. split; [by intros t|done]. Qed.

Lemma tracks_later max window last last' stored all :
  last <= last' -> tracks max window last stored all -> tracks max window last' stored all.
Proof.
  intros Hl (Hall & Hp & Hs). split; [|split]; [|done|].
  - eapply Forall_impl; [exact Hall|]. simpl. lia.
  - intros now Hnow. apply Hs. lia.
Qed.

Lemma tracks_refuse max window last now stored all :
  last <= now -> tracks max window last stored all -> tracks max window now (recent_hits (now - window) stored) all.
Proof.
  intros Hl H. destruct (tracks_later _ _ _ _ _ _ Hl H) as (Hall & Hp & Hs). split_and!; [done..|].
  intros now' Hnow'. rewrite recent_recent by lia. by apply Hs.
Qed.

Lemma tracks_admit max window last now stored all :
  last <= now -> tracks max window last stored all ->
  Z.of_nat (length (recent_hits (now - window) stored)) < max ->
  tracks max window now (recent_hits (now - window) stored ++ [now]) (all ++ [now]).
Proof.
  intros Hl (Hall & Hp & Hs) Hroom. rewrite Hs in Hroom by lia.
  destruct (tracks_refuse _ _ _ _ _ _ Hl (conj Hall (conj Hp Hs))) as (Hall' & _ & Hs'). split; [|split].
  - apply Forall_app. split; [done|]. by repeat constructor.
  - intros t. rewrite in_window_app. destruct (decide (now <= t)) as [Ht|Ht].
    + pose proof (in_window_late window last now t all Hall ltac:(lia)).
      assert (in_window window t [now] <= 1); [|lia].
      unfold in_window. rewrite filter_cons. case_decide; simpl; lia.
    + specialize (Hp t). assert (in_window window t [now] = 0) as ->; [|lia].
      unfold in_window. rewrite filter_cons, decide_False by lia. done.
  - intros now' Hnow'. rewrite !recent_app. f_equal. by apply Hs'.
Qed.

(** One budget of the module: every key's hits are tracked. *)
Definition budget_ok (max window last : Z) (m : hits) (all : string -> list Z) : Prop :=
  forall key, tracks max window last (default [] (mget m key)) (all key).

Definition record_hit (ok : bool) (key : string) (now : Z) (all : string -> list Z) (k : string) : list Z :=
  if ok && bool_decide (k = key) then all k ++ [now] else all k.

Lemma budget_later max window last last' m all :
  last <= last' -> budget_ok max window last m all -> budget_ok max window last' m all.
Proof. intros Hl H key. by eapply tracks_later. Qed.

Lemma budget_step max window last now m all key ok m' :
  last <= now -> budget_ok max window last m all -> withinSlidingBudget m key max window now = (ok, m') ->
  budget_ok max window now m' (record_hit ok key now all) /\
  (ok = false -> max <= in_window window now (all key)).
Proof.
  intros Hl H. unfold withinSlidingBudget, record_hit. case_bool_decide as Hfull; intros [= <- <-]; simpl.
  - split.
    + intros k. rewrite mget_set. case_decide; [subst|by eapply tracks_later]. simpl. by eapply tracks_refuse.
    + intros _. destruct (H key) as (Hall & _ & Hs). rewrite Hs in Hfull by lia. etrans; [exact Hfull|].
      unfold in_window, recent_hits. clear -Hall Hl. induction Hall as [|a l Ha Hall IH]; [done|].
      rewrite !filter_cons. repeat case_decide; simpl; lia.
  - split; [|done]. intros k. rewrite mget_set. case_decide as Hk.
    + subst k. rewrite bool_decide_true by done. simpl. eapply tracks_admit; [done|done|lia].
    + rewrite bool_decide_false by congruence. by eapply tracks_later.
Qed.

Lemma budget_ext max window last m all all' :
  (forall k, all k = all' k) -> budget_ok max window last m all -> budget_ok max window last m all'.
Proof. intros He H key. rewrite <- He. apply H. Qed.

Lemma allowed_at_snoc P log now op ok :
  allowed_at P (log ++ [(now, op, ok)]) = allowed_at P log ++ (if P op && ok then [now] else []).
Proof. unfold allowed_at. rewrite omap_app. f_equal. simpl. by destruct (P op && ok). Qed.

(** A budget of which only some recorded hits were allowed in the end. *)
Definition covers (max window last : Z) (m : hits) (of_key : string -> limit_op -> bool) (log : limit_log) : Prop :=
  exists all, budget_ok max window last m all /\ forall key, sublist (allowed_at (of_key key) log) (all key).

Lemma covers_step max window last now m of_key log op key ok ok' m' :
  last <= now -> covers max window last m of_key log ->
  withinSlidingBudget m key max window now = (ok, m') ->
  (forall k, of_key k op = bool_decide (k = key)) -> (ok' = true -> ok = true) ->
  covers max window now m' of_key (log ++ [(now, op, ok')]).
Proof.
  intros Hl (all & Hb & Hs) Hw Hk Hok. exists (record_hit ok key now all).
  split; [exact (proj1 (budget_step _ _ _ _ _ _ _ _ _ Hl Hb Hw))|].
  intros k. rewrite allowed_at_snoc, Hk. unfold record_hit. case_bool_decide; simpl; rewrite ?andb_true_r, ?andb_false_r.
  - destruct ok'; [rewrite Hok by done; simpl; by apply sublist_app|]. rewrite app_nil_r.
    destruct ok; [|done]. by apply sublist_inserts_r.
  - by rewrite app_nil_r.
Qed.

Lemma covers_later max window last now m of_key log op ok :
  last <= now -> (forall k, of_key k op = false) -> covers max window last m of_key log ->
  covers max window now m of_key (log ++ [(now, op, ok)]).
Proof.
  intros Hl Hk (all & Hb & Hs). exists all. split; [by eapply budget_later|].
  intros k. by rewrite allowed_at_snoc, Hk, app_nil_r.
Qed.

Definition limits_ok (log : limit_log) (last : Z) (l : Limits) : Prop :=
  budget_ok START_PER_IP_MAX START_PER_IP_WINDOW_MS last (startsByIp l) (fun ip => allowed_at (starts_from ip) log) /\
  covers SIGNIN_PER_IP_MAX SIGNIN_PER_IP_WINDOW_MS last (signinsByIp l) signins_from log /\
  covers SIGNIN_PER_EMAIL_MAX SIGNIN_PER_EMAIL_WINDOW_MS last (signinsByEmail l) signins_to log /\
  forall key, mget (lastEmailAt l) key = reserved key log.

(** What an answer means, given the log before it. *)
Definition answer_ok (log : limit_log) (h : Z * limit_op * bool) : Prop :=
  match h with
  | (now, Start ip, ok) =>
      ok = true <-> in_window START_PER_IP_WINDOW_MS now (allowed_at (starts_from ip) log) < START_PER_IP_MAX
  | (now, SendEmail e, ok) =>
      ok = true <-> forall since, reserved (address_key e) log = Some since -> EMAIL_COOLDOWN_MS <= now - since
  | _ => True
  end.

Lemma reserved_snoc key log h : reserved key (log ++ [h]) = reserve key (reserved key log) h.
Proof. unfold reserved. by rewrite foldl_app. Qed.

Lemma budget_room max window last now m all key ok m' :
  last <= now -> budget_ok max window last m all -> withinSlidingBudget m key max window now = (ok, m') ->
  ok = true <-> in_window window now (all key) < max.
Proof.
  intros Hl Hb Hw. destruct (budget_step _ _ _ _ _ _ _ _ _ Hl Hb Hw) as [Hb' Hfull].
  split; [intros ->|intros H; destruct ok; [done|]; specialize (Hfull eq_refl); lia].
  destruct (Hb' key) as (_ & Hp & _). specialize (Hp now). unfold record_hit in Hp.
  rewrite bool_decide_true in Hp by done. simpl in Hp. rewrite in_window_app in Hp.
  unfold withinSlidingBudget in Hw. case_bool_decide as Hlen; [done|].
  destruct (Hb key) as (Hall & _ & Hs). rewrite Hs in Hlen by lia.
  pose proof (in_window_late window last now now (all key) Hall ltac:(lia)). lia.
Qed.

Lemma limits_step log last l now op ok l' :
  last <= now -> limits_ok log last l -> limit_step l now op = (ok, l') ->
  limits_ok (log ++ [(now, op, ok)]) now l' /\ answer_ok log (now, op, ok).
Proof.
  intros Hl (Hs & Hi & He & Hm) Hstep.
  assert (forall k : string, (forall ip', starts_from ip' op = false) ->
    allowed_at (starts_from k) log = allowed_at (starts_from k) (log ++ [(now, op, ok)])) as Hno.
  { intros k H. by rewrite allowed_at_snoc, H, app_nil_r. }
  unfold limits_ok. destruct op as [ip|ip e|e|e]; simpl in Hstep.
  - unfold allowSignupStart in Hstep. destruct (withinSlidingBudget _ _ _ _ _) as [ok' m] eqn:Hw. simplify_eq. simpl.
    split; [split_and!|].
    + eapply budget_ext; [|exact (proj1 (budget_step _ _ _ _ _ _ _ _ _ Hl Hs Hw))].
      intros k. rewrite allowed_at_snoc. unfold record_hit. simpl. rewrite andb_comm.
      rewrite (bool_decide_ext (k = ip) (ip = k)) by done. by destruct (_ && _); rewrite ?app_nil_r.
    + by eapply covers_later.
    + by eapply covers_later.
    + intros key. by rewrite reserved_snoc.
    + exact (budget_room _ _ _ _ _ _ _ _ _ Hl Hs Hw).
  - unfold allowSigninAttempt in Hstep. destruct (withinSlidingBudget (signinsByIp l) _ _ _ _) as [ok1 m1] eqn:Hw1.
    destruct (withinSlidingBudget (signinsByEmail l) _ _ _ _) as [ok2 m2] eqn:Hw2. simplify_eq. simpl.
    split; [split_and!|done].
    + eapply budget_ext, budget_later; [|exact Hl|exact Hs]. intros k. by apply Hno.
    + eapply covers_step; [exact Hl|exact Hi|exact Hw1| |by intros [? ?]%andb_true_iff].
      intros k. simpl. by apply bool_decide_ext.
    + eapply covers_step; [exact Hl|exact He|exact Hw2| |by intros [? ?]%andb_true_iff].
      intros k. simpl. by apply bool_decide_ext.
    + intros key. by rewrite reserved_snoc.
  - unfold allowEmailSend in Hstep.
    assert (startsByIp l' = startsByIp l /\ signinsByIp l' = signinsByIp l /\ signinsByEmail l' = signinsByEmail l) as (-> & -> & ->).
    { destruct (mget _ _); [case_bool_decide|]; by simplify_eq. }
    split; [split_and!|].
    + eapply budget_ext, budget_later; [|exact Hl|exact Hs]. intros k. by apply Hno.
    + by eapply covers_later.
    + by eapply covers_later.
    + intros key. rewrite reserved_snoc. unfold reserve. rewrite <- Hm.
      destruct (mget (lastEmailAt l) (address_key e)); [case_bool_decide|]; simplify_eq; simpl; [done|..];
        rewrite mget_set; repeat case_decide; repeat case_bool_decide; done || congruence.
    + simpl. rewrite <- Hm. destruct (mget (lastEmailAt l) (address_key e)) as [since|]; [case_bool_decide|]; simplify_eq.
      * split; [done|]. intros H'. specialize (H' since eq_refl). lia.
      * split; [|done]. intros _ s [= <-]. lia.
      * split; [|done]. by intros _ s.
  - injection Hstep as <- <-. simpl. split; [split_and!|done].
    + eapply budget_ext, budget_later; [|exact Hl|exact Hs]. intros k. by apply Hno.
    + by eapply covers_later.
    + by eapply covers_later.
    + intros key. rewrite reserved_snoc, mget_delete. simpl. rewrite Hm.
      repeat case_decide; repeat case_bool_decide; done || congruence.
Qed.

Lemma limits_run calls : forall log last l,
  limits_ok log last l -> Sorted Z.le (last :: map fst calls) ->
  (exists last' l', limits_ok (log ++ limit_run l calls) last' l') /\
  forall pre h post, limit_run l calls = pre ++ h :: post -> answer_ok (log ++ pre) h.
Proof.
  induction calls as [|[now op] calls IH]; intros log last l Hok Hsorted; simpl.
  { split; [exists last, l; by rewrite app_nil_r|]. by intros [|] ? ?. }
  apply Sorted_inv in Hsorted as [Hsorted Hhd]. apply HdRel_inv in Hhd. simpl in Hhd.
  destruct (limit_step l now op) as [ok l'] eqn:Hstep.
  destruct (limits_step _ _ _ _ _ _ _ Hhd Hok Hstep) as [Hok' Hans].
  destruct (IH _ _ _ Hok' Hsorted) as [Hend Hrest]. split.
  - by rewrite <- app_assoc in Hend.
  - intros [|h0 pre] h post Heq; simpl in Heq; [by simplify_eq; rewrite app_nil_r|]. injection Heq as <- Heq.
    specialize (Hrest _ _ _ Heq). by rewrite <- app_assoc in Hrest.
Qed.

Lemma run_ok calls : timely calls ->
  (exists last l, limits_ok (limit_run no_limits calls) last l) /\
  forall pre h post, limit_run no_limits calls = pre ++ h :: post -> answer_ok pre h.
Proof.
  intros Hsorted. set (last := match calls with [] => 0 | c :: _ => c.1 end).
  assert (limits_ok [] last no_limits) as H0.
  { repeat split; try (exists (fun _ => []); split; [|done]; intros k); simpl; try constructor; done. }
  apply (limits_run calls [] last no_limits H0). constructor; [done|].
  destruct calls; constructor. done.
Qed.

Lemma split_on_app c s t : split_on c (s +:+ String c t) = split_on c s ++ split_on c t.
Proof.
  induction s as [|a s IH]; cbn [String.append split_on]; [by rewrite decide_True|].
  case_decide; [by rewrite IH|]. rewrite IH. destruct (split_on c s) as [|x xs] eqn:Hx; [|done].
  exfalso. clear -Hx. destruct s; simpl in Hx; [done|]. case_decide; [done|]. by destruct (split_on c s).
Qed.

(** A release of somebody else's reservation: the second send is allowed ten seconds after the one
    before it. *)
Theorem release_frees_another (e : string) :
  limit_run no_limits [(0, SendEmail e); (61000, SendEmail e); (70000, ReleaseEmail e); (71000, SendEmail e)] =
    [(0, SendEmail e, true); (61000, SendEmail e, true); (70000, ReleaseEmail e, true); (71000, SendEmail e, true)].
Proof.
  cbn [limit_run limit_step]. unfold allowEmailSend, releaseEmailSend, with_last. cbn [no_limits lastEmailAt].
  generalize (address_key e) as k. intros k. cbn. unfold EMAIL_COOLDOWN_MS.
  repeat (case_decide; cbn; try congruence; try lia).
Qed.

(** ** Properties *)

(** C15. The limits hold. Whatever requests a process serves, in the order of its clock: in no ten minutes
    does one address start more than five signups, or try to sign in more than ten times, and no account
    is tried more than ten times; a signup start is refused only when five were allowed in the ten minutes
    before; and an email is allowed exactly when the last one allowed to that address, in whatever case
    and padding it was written, is a minute old or was released. *)
Theorem limits_paced calls (Htimely : timely calls) :
  let log := limit_run no_limits calls in
  (forall ip, paced 5 600000 (allowed_at (starts_from ip) log)) /\
  (forall ip, paced 10 600000 (allowed_at (signins_from ip) log)) /\
  (forall key, paced 10 600000 (allowed_at (signins_to key) log)) /\
  forall pre now post,
    (forall ip ok, log = pre ++ (now, Start ip, ok) :: post ->
      ok = true <-> in_window 600000 now (allowed_at (starts_from ip) pre) < 5) /\
    (forall e ok, log = pre ++ (now, SendEmail e, ok) :: post ->
      ok = true <-> forall since, reserved (to_lower (trim e)) pre = Some since -> 60000 <= now - since).
Proof.
  intros log. destruct (run_ok calls Htimely) as [(last & l & Hs & (alli & Hi & Hsi) & (alle & He & Hse) & _) Hans].
  split_and!.
  - intros ip. exact (proj1 (proj2 (Hs ip))).
  - intros ip. eapply paced_sublist; [apply Hsi|]. exact (proj1 (proj2 (Hi ip))).
  - intros key. eapply paced_sublist; [apply Hse|]. exact (proj1 (proj2 (He key))).
  - intros pre now post. split; [intros ip ok Hlog|intros e ok Hlog]; exact (Hans _ _ _ Hlog).
Qed.

Lemma limits_paced_witness :
  timely [(0, Start "10.0.0.1"); (1, Start "10.0.0.1")] /\
  paced 5 600000 (allowed_at (starts_from "10.0.0.1") (limit_run no_limits [(0, Start "10.0.0.1"); (1, Start "10.0.0.1")])).
Proof.
  assert (timely [(0, Start "10.0.0.1"); (1, Start "10.0.0.1")]) as H by (repeat constructor; vm_compute; discriminate).
  split; [exact H|]. exact (proj1 (limits_paced _ H) "10.0.0.1").
Defined.

(** The address a request is limited by is the trusted proxy's: the peer the ingress names, or else the
    last hop appended to the forwarding header, whatever the client wrote into that header before it. *)
Theorem client_ip_unforgeable (forged peer : string) (real forwarded : option string) :
  (forall r, real = Some r -> trim r <> EmptyString -> clientIp real forwarded = trim r) /\
  (present (trim <$> real) = None -> includes_char "," peer = false -> trim peer <> EmptyString ->
    clientIp real (Some (forged +:+ String "," peer)) = trim peer /\ clientIp real (Some peer) = trim peer).
Proof.
  split.
  - intros r -> Hr. unfold clientIp. change (trim <$> Some r) with (Some (trim r)). by rewrite (proj2 (present_Some _ (trim r))).
  - intros Hreal Hpeer Hne. unfold clientIp. rewrite Hreal.
    assert (forall l, last (filter (fun hop => hop <> EmptyString) (map trim (l ++ [peer]))) = Some (trim peer)) as Hlast.
    { intros l. rewrite map_app, filter_app. change (map trim [peer]) with [trim peer].
      rewrite filter_cons, decide_True, filter_nil by done. by rewrite last_snoc. }
    split.
    + rewrite (proj2 (present_Some _ (forged +:+ String "," peer))) by (split; [done|by destruct forged]).
      by rewrite split_on_app, (split_on_free "," peer), Hlast by done.
    + rewrite (proj2 (present_Some _ peer)) by (split; [done|by intros ->]).
      rewrite (split_on_free "," peer) by done. specialize (Hlast []). cbn [app] in Hlast. by rewrite Hlast.
Qed.
