(* ===== verification/Access.v ===== *)
(** * The edge: redirects, the proxy, machine callers
    (lib/auth/redirects.ts, proxy.ts, lib/auth/cookies.ts, lib/auth/cron.ts)

    What decides, before any page or route runs, whether a request passes, is bounced to sign-in, or
    is refused; and where a post-sign-in redirect may lead. *)

From S2P Require Import Prelude JsMap JsString JsSort Url QueryStrings Json Effects Services Routes.

#[local] Open Scope Z_scope.

(** ** lib/auth/redirects.ts *)
Definition backslash : ascii := ascii_of_nat 92.

Definition safeNextPath (value : option string) : string :=
  match value with
  | Some v =>
      if negb (truthy v) || negb (starts_with "/" v) || starts_with "//" v || includes_char backslash v
      then "/" else v
  | None => "/"
  end.

(** Where the URL parser takes a reference that starts with a slash, relative to the app: it drops
    tabs and newlines first, and then two slashes (or backslashes) begin an authority. *)
Definition is_control (a : ascii) : bool :=
  bool_decide (nat_of_ascii a ∈ [9; 10; 13]%nat).

Fixpoint strip_controls (s : string) : string :=
  match s with
  | EmptyString => EmptyString
  | String a s' => if is_control a then strip_controls s' else String a (strip_controls s')
  end.

Definition is_slash (a : ascii) : bool := bool_decide (a = "/"%char) || bool_decide (a = backslash).

Definition same_origin (reference : string) : bool :=
  match strip_controls reference with
  | String a (String b _) => is_slash a && negb (is_slash b)
  | String a EmptyString => is_slash a
  | EmptyString => true
  end.

(** [EMAIL_SHAPE]: local part, [@], domain, a final label of at least two letters. *)
Definition local_char (a : ascii) : bool := alnum a || includes_char a "._%+'-".
Definition domain_char (a : ascii) : bool := alnum a || includes_char a ".-".
Definition letter (a : ascii) : bool :=
  let n := nat_of_ascii a in bool_decide ((65 <= n <= 90)%nat \/ (97 <= n <= 122)%nat).

Definition all_chars (f : ascii -> bool) (s : string) : bool := forallb f (list_ascii_of_string s).

(** Some dot of the domain has domain characters before it and two or more letters after it. *)
Fixpoint domain_shape (before s : string) : bool :=
  match s with
  | EmptyString => false
  | String a s' =>
      (bool_decide (a = "."%char) && truthy before && all_chars domain_char before &&
       bool_decide (2 <= String.length s')%nat && all_chars letter s')
      || domain_shape (before +:+ String a EmptyString) s'
  end.

Definition email_shape (s : string) : bool :=
  match cut "@" s with
  | Some (l, d) => truthy l && all_chars local_char l && domain_shape EmptyString d
  | None => false
  end.

Definition safePrefillEmail (value : option string) : option string :=
  let trimmed := trim (default EmptyString value) in
  if bool_decide (String.length trimmed = 0)%nat || bool_decide (254 < String.length trimmed)%nat
     || negb (email_shape trimmed)
  then None else Some trimmed.

(** ** lib/auth/cron.ts, over an abstract digest *)
Section cron.
Context {Digest : Type} `{EqDecision Digest} (sha256 : string -> Digest).

(** [header?.match(/^bearer\s+(.+)$/i)] then [match[1].trim()]: after the scheme there is white
    space and at least one more character; the white space is trimmed either way. *)
Definition bearer_credential (header : option string) : option string :=
  match header with
  | Some h =>
      if bool_decide (to_lower (str_take 6 h) = "bearer") then
        match str_drop 6 h with
        | String a (String b s) => if is_space a then Some (trim (String b s)) else None
        | _ => None
        end
      else None
  | None => None
  end.

Definition bearerMatchesCronSecret (CRON_SECRET header : option string) : bool :=
  match present CRON_SECRET, bearer_credential header with
  | Some secret, Some presented => bool_decide (sha256 presented = sha256 secret)
  | _, _ => false
  end.
End cron.

(** ** lib/auth/cookies.ts *)
Definition is_digit (a : ascii) : bool :=
  let n := nat_of_ascii a in bool_decide (48 <= n <= 57)%nat.

Definition ends_with (suffix s : string) : bool :=
  bool_decide (str_drop (String.length s - String.length suffix) s = suffix).

(** The two sides of the last dot. *)
Fixpoint cut_last_dot (s : string) : option (string * string) :=
  match s with
  | EmptyString => None
  | String a s' =>
      match cut_last_dot s' with
      | Some (x, y) => Some (String a x, y)
      | None => if bool_decide (a = "."%char) then Some (EmptyString, s') else None
      end
  end.

(** The readings of [(?:\.\d+)?$]: nothing, or a dot and digits. *)
Definition without_chunk (name : string) : list string :=
  name :: match cut_last_dot name with
          | Some (base, n) => if truthy n && all_chars is_digit n then [base] else []
          | None => []
          end.

(** [sb-.+-auth-token], or exactly [supabase-auth-token]. *)
Definition auth_cookie_base (base : string) : bool :=
  (starts_with "sb-" base && ends_with "-auth-token" base &&
   bool_decide (14 < String.length base)%nat)
  || bool_decide (base = "supabase-auth-token").

Definition hasSupabaseAuthCookie (cookies : list string) : bool :=
  existsb (fun name => existsb auth_cookie_base (without_chunk name)) cookies.

(** ** proxy.ts *)
Definition PUBLIC_EXACT_PATHS : list string :=
  ["/"; modelsPath; creditsPath; logsPath; insightsPath; signupPath; securityPath; ycPath;
   "/llms.txt"].

Definition PUBLIC_PATH_PREFIXES : list string := [signinPath; "/auth"; docsPath].

Definition PUBLIC_API_PATHS : list string :=
  ["/api/health"; "/api/cli/config"; "/api/stripe/webhook"; "/api/signup/instant";
   "/api/internal/auto-recharge"; "/api/internal/spend-alerts"; "/api/internal/balance-fetch"].

(** [/^prefix[^/]+$/]. *)
Definition one_segment_under (prefix pathname : string) : bool :=
  starts_with prefix pathname &&
  nonempty_without "/" (str_drop (String.length prefix) pathname).

Definition PUBLIC_MODEL_DETAIL (pathname : string) : bool := one_segment_under "/models/" pathname.
Definition PUBLIC_MODEL_DETAIL_API (pathname : string) : bool :=
  one_segment_under "/api/models/" pathname.

Definition isPublicPath (pathname : string) : bool :=
  bool_decide (pathname ∈ PUBLIC_API_PATHS) || bool_decide (pathname ∈ PUBLIC_EXACT_PATHS)
  || PUBLIC_MODEL_DETAIL pathname || PUBLIC_MODEL_DETAIL_API pathname
  || existsb (fun prefix => bool_decide (pathname = prefix) || starts_with (prefix +:+ "/") pathname)
       PUBLIC_PATH_PREFIXES.

Record edge_request := {
  pathname : string;
  search : string;
  cookie_names : list string;
}.

Definition searchParams (r : edge_request) : params := params_parse (search r).

(** What the proxy answers: let the request through, redirect to a reference, or 401. *)
Inductive edge_action := Pass | RedirectTo (reference : string) | Unauthorized.

Record edge_response := {
  action : edge_action;
  set_cookies : list (string * string);
  set_headers : list (string * string);
}.

(** One [setAll] of the session client: cookies to set, headers to add. *)
Record set_all := { all_cookies : list (string * string); all_headers : list (string * string) }.

(** [getClaims()]: whether it verified a session, and the [setAll] calls a token refresh made. *)
Record claims_answer := { verified : bool; refreshes : list set_all }.

Inductive edge_cmd := LoadSettings | GetClaims.

Definition edge_ans (c : edge_cmd) : Type :=
  match c with LoadSettings => Thrown + unit | GetClaims => Thrown + claims_answer end.

Definition edge_effects : effects := Effects edge_cmd edge_ans.

Abbreviation Edge := (prog edge_effects Thrown).

Definition attempt {A} (r : Thrown + A) : Edge A :=
  match r with inl e => Throw e | inr x => mret x end.

(** [supabaseResponse] and [supabaseHeaders]: each [setAll] starts the response anew and adds to the
    headers. *)
Record session_state := {
  response_cookies : list (string * string);
  response_headers : list (string * string);
  supabase_headers : list (string * string);
}.

Definition set_pairs (m l : list (string * string)) : list (string * string) :=
  foldl (fun m kv => mset m kv.1 kv.2) m l.

Definition apply_set_all (st : session_state) (call : set_all) : session_state :=
  {| response_cookies := set_pairs [] (all_cookies call);
     response_headers := set_pairs [] (all_headers call);
     supabase_headers := set_pairs (supabase_headers st) (all_headers call) |}.

Definition no_session : session_state :=
  {| response_cookies := []; response_headers := []; supabase_headers := [] |}.

Definition supabaseResponse (st : session_state) : edge_response :=
  {| action := Pass; set_cookies := response_cookies st; set_headers := response_headers st |}.

Definition withSupabaseSession (a : edge_action) (st : session_state) : edge_response :=
  {| action := a; set_cookies := set_pairs [] (response_cookies st);
     set_headers := set_pairs [] (supabase_headers st) |}.

(** The bounce to sign-in keeps the request's other parameters. *)
Definition signin_reference (r : edge_request) : string :=
  signinPath +:+ "?" +:+ params_string (params_set (searchParams r) "next" (pathname r +:+ search r)).

(** The decision once the session is known. *)
Definition decide_request (r : edge_request) (isAuthenticated : bool) (st : session_state) :
    edge_response :=
  if isPublicPath (pathname r) then
    if isAuthenticated && bool_decide (pathname r = signinPath) &&
       negb (bool_decide (params_get (searchParams r) "yc" = Some "1"))
    then withSupabaseSession (RedirectTo (safeNextPath (params_get (searchParams r) "next"))) st
    else supabaseResponse st
  else if negb isAuthenticated then
    if starts_with "/api/" (pathname r) then withSupabaseSession Unauthorized st
    else withSupabaseSession (RedirectTo (signin_reference r)) st
  else supabaseResponse st.

Definition proxy (r : edge_request) : Edge edge_response :=
  if starts_with "/auth/" (pathname r) || bool_decide (pathname r ∈ PUBLIC_API_PATHS)
  then mret (supabaseResponse no_session)
  else
    settings ← call (E := edge_effects) LoadSettings;
    _ ← attempt settings;
    if hasSupabaseAuthCookie (cookie_names r) then
      claims ← call (E := edge_effects) GetClaims;
      claims ← attempt claims;
      mret (decide_request r (verified claims) (foldl apply_set_all no_session (refreshes claims)))
    else mret (decide_request r false no_session).

(** ** Lemmas *)
#[local] Arguments starts_with : simpl never.

Lemma starts_with_app p q s : starts_with (p +:+ q) s = true -> starts_with p s = true.
Proof.
  rewrite !starts_with_spec. intros [t ->]. exists (q +:+ t). by rewrite append_assoc.
Qed.

Lemma one_segment_spec prefix p :
  one_segment_under prefix p = true <->
  exists seg, p = prefix +:+ seg /\ seg <> "" /\ includes_char "/" seg = false.
Proof.
  unfold one_segment_under, nonempty_without. rewrite andb_true_iff, starts_with_spec.
  assert (forall t, str_drop (String.length prefix) (prefix +:+ t) = t) as Hdrop.
  { intros t. induction prefix as [|a prefix IH]; [by destruct t|done]. }
  split.
  - intros [[t ->] H]. rewrite Hdrop in H. bool_simpl. exists t. split; [done|]. split; [|done].
    by intros ->.
  - intros (seg & -> & Hne & Hsl). rewrite Hdrop. split; [by eexists|].
    rewrite Hsl. destruct seg; [done|]. done.
Qed.

Lemma safeNextPath_cases v :
  safeNextPath v = "/" \/
  exists s, v = Some s /\ safeNextPath v = s /\ starts_with "/" s = true /\
    starts_with "//" s = false /\ includes_char backslash s = false.
Proof.
  destruct v as [s|]; [|by left]. unfold safeNextPath.
  destruct (_ || _) eqn:H; [by left|right]. apply orb_false_elim in H as [H Hb].
  apply orb_false_elim in H as [H Hs]. apply orb_false_elim in H as [_ H].
  apply negb_false_iff in H. by exists s.
Qed.

Lemma strip_controls_none s : all_chars (fun a => negb (is_control a)) s = true -> strip_controls s = s.
Proof.
  unfold all_chars. induction s as [|a s IH]; cbn [list_ascii_of_string forallb strip_controls];
    intros H; [done|].
  bool_simpl. rewrite H. by rewrite IH.
Qed.

Lemma set_pairs_idem l : set_pairs [] (set_pairs [] l) = set_pairs [] l.
Proof. apply of_pairs_NoDup, (mwf_of_pairs l). Qed.

(** The last refresh's cookies. *)
Definition refreshed_cookies (refreshes : list set_all) : list (string * string) :=
  match last refreshes with Some call => set_pairs [] (all_cookies call) | None => [] end.

Lemma response_cookies_refreshes refreshes :
  response_cookies (foldl apply_set_all no_session refreshes) = refreshed_cookies refreshes.
Proof.
  unfold refreshed_cookies. destruct refreshes as [|call l _] using rev_ind; [done|].
  by rewrite foldl_app, last_snoc.
Qed.

Definition refresh_answer (e : event edge_effects) : option claims_answer :=
  match e with Ev GetClaims (inr claims) => Some claims | _ => None end.

Lemma decide_cookies r b st :
  set_pairs [] (response_cookies st) = response_cookies st ->
  set_cookies (decide_request r b st) = response_cookies st.
Proof. intros H. unfold decide_request. by repeat (case_match; simpl). Qed.

(** The request carried a session cookie, and the service verified the session. *)
Definition signed_in (r : edge_request) (tr : list (event edge_effects)) : Prop :=
  hasSupabaseAuthCookie (cookie_names r) = true /\ exists claims,
    Ev (E := edge_effects) GetClaims (inr claims) ∈ tr /\ verified claims = true.

Lemma signed_in_verified r x claims :
  hasSupabaseAuthCookie (cookie_names r) = true ->
  verified claims = true <->
  signed_in r [Ev (E := edge_effects) LoadSettings x; Ev (E := edge_effects) GetClaims (inr claims)].
Proof.
  intros Hc. unfold signed_in. split.
  - intros Hv. split; [done|]. exists claims. split; [right; left|done].
  - intros (_ & claims' & Hin & Hv). apply elem_of_cons in Hin as [[=]|Hin].
    apply list_elem_of_singleton in Hin.
    apply (f_equal (fun e : event edge_effects => match e with Ev GetClaims (inr c) => verified c | _ => false end)) in Hin.
    simpl in Hin. congruence.
Qed.

(** How a request may be answered, by its path and whether it is signed in. *)
Definition proxied (r : edge_request) (tr : list (event edge_effects)) (o : outcome Thrown edge_response) : Prop :=
  match o with
  | Done res =>
      let gated := starts_with "/auth/" (pathname r) = false /\ isPublicPath (pathname r) = false in
      let yc := params_get (searchParams r) "yc" = Some "1" in
      match action res with
      | Pass => (starts_with "/auth/" (pathname r) = true \/ isPublicPath (pathname r) = true \/ signed_in r tr) /\
          (pathname r = signinPath -> signed_in r tr -> yc)
      | Unauthorized => gated /\ starts_with "/api/" (pathname r) = true /\ ~ signed_in r tr
      | RedirectTo ref =>
          (gated /\ starts_with "/api/" (pathname r) = false /\ ~ signed_in r tr /\ ref = signin_reference r) \/
          (pathname r = signinPath /\ signed_in r tr /\ ~ yc /\
            ref = safeNextPath (params_get (searchParams r) "next"))
      end
  | Raised e => Ev (E := edge_effects) LoadSettings (inl e) ∈ tr \/ Ev (E := edge_effects) GetClaims (inl e) ∈ tr
  end.

(** The decision answers what is proxied, once it knows whether the request is signed in. *)
Lemma decided r tr b st :
  starts_with "/auth/" (pathname r) = false -> (b = true <-> signed_in r tr) ->
  proxied r tr (Done (decide_request r b st)).
Proof.
  intros Hauth Hb. unfold decide_request. cbn [proxied].
  destruct (isPublicPath (pathname r)) eqn:Hpub.
  - destruct b; simpl; [|split; [by right; left|]; intros _ H; by apply Hb in H].
    case_bool_decide as Hs; simpl; [|by split; [right; left|]].
    case_bool_decide as Hyc; simpl; [by split; [right; left|]|]. right. by repeat split; try apply Hb.
  - assert (pathname r <> signinPath) as Hns by (intros Hs; by rewrite Hs in Hpub).
    destruct b; simpl; [split; [right; right; by apply Hb|done]|].
    assert (~ signed_in r tr) as Hn by (intros H; by apply Hb in H).
    destruct (starts_with "/api/" (pathname r)); simpl; [by repeat split|left; by repeat split].
Qed.

(** ** Properties *)

(** C26. The proxy lets nobody unverified past its allowlist. Whatever the session service answers, the
    answer is determined by the path and by whether the request carried a session cookie the service
    verified: a request is passed on only when its path is public or lies under the auth routes, or it
    is verified; an unverified API request to any other path is answered 401, and an unverified page
    request is sent to sign-in with its way back; and a verified visit to the sign-in page is sent on,
    except for the yc flow. It fails only where the settings or the session service failed. *)
Theorem proxy_gates r :
  spec (fun _ _ => True) (proxied r) [] (proxy r).
Proof.
  unfold proxy, attempt. destruct (starts_with "/auth/" _) eqn:Hauth; simpl.
  { split; [by left|]. intros Hp. by rewrite Hp in Hauth. }
  case_bool_decide as Hapi; simpl.
  { split; [right; left; unfold isPublicPath; by rewrite bool_decide_true|].
    intros Hp. rewrite Hp in Hapi. by set_solver. }
  split; [done|]. intros [e|[]]; simpl; [left; left|].
  destruct (hasSupabaseAuthCookie (cookie_names r)) eqn:Hcookie; simpl.
  - split; [done|]. intros [e|claims]; simpl; [right; right; left|].
    apply decided; [done|]. by apply signed_in_verified.
  - apply decided; [done|]. split; [done|]. intros [Hc _]. congruence.
Qed.

(** Exactly the listed APIs are public. An [/api/] path needs no session precisely when it is one
    of the seven listed endpoints or the public detail read of one model (one more segment, not
    empty), so everything deeper and every other API stays gated. *)
Theorem public_api_paths p :
  starts_with "/api/" p = true ->
  (isPublicPath p = true <->
    p ∈ PUBLIC_API_PATHS \/
    exists seg, p = "/api/models/" +:+ seg /\ seg <> "" /\ includes_char "/" seg = false).
Proof.
  intros Hapi. rewrite <- one_segment_spec. fold (PUBLIC_MODEL_DETAIL_API p).
  unfold isPublicPath. rewrite !orb_true_iff, !bool_decide_eq_true.
  assert (p ∉ PUBLIC_EXACT_PATHS) as Hexact.
  { intros Hin. repeat (apply elem_of_cons in Hin as [->|Hin]; [done|]). by apply elem_of_nil in Hin. }
  assert (PUBLIC_MODEL_DETAIL p = false) as Hmodel.
  { apply not_true_is_false. intros (seg & -> & _)%one_segment_spec. done. }
  assert (existsb (fun prefix => bool_decide (p = prefix) || starts_with (prefix +:+ "/") p)
    PUBLIC_PATH_PREFIXES = false) as Hprefix.
  { apply starts_with_spec in Hapi as [t ->]. reflexivity. }
  rewrite Hmodel, Hprefix. naive_solver.
Qed.

(** Signing in returns where one was going. The request the proxy bounces to sign-in, when it comes
    back signed in, is redirected to exactly the path and query it first asked for, whatever they
    contain, as long as they are an app path (one leading slash, no backslash) and the request was
    not the YC deal. *)
Theorem signin_returns r st st' cookies :
  isPublicPath (pathname r) = false -> starts_with "/api/" (pathname r) = false ->
  starts_with "/" (pathname r) = true -> starts_with "//" (pathname r +:+ search r) = false ->
  includes_char backslash (pathname r +:+ search r) = false ->
  params_get (searchParams r) "yc" <> Some "1" ->
  exists query,
    action (decide_request r false st) = RedirectTo (signinPath +:+ query) /\
    action (decide_request {| pathname := signinPath; search := query; cookie_names := cookies |}
      true st') = RedirectTo (pathname r +:+ search r).
Proof.
  intros Hpub Hapi Hslash Hdouble Hback Hyc.
  exists ("?" +:+ params_string (params_set (searchParams r) "next" (pathname r +:+ search r))).
  split.
  { unfold decide_request. rewrite Hpub, Hapi. reflexivity. }
  set (target := pathname r +:+ search r) in *. set (ps := params_set _ _ target).
  assert (searchParams {| pathname := signinPath; search := "?" +:+ params_string ps;
    cookie_names := cookies |} = ps) as Hps by apply params_roundtrip_mark.
  assert (params_get ps "yc" <> Some "1") as Hyc'
    by (unfold ps; by rewrite params_get_set, decide_False by done).
  assert (params_get ps "next" = Some target) as Hnext
    by (unfold ps; by rewrite params_get_set, decide_True by done).
  unfold decide_request. rewrite Hps, Hnext.
  assert (isPublicPath signinPath = true) as Hpublic by reflexivity.
  cbn [pathname]. rewrite Hpublic, bool_decide_true, bool_decide_false by done. cbn.
  unfold safeNextPath. rewrite Hdouble, Hback.
  assert (starts_with "/" target = true) as ->.
  { apply starts_with_spec in Hslash as [t Ht]. unfold target. rewrite Ht, append_assoc.
    apply starts_with_append. }
  unfold target. apply starts_with_spec in Hslash as [t ->]. done.
Qed.

(** Post-auth redirects stay on the app, for any requested target without tabs or line breaks:
    whatever the [next] parameter says, the URL parser resolves the sanitized target to the app's
    own origin. *)
Theorem safeNextPath_same_origin v :
  (forall s, v = Some s -> all_chars (fun a => negb (is_control a)) s = true) ->
  same_origin (safeNextPath v) = true.
Proof.
  intros Hv. destruct (safeNextPath_cases v) as [->|(s & -> & -> & H1 & H2 & H3)]; [done|].
  unfold same_origin. rewrite strip_controls_none by auto.
  apply starts_with_spec in H1 as [t ->]. destruct t as [|b t]; [done|].
  unfold is_slash. cbn. rewrite !(bool_decide_false (b = _)); [done| |].
  - by intros ->.
  - by intros ->.
Qed.

(** With a tab the sanitizer is not enough: the URL parser drops the tab and reads a foreign host. *)
Theorem safeNextPath_tab_escapes :
  let v := String "/" (String (ascii_of_nat 9) "/evil.example") in
  safeNextPath (Some v) = v /\ same_origin (safeNextPath (Some v)) = false.
Proof. by vm_compute. Qed.

(** A refreshed session is never lost: whichever way the proxy answers, the response carries exactly
    the cookies of the session service's last refresh. *)
Theorem refresh_survives r :
  spec (fun _ _ => True) (fun tr o => forall claims res,
    Ev (E := edge_effects) GetClaims (inr claims) ∈ tr -> o = Done res ->
    set_cookies res = refreshed_cookies (refreshes claims)) [] (proxy r).
Proof.
  unfold proxy, attempt. destruct (_ || _); simpl.
  { by intros claims res Hin%elem_of_nil. }
  split; [done|]. intros [e|[]]; simpl; [done|].
  destruct (hasSupabaseAuthCookie (cookie_names r)); simpl.
  - split; [done|]. intros [e|claims]; simpl; [done|]. intros claims' res Hin [=<-].
    apply elem_of_cons in Hin as [Hin|Hin]; [discriminate|].
    apply elem_of_cons in Hin as [Hin|Hin]; [|by apply elem_of_nil in Hin].
    apply (f_equal refresh_answer) in Hin as [=->].
    rewrite decide_cookies; rewrite response_cookies_refreshes; [done|].
    unfold refreshed_cookies. destruct (last (refreshes claims)); [apply set_pairs_idem|done].
  - intros claims res Hin. apply elem_of_cons in Hin as [Hin|Hin]; [discriminate|].
    by apply elem_of_nil in Hin.
Qed.

(** Machine routes fail closed. With a digest that does not collide on the secret, a header passes
    exactly when the deployment has a non-empty secret and the header is the bearer scheme, in any
    case, then white space and that secret, up to surrounding white space. *)
Theorem cron_bearer_exact {Digest} `{EqDecision Digest} (sha256 : string -> Digest) secret header :
  (forall s x, secret = Some s -> sha256 x = sha256 s -> x = s) ->
  bearerMatchesCronSecret sha256 secret header = true <->
  exists s h a rest, secret = Some s /\ s <> "" /\ header = Some h /\
    to_lower (str_take 6 h) = "bearer" /\ str_drop 6 h = String a rest /\ is_space a = true /\
    rest <> "" /\ trim rest = s.
Proof.
  intros Hcoll. unfold bearerMatchesCronSecret, bearer_credential. split.
  - destruct (present secret) as [s|] eqn:Hs; [|done]. apply present_Some in Hs as [-> Hne].
    destruct header as [h|]; [|done]. case_bool_decide as Hb; [|done].
    destruct (str_drop 6 h) as [|a [|b rest]] eqn:Hd; try done.
    destruct (is_space a) eqn:Ha; [|done]. intros H. bool_simpl.
    apply (Hcoll s) in H; [|done]. exists s, h, a, (String b rest). done.
  - intros (s & h & a & rest & -> & Hne & -> & Hb & Hd & Ha & Hr & Ht).
    assert (present (Some s) = Some s) as -> by (by apply present_Some).
    rewrite bool_decide_true by done. rewrite Hd. destruct rest as [|b rest]; [done|].
    rewrite Ha, Ht. by apply bool_decide_true.
Qed.

(** ** Witnesses *)
Lemma public_api_paths_witness :
  isPublicPath "/api/models/m1" = true <->
    "/api/models/m1" ∈ PUBLIC_API_PATHS \/
    exists seg, "/api/models/m1" = "/api/models/" +:+ seg /\ seg <> "" /\ includes_char "/" seg = false.
Proof. apply (public_api_paths "/api/models/m1"). vm_compute. reflexivity. Defined.

Lemma signin_returns_witness :
  exists query,
    action (decide_request {| pathname := "/gateway"; search := "?tab=a%20b&x=1"; cookie_names := [] |}
      false no_session) = RedirectTo (signinPath +:+ query) /\
    action (decide_request {| pathname := signinPath; search := query; cookie_names := ["c"] |}
      true no_session) = RedirectTo "/gateway?tab=a%20b&x=1".
Proof.
  apply (signin_returns {| pathname := "/gateway"; search := "?tab=a%20b&x=1"; cookie_names := [] |}
    no_session no_session ["c"]); vm_compute; try reflexivity. discriminate.
Defined.

Lemma safeNextPath_same_origin_witness : same_origin (safeNextPath (Some "/billing?a=//b")) = true.
Proof.
  apply (safeNextPath_same_origin (Some "/billing?a=//b")). intros s [=<-]. vm_compute. reflexivity.
Defined.

Lemma cron_bearer_exact_witness :
  bearerMatchesCronSecret (fun s : string => s) (Some "k3y") (Some "bEaReR  k3y ") = true <->
  exists s h a rest, Some "k3y" = Some s /\ s <> "" /\ Some "bEaReR  k3y " = Some h /\
    to_lower (str_take 6 h) = "bearer" /\ str_drop 6 h = String a rest /\ is_space a = true /\
    rest <> "" /\ trim rest = s.
Proof.
  apply (cron_bearer_exact (fun s => s) (Some "k3y") (Some "bEaReR  k3y ")).
  intros s x _ H. exact H.
Defined.
