(* ===== verification/OrgAccess.v ===== *)
(** * Organization access (lib/auth/org-access.ts, orgs.ts, admin-orgs.ts, server.ts, claims.ts)

    The one gate every organization-scoped surface passes: who the session is, which organizations
    it may address and by which identifiers, its role there, and the organization's single-sign-on
    requirement against the session's own authentication method; with lib/auth/admin.ts
    (isPlatformAdmin) and lib/http.ts (jsonError).

    React's [cache] makes a read repeated within one request answer the same: a request runs as
    [cached request_reads p]. The process-wide single-sign-on cache is a service of its own. *)

From S2P Require Import Prelude JsMap JsString JsSort JsNumber Effects Url QueryStrings Json.
From S2P Require Import Services Routes Access.

#[local] Open Scope Z_scope.

(** ** Services *)
Record org_ident := { org_uuid : string; org_slug : string }.

Record sso_entry := { sso_value : bool; expiresAt : Z }.

#[export] Instance sso_entry_eq_dec : EqDecision sso_entry.
Proof. solve_decision. Defined.

Inductive access_cmd :=
| CookieNames
| OpenServer
| SessionClaims
| SelectMemberships (user : string)
| SelectPlatformAdmin (user : string)
| SelectAllOrgs
| SelectRole (user org : string)
| RpcOrgSsoRequired (org : string)
| SsoCacheGet (org : string)
| SsoCacheSet (org : string) (entry : sso_entry)
| AccessClock.

#[export] Instance access_cmd_eq_dec : EqDecision access_cmd.
Proof. solve_decision. Defined.

(** A membership row carries its organization, normalized from the object or array the client
    types; [null] is [None]. *)
Definition access_ans (c : access_cmd) : Type :=
  match c with
  | CookieNames => list string
  | OpenServer => Thrown + unit
  | SessionClaims => Thrown + db_result json
  | SelectMemberships _ => Thrown + db_result (list (option org_ident))
  | SelectPlatformAdmin _ => Thrown + db_result string
  | SelectAllOrgs => Thrown + db_result (list org_ident)
  | SelectRole _ _ => Thrown + db_result string
  | RpcOrgSsoRequired _ => Thrown + db_result json
  | SsoCacheGet _ => option sso_entry
  | SsoCacheSet _ _ => unit
  | AccessClock => Z
  end.

Definition access_effects : effects := Effects access_cmd access_ans.

#[export] Instance access_effects_eq_dec : EqDecision (cmd access_effects) := access_cmd_eq_dec.

(** What a gated route throws. *)
Inductive app_error :=
| AuthRequiredError (message : string)
| SsoStepUpRequiredError (org slug : string)
| DataSourceError (e : ds_error).

Abbreviation G := (prog access_effects app_error).
Abbreviation ask c := (@call access_effects app_error c).

Definition raise_thrown {E A} (e : Thrown) : prog E app_error A := Throw (DataSourceError (OtherError e)).

Definition raise_error {E A} (message : string) : prog E app_error A := raise_thrown (new_Error message).

Definition answered {E A} (r : Thrown + A) : prog E app_error A :=
  match r with inl e => raise_thrown e | inr x => mret x end.

(** ** lib/auth/claims.ts and lib/auth/server.ts *)
Record AuthenticatedUser := { user_id : string; user_email : option string }.

Definition authenticatedUserFromClaims (claims : json) : option AuthenticatedUser :=
  match present (jget_str claims "sub") with
  | Some sub => Some {| user_id := sub; user_email := jget_str claims "email" |}
  | None => None
  end.

Definition createServerSupabaseClient : G unit := r ← ask OpenServer; answered r.

(** The verified claims of the session, [null] when there are none. *)
Definition getClaims : G (option json) :=
  r ← ask SessionClaims;
  r ← answered r;
  mret (match error r with Some _ => None | None => data r end).

Definition getAuthenticatedUser : G (option AuthenticatedUser) :=
  cookies ← ask CookieNames;
  if negb (hasSupabaseAuthCookie cookies) then mret None
  else
    _ ← createServerSupabaseClient;
    claims ← getClaims;
    mret (claims ≫= authenticatedUserFromClaims).

Definition requireAuthenticatedUser : G AuthenticatedUser :=
  user ← getAuthenticatedUser;
  match user with
  | Some u => mret u
  | None => Throw (AuthRequiredError "Authentication required.")
  end.

(** ** lib/auth/admin.ts *)
Definition isPlatformAdmin : G bool :=
  user ← getAuthenticatedUser;
  match user with
  | None => mret false
  | Some u =>
      _ ← createServerSupabaseClient;
      r ← ask (SelectPlatformAdmin (user_id u));
      r ← answered r;
      match error r with
      | Some e => raise_error ("Unable to verify platform admin status: " +:+ error_message e)
      | None => mret (match data r with Some _ => true | None => false end)
      end
  end.

(** ** lib/auth/orgs.ts *)
Abbreviation AuthorizedOrgIds := (list (string * string)).

(** Slug keys first, then uuid keys. *)
Definition setIdentifierKeys (orgIds : AuthorizedOrgIds) (orgs : list org_ident) : AuthorizedOrgIds :=
  foldl (fun m o => mset m (org_uuid o) (org_uuid o))
    (foldl (fun m o => mset m (org_slug o) (org_uuid o)) orgIds orgs) orgs.

Definition listMembershipOrgIds : G AuthorizedOrgIds :=
  user ← requireAuthenticatedUser;
  _ ← createServerSupabaseClient;
  r ← ask (SelectMemberships (user_id user));
  r ← answered r;
  match error r with
  | Some e => raise_error ("Unable to verify organization membership: " +:+ error_message e)
  | None => mret (setIdentifierKeys [] (omap id (default [] (data r))))
  end.

(** The membership read starts first; its failure is only seen if its result is used. *)
Definition listAuthorizedOrgIds : G AuthorizedOrgIds :=
  membership ← try_catch (m ← listMembershipOrgIds; mret (inr m)) (fun e => mret (inl e));
  admin ← isPlatformAdmin;
  if admin : bool then
    _ ← createServerSupabaseClient;
    r ← ask SelectAllOrgs;
    r ← answered r;
    match error r with
    | Some e => raise_error ("Unable to verify organization access: " +:+ error_message e)
    | None => mret (setIdentifierKeys [] (default [] (data r)))
    end
  else match membership with inl e => Throw e | inr m => mret m end.

(** ** lib/auth/org-access.ts *)
Inductive OrgAccessRole := RoleUser | RoleAdmin.

#[export] Instance OrgAccessRole_eq_dec : EqDecision OrgAccessRole.
Proof. solve_decision. Defined.

Definition SSO_AMR_METHOD : string := "sso/saml".

Definition SSO_REQUIRED_TTL_MS : Z := 30000.

(** [cached !== undefined && cached.expiresAt > Date.now()]. *)
Definition cache_fresh (entry : option sso_entry) : G bool :=
  match entry with
  | Some e => now ← ask AccessClock; mret (bool_decide (now < expiresAt e))
  | None => mret false
  end.

Definition getOrgSsoRequired (orgId : string) : G bool :=
  cached ← ask (SsoCacheGet orgId);
  fresh ← cache_fresh cached;
  if fresh : bool then mret (match cached with Some e => sso_value e | None => false end)
  else
    try_catch
      (_ ← createServerSupabaseClient;
       r ← ask (RpcOrgSsoRequired orgId);
       r ← answered r;
       match error r with
       | Some e => raise_error (error_message e)
       | None =>
           let value := match data r with Some (JBool true) => true | _ => false end in
           now ← ask AccessClock;
           _ ← ask (SsoCacheSet orgId {| sso_value := value; expiresAt := now + SSO_REQUIRED_TTL_MS |});
           mret value
       end)
      (fun _ => mret (match cached with Some e => sso_value e | None => false end)).

Definition getMembershipRole (userId orgId : string) : G (option OrgAccessRole) :=
  _ ← createServerSupabaseClient;
  r ← ask (SelectRole userId orgId);
  r ← answered r;
  match error r with
  | Some e => raise_error ("Unable to verify organization role: " +:+ error_message e)
  | None => mret ((fun role => if bool_decide (role = "admin") then RoleAdmin else RoleUser) <$> data r)
  end.

(** One AMR entry: its method and time, where it is well-typed. *)
Definition amr_entry (entry : json) : option (string * number) :=
  match jget entry "method", jget entry "timestamp" with
  | Some (JStr method), Some (JNum timestamp) => Some (method, timestamp)
  | _, _ => None
  end.

Definition amr_step (latest : option (string * number)) (entry : json) : option (string * number) :=
  match amr_entry entry with
  | Some candidate =>
      match latest with
      | None => Some candidate
      | Some l => if PrimFloat.ltb l.2 candidate.2 then Some candidate else latest
      end
  | None => latest
  end.

Definition latest_method (claims : json) : option string :=
  match jget claims "amr" with
  | Some (JArr amr) => fst <$> foldl amr_step None amr
  | _ => None
  end.

Definition getLatestAuthMethod : G (option string) :=
  _ ← createServerSupabaseClient;
  claims ← getClaims;
  mret (claims ≫= latest_method).

(** The first key that names the organization other than its id. *)
Definition slugForOrgId (authorizedOrgIds : AuthorizedOrgIds) (orgId : string) : string :=
  match find_first (fun kv => bool_decide (kv.2 = orgId) && negb (bool_decide (kv.1 = orgId)))
          authorizedOrgIds with
  | Some kv => kv.1
  | None => orgId
  end.

Definition org_not_found (orgIdentifier : string) : app_error :=
  DataSourceError (DataSourceNotFoundError ("Organization not found: " +:+ orgIdentifier)).

(** The role check of [requireOrgAccess]. *)
Definition require_role (platformAdmin : bool) (minimumRole : OrgAccessRole)
    (userId orgId orgIdentifier : string) : G unit :=
  if negb platformAdmin && bool_decide (minimumRole = RoleAdmin) then
    role ← getMembershipRole userId orgId;
    match role with
    | None => Throw (org_not_found orgIdentifier)
    | Some RoleAdmin => mret tt
    | Some RoleUser =>
        Throw (DataSourceError (DataSourceRequestError "Organization admin role required." 403 None None))
    end
  else mret tt.

(** Its single-sign-on check. *)
Definition require_sso (platformAdmin : bool) (orgId slug : string) : G unit :=
  if negb platformAdmin then
    required ← getOrgSsoRequired orgId;
    if required : bool then
      method ← getLatestAuthMethod;
      if bool_decide (method = Some SSO_AMR_METHOD) then mret tt
      else Throw (SsoStepUpRequiredError orgId slug)
    else mret tt
  else mret tt.

Definition requireOrgAccess (orgIdentifier : string) (minimumRole : OrgAccessRole) :
    G (string * string) :=
  user ← requireAuthenticatedUser;
  authorizedOrgIds ← listAuthorizedOrgIds;
  match mget authorizedOrgIds orgIdentifier with
  | None => Throw (org_not_found orgIdentifier)
  | Some orgId =>
      platformAdmin ← isPlatformAdmin;
      _ ← require_role platformAdmin minimumRole (user_id user) orgId orgIdentifier;
      _ ← require_sso platformAdmin orgId (slugForOrgId authorizedOrgIds orgId);
      mret (orgId, slugForOrgId authorizedOrgIds orgId)
  end.

Definition requireOrgId (orgIdentifier : string) : G string :=
  r ← requireOrgAccess orgIdentifier RoleUser; mret r.1.

(** ** lib/auth/admin-orgs.ts *)
Definition delegatedRoleCheck (orgId : string) (minimumRole : OrgAccessRole) : G bool :=
  try_catch (_ ← requireOrgAccess orgId minimumRole; mret true)
    (fun e =>
       match e with
       | DataSourceError (DataSourceNotFoundError _) => mret false
       | DataSourceError (DataSourceRequestError _ status _ _) =>
           if bool_decide (status = 403) then mret false else Throw e
       | _ => Throw e
       end).

(** The user id argument is unused: the session is the only identity the gate can check. *)
Definition isOrgMember (_userId orgId : string) : G bool := delegatedRoleCheck orgId RoleUser.
Definition isOrgAdmin (_userId orgId : string) : G bool := delegatedRoleCheck orgId RoleAdmin.

(** ** lib/http.ts *)
Definition jsonError (e : app_error) : response :=
  match e with
  | AuthRequiredError m => json_error m 401
  | SsoStepUpRequiredError _ slug =>
      Response 403 (JObj [("error", JStr "sso_required"); ("org", JStr slug)])
  | DataSourceError (DataSourceNotFoundError m) => json_error m 404
  | DataSourceError (DataSourceRequestError m status code action) =>
      Response status (obj [("error", Some (JStr m)); ("code", JStr <$> code); ("action", JStr <$> action)])
  | DataSourceError (OtherError t) =>
      json_error (if thrown_is_error t then thrown_message t else "Unexpected error") 500
  end.

(** What React's [cache] covers here; the single-sign-on read is left out, which allows more. *)
Definition request_reads (c : cmd access_effects) : bool :=
  match c with SsoCacheSet _ _ | AccessClock | SsoCacheGet _ | RpcOrgSsoRequired _ => false | _ => true end.

(** ** What the events say *)
Notation "c ↦ x ∈ tr" := (@Ev access_effects c x ∈ tr) (at level 70, x at level 50).

Implicit Types (tr : list (event access_effects)).

Definition claims_in tr (claims : json) : Prop :=
  exists r, SessionClaims ↦ inr r ∈ tr /\ error r = None /\ data r = Some claims.

Definition session_user tr (u : AuthenticatedUser) : Prop :=
  (exists cookies, CookieNames ↦ cookies ∈ tr /\ hasSupabaseAuthCookie cookies = true) /\
  exists claims, claims_in tr claims /\ authenticatedUserFromClaims claims = Some u.

Definition platform_admin tr (u : AuthenticatedUser) : Prop :=
  exists r row, SelectPlatformAdmin (user_id u) ↦ inr r ∈ tr /\ error r = None /\ data r = Some row.

(** [ident] addresses the organization [id] among [orgs]. *)
Definition addresses (orgs : list org_ident) (ident id : string) : Prop :=
  exists o, o ∈ orgs /\ org_uuid o = id /\
    (ident = id \/ ident = org_slug o /\ ident ∉ map org_uuid orgs).

Definition member_of tr (u : AuthenticatedUser) (ident id : string) : Prop :=
  exists r, SelectMemberships (user_id u) ↦ inr r ∈ tr /\ error r = None /\
    addresses (omap (fun x : option org_ident => x) (default [] (data r))) ident id.

Definition any_org tr (ident id : string) : Prop :=
  exists r, SelectAllOrgs ↦ inr r ∈ tr /\ error r = None /\ addresses (default [] (data r)) ident id.

Definition admin_role tr (u : AuthenticatedUser) (id : string) : Prop :=
  exists r, SelectRole (user_id u) id ↦ inr r ∈ tr /\ error r = None /\ data r = Some "admin".

Definition required_answer (r : db_result json) : bool :=
  match data r with Some (JBool true) => true | _ => false end.

Definition sso_read_failed tr (id : string) : Prop :=
  (exists e, OpenServer ↦ inl e ∈ tr) \/ (exists e, RpcOrgSsoRequired id ↦ inl e ∈ tr) \/
  (exists r, RpcOrgSsoRequired id ↦ inr r ∈ tr /\ error r <> None).

(** The requirement was read to be off; or a cached value not yet expired says so; or it could not be
    read, and the last known value, if any, says so. *)
Definition sso_off tr (id : string) : Prop :=
  (exists r, RpcOrgSsoRequired id ↦ inr r ∈ tr /\ error r = None /\ required_answer r = false) \/
  exists entry, SsoCacheGet id ↦ entry ∈ tr /\ (forall e, entry = Some e -> sso_value e = false) /\
    (sso_read_failed tr id \/
     exists e now, entry = Some e /\ AccessClock ↦ now ∈ tr /\ now < expiresAt e).

(** A value enters the process-wide cache only as just read, for thirty seconds. *)
Definition cache_licensed tr (c : cmd access_effects) : Prop :=
  match c with
  | SsoCacheSet id e =>
      exists r now, RpcOrgSsoRequired id ↦ inr r ∈ tr /\ error r = None /\
        AccessClock ↦ now ∈ tr /\ e = {| sso_value := required_answer r; expiresAt := now + 30000 |}
  | _ => True
  end.

Definition sso_session tr : Prop :=
  exists claims, claims_in tr claims /\ latest_method claims = Some SSO_AMR_METHOD.

(** Errors that tell an outsider nothing of the organization. *)
Definition plain (e : app_error) : Prop :=
  match e with
  | SsoStepUpRequiredError _ _ | DataSourceError (DataSourceRequestError _ _ _ _) => False
  | _ => True
  end.

(** ** Identifiers *)
Lemma mget_foldl_last (key : org_ident -> string) orgs m k :
  mget (foldl (fun m o => mset m (key o) (org_uuid o)) m orgs) k =
    match last (filter (fun o => key o = k) orgs) with
    | Some o => Some (org_uuid o)
    | None => mget m k
    end.
Proof.
  revert m. induction orgs as [|o orgs IH] using rev_ind; intros m; [done|].
  rewrite foldl_app, filter_app. cbn [foldl]. rewrite mget_set, filter_cons, filter_nil.
  destruct (decide (key o = k)).
  - by rewrite last_snoc.
  - by rewrite app_nil_r.
Qed.

Lemma last_by_uuid orgs k :
  org_uuid <$> last (filter (fun o => org_uuid o = k) orgs) =
    if decide (k ∈ map org_uuid orgs) then Some k else None.
Proof.
  destruct (last _) as [o|] eqn:Hl; simpl.
  - apply last_Some_elem_of, list_elem_of_filter in Hl as [<- Hin].
    rewrite decide_True; [done|]. apply list_elem_of_fmap. by exists o.
  - rewrite decide_False; [done|]. intros (o & -> & Hin)%list_elem_of_fmap.
    apply last_None in Hl. assert (o ∈ filter (fun o' => org_uuid o' = org_uuid o) orgs) as Hf
      by (by apply list_elem_of_filter).
    rewrite Hl in Hf. by apply elem_of_nil in Hf.
Qed.

Lemma identifier_lookup orgs ident :
  mget (setIdentifierKeys [] orgs) ident =
    if decide (ident ∈ map org_uuid orgs) then Some ident
    else org_uuid <$> last (filter (fun o => org_slug o = ident) orgs).
Proof.
  unfold setIdentifierKeys. rewrite mget_foldl_last. pose proof (last_by_uuid orgs ident) as H.
  destruct (last (filter (fun o => org_uuid o = ident) orgs)) as [o|]; simpl in H.
  - by destruct (decide _).
  - destruct (decide _); [done|]. rewrite mget_foldl_last. by destruct (last _).
Qed.

Lemma identifier_addresses orgs ident id :
  mget (setIdentifierKeys [] orgs) ident = Some id -> addresses orgs ident id.
Proof.
  rewrite identifier_lookup. case_decide as Hin; intros H.
  - injection H as <-. apply list_elem_of_fmap in Hin as (o & -> & Ho). exists o. auto.
  - destruct (last _) as [o|] eqn:Hl; simplify_eq/=.
    apply last_Some_elem_of, list_elem_of_filter in Hl as [<- Ho]. exists o. auto.
Qed.

(** ** Specifications of the reads *)
Lemma session_user_mono tr tr' u : tr ⊆ tr' -> session_user tr u -> session_user tr' u.
Proof.
  intros Hg [(c & ? & ?) (cl & (r & ? & ?) & ?)]. split; [exists c; auto|].
  exists cl. split; [exists r; auto|done].
Qed.

Lemma platform_admin_mono tr tr' u : tr ⊆ tr' -> platform_admin tr u -> platform_admin tr' u.
Proof. intros Hg (r & row & ? & ?). exists r, row. auto. Qed.

Lemma member_of_mono tr tr' u ident id : tr ⊆ tr' -> member_of tr u ident id -> member_of tr' u ident id.
Proof. intros Hg (r & ? & ?). exists r. auto. Qed.

Lemma any_org_mono tr tr' ident id : tr ⊆ tr' -> any_org tr ident id -> any_org tr' ident id.
Proof. intros Hg (r & ? & ?). exists r. auto. Qed.

Lemma spec_grows {A} Q tr (p : G A) :
  spec cache_licensed Q tr p -> spec cache_licensed (fun tr' o => tr ⊆ tr' /\ Q tr' o) tr p.
Proof.
  intros H%spec_prefix. eapply spec_post; [exact H|]. intros tr' o [[q ->] HQ].
  split; [|done]. intros e He. apply elem_of_app. by left.
Qed.

Lemma user_spec tr :
  spec cache_licensed (fun tr' o => tr ⊆ tr' /\ match o with
      | Done (Some u) => session_user tr' u | Done None => True | Raised e => plain e end)
    tr getAuthenticatedUser.
Proof.
  apply spec_grows. unfold getAuthenticatedUser, createServerSupabaseClient, getClaims, answered,
    raise_thrown. exec; try done.
  destruct (error d) eqn:He; simpl; [done|]. destruct (data d) as [claims|] eqn:Hd; simpl; [|done].
  destruct (authenticatedUserFromClaims claims) as [u0|] eqn:Hu; [|done]. split.
  - eexists. split; [in_trace|]. by bool_simpl.
  - exists claims. split; [|done]. exists d. repeat split; [in_trace|done..].
Qed.

Lemma require_user_spec tr :
  spec cache_licensed (fun tr' o => tr ⊆ tr' /\ match o with
      | Done u => session_user tr' u | Raised e => plain e end)
    tr requireAuthenticatedUser.
Proof.
  apply spec_grows. unfold requireAuthenticatedUser. apply spec_bind.
  eapply spec_post; [apply user_spec|]. intros tr' [[u|]|e] [Hg Hu]; exec_cbn; done.
Qed.

Lemma admin_spec tr :
  spec cache_licensed (fun tr' o => tr ⊆ tr' /\ match o with
      | Done true => exists u, session_user tr' u /\ platform_admin tr' u
      | Done false => True | Raised e => plain e end)
    tr isPlatformAdmin.
Proof.
  apply spec_grows. unfold isPlatformAdmin. apply spec_bind.
  eapply spec_post; [apply user_spec|]. intros tr' [[u|]|e] [Hg Hu]; exec_cbn; [|done..].
  eapply (spec_post cache_licensed (fun tr2 o => tr' ⊆ tr2 /\ match o with
      | Done true => platform_admin tr2 u | Done false => True | Raised e => plain e end)).
  - apply spec_grows. unfold createServerSupabaseClient, answered, raise_error, raise_thrown.
    exec; try done. destruct (data d) eqn:Hd; [|done]. eexists d, _.
    repeat split; [in_trace|done|exact Hd].
  - intros tr2 [[]|] [Hg2 H2]; try done. exists u. split; [|done].
    by eapply session_user_mono.
Qed.

Lemma membership_spec tr :
  spec cache_licensed (fun tr' o => tr ⊆ tr' /\ match o with
      | Done m => exists u, session_user tr' u /\
          forall ident id, mget m ident = Some id -> member_of tr' u ident id
      | Raised e => plain e end) tr listMembershipOrgIds.
Proof.
  apply spec_grows. unfold listMembershipOrgIds. apply spec_bind.
  eapply spec_post; [apply require_user_spec|]. intros tr1 [u|e] [Hg Hu]; exec_cbn; [|done].
  eapply (spec_post cache_licensed (fun tr2 o => tr1 ⊆ tr2 /\ match o with
      | Done m => forall ident id, mget m ident = Some id -> member_of tr2 u ident id
      | Raised e => plain e end)).
  - apply spec_grows. unfold createServerSupabaseClient, answered, raise_error, raise_thrown.
    exec; try done. intros ident id Hm%identifier_addresses. eexists d.
    repeat split; [in_trace|done..].
  - intros tr2 [m|] [Hg2 Hm]; [|done]. exists u. split; [by eapply session_user_mono|done].
Qed.

Definition authorized tr ident id : Prop :=
  exists u, session_user tr u /\
    (member_of tr u ident id \/ platform_admin tr u /\ any_org tr ident id).

Lemma authorized_mono tr tr' ident id : tr ⊆ tr' -> authorized tr ident id -> authorized tr' ident id.
Proof.
  intros Hg (u & Hu & [Hm|[Ha Ho]]); exists u; (split; [by eapply session_user_mono|]).
  - left. by eapply member_of_mono.
  - right. split; [by eapply platform_admin_mono|by eapply any_org_mono].
Qed.

Lemma authorized_spec tr :
  spec cache_licensed (fun tr' o => tr ⊆ tr' /\ match o with
      | Done m => forall ident id, mget m ident = Some id -> authorized tr' ident id
      | Raised e => plain e end) tr listAuthorizedOrgIds.
Proof.
  apply spec_grows. unfold listAuthorizedOrgIds. apply spec_bind, spec_try, spec_bind.
  eapply spec_post; [apply membership_spec|]. intros tr1 o1 [Hg1 H1].
  assert (forall membership, (match membership with inr m => o1 = Done m | inl e => o1 = Raised e end) ->
    spec cache_licensed (fun tr2 o => match o with
      | Done m => forall ident id, mget m ident = Some id -> authorized tr2 ident id
      | Raised e => plain e end) tr1
      (admin ← isPlatformAdmin;
       if admin : bool then
         _ ← createServerSupabaseClient;
         r ← ask SelectAllOrgs;
         r ← answered r;
         match error r with
         | Some e => raise_error ("Unable to verify organization access: " +:+ error_message e)
         | None => mret (setIdentifierKeys [] (default [] (data r)))
         end
       else match membership with inl e => Throw e | inr m => mret m end)) as Hrest.
  2: { destruct o1 as [m|e]; [apply (Hrest (inr m))|apply (Hrest (inl e))]; naive_solver. }
  intros membership Hm. apply spec_bind. eapply spec_post; [apply admin_spec|].
  intros tr2 [[|]|e] [Hg2 H2]; exec_cbn; [| |done].
  - destruct H2 as (u & Hu & Ha).
    eapply (spec_post cache_licensed (fun tr3 o => tr2 ⊆ tr3 /\ match o with
      | Done m => forall ident id, mget m ident = Some id -> any_org tr3 ident id
      | Raised e => plain e end)).
    + apply spec_grows. unfold createServerSupabaseClient, answered, raise_error, raise_thrown.
      exec; try done. intros ident id Hi%identifier_addresses. eexists d. repeat split; [in_trace|done..].
    + intros tr3 [m|] [Hg3 H3]; [|done]. intros ident id Hi. exists u.
      split; [by eapply session_user_mono|]. right. split; [by eapply platform_admin_mono|auto].
  - destruct membership as [e|m]; exec_cbn; [by subst o1|]. subst o1.
    destruct H1 as (u & Hu & Hall). intros ident id Hi.
    eapply authorized_mono; [done|]. exists u. auto.
Qed.

Lemma role_spec tr platformAdmin role u id ident :
  spec cache_licensed (fun tr' o => tr ⊆ tr' /\
      (o = Done tt -> platformAdmin = false -> role = RoleAdmin -> admin_role tr' u id))
    tr (require_role platformAdmin role (user_id u) id ident).
Proof.
  apply spec_grows. unfold require_role, getMembershipRole, createServerSupabaseClient, answered,
    raise_error, raise_thrown.
  destruct (negb platformAdmin && bool_decide (role = RoleAdmin)) eqn:Hr.
  2: { exec_cbn. intros _ -> ->. done. }
  exec; try done. destruct (data d) as [row|] eqn:Hd; [|done].
  intros _ _ _. exists d. split; [in_trace|]. split; [done|]. rewrite Hd. subst o. simpl in Heqo0.
  by destruct (bool_decide (row = "admin")) eqn:Hrow; bool_simpl; subst.
Qed.

Lemma required_spec tr id :
  spec cache_licensed (fun tr' o => tr ⊆ tr' /\ match o with
      | Done false => sso_off tr' id | Done true => True | Raised _ => False end)
    tr (getOrgSsoRequired id).
Proof.
  apply spec_grows. unfold getOrgSsoRequired, cache_fresh, createServerSupabaseClient, answered,
    raise_error, raise_thrown.
  exec; try done.
  all: try (eexists _, _; split; [in_trace|]; split; [done|]; split; [in_trace|done]).
  all: try (destruct (required_answer d) eqn:Hr; unfold required_answer in Hr; rewrite Hr; [done|];
            left; exists d; split; [in_trace|done]).
  all: try (destruct (sso_value s) eqn:Hs; [done|]).
  all: right; eexists; (split; [in_trace|]); (split; [by intros ? [=<-]|]).
  1: right; bool_simpl; by eexists _, _; split; [done|split; [in_trace|]].
  all: left; unfold sso_read_failed.
  all: solve [left; eexists; in_trace | right; left; eexists; in_trace
             |right; right; exists d; split; [in_trace|congruence]].
Qed.

Lemma sso_spec tr platformAdmin id slug :
  spec cache_licensed (fun tr' o => tr ⊆ tr' /\
      (o = Done tt -> platformAdmin = false -> sso_off tr' id \/ sso_session tr'))
    tr (require_sso platformAdmin id slug).
Proof.
  apply spec_grows. unfold require_sso. destruct platformAdmin; [by exec_cbn|]. cbn [negb].
  apply spec_bind. eapply spec_post; [apply required_spec|].
  intros tr1 [[|]|e] [Hg H]; exec_cbn; [| |done].
  - unfold getLatestAuthMethod, createServerSupabaseClient, getClaims, answered, raise_thrown.
    exec; try done. intros _ _. right. bool_simpl.
    destruct (error d) eqn:He; [done|]. destruct (data d) as [claims|] eqn:Hd; [|done].
    exists claims. split; [|done]. exists d. repeat split; [in_trace|done..].
  - auto.
Qed.

(** What granting access to [id] under [ident] means. *)
Definition granted tr (ident : string) (role : OrgAccessRole) (id : string) : Prop :=
  exists u, session_user tr u /\
    (platform_admin tr u /\ (any_org tr ident id \/ member_of tr u ident id) \/
     member_of tr u ident id /\ (role = RoleAdmin -> admin_role tr u id) /\
       (sso_off tr id \/ sso_session tr)).

Definition access_outcome (ident : string) (role : OrgAccessRole) tr
    (o : outcome app_error (string * string)) : Prop :=
  match o with
  | Done r => granted tr ident role r.1
  | Raised e => plain e \/ exists id, authorized tr ident id
  end.

Lemma session_user_unique tr u u' :
  coherent request_reads tr -> session_user tr u -> session_user tr u' -> u = u'.
Proof.
  intros Hco [_ (c & (r & Hr & _ & Hd) & Hu)] [_ (c' & (r' & Hr' & _ & Hd') & Hu')].
  pose proof (Hco SessionClaims _ _ eq_refl Hr Hr') as Heq. simplify_eq. congruence.
Qed.

Lemma admin_role_mono tr tr' u id : tr ⊆ tr' -> admin_role tr u id -> admin_role tr' u id.
Proof. intros Hg (r & ? & ?). exists r. auto. Qed.

Lemma sso_spec_bind tr platformAdmin id slug (Q : list (event access_effects) -> outcome app_error (string * string) -> Prop) :
  (forall tr', tr ⊆ tr' -> (platformAdmin = false -> sso_off tr' id \/ sso_session tr') ->
     Q tr' (Done (id, slug))) ->
  (forall tr' e, tr ⊆ tr' -> Q tr' (Raised e)) ->
  spec cache_licensed Q tr (_ ← require_sso platformAdmin id slug; mret (id, slug)).
Proof.
  intros Hd Hr. apply spec_bind. eapply spec_post; [apply sso_spec|].
  intros tr' [[]|e] [Hg H]; exec_cbn; auto.
Qed.

(** Uncached, the gate grants only what it should to coherent reads. *)
Lemma access_spec tr ident role :
  spec cache_licensed (fun tr o => coherent request_reads tr -> access_outcome ident role tr o) tr
    (requireOrgAccess ident role).
Proof.
  unfold requireOrgAccess. apply spec_bind. eapply spec_post; [apply require_user_spec|].
  intros tr1 [u|e] [_ Hu]; [|by left]. apply spec_bind.
  eapply spec_post; [apply authorized_spec|]. intros tr2 [m|e] [Hg2 Hm]; [|by left].
  destruct (mget m ident) as [id|] eqn:Hid; [|by left]. specialize (Hm ident id Hid).
  apply spec_bind. eapply spec_post; [apply admin_spec|].
  intros tr3 [platformAdmin|e] [Hg3 Ha]; [|by left].
  assert (forall t, tr3 ⊆ t -> authorized t ident id) as Hauth.
  { intros t Hg. eapply authorized_mono; [|exact Hm]. by etrans. }
  apply spec_bind. eapply spec_post; [apply role_spec with (u := u)|].
  intros tr4 [[]|e] [Hg4 Hrole]; [|intros _; right; eauto].
  apply sso_spec_bind; [|intros tr5 e Hg5 _; right; exists id; apply Hauth; by etrans].
  intros tr5 Hg5 Hsso Hco. assert (tr3 ⊆ tr5) as Hg35 by (by etrans).
  assert (session_user tr5 u) as Hu5.
  { eapply session_user_mono; [|exact Hu]. do 2 (etrans; [eassumption|]). done. }
  exists u. split; [done|].
  destruct (Hauth tr5 Hg35) as (u' & Hu' & Hwhich).
  assert (u' = u) as -> by (by eapply session_user_unique).
  destruct platformAdmin.
  - destruct Ha as (u2 & Hu2 & Ha). assert (u2 = u) as ->.
    { eapply session_user_unique; [exact Hco| |exact Hu5]. by eapply session_user_mono. }
    left. split; [by eapply platform_admin_mono|]. destruct Hwhich as [|[_ ?]]; auto.
  - destruct Hwhich as [Hmem|[Hadm Hany]]; [right|left; auto].
    split; [done|]. split; [|auto]. intros Hr. eapply admin_role_mono; [exact Hg5|]. auto.
Qed.

(** The admin check says yes only to access granted at admin strength. *)
Lemma org_admin_spec tr user ident :
  spec cache_licensed (fun tr' o => o = Done true -> coherent request_reads tr' ->
    exists id, granted tr' ident RoleAdmin id) tr (isOrgAdmin user ident).
Proof.
  unfold isOrgAdmin, delegatedRoleCheck. apply spec_try, spec_bind.
  eapply spec_post; [apply access_spec|]. intros tr' [r|e] H; exec_cbn.
  - intros _ Hco. exists r.1. by apply H.
  - destruct e as [| |[|m status c a|]]; exec_cbn; try done. by destruct (bool_decide (status = 403)).
Qed.

Lemma granted_grows tr tr' ident role id : tr ⊆ tr' -> granted tr ident role id -> granted tr' ident role id.
Proof.
  intros Hg (u & Hu & H). exists u. split; [by eapply session_user_mono|].
  destruct H as [[Ha H]|(Hm & Hr & Hs)]; [left|right].
  - split; [by eapply platform_admin_mono|].
    destruct H; [left; by eapply any_org_mono|right; by eapply member_of_mono].
  - split; [by eapply member_of_mono|]. split; [intros; eapply admin_role_mono; eauto|].
    destruct Hs as [Hs|(c & (x & ? & ?) & ?)]; [left|right; exists c; split; [exists x|]; auto].
    destruct Hs as [(x & ? & ?)|(en & ? & ? & Hs)]; [left; exists x; auto|right].
    exists en. split; [auto|]. split; [done|].
    destruct Hs as [[(x & ?)|[(x & ?)|(x & ? & ?)]]|(x & now & ? & ? & ?)]; [left..|right].
    + left; exists x; auto.
    + right; left; exists x; auto.
    + right; right; exists x; auto.
    + exists x, now. auto.
Qed.

Section same_events.
Context (tr tr' : list (event access_effects)) (Hsame : forall e, e ∈ tr <-> e ∈ tr').

Lemma cache_licensed_same c : cache_licensed tr c -> cache_licensed tr' c.
Proof.
  destruct c; simpl; auto. intros (r & now & ? & ? & ? & ?). exists r, now. rewrite <- !Hsame. auto.
Qed.

Lemma access_outcome_same ident role o : access_outcome ident role tr o -> access_outcome ident role tr' o.
Proof.
  assert (tr ⊆ tr') as Hg by (intros e; apply Hsame).
  destruct o as [r|e]; simpl.
  - by apply granted_grows.
  - intros [?|(id & H)]; [by left|right]. exists id. by eapply authorized_mono.
Qed.
End same_events.

(** ** Properties *)

(** C16. The access gate. For every request and every answer of the services: access to an organization
    is granted only to a verified session user who is a platform admin, or is a member of the very
    organization the identifier addresses, holds the admin role when it is asked for, and whose
    session's latest authentication is single sign-on unless the organization does not require it;
    whoever cannot address the organization learns nothing of it, only that it is not found; and
    the process-wide single-sign-on cache takes only values just read, for thirty seconds. *)
Theorem access_gate ident role :
  spec cache_licensed (access_outcome ident role) [] (cached request_reads (requireOrgAccess ident role)).
Proof.
  apply spec_cached.
  - intros tr tr' c Hsame. by apply cache_licensed_same.
  - intros tr tr' o Hsame. by apply access_outcome_same.
  - eapply spec_impl; [| |apply access_spec]; auto.
Qed.

(** Identifiers. A uuid always addresses its own organization, whatever the slugs; any other
    identifier addresses the last listed organization with that slug. *)
Theorem identifiers_resolve orgs ident :
  mget (setIdentifierKeys [] orgs) ident =
    if decide (ident ∈ map org_uuid orgs) then Some ident
    else org_uuid <$> last (filter (fun o => org_slug o = ident) orgs).
Proof. apply identifier_lookup. Qed.
