(* ===== verification/TenantServices.v ===== *)
(** * What the tenant routes share

    The services behind the organization-scoped route handlers (API keys, members): the access gate
    of [OrgAccess], the service-role Supabase client, the clock and random source, the mailer; and
    lib/audit.ts, the audit trail every mutation leaves. *)

From S2P Require Import Prelude JsMap JsString JsSort JsNumber Effects Url QueryStrings Json.
From S2P Require Import Services Routes Access OrgAccess.

#[local] Open Scope Z_scope.

(** ** Rows *)
Record KeyRow := {
  key_org : string;
  key_name : string;
  key_prefix : string;
  key_suffix : string;
  key_hash : string;
  key_created_by : string;
  key_identity : option string;
  key_expires_at : option string;
}.

(** What the inserting select returns: the fields the code reads, and the row it passes on. *)
Record InsertedKey := {
  ins_id : string;
  ins_name : string;
  ins_prefix : string;
  ins_identity : option string;
  ins_expires_at : option string;
  ins_row : json;
}.

Record StoredKey := {
  stored_org : string;
  stored_name : string;
  stored_identity : option string;
  stored_revoked_at : option string;
}.

(** A listing: one organization, possibly one identity, with or without revoked keys. *)
Record KeyScope := { scope_org : string; scope_identity : option string; scope_revoked : bool }.

Record InviteRow := { invite_id : string; invite_token : string; invite_role : string }.

(** The request to the mail service, and its reply: [response.ok], the status, the body if it parses. *)
Record Email := { mail_from : string; mail_to : string; mail_subject : string; mail_html : string }.

Record MailReply := { mail_ok : bool; mail_status : Z; mail_payload : option json }.

Record AuditEvent := {
  audit_org : option string;
  actorKind : string;
  audit_actor : option string;
  audit_action : string;
  objectType : string;
  objectId : string;
  audit_before : option json;
  audit_after : option json;
}.

(** The gateway's answer to a completion request: its status, its body as JSON, and, unless it has
    none, its body as a stream: the decoded reads, then its end with what the decoder flushes, or a
    failure. *)
Record ChatStream := {
  chat_ok : bool;
  chat_json : Thrown + json;
  chat_body : option (list string * (Thrown + string));
}.

#[export] Instance KeyRow_eq_dec : EqDecision KeyRow.
Proof. solve_decision. Defined.
#[export] Instance KeyScope_eq_dec : EqDecision KeyScope.
Proof. solve_decision. Defined.
#[export] Instance Email_eq_dec : EqDecision Email.
Proof. solve_decision. Defined.
#[export] Instance AuditEvent_eq_dec : EqDecision AuditEvent.
Proof. solve_decision. Defined.

(** ** Commands *)
Inductive tenant_cmd :=
| Gate (c : access_cmd)
| RequestBody
| OpenServiceRole
| TenantClock
| RpcRecordAudit (e : AuditEvent)
(* API keys *)
| SelectOrgById (org : string)
| SelectOwnMembership (org user : string)
| SelectBannedAt (org : string)
| SelectIdentity (org identity : string)
| UpsertIdentity (identity org name : string)
| RandomHex
| InsertApiKey (row : KeyRow)
| SelectApiKey (service_role : bool) (id : string)
| UpdateKeyExpiry (id : string) (expires_at : option string)
| UpdateKeyRevoked (id revoked_at : string) (revoked_by : option string)
| CountApiKeys (scope : KeyScope)
| SelectApiKeys (scope : KeyScope) (from to : Z)
(* Members *)
| GetOrg (id : string)
| RpcUserIdForEmail (email : string)
| InsertMember (org user role : string)
| DeleteExpiredInvites (org email now : string)
| SelectPendingInvite (org email now : string)
| InsertInvite (org email role invited_by : string)
| UpdateInviteRole (id role : string)
(* Mail: process.env.RESEND_API_KEY and EXPLABS_EMAIL_FROM; the Resend request *)
| MailSettings
| PostEmail (api_key : string) (e : Email)
| SelectAdmins (org : string)
| UpdateMemberRole (org user role : string)
| DeleteMember (org user : string)
(* The active organization: its cookie, and the cached backend list *)
| ActiveOrgCookie
| ListOrgs
| SsoRequiredIds (orgs : list string)
(* The playground: the request, the gateway's completion stream, the response stream *)
| ContentLength
| SignalAborted
| StreamChat (secret : string) (body : json)
| Enqueue (text : string)
| CloseStream.

#[export] Instance tenant_cmd_eq_dec : EqDecision tenant_cmd.
Proof. solve_decision. Defined.

(** PostgREST reports errors as values; the audit RPC is guarded and may also throw. *)
Definition tenant_ans (c : tenant_cmd) : Type :=
  match c with
  | Gate c => access_ans c
  | RequestBody => Thrown + json
  | OpenServiceRole => Thrown + unit
  | TenantClock => Z
  | RpcRecordAudit _ => Thrown + db_result unit
  | SelectOrgById _ => db_result string
  | SelectOwnMembership _ _ => db_result string
  | SelectBannedAt _ => db_result (option string)
  | SelectIdentity _ _ => db_result bool
  | UpsertIdentity _ _ _ => db_result unit
  | RandomHex => string
  | InsertApiKey _ => db_result InsertedKey
  | SelectApiKey _ _ => db_result StoredKey
  | UpdateKeyExpiry _ _ | UpdateKeyRevoked _ _ _ => db_result unit
  | CountApiKeys _ => db_result Z
  | SelectApiKeys _ _ _ => db_result (list json)
  | GetOrg _ => ds_error + (string * string)
  | RpcUserIdForEmail _ => db_result string
  | InsertMember _ _ _ => db_result json
  | DeleteExpiredInvites _ _ _ => db_result unit
  | SelectPendingInvite _ _ _ | InsertInvite _ _ _ _ | UpdateInviteRole _ _ => db_result InviteRow
  | MailSettings => option string * option string
  | PostEmail _ _ => Thrown + MailReply
  | SelectAdmins _ => db_result (list string)
  | UpdateMemberRole _ _ _ | DeleteMember _ _ => db_result (list json)
  | ActiveOrgCookie => option string
  | ListOrgs => ds_error + list org_ident
  | SsoRequiredIds _ => Thrown + db_result json
  | ContentLength => option string
  | SignalAborted => bool
  | StreamChat _ _ => Thrown + ChatStream
  | Enqueue _ | CloseStream => Thrown + unit
  end.

Definition tenant_effects : effects := Effects tenant_cmd tenant_ans.

#[export] Instance tenant_effects_eq_dec : EqDecision (cmd tenant_effects) := tenant_cmd_eq_dec.

Abbreviation T := (prog tenant_effects app_error).
Abbreviation ask c := (@call tenant_effects app_error c).

(** The access gate, inside a tenant route. *)
Definition gate {A} (p : prog access_effects app_error A) : T A :=
  embed (E := access_effects) (F := tenant_effects) Gate (fun c x => x) (fun e => e) p.

(** What React's [cache] covers in a tenant route. *)
Definition tenant_reads (c : cmd tenant_effects) : bool :=
  match c with Gate c => request_reads c | ListOrgs => true | _ => false end.

Definition createServiceRoleSupabaseClient : T unit := r ← ask OpenServiceRole; answered r.

(** Run a handler inside its [try]: what it throws is answered by [jsonError]. *)
Definition route (p : T response) : T response := try_catch p (fun e => mret (jsonError e)).

(** ** lib/audit.ts *)
Definition SECRET_KEY_FRAGMENTS : list string :=
  ["secret"; "token"; "credential"; "password"; "key_hash"; "keyhash"].

Definition isSecretKey (key : string) : bool :=
  let lowered := to_lower key in existsb (fun fragment => includes fragment lowered) SECRET_KEY_FRAGMENTS.

Fixpoint redactAuditValue (value : json) : json :=
  match value with
  | JArr l => JArr (map redactAuditValue l)
  | JObj o =>
      JObj ((fix members (o : list (string * json)) : list (string * json) :=
               match o with
               | [] => []
               | (k, v) :: o' =>
                   if isSecretKey k then members o' else (k, redactAuditValue v) :: members o'
               end) o)
  | v => v
  end.

(** The event as the RPC gets it; a failure, returned or thrown, is only logged. *)
Definition recordAuditEvent (e : AuditEvent) : T unit :=
  try_catch
    (r ← ask (RpcRecordAudit
       {| audit_org := audit_org e; actorKind := actorKind e; audit_actor := audit_actor e;
          audit_action := audit_action e; objectType := objectType e; objectId := objectId e;
          audit_before := redactAuditValue <$> audit_before e;
          audit_after := redactAuditValue <$> audit_after e |});
     _ ← answered r; mret tt)
    (fun _ => mret tt).

(** Every member name anywhere in a value. *)
Fixpoint member_names (j : json) : list string :=
  match j with
  | JArr l => flat_map member_names l
  | JObj o =>
      (fix names (o : list (string * json)) : list string :=
         match o with [] => [] | (k, v) :: o' => k :: member_names v ++ names o' end) o
  | _ => []
  end.

(** ** Lemmas *)

(** The gate's events among a route's. *)
Definition gate_event (e : event tenant_effects) : option (event access_effects) :=
  match e with Ev (Gate c) x => Some (@Ev access_effects c x) | _ => None end.

Definition gate_events (tr : list (event tenant_effects)) : list (event access_effects) :=
  omap gate_event tr.

Lemma gate_event_Some e (c : access_cmd) (x : access_ans c) :
  gate_event e = Some (@Ev access_effects c x) -> e = @Ev tenant_effects (Gate c) x.
Proof.
  intros H. destruct e as [c0 y]. destruct c0; try discriminate H. simpl in H.
  apply (inj Some) in H. pose proof (Ev_cmd _ _ _ _ H) as Hc. simpl in Hc. subst.
  by apply Ev_inj in H as ->.
Qed.

Lemma gate_events_app tr tr' : gate_events (tr ++ tr') = gate_events tr ++ gate_events tr'.
Proof. apply omap_app. Qed.

Lemma gate_events_mono tr tr' : tr ⊆ tr' -> gate_events tr ⊆ gate_events tr'.
Proof.
  intros Hg e (x & Hx & He)%list_elem_of_omap. apply list_elem_of_omap. exists x. auto.
Qed.

Lemma gate_events_same tr tr' :
  (forall e, e ∈ tr <-> e ∈ tr') -> forall e, e ∈ gate_events tr <-> e ∈ gate_events tr'.
Proof. intros H e. split; apply gate_events_mono; intros x; apply H. Qed.

Lemma coherent_gate tr : coherent tenant_reads tr -> coherent request_reads (gate_events tr).
Proof.
  intros Hco c x y Hc (e & He & Hx)%list_elem_of_omap (e' & He' & Hy)%list_elem_of_omap.
  apply gate_event_Some in Hx as ->. apply gate_event_Some in Hy as ->. by eapply (Hco (Gate c)).
Qed.

(** A gate's specification holds of it inside a route; [licensed] commands are the route's own. *)
Lemma spec_gate {A} Q (I : list (event tenant_effects) -> cmd tenant_effects -> Prop) tr
    (p : prog access_effects app_error A) :
  (forall tr c, cache_licensed (gate_events tr) c -> I tr (Gate c)) ->
  spec cache_licensed Q (gate_events tr) p ->
  spec I (fun tr' o =>
    (exists q, tr' = tr ++ q /\ Forall (embedded (E := access_effects) (F := tenant_effects) Gate) q) /\
    match o with
    | Done a => Q (gate_events tr') (Done a)
    | Raised e => Q (gate_events tr') (Raised e)
    end) tr (gate p).
Proof.
  intros HI H. eapply spec_post.
  - eapply (spec_embed (E := access_effects) (F := tenant_effects) Gate (fun c x => x) (fun e => e)
      gate_events); [|exact HI|exact H].
    intros tr' c x. by rewrite gate_events_app.
  - intros tr' [a|e] [Hq Ho]; [done|]. split; [done|]. by destruct Ho as (e' & -> & ?).
Qed.

(** ** Steps of a route

    A route reads until it writes. [grown] says that only reads happened in between; the steps below
    say what each gate read establishes, against any licence [I] that admits the gate. *)
Implicit Types (tr : list (event tenant_effects)).

Definition writes (c : tenant_cmd) : bool :=
  match c with
  | RpcRecordAudit _ | UpsertIdentity _ _ _ | InsertApiKey _ | UpdateKeyExpiry _ _
  | UpdateKeyRevoked _ _ _ | InsertMember _ _ _ | DeleteExpiredInvites _ _ _ | InsertInvite _ _ _ _
  | UpdateInviteRole _ _ | PostEmail _ _ | UpdateMemberRole _ _ _ | DeleteMember _ _ | StreamChat _ _
  | Enqueue _ | CloseStream => true
  | _ => false
  end.

Definition reads (e : event tenant_effects) : Prop := match e with Ev c _ => writes c = false end.

Definition grown tr tr' : Prop := exists q, tr' = tr ++ q /\ Forall reads q.

Notation "c ↣ x ∈ tr" := (@Ev tenant_effects c x ∈ tr) (at level 70, x at level 50).

Lemma grown_refl tr : grown tr tr.
Proof. exists []. by rewrite app_nil_r. Qed.

Lemma grown_trans tr1 tr2 tr3 : grown tr1 tr2 -> grown tr2 tr3 -> grown tr1 tr3.
Proof.
  intros (q & -> & ?) (q' & -> & ?). exists (q ++ q'). rewrite app_assoc.
  split; [done|by apply Forall_app].
Qed.

Lemma grown_snoc tr tr' e : grown tr tr' -> reads e -> grown tr (tr' ++ [e]).
Proof. intros H He. eapply grown_trans; [exact H|]. exists [e]. by repeat constructor. Qed.

Lemma grown_subset tr tr' : grown tr tr' -> tr ⊆ tr'.
Proof. intros (q & -> & _) e He. apply elem_of_app. by left. Qed.

Lemma grown_reads tr tr' : grown tr tr' -> Forall reads tr -> Forall reads tr'.
Proof. intros (q & -> & ?) ?. by apply Forall_app. Qed.

Ltac grown :=
  repeat (apply grown_snoc; [|reflexivity]);
  first [apply grown_refl | assumption | eapply grown_trans; eassumption].

Lemma coherent_mono tr tr' : tr ⊆ tr' -> coherent tenant_reads tr' -> coherent tenant_reads tr.
Proof. intros Hg Hco c x y Hc Hx Hy. eapply Hco; eauto. Qed.

Definition signed_in tr (u : AuthenticatedUser) : Prop := session_user (gate_events tr) u.
Definition operates tr (u : AuthenticatedUser) : Prop := platform_admin (gate_events tr) u.

Lemma signed_in_mono tr tr' u : tr ⊆ tr' -> signed_in tr u -> signed_in tr' u.
Proof. intros Hg. by apply session_user_mono, gate_events_mono. Qed.

Lemma operates_mono tr tr' u : tr ⊆ tr' -> operates tr u -> operates tr' u.
Proof. intros Hg. by apply platform_admin_mono, gate_events_mono. Qed.

Lemma signed_in_unique tr u u' :
  coherent tenant_reads tr -> signed_in tr u -> signed_in tr u' -> u = u'.
Proof. intros Hco. by apply session_user_unique, coherent_gate. Qed.

Lemma granted_mono tr tr' ident role id :
  tr ⊆ tr' -> granted (gate_events tr) ident role id -> granted (gate_events tr') ident role id.
Proof.
  intros Hg. apply (granted_grows (gate_events tr) (gate_events tr')). by apply gate_events_mono.
Qed.

Section steps.
Context (I : list (event tenant_effects) -> cmd tenant_effects -> Prop).
Hypothesis I_gate : forall tr c, cache_licensed (gate_events tr) c -> I tr (Gate c).

Lemma gate_step {A} Q tr (p : prog access_effects app_error A) :
  spec cache_licensed Q (gate_events tr) p ->
  spec I (fun tr' o => grown tr tr' /\
    match o with
    | Done a => Q (gate_events tr') (Done a)
    | Raised e => Q (gate_events tr') (Raised e)
    end) tr (gate p).
Proof.
  intros H. eapply spec_post; [by eapply spec_gate|]. intros tr' o [(q & -> & Hq) Ho].
  split; [|done]. exists q. split; [done|]. eapply Forall_impl; [exact Hq|].
  by intros e (c & x & ->).
Qed.

Lemma user_step tr :
  spec I (fun tr' o => grown tr tr' /\ match o with Done u => signed_in tr' u | Raised _ => True end)
    tr (gate requireAuthenticatedUser).
Proof.
  eapply spec_post; [apply gate_step, require_user_spec|]. intros tr' [u|e] [Hg [_ H]]; auto.
Qed.

Lemma platform_step tr :
  spec I (fun tr' o => grown tr tr' /\
      (o = Done true -> exists u, signed_in tr' u /\ operates tr' u))
    tr (gate isPlatformAdmin).
Proof.
  eapply spec_post; [apply gate_step, admin_spec|]. intros tr' [[|]|e] [Hg [_ H]]; auto; done.
Qed.

Lemma org_admin_step tr user org :
  spec I (fun tr' o => grown tr tr' /\
      (o = Done true -> coherent tenant_reads tr' ->
       exists id, granted (gate_events tr') org RoleAdmin id))
    tr (gate (isOrgAdmin user org)).
Proof.
  eapply spec_post; [apply gate_step, org_admin_spec|]. intros tr' [b|e] [Hg H]; [|done].
  split; [done|]. intros [=->] Hco. by apply H, coherent_gate.
Qed.

Lemma org_id_step ident tr :
  spec I (fun tr' o => grown tr tr' /\ match o with
      | Done org => coherent tenant_reads tr' -> granted (gate_events tr') ident RoleUser org
      | Raised _ => True end) tr (gate (requireOrgId ident)).
Proof.
  eapply spec_post.
  - apply (gate_step (fun t o => match o with
      | Done org => coherent request_reads t -> granted t ident RoleUser org | Raised _ => True end)).
    unfold requireOrgId. apply spec_bind. eapply spec_post; [apply access_spec|].
    intros t [r|e] H; exec_cbn; auto.
  - intros tr' [org|e] [Hg H]; (split; [done|]); [|done]. intros Hco. by apply H, coherent_gate.
Qed.

Lemma client_step tr :
  spec I (fun tr' o => grown tr tr') tr (gate OrgAccess.createServerSupabaseClient).
Proof.
  eapply spec_post; [apply (gate_step (fun _ _ => True))|by intros tr' o [Hg _]].
  unfold OrgAccess.createServerSupabaseClient, answered, raise_thrown. by exec.
Qed.

Lemma service_step tr :
  (forall tr, I tr OpenServiceRole) ->
  spec I (fun tr' o => grown tr tr') tr createServiceRoleSupabaseClient.
Proof.
  intros HI. unfold createServiceRoleSupabaseClient, answered, raise_thrown. exec; [apply HI|grown..].
Qed.
End steps.

(** A world for examples: every read finds nothing, every write is accepted. *)
Definition quiet_answer (c : tenant_cmd) : tenant_ans c :=
  match c return tenant_ans c with
  | Gate c =>
      match c return access_ans c with
      | CookieNames => []
      | OpenServer => inr tt
      | SessionClaims => inr (DbResult None None)
      | SelectMemberships _ => inr (db_ok [])
      | SelectPlatformAdmin _ => inr (DbResult None None)
      | SelectAllOrgs => inr (db_ok [])
      | SelectRole _ _ => inr (DbResult None None)
      | RpcOrgSsoRequired _ => inr (db_ok (JBool false))
      | SsoCacheGet _ => None
      | SsoCacheSet _ _ => tt
      | AccessClock => 0
      end
  | RequestBody => inr JNull
  | OpenServiceRole => inr tt
  | TenantClock => 0
  | RpcRecordAudit _ => inr (db_ok tt)
  | SelectOrgById _ | SelectOwnMembership _ _ => DbResult None None
  | SelectBannedAt _ => DbResult None None
  | SelectIdentity _ _ => DbResult None None
  | UpsertIdentity _ _ _ => db_ok tt
  | RandomHex => EmptyString
  | InsertApiKey _ => DbResult None None
  | SelectApiKey _ _ => DbResult None None
  | UpdateKeyExpiry _ _ | UpdateKeyRevoked _ _ _ => db_ok tt
  | CountApiKeys _ => db_ok 0
  | SelectApiKeys _ _ _ => db_ok []
  | GetOrg id => inr (id, id)
  | RpcUserIdForEmail _ => DbResult None None
  | InsertMember _ _ _ => db_ok JNull
  | DeleteExpiredInvites _ _ _ => db_ok tt
  | SelectPendingInvite _ _ _ | InsertInvite _ _ _ _ | UpdateInviteRole _ _ => DbResult None None
  | MailSettings => (None, None)
  | PostEmail _ _ => inr {| mail_ok := true; mail_status := 200; mail_payload := None |}
  | SelectAdmins _ => db_ok []
  | UpdateMemberRole _ _ _ | DeleteMember _ _ => db_ok []
  | ActiveOrgCookie | ContentLength => None
  | ListOrgs => inr []
  | SsoRequiredIds _ => inr (db_ok (JArr []))
  | SignalAborted => false
  | StreamChat _ _ => inr {| chat_ok := true; chat_json := inr JNull; chat_body := Some ([], inr EmptyString) |}
  | Enqueue _ | CloseStream => inr tt
  end.

(** ** Properties *)

(** The audit trail carries no secret: at every depth of the recorded snapshot, no member's name
    contains a secret fragment in any case; and what is not named as a secret is kept. *)
Theorem audit_redacts j :
  Forall (fun k => isSecretKey k = false) (member_names (redactAuditValue j)) /\
  (Forall (fun k => isSecretKey k = false) (member_names j) -> redactAuditValue j = j).
Proof.
  split.
  - revert j. fix IH 1. intros [| | | |l|o]; simpl; try constructor.
    + induction l as [|v l IHl]; simpl; [constructor|]. apply Forall_app. by split; [apply IH|].
    + induction o as [|[k v] o IHo]; simpl; [constructor|]. destruct (isSecretKey k) eqn:Hk; [done|].
      simpl. constructor; [done|]. apply Forall_app. by split; [apply IH|].
  - revert j. fix IH 1. intros [| | | |l|o]; simpl; intros H; try done; f_equal.
    + induction l as [|v l IHl]; simpl in *; [done|]. apply Forall_app in H as [Hv Hl].
      f_equal; [by apply IH|by apply IHl].
    + induction o as [|[k v] o IHo]; simpl in *; [done|]. apply Forall_cons in H as [Hk H].
      apply Forall_app in H as [Hv Ho]. rewrite Hk. f_equal; [|by apply IHo]. f_equal. by apply IH.
Qed.
