(* ===== verification/ActiveOrg.v ===== *)
(** * The active organization (lib/active-org.ts, lib/data-cache.ts, app/api/active-org/route.ts, app/api/orgs/route.ts)

    Root-level pages carry no organization in their URL: one resolver picks it from the active-org
    cookie, the caller's memberships and the backend's list, and passes its choice through the access
    gate. [Promise.all] reads are independent; they are asked here in the order they are listed. *)

From S2P Require Import Prelude JsMap JsString Url Json Effects Services Access OrgAccess TenantServices.

#[local] Open Scope Z_scope.

#[local] Abbreviation ask c := (@call tenant_effects app_error c).

#[export] Instance org_ident_eq_dec : EqDecision org_ident.
Proof. solve_decision. Defined.

(** ** lib/auth/orgs.ts and lib/data-cache.ts *)
Definition requireAuthorizedOrgIds : G AuthorizedOrgIds := _ ← requireAuthenticatedUser; listAuthorizedOrgIds.

Definition filterAuthorizedOrgs (orgs : list org_ident) (authorizedOrgIds : AuthorizedOrgIds) : list org_ident :=
  filter (fun o => mhas authorizedOrgIds (org_uuid o) = true) orgs.

Definition backend {A} (r : ds_error + A) : T A :=
  match r with inl e => Throw (DataSourceError e) | inr x => mret x end.

Definition listOrgsCached : T (list org_ident) := r ← ask ListOrgs; backend r.

Definition named (identifier : string) (o : org_ident) : bool :=
  bool_decide (org_uuid o = identifier) || bool_decide (org_slug o = identifier).

Definition getOrgCached (orgIdentifier : string) : T org_ident :=
  orgs ← listOrgsCached;
  match find_first (named orgIdentifier) orgs with
  | Some o => mret o
  | None => Throw (org_not_found orgIdentifier)
  end.

Definition requireOrg (orgIdentifier : string) : T org_ident :=
  orgId ← gate (requireOrgId orgIdentifier); getOrgCached orgId.

(** ** lib/auth/org-access.ts: the single-sign-on tags *)
Record TaggedOrg := { tagged : org_ident; sso_tag : bool }.

(** [new Set(Array.isArray(data) ? data.map(String) : [])]; the function returns uuids. *)
Definition required_ids (r : db_result json) : list string :=
  match data r with Some (JArr l) => omap jstr l | _ => [] end.

Definition tagSsoRequiredOrgs (orgs : list org_ident) : T (list TaggedOrg) :=
  if bool_decide (orgs = []) then mret []
  else
    try_catch
      (_ ← gate createServerSupabaseClient;
       r ← ask (SsoRequiredIds (map org_uuid orgs));
       r ← answered r;
       match error r with
       | Some e => raise_error (error_message e)
       | None => mret (map (fun o => {| tagged := o; sso_tag := bool_decide (org_uuid o ∈ required_ids r) |}) orgs)
       end)
      (fun _ => mret (map (fun o => {| tagged := o; sso_tag := false |}) orgs)).

Record OrgShell := { shell_orgs : list TaggedOrg; currentOrg : org_ident }.

Definition loadOrgShell (orgIdentifier : string) : T OrgShell :=
  membershipOrgIds ← gate listMembershipOrgIds;
  allOrgs ← listOrgsCached;
  current ← getOrgCached orgIdentifier;
  orgs ← tagSsoRequiredOrgs (filterAuthorizedOrgs allOrgs membershipOrgIds);
  mret {| shell_orgs := orgs; currentOrg := current |}.

(** ** lib/active-org.ts *)

(** The cookie's organization if the session may reach it, else the first it is a member of, else
    the first it may reach. *)
Definition select_org (preferred : option string) (membershipOrgIds : AuthorizedOrgIds)
    (orgs : list org_ident) : option org_ident :=
  match preferred ≫= fun p => find_first (fun o => bool_decide (org_slug o = p) || bool_decide (org_uuid o = p)) orgs with
  | Some o => Some o
  | None =>
      match find_first (fun o => mhas membershipOrgIds (org_uuid o) || mhas membershipOrgIds (org_slug o)) orgs with
      | Some o => Some o
      | None => head orgs
      end
  end.

Definition selectSessionActiveOrg : T (option org_ident) :=
  authorizedOrgIds ← gate requireAuthorizedOrgIds;
  preferred ← ask ActiveOrgCookie;
  allOrgs ← listOrgsCached;
  membershipOrgIds ← gate listMembershipOrgIds;
  match select_org preferred membershipOrgIds (filterAuthorizedOrgs allOrgs authorizedOrgIds) with
  | None => mret None
  | Some selected =>
      _ ← gate (requireOrgAccess (org_uuid selected) RoleUser);
      mret (Some selected)
  end.

(** [redirect(url)] throws to the framework: [inl]. *)
Definition resolveActiveOrg : T (string + org_ident) :=
  try_catch
    (org ← selectSessionActiveOrg;
     mret (match org with Some o => inr o | None => inl "/orgs" end))
    (fun e => match e with
              | SsoStepUpRequiredError _ orgSlug => mret (inl ("/signin?sso_required=" +:+ encodeURIComponent orgSlug))
              | e => Throw e
              end).

(** The application's own error classes carry no digest. *)
Definition digest (e : app_error) : option string :=
  match e with DataSourceError (OtherError e) => thrown_digest e | _ => None end.

Definition isNextControlFlowError (e : app_error) : bool :=
  match digest e with
  | Some d => starts_with "NEXT_REDIRECT" d || bool_decide (d = "NEXT_NOT_FOUND")
  | None => false
  end.

(** The framework's control flow passes through; every other error is swallowed. *)
Definition resolveActiveOrgForTelemetry : T (option org_ident) :=
  try_catch selectSessionActiveOrg
    (fun e => if isNextControlFlowError e then Throw e else mret None).

Definition findAuthorizedOrg (orgIdentifier : string) : T (option org_ident) :=
  authorizedOrgIds ← gate requireAuthorizedOrgIds;
  orgs ← listOrgsCached;
  mret (find_first (fun o => bool_decide (org_slug o = orgIdentifier) || bool_decide (org_uuid o = orgIdentifier))
          (filterAuthorizedOrgs orgs authorizedOrgIds)).

(** ** POST /api/active-org: the response and the cookie it sets *)
Definition COOKIE_MAX_AGE_SECONDS : Z := 60 * 60 * 24 * 365.

Record SetCookie := { cookie_value : string; cookie_max_age : Z }.

Definition POST : T (response * option SetCookie) :=
  body ← ask RequestBody;
  match match body with inr b => jget_str b "org" | inl _ => None end with
  | None => mret (json_error ("Body must be {" +:+ String quote ("org" +:+ String quote (": " +:+ String quote
                    ("<slug or id>" +:+ String quote "}.")))) 400, None)
  | Some orgIdentifier =>
      org ← findAuthorizedOrg orgIdentifier;
      match org with
      | None => mret (json_error "Unknown organization." 404, None)
      | Some o =>
          mret (json_response (JObj [("ok", JBool true); ("org", JStr (org_slug o))]),
                Some {| cookie_value := org_slug o; cookie_max_age := COOKIE_MAX_AGE_SECONDS |})
      end
  end.

(** ** GET /api/orgs *)
Definition org_json (t : TaggedOrg) : json :=
  JObj [("id", JStr (org_uuid (tagged t))); ("slug", JStr (org_slug (tagged t))); ("sso_required", JBool (sso_tag t))].

Definition GET : T response :=
  route (_ ← gate requireAuthenticatedUser;
         authorizedOrgIds ← gate listAuthorizedOrgIds;
         allOrgs ← listOrgsCached;
         orgs ← tagSsoRequiredOrgs (filterAuthorizedOrgs allOrgs authorizedOrgIds);
         mret (json_response (JObj [("orgs", JArr (map org_json orgs))]))).

(** ** What the resolver may ask and what its answers mean *)
Implicit Types (tr : list (event tenant_effects)).

Definition listed tr (o : org_ident) : Prop := exists l, @Ev tenant_effects ListOrgs (inr l) ∈ tr /\ o ∈ l.

(** Nothing is written, and the single-sign-on cache only as just read. *)
Definition reads_only tr (c : cmd tenant_effects) : Prop :=
  match c with
  | Gate c => cache_licensed (gate_events tr) c
  | c => writes c = false
  end.

Lemma reads_only_gate tr c : cache_licensed (gate_events tr) c -> reads_only tr (Gate c).
Proof. done. Qed.

Definition active_outcome tr (o : outcome app_error (option org_ident)) : Prop :=
  match o with
  | Done (Some o) => listed tr o /\ exists id, granted (gate_events tr) (org_uuid o) RoleUser id
  | _ => True
  end.

(** What the tolerant resolution makes of the resolution's end. *)
Definition tolerated (o : outcome app_error (option org_ident)) : outcome app_error (option org_ident) :=
  match o with
  | Raised e => if isNextControlFlowError e then Raised e else Done None
  | o => o
  end.

(** The organization addressed is one the session may reach. *)
Definition reachable tr (o : org_ident) : Prop :=
  listed tr o /\ exists id, authorized (gate_events tr) (org_uuid o) id.

Definition switch_outcome tr (o : outcome app_error (response * option SetCookie)) : Prop :=
  match o with
  | Done (resp, Some cookie) =>
      resp_status resp = 200 /\ cookie_max_age cookie = 31536000 /\
      exists o, reachable tr o /\ cookie_value cookie = org_slug o /\
        exists b ident, @Ev tenant_effects RequestBody (inr b) ∈ tr /\ jget_str b "org" = Some ident /\
          (org_slug o = ident \/ org_uuid o = ident)
  | Done (resp, None) => resp_status resp = 400 \/ resp_status resp = 404
  | Raised _ => True
  end.

Lemma authorized_ids_spec evs :
  spec cache_licensed (fun evs' o => match o with
      | Done m => forall ident id, mget m ident = Some id -> authorized evs' ident id
      | Raised _ => True end) evs requireAuthorizedOrgIds.
Proof.
  unfold requireAuthorizedOrgIds. apply spec_bind. eapply spec_post; [apply require_user_spec|].
  intros tr1 [u|e] _; [|done]. eapply spec_post; [apply authorized_spec|]. intros tr2 [m|e] [_ H]; auto.
Qed.

Lemma select_elem preferred members orgs o : select_org preferred members orgs = Some o -> o ∈ orgs.
Proof.
  unfold select_org. destruct preferred as [p|]; simpl;
    repeat (destruct (find_first _ _) as [x|] eqn:E; [intros [= <-]; by apply find_first_elem in E as [? _]|]; clear E);
    destruct orgs; simpl; [done| |done|]; intros [= <-]; left.
Qed.

Lemma filter_authorized o orgs m : o ∈ filterAuthorizedOrgs orgs m -> o ∈ orgs /\ exists id, mget m (org_uuid o) = Some id.
Proof.
  intros [Hm Ho]%list_elem_of_filter. split; [done|]. unfold mhas in Hm. destruct (mget m (org_uuid o)); naive_solver.
Qed.

Lemma authorized_step tr :
  spec reads_only (fun tr' o => grown tr tr' /\ match o with
      | Done m => forall ident id, mget m ident = Some id -> authorized (gate_events tr') ident id
      | Raised _ => True end) tr (gate requireAuthorizedOrgIds).
Proof. eapply spec_post; [apply gate_step; [done|apply authorized_ids_spec]|]. by intros tr' [m|e] [Hg H]. Qed.

Lemma listed_step tr :
  spec reads_only (fun tr' o => grown tr tr' /\ match o with
      | Done l => forall o, o ∈ l -> listed tr' o
      | Raised _ => True end) tr listOrgsCached.
Proof.
  unfold listOrgsCached, backend. exec_cbn. split; [done|]. intros [e|l]; exec_cbn; (split; [grown|]); [done|].
  intros o Ho. eexists. split; [in_trace|done].
Qed.

Lemma listed_mono tr tr' o : tr ⊆ tr' -> listed tr o -> listed tr' o.
Proof. intros Hg (l & ? & ?). exists l. auto. Qed.

Lemma select_spec tr :
  spec reads_only (fun tr' o => coherent tenant_reads tr' -> active_outcome tr' o) tr selectSessionActiveOrg.
Proof.
  unfold selectSessionActiveOrg. apply spec_bind. eapply spec_post; [apply authorized_step|].
  intros tr1 [m|e] [Hg1 Hm]; [|done]. exec_cbn. split; [done|]. intros preferred.
  apply spec_bind. eapply spec_post; [apply listed_step|]. intros tr2 [allOrgs|e] [Hg2 Hl]; [|done].
  apply spec_bind. eapply spec_post.
  { apply (gate_step reads_only reads_only_gate (fun _ _ => True)).
    eapply spec_post; [apply membership_spec|done]. }
  intros tr3 [members|e] [Hg3 _]; [|done].
  destruct (select_org _ _ _) as [o|] eqn:Hsel; [|by exec_cbn].
  apply select_elem, filter_authorized in Hsel as [Ho _].
  apply spec_bind. eapply spec_post; [apply (gate_step reads_only reads_only_gate), access_spec|].
  intros tr4 [r|e] [Hg4 Hr]; exec_cbn; [|done]. intros Hco. split.
  - eapply listed_mono; [|by apply Hl]. do 2 (etrans; [by apply grown_subset|]). done.
  - exists r.1. by apply Hr, coherent_gate.
Qed.

Lemma telemetry_spec tr :
  spec reads_only (fun tr' o => coherent tenant_reads tr' -> active_outcome tr' o /\
    forall e, o = Raised e -> isNextControlFlowError e = true) tr resolveActiveOrgForTelemetry.
Proof.
  apply spec_try. eapply spec_post; [apply select_spec|]. intros tr' [o|e] H; exec_cbn.
  - intros Hco. split; [by apply H|done].
  - destruct (isNextControlFlowError e) eqn:He; exec_cbn; intros _; (split; [done|]); [|done].
    by intros e' [= <-].
Qed.

Lemma telemetry_run {W} (h : handler tenant_effects W) w :
  (run h resolveActiveOrgForTelemetry w).1.1 = tolerated (run h selectSessionActiveOrg w).1.1.
Proof.
  unfold resolveActiveOrgForTelemetry. rewrite run_try.
  destruct (run h selectSessionActiveOrg w) as [[[o|e] tr] w']; simpl; [done|].
  by destruct (isNextControlFlowError e).
Qed.

Lemma find_authorized_spec tr ident :
  spec reads_only (fun tr' o => grown tr tr' /\ match o with
      | Done (Some o) => reachable tr' o /\ (org_slug o = ident \/ org_uuid o = ident)
      | _ => True end) tr (findAuthorizedOrg ident).
Proof.
  unfold findAuthorizedOrg. apply spec_bind. eapply spec_post; [apply authorized_step|].
  intros tr1 [m|e] [Hg1 Hm]; [|done]. apply spec_bind. eapply spec_post; [apply listed_step|].
  intros tr2 [l|e] [Hg2 Hl]; exec_cbn; (split; [by eapply grown_trans|]); [|done].
  destruct (find_first _ _) as [o|] eqn:Ho; [|done]. apply find_first_elem in Ho as [Ho Hident].
  apply filter_authorized in Ho as [Ho [id Hid]]. split.
  2: { apply orb_true_iff in Hident as [H|H]; apply bool_decide_eq_true in H; auto. }
  split; [by apply Hl|]. exists id. eapply authorized_mono; [|by apply Hm].
  by apply gate_events_mono, grown_subset.
Qed.

Lemma switch_spec tr : spec reads_only switch_outcome tr POST.
Proof.
  unfold POST. exec_cbn. split; [done|]. intros r.
  destruct (match r with inr b => jget_str b "org" | inl _ => None end) as [ident|] eqn:Hr; [|by left].
  destruct r as [e|b]; [done|]. apply spec_bind. eapply spec_post; [apply find_authorized_spec|].
  intros tr2 [[o|]|e] [Hg H]; exec_cbn; [|by right|done]. destruct H as [Hreach Hident].
  split; [done|]. split; [done|]. exists o. split; [done|]. split; [done|]. exists b, ident.
  split; [|done]. apply (grown_subset _ _ Hg). in_trace.
Qed.

Section same_events.
Context (tr tr' : list (event tenant_effects)) (Hsame : forall e, e ∈ tr <-> e ∈ tr').

Lemma reads_only_same c : reads_only tr c -> reads_only tr' c.
Proof. destruct c; try done. apply cache_licensed_same. by apply gate_events_same. Qed.

Lemma active_outcome_same o : active_outcome tr o -> active_outcome tr' o.
Proof.
  assert (tr ⊆ tr') as Hg by (intros e; apply Hsame).
  destruct o as [[o|]|]; try done. intros [Hl [id Hid]]. split; [by eapply listed_mono|].
  exists id. by eapply granted_mono.
Qed.
End same_events.

(** The concrete world of the key routes, its user a member of ["o1"] only. *)
Definition demo_answer (orgs : list org_ident) (cookie : option string) : handler tenant_effects unit :=
  fun w c =>
    (w, match c return tenant_ans c with
        | Gate (SelectMemberships _) => inr (db_ok [Some {| org_uuid := "o1"; org_slug := "acme" |}])
        | Gate SessionClaims => inr (db_ok (JObj [("sub", JStr "u1")]))
        | Gate CookieNames => ["sb-x-auth-token"]
        | ListOrgs => inr orgs
        | ActiveOrgCookie => cookie
        | RequestBody => inr (JObj [("org", JStr "acme")])
        | c => quiet_answer c
        end).

Definition o1 : org_ident := {| org_uuid := "o1"; org_slug := "acme" |}.
Definition o2 : org_ident := {| org_uuid := "o2"; org_slug := "rival" |}.

(** A cookie naming a foreign organization is not followed, and the switch accepts only one's own. *)
Example resolves :
  (run (demo_answer [o2; o1] (Some "rival")) (cached tenant_reads resolveActiveOrg) tt).1.1 = Done (inr o1) /\
  (run (demo_answer [o2] None) (cached tenant_reads resolveActiveOrg) tt).1.1 = Done (inl "/orgs") /\
  match (run (demo_answer [o2; o1] None) POST tt).1.1 with
  | Done (resp, cookie) => (resp_status resp, cookie_value <$> cookie)
  | Raised _ => (0, None)
  end = (200, Some "acme") /\
  match (run (demo_answer [o2] None) POST tt).1.1 with
  | Done (resp, cookie) => (resp_status resp, cookie_value <$> cookie)
  | Raised _ => (0, None)
  end = (404, None).
Proof. by vm_compute. Qed.

(** A redirect thrown under the tolerant resolution passes through it; another failure does not. *)
Definition failing_list (e : Thrown) : handler tenant_effects unit :=
  fun w c =>
    match c return unit * tenant_ans c with
    | ListOrgs => (w, inl (OtherError e))
    | c => demo_answer [o1] None w c
    end.

Definition redirect_error : Thrown :=
  {| thrown_type := None; thrown_is_error := true; thrown_message := "redirect";
     thrown_payment_intent := None; thrown_digest := Some "NEXT_REDIRECT;replace;/signin;307;" |}.

Example telemetry_tolerates :
  (run (failing_list redirect_error) (cached tenant_reads resolveActiveOrgForTelemetry) tt).1.1 =
    Raised (DataSourceError (OtherError redirect_error)) /\
  (run (failing_list (new_Error "backend unavailable")) (cached tenant_reads resolveActiveOrgForTelemetry) tt).1.1 =
    Done None.
Proof. by vm_compute. Qed.


(** The organization switch sets the cookie only to the slug of an organization of the backend's
    list that the session may reach and that the request named, by slug or id, and for a year; any
    other request is answered 400 or 404 without a cookie, and nothing is written. *)
Theorem switch_only_reachable : spec reads_only switch_outcome [] POST.
Proof. apply switch_spec. Qed.
