(* ===== verification/ApiKeys.v ===== *)
(** * API keys (lib/api-keys/, app/api/keys/, lib/playground/serving-key.ts)

    Minting, listing, rotating and revoking an organization's API keys, and the short-lived key the
    playground serves one exchange with. The plaintext secret exists in the response of its mint
    only; what is stored is its digest. *)

From S2P Require Import Prelude JsMap JsString JsSort JsDate JsNumber Effects Url QueryStrings Json.
From S2P Require Import Services Routes Access OrgAccess TenantServices.

#[local] Open Scope Z_scope.

(** ** lib/api-keys/keys.ts *)
Definition API_KEY_SECRET_PREFIX : string := "xpl_".
Definition KEY_PREFIX_LENGTH : nat := 12.
Definition KEY_SUFFIX_LENGTH : nat := 4.
Definition API_KEY_EXPIRY_DAYS : list Z := [30; 60; 90].

Record MintedApiKey := {
  secret : string;
  minted_prefix : string;
  minted_suffix : string;
  minted_hash : string;
}.

(** [s.slice(-n)]. *)
Definition slice_end (n : nat) (s : string) : string := str_drop (String.length s - n) s.

Record CreateApiKeyPayload := {
  orgId : string;
  name : string;
  expiresInDays : option Z;
  identityId : option string;
}.

(** [payload.k ?? null]. *)
Definition nullish (payload : json) (k : string) : option json :=
  match jget payload k with Some JNull | None => None | Some v => Some v end.

(** A string member that is not blank. *)
Definition nonblank (v : option json) : option string :=
  match v with Some (JStr s) => if truthy (trim s) then Some s else None | _ => None end.

Definition expiry_choice (v : json) : option Z :=
  match v with
  | JNum x => find_first (fun d => PrimFloat.eqb x (number_of_Z d)) API_KEY_EXPIRY_DAYS
  | _ => None
  end.

Definition invalid {A} (message : string) : Thrown + A := inl (new_Error message).

Definition parseCreateApiKeyPayload (value : json) : Thrown + CreateApiKeyPayload :=
  match value with
  | JObj _ =>
      match nonblank (jget value "orgId") with
      | None => invalid "API key request must include an orgId."
      | Some org =>
          match nonblank (jget value "name") with
          | None => invalid "API key name must be 1-80 characters."
          | Some nm =>
              if bool_decide (80 < String.length (trim nm))%nat
              then invalid "API key name must be 1-80 characters."
              else
                let expires := nullish value "expiresInDays" in
                if bool_decide (expires <> None /\ expires ≫= expiry_choice = None)
                then invalid "API key expiry must be one of 30, 60, 90 days."
                else
                  let identity := nullish value "identityId" in
                  if bool_decide (identity <> None /\ nonblank identity = None)
                  then invalid "API key identityId must be a non-empty string when provided."
                  else inr {| orgId := trim org; name := trim nm;
                              expiresInDays := expires ≫= expiry_choice;
                              identityId := trim <$> nonblank identity |}
          end
      end
  | _ => invalid "API key request must be an object."
  end.

Definition expiryTimestamp (days : option Z) : T (option string) :=
  match days with
  | None => mret None
  | Some d => now ← ask TenantClock; mret (Some (iso_string (now + d * 24 * 60 * 60 * 1000)))
  end.

(** ** Request helpers *)
Definition json_failed {A} (message : string) (status : Z) : T (response + A) :=
  mret (inl (json_error message status)).

Definition db_failed {A} (e : db_error) : T (response + A) := json_failed (error_message e) 500.

Definition requireUser : T AuthenticatedUser := gate requireAuthenticatedUser.

(** Continue unless the step already answered. *)
Definition unless_answered {A} (p : T (response + A)) (k : A -> T response) : T response :=
  r ← p; match r with inl resp => mret resp | inr a => k a end.

(** The organization a platform admin names must exist; a member must see a membership row there.
    Also used by the listing, where [k] is the row's id. *)
Definition resolve_org (platformAdmin : bool) (org user : string) : T (response + unit) :=
  r ← (if platformAdmin then ask (SelectOrgById org) else ask (SelectOwnMembership org user));
  match error r, data r with
  | Some e, _ => db_failed e
  | None, None => json_failed "Organization not found." 404
  | None, Some _ => mret (inr tt)
  end.

Definition only_admins : T (response + unit) :=
  json_failed "Only organization admins can manage API keys." 403.

Definition require_key_manager (platformAdmin : bool) (user org : string) : T (response + unit) :=
  if platformAdmin then mret (inr tt)
  else
    admin ← gate (isOrgAdmin user org);
    if admin : bool then mret (inr tt) else only_admins.

(** ** lib/playground/serving-key.ts: the default identity *)
Definition ORG_IDENTITY_PREFIX : string := "org-".
Definition DEFAULT_IDENTITY_DISPLAY_NAME : string := "Default".
Definition PLAYGROUND_KEY_NAME : string := "Playground session".

Definition ensureOrgDefaultIdentity (org : string) : T string :=
  let identityId := ORG_IDENTITY_PREFIX +:+ org in
  r ← ask (UpsertIdentity identityId org DEFAULT_IDENTITY_DISPLAY_NAME);
  match error r with
  | Some e => raise_error ("Could not provision the org's default gateway identity: " +:+ error_message e)
  | None => mret identityId
  end.

(** [error instanceof Error ? error.message : String(error)]: every error the helper raises is one. *)
Definition app_error_text (e : app_error) : string :=
  match e with
  | AuthRequiredError m => m
  | SsoStepUpRequiredError _ slug => "This organization requires single sign-on: " +:+ slug
  | DataSourceError (DataSourceNotFoundError m) | DataSourceError (DataSourceRequestError m _ _ _) => m
  | DataSourceError (OtherError t) => thrown_message t
  end.

Definition resolveMintIdentity (org : string) (requested : option string) : T (response + string) :=
  match requested with
  | Some identity =>
      r ← ask (SelectIdentity org identity);
      match error r, data r with
      | Some e, _ => db_failed e
      | None, None => json_failed "Identity not found." 404
      | None, Some false => json_failed "Cannot issue a key under a disabled identity." 409
      | None, Some true => mret (inr identity)
      end
  | None =>
      try_catch (id ← ensureOrgDefaultIdentity org; mret (inr id))
        (fun e => json_failed (app_error_text e) 500)
  end.

(** A banned organization gains no key. *)
Definition refuse_banned (org : string) : T (response + unit) :=
  r ← ask (SelectBannedAt org);
  match error r, data r with
  | Some e, _ => db_failed e
  | None, Some (Some _) =>
      json_failed "This organization is banned. New API keys cannot be created." 403
  | None, _ => mret (inr tt)
  end.

Definition audit (platformAdmin : bool) (org user action keyId : string) (after : json) : T unit :=
  recordAuditEvent
    {| audit_org := Some org; actorKind := if platformAdmin then "platform_admin" else "user";
       audit_actor := Some user; audit_action := action; objectType := "api_key";
       objectId := keyId; audit_before := None; audit_after := Some after |}.

Section keys.
(** The SHA-256 hex digest. *)
Variable sha256_hex : string -> string.

Definition mintKeySecret (prefix : string) (prefixLength : nat) : T MintedApiKey :=
  hex ← ask RandomHex;
  let secret := prefix +:+ hex in
  mret {| secret := secret; minted_prefix := str_take prefixLength secret;
          minted_suffix := slice_end KEY_SUFFIX_LENGTH secret; minted_hash := sha256_hex secret |}.

Definition mintApiKeySecret : T MintedApiKey := mintKeySecret API_KEY_SECRET_PREFIX KEY_PREFIX_LENGTH.

Definition key_row (org nm : string) (minted : MintedApiKey) (user : string)
    (identity expires : option string) : KeyRow :=
  {| key_org := org; key_name := nm; key_prefix := minted_prefix minted;
     key_suffix := minted_suffix minted; key_hash := minted_hash minted; key_created_by := user;
     key_identity := identity; key_expires_at := expires |}.

(** *** POST /api/keys *)
Definition mint_key (platformAdmin : bool) (user : string) (payload : CreateApiKeyPayload)
    (identity : string) : T response :=
  minted ← mintApiKeySecret;
  expires ← expiryTimestamp (expiresInDays payload);
  r ← ask (InsertApiKey (key_row (orgId payload) (name payload) minted user (Some identity) expires));
  match error r, data r with
  | Some e, _ => mret (json_error (error_message e) 500)
  | None, None => raise_error "Cannot read properties of null (reading 'id')"
  | None, Some k =>
      _ ← audit platformAdmin (orgId payload) user "keys.mint" (ins_id k)
            (JObj [("name", JStr (ins_name k)); ("key_prefix", JStr (ins_prefix k));
                   ("identity_id", of_nullable (ins_identity k));
                   ("expires_at", of_nullable (ins_expires_at k))]);
      mret (json_response (JObj [("apiKey", ins_row k); ("secret", JStr (secret minted))]))
  end.

Definition POST_handler : T response :=
  user ← requireUser;
  body ← ask RequestBody;
  body ← answered body;
  payload ← answered (parseCreateApiKeyPayload body);
  _ ← gate OrgAccess.createServerSupabaseClient;
  platformAdmin ← gate isPlatformAdmin;
  unless_answered (resolve_org platformAdmin (orgId payload) (user_id user)) (fun _ =>
  unless_answered (require_key_manager platformAdmin (user_id user) (orgId payload)) (fun _ =>
    _ ← createServiceRoleSupabaseClient;
    unless_answered (refuse_banned (orgId payload)) (fun _ =>
    unless_answered (resolveMintIdentity (orgId payload) (identityId payload)) (fun identity =>
      mint_key platformAdmin (user_id user) payload identity)))).

Definition POST : T response := route POST_handler.

(** *** POST /api/keys/:keyId/rotate *)
Definition DEFAULT_OVERLAP_HOURS : number := 24%float.
Definition MIN_OVERLAP_HOURS : number := 1%float.
Definition MAX_OVERLAP_HOURS : number := 72%float.

(** [Math.min] and [Math.max] of finite numbers. *)
Definition min_number (a b : number) : number := if PrimFloat.ltb b a then b else a.
Definition max_number (a b : number) : number := if PrimFloat.ltb a b then b else a.

(** [None] is the route's [null]; a body that does not parse counts as absent. *)
Definition parse_overlap (body : Thrown + json) : option number :=
  match (match body with inl _ => None | inr b => nullish b "overlapHours" end) with
  | None => Some DEFAULT_OVERLAP_HOURS
  | Some (JNum x) =>
      if is_finite x then Some (min_number MAX_OVERLAP_HOURS (max_number MIN_OVERLAP_HOURS x)) else None
  | Some _ => None
  end.

Definition parseOverlapHours : T (option number) := body ← ask RequestBody; mret (parse_overlap body).

(** [new Date(Date.now() + overlapHours * 60 * 60 * 1000).toISOString()]. *)
Definition overlap_end (now : Z) (hours : number) : string :=
  iso_string (default 0 (trunc (number_of_Z now + hours * 60 * 60 * 1000)%float)).

(** The key, through the reader the caller may use. *)
Definition read_key (platformAdmin : bool) (keyId : string) : T (response + StoredKey) :=
  _ ← (if platformAdmin then createServiceRoleSupabaseClient
       else gate OrgAccess.createServerSupabaseClient);
  r ← ask (SelectApiKey platformAdmin keyId);
  match error r, data r with
  | Some e, _ => db_failed e
  | None, None => json_failed ("API key not found: " +:+ keyId) 404
  | None, Some k => mret (inr k)
  end.

(** The replacement could not be paired with an expiry of the old key: revoke it. *)
Definition compensate (user freshId : string) (e : db_error) : T response :=
  now ← ask TenantClock;
  _ ← ask (UpdateKeyRevoked freshId (iso_string now) (Some user));
  mret (json_error (error_message e) 500).

Definition rotate_key (platformAdmin : bool) (user keyId : string) (hours : number)
    (oldKey : StoredKey) : T response :=
  _ ← createServiceRoleSupabaseClient;
  minted ← mintApiKeySecret;
  r ← ask (InsertApiKey (key_row (stored_org oldKey) (stored_name oldKey) minted user
                           (stored_identity oldKey) None));
  match error r, data r with
  | Some e, _ => mret (json_error (error_message e) 500)
  | None, None => mret (json_error "Could not mint the replacement key." 500)
  | None, Some k =>
      now ← ask TenantClock;
      let oldKeyExpiresAt := overlap_end now hours in
      u ← ask (UpdateKeyExpiry keyId (Some oldKeyExpiresAt));
      match error u with
      | Some e => compensate user (ins_id k) e
      | None =>
          _ ← audit platformAdmin (stored_org oldKey) user "keys.rotate" keyId
                (JObj [("replacementKeyId", JStr (ins_id k)); ("oldKeyExpiresAt", JStr oldKeyExpiresAt)]);
          mret (json_response (JObj [("apiKey", ins_row k); ("secret", JStr (secret minted));
                                     ("oldKeyExpiresAt", JStr oldKeyExpiresAt)]))
      end
  end.

Definition rotate_handler (keyId : string) : T response :=
  user ← requireUser;
  hours ← parseOverlapHours;
  match hours with
  | None => mret (json_error "overlapHours must be a number." 400)
  | Some hours =>
      platformAdmin ← gate isPlatformAdmin;
      unless_answered (read_key platformAdmin keyId) (fun oldKey =>
      unless_answered (require_key_manager platformAdmin (user_id user) (stored_org oldKey)) (fun _ =>
        match stored_revoked_at oldKey with
        | Some _ => mret (json_error "API key is already revoked; mint a new key instead of rotating." 409)
        | None => rotate_key platformAdmin (user_id user) keyId hours oldKey
        end))
  end.

Definition rotate (keyId : string) : T response := route (rotate_handler keyId).

(** *** DELETE /api/keys/:keyId *)
Definition no_content : response := Response 204 JNull.

Definition DELETE_handler (keyId : string) : T response :=
  user ← requireUser;
  platformAdmin ← gate isPlatformAdmin;
  unless_answered (read_key platformAdmin keyId) (fun apiKey =>
  unless_answered (require_key_manager platformAdmin (user_id user) (stored_org apiKey)) (fun _ =>
    match stored_revoked_at apiKey with
    | Some _ => mret (json_error "API key is already revoked." 409)
    | None =>
        _ ← createServiceRoleSupabaseClient;
        now ← ask TenantClock;
        let revokedAt := iso_string now in
        r ← ask (UpdateKeyRevoked keyId revokedAt (Some (user_id user)));
        match error r with
        | Some e => mret (json_error (error_message e) 500)
        | None =>
            _ ← audit platformAdmin (stored_org apiKey) (user_id user) "keys.revoke" keyId
                  (JObj [("revoked_at", JStr revokedAt)]);
            mret no_content
        end
    end)).

Definition DELETE (keyId : string) : T response := route (DELETE_handler keyId).

(** *** lib/playground/serving-key.ts: one exchange's key *)
Record PlaygroundServingKey := { serving_secret : string; serving_key_id : string }.

Definition mintPlaygroundServingKey (org user : string) : T PlaygroundServingKey :=
  _ ← createServiceRoleSupabaseClient;
  ban ← ask (SelectBannedAt org);
  match error ban, data ban with
  | Some e, _ => raise_error ("Could not check the organization's ban state: " +:+ error_message e)
  | None, Some (Some _) => raise_error "This organization is banned. The playground cannot serve it."
  | None, _ =>
      identity ← ensureOrgDefaultIdentity org;
      minted ← mintApiKeySecret;
      r ← ask (InsertApiKey (key_row org PLAYGROUND_KEY_NAME minted user (Some identity) None));
      match error r, data r with
      | None, Some k => mret {| serving_secret := secret minted; serving_key_id := ins_id k |}
      | e, _ => raise_error ("Could not provision a playground serving key: " +:+
                  match e with Some e => error_message e | None => "no row returned" end)
      end
  end.

(** [revoke()], given whether it ran before; the key's [revoked_by] stays unset. *)
Definition revoke (k : PlaygroundServingKey) (revoked : bool) : T bool :=
  if revoked then mret true
  else now ← ask TenantClock;
       _ ← ask (UpdateKeyRevoked (serving_key_id k) (iso_string now) None);
       mret true.
End keys.

(** ** lib/api-keys/queries.ts and GET /api/keys *)
Definition API_KEYS_PAGE_SIZE : Z := 10.

Record ApiKeysPage := { keys : list json; page : Z; pageCount : Z; total : Z }.

(** The page shown of [total] keys, and how many pages there are; [None] is [NaN]. *)
Definition clamp_page (requested : option Z) (total : Z) : Z * Z :=
  let pageCount := Z.max 1 ((total + API_KEYS_PAGE_SIZE - 1) / API_KEYS_PAGE_SIZE) in
  (Z.min (Z.max (default 1 requested) 1) pageCount, pageCount).

Definition listOrgApiKeys (scope : KeyScope) (requested : option Z) : T ApiKeysPage :=
  c ← ask (CountApiKeys scope);
  match error c with
  | Some e => raise_error ("Unable to count API keys: " +:+ error_message e)
  | None =>
      let total := default 0 (data c) in
      let '(page, pageCount) := clamp_page requested total in
      r ← ask (SelectApiKeys scope ((page - 1) * API_KEYS_PAGE_SIZE) (page * API_KEYS_PAGE_SIZE - 1));
      match error r with
      | Some e => raise_error ("Unable to list API keys: " +:+ error_message e)
      | None => mret {| keys := default [] (data r); page := page; pageCount := pageCount; total := total |}
      end
  end.

Definition page_json (p : ApiKeysPage) : json :=
  JObj [("keys", JArr (keys p)); ("page", JNum (number_of_Z (page p)));
        ("pageCount", JNum (number_of_Z (pageCount p))); ("total", JNum (number_of_Z (total p)))].

Definition list_scope (org : string) (q : params) : KeyScope :=
  {| scope_org := org; scope_identity := present (params_get q "identityId");
     scope_revoked := bool_decide (params_get q "revoked" = Some "1") |}.

Definition GET_handler (q : params) : T response :=
  user ← requireUser;
  match present (params_get q "orgId") with
  | None => mret (json_error "orgId is required." 400)
  | Some org =>
      _ ← gate OrgAccess.createServerSupabaseClient;
      platformAdmin ← gate isPlatformAdmin;
      unless_answered (resolve_org platformAdmin org (user_id user)) (fun _ =>
        _ ← (if platformAdmin then createServiceRoleSupabaseClient else mret tt);
        p ← listOrgApiKeys (list_scope org q) (parse_int (default "1" (params_get q "page")));
        mret (json_response (page_json p)))
  end.

Definition GET (q : params) : T response := route (GET_handler q).

(** ** What the events say *)
Implicit Types (tr : list (event tenant_effects)) (u : AuthenticatedUser).

(** The caller may manage the organization's keys: a platform admin, or an admin of the organization
    as the access gate grants it. *)
Definition manages tr u (org : string) : Prop :=
  operates tr u \/ exists id, granted (gate_events tr) org RoleAdmin id.

Definition org_seen tr u (org : string) : Prop :=
  exists r row, (SelectOrgById org ↣ r ∈ tr \/ SelectOwnMembership org (user_id u) ↣ r ∈ tr) /\
    error r = None /\ data r = Some row.

Definition not_banned tr (org : string) : Prop :=
  exists r, SelectBannedAt org ↣ r ∈ tr /\ error r = None /\ forall at_, data r <> Some (Some at_).

Definition identity_ready tr (org : string) (requested : option string) (identity : string) : Prop :=
  match requested with
  | Some i => identity = i /\
      exists r, SelectIdentity org i ↣ r ∈ tr /\ error r = None /\ data r = Some true
  | None => identity = ORG_IDENTITY_PREFIX +:+ org /\
      exists r, UpsertIdentity identity org DEFAULT_IDENTITY_DISPLAY_NAME ↣ r ∈ tr /\ error r = None
  end.

Definition expiry_of tr (days : option Z) (expires : option string) : Prop :=
  match days with
  | None => expires = None
  | Some d => exists now, TenantClock ↣ now ∈ tr /\ expires = Some (iso_string (now + d * 24 * 60 * 60 * 1000))
  end.

Definition is_insert (e : event tenant_effects) : bool :=
  match e with Ev (InsertApiKey _) _ => true | _ => false end.

(** No key was inserted yet. *)
Definition unminted tr : Prop := forall e, e ∈ tr -> is_insert e = false.

Definition stored tr (row : KeyRow) (k : InsertedKey) : Prop :=
  exists r, InsertApiKey row ↣ r ∈ tr /\ error r = None /\ data r = Some k.

Section key_facts.
Variable sha256_hex : string -> string.

Definition minted_from (hex : string) : MintedApiKey :=
  let secret := API_KEY_SECRET_PREFIX +:+ hex in
  {| secret := secret; minted_prefix := str_take KEY_PREFIX_LENGTH secret;
     minted_suffix := slice_end KEY_SUFFIX_LENGTH secret; minted_hash := sha256_hex secret |}.

(** What minting may do: read; ensure the default identity; insert one key, for a signed-in user who
    manages the unbanned organization of the parsed request, under an identity that is ready there,
    with the digest of a fresh secret; and record what was inserted. *)
Definition mint_licensed tr (c : cmd tenant_effects) : Prop :=
  match c with
  | Gate c => cache_licensed (gate_events tr) c
  | InsertApiKey row =>
      unminted tr /\ exists u body payload identity hex expires,
        signed_in tr u /\ RequestBody ↣ inr body ∈ tr /\
        parseCreateApiKeyPayload body = inr payload /\ org_seen tr u (orgId payload) /\
        manages tr u (orgId payload) /\ not_banned tr (orgId payload) /\
        identity_ready tr (orgId payload) (identityId payload) identity /\
        RandomHex ↣ hex ∈ tr /\ expiry_of tr (expiresInDays payload) expires /\
        row = key_row (orgId payload) (name payload) (minted_from hex) (user_id u) (Some identity) expires
  | UpsertIdentity identity org _ => identity = ORG_IDENTITY_PREFIX +:+ org /\ unminted tr
  | RpcRecordAudit e =>
      audit_action e = "keys.mint" /\ exists row k, stored tr row k /\ audit_org e = Some (key_org row) /\
        objectId e = ins_id k
  | c => writes c = false
  end.

(** The response discloses the secret exactly when its digest was stored. *)
Definition disclosed tr (resp : response) : Prop :=
  exists hex row k, RandomHex ↣ hex ∈ tr /\ stored tr row k /\
    key_hash row = sha256_hex (API_KEY_SECRET_PREFIX +:+ hex) /\ resp_status resp = 200 /\
    jget (resp_body resp) "secret" = Some (JStr (API_KEY_SECRET_PREFIX +:+ hex)).

Definition withheld tr (resp : response) : Prop :=
  (forall row k, ~ stored tr row k) /\ jget (resp_body resp) "secret" = None.

(** The handler, before its own [catch]. *)
Definition mint_handled tr (o : outcome app_error response) : Prop :=
  match o with Done resp => disclosed tr resp \/ withheld tr resp | Raised _ => forall row k, ~ stored tr row k end.

Definition mint_outcome tr (o : outcome app_error response) : Prop :=
  match o with Done resp => disclosed tr resp \/ withheld tr resp | Raised _ => False end.

(** ** Lemmas *)
Definition on_coherent {X} (P : list (event tenant_effects) -> X -> Prop) tr (x : X) : Prop :=
  coherent tenant_reads tr -> P tr x.

Lemma mint_gate tr c : cache_licensed (gate_events tr) c -> on_coherent mint_licensed tr (Gate c).
Proof. by intros H _. Qed.

Lemma unminted_stored tr row k : unminted tr -> ~ stored tr row k.
Proof. intros H (r & Hr & _). by specialize (H _ Hr). Qed.

Lemma reads_unminted tr : Forall reads tr -> unminted tr.
Proof.
  intros H e He. rewrite Forall_forall in H. specialize (H e He). by destruct e as [[] ?].
Qed.

Lemma unminted_grown tr tr' : grown tr tr' -> unminted tr -> unminted tr'.
Proof.
  intros (q & -> & Hq) H e [He|He]%elem_of_app; [auto|]. by apply (reads_unminted q).
Qed.

Lemma unminted_snoc tr e : unminted tr -> is_insert e = false -> unminted (tr ++ [e]).
Proof. intros H He e' [?| ->%list_elem_of_singleton]%elem_of_app; auto. Qed.

(** An early answer: no secret. *)
Definition no_secret (resp : response) : Prop := jget (resp_body resp) "secret" = None.

Section request_steps.
Variable I : list (event tenant_effects) -> cmd tenant_effects -> Prop.
Hypothesis I_gate : forall tr c, cache_licensed (gate_events tr) c -> I tr (Gate c).
Hypothesis I_reads : forall tr c,
  match c with Gate _ => False | _ => writes c = false end -> I tr c.

Lemma resolve_step tr platformAdmin org u :
  spec I (fun tr' o => grown tr tr' /\ match o with
      | Done (inl resp) => no_secret resp | Done (inr _) => org_seen tr' u org | Raised _ => True end)
    tr (resolve_org platformAdmin org (user_id u)).
Proof.
  unfold resolve_org, db_failed, json_failed. exec; try (by apply I_reads).
  all: split; [grown|try done]. all: eexists _, _; split; [|by eauto].
  - left. in_trace.
  - right. in_trace.
Qed.

Lemma manager_step tr platformAdmin user org :
  spec I (fun tr' o => grown tr tr' /\ match o with
      | Done (inl resp) => no_secret resp
      | Done (inr _) => platformAdmin = true \/
          (coherent tenant_reads tr' -> exists id, granted (gate_events tr') org RoleAdmin id)
      | Raised _ => True end)
    tr (require_key_manager platformAdmin user org).
Proof.
  unfold require_key_manager. destruct platformAdmin; [exec_cbn; split; [grown|by left]|].
  apply spec_bind. eapply spec_post; [by apply org_admin_step|].
  intros tr' [[|]|e] [Hg H]; exec_cbn; (split; [done|]); [|done..]. right. auto.
Qed.

Lemma banned_step tr org :
  spec I (fun tr' o => grown tr tr' /\ match o with
      | Done (inl resp) => no_secret resp | Done (inr _) => not_banned tr' org | Raised _ => True end)
    tr (refuse_banned org).
Proof.
  unfold refuse_banned, db_failed, json_failed. exec; try (by apply I_reads).
  all: split; [grown|try done]. all: eexists _; split; [in_trace|]; split; [done|congruence].
Qed.

Lemma read_key_step tr platformAdmin keyId :
  spec I (fun tr' o => grown tr tr' /\ match o with
      | Done (inl resp) => no_secret resp
      | Done (inr k) => exists r, SelectApiKey platformAdmin keyId ↣ r ∈ tr' /\ error r = None /\ data r = Some k
      | Raised _ => True end)
    tr (read_key platformAdmin keyId).
Proof.
  unfold read_key. apply spec_bind.
  assert (spec I (fun tr' o => grown tr tr') tr
    (if platformAdmin then createServiceRoleSupabaseClient
     else gate OrgAccess.createServerSupabaseClient)) as H.
  { destruct platformAdmin; [|by apply client_step]. apply service_step. intros; by apply I_reads. }
  eapply spec_post; [exact H|]. intros tr1 [[]|e] Hg; [|done]. unfold db_failed, json_failed.
  exec; try (by apply I_reads). all: split; [grown|try done].
  eexists. split; [in_trace|done].
Qed.

(** Until a key is inserted a route may end in any way that discloses no secret. *)
Variable Q : list (event tenant_effects) -> outcome app_error response -> Prop.
Hypothesis Q_early : forall tr resp, unminted tr -> no_secret resp -> Q tr (Done resp).
Hypothesis Q_raised : forall tr e, unminted tr -> Q tr (Raised e).

(** A reading step, with what it establishes; and one that may answer early. *)
Lemma chain_bind {A} (R : list (event tenant_effects) -> A -> Prop) tr (p : T A) k :
  unminted tr ->
  spec I (fun tr' o => grown tr tr' /\ match o with Done a => R tr' a | Raised _ => True end) tr p ->
  (forall tr' a, grown tr tr' -> unminted tr' -> R tr' a -> spec I Q tr' (k a)) ->
  spec I Q tr (mbind k p).
Proof.
  intros Hun Hp Hk. apply spec_bind. eapply spec_post; [exact Hp|].
  intros tr' [a|e] [Hg H]; pose proof (unminted_grown _ _ Hg Hun); [by apply Hk|by apply Q_raised].
Qed.

Lemma chain_unless {A} (R : list (event tenant_effects) -> A -> Prop) tr (p : T (response + A)) k :
  unminted tr ->
  spec I (fun tr' o => grown tr tr' /\ match o with
    | Done (inl resp) => no_secret resp | Done (inr a) => R tr' a | Raised _ => True end) tr p ->
  (forall tr' a, grown tr tr' -> unminted tr' -> R tr' a -> spec I Q tr' (k a)) ->
  spec I Q tr (unless_answered p k).
Proof.
  intros Hun Hp Hk. unfold unless_answered.
  eapply chain_bind with (R := fun tr' r => match r with inl resp => no_secret resp | inr a => R tr' a end);
    [done| |].
  - eapply spec_post; [exact Hp|]. by intros tr' [[resp|a]|e].
  - intros tr' [resp|a] Hg Hun' H; [by apply Q_early|by apply Hk].
Qed.
End request_steps.

Lemma identity_step tr org requested :
  unminted tr ->
  spec (on_coherent mint_licensed) (fun tr' o => tr ⊆ tr' /\ unminted tr' /\ match o with
      | Done (inl resp) => no_secret resp
      | Done (inr identity) => identity_ready tr' org requested identity
      | Raised _ => False end)
    tr (resolveMintIdentity org requested).
Proof.
  intros Hun. unfold resolveMintIdentity, ensureOrgDefaultIdentity, raise_error, raise_thrown,
    db_failed, json_failed.
  exec; try (by intros _). all: split; [intros e He; apply elem_of_app; by left|].
  all: split; [by apply unminted_snoc|]; try done.
  - split; [done|]. eexists. split; [in_trace|done].
  - split; [done|]. eexists. split; [in_trace|done].
Qed.

(** Everything the insert needs but its fresh secret and expiry. *)
Definition mint_ready tr u (payload : CreateApiKeyPayload) (identity : string) : Prop :=
  unminted tr /\ signed_in tr u /\ (exists body, RequestBody ↣ inr body ∈ tr /\
    parseCreateApiKeyPayload body = inr payload) /\ org_seen tr u (orgId payload) /\
  manages tr u (orgId payload) /\ not_banned tr (orgId payload) /\
  identity_ready tr (orgId payload) (identityId payload) identity.

Lemma org_seen_mono tr tr' u org : tr ⊆ tr' -> org_seen tr u org -> org_seen tr' u org.
Proof. intros Hg (r & row & Hr & ?). exists r, row. split; [|done]. destruct Hr; [left|right]; auto. Qed.

Lemma not_banned_mono tr tr' org : tr ⊆ tr' -> not_banned tr org -> not_banned tr' org.
Proof. intros Hg (r & ? & ?). exists r. auto. Qed.

Lemma identity_ready_mono tr tr' org requested identity :
  tr ⊆ tr' -> identity_ready tr org requested identity -> identity_ready tr' org requested identity.
Proof.
  intros Hg. destruct requested; intros (? & r & ? & ?); (split; [done|]); exists r; auto.
Qed.

Lemma manages_mono tr tr' u org : tr ⊆ tr' -> manages tr u org -> manages tr' u org.
Proof.
  intros Hg [H|(id & H)]; [left; by eapply operates_mono|right]. exists id. by eapply granted_mono.
Qed.

(** What the two admin checks of a route amount to, seen at its end. *)
Lemma managed tr1 tr2 tr u org platformAdmin :
  (platformAdmin = true -> exists u', signed_in tr1 u' /\ operates tr1 u') ->
  (platformAdmin = true \/
   (coherent tenant_reads tr2 -> exists id, granted (gate_events tr2) org RoleAdmin id)) ->
  tr1 ⊆ tr -> tr2 ⊆ tr -> signed_in tr u -> coherent tenant_reads tr -> manages tr u org.
Proof.
  intros Hadmin [->|Hgr] H1 H2 Hu Hco.
  - destruct (Hadmin eq_refl) as (u' & Hu' & Hop). left.
    assert (u' = u) as -> by (apply (signed_in_unique tr); [done|by apply (signed_in_mono tr1)|done]).
    by apply (operates_mono tr1).
  - destruct Hgr as (id & Hgr); [by apply (coherent_mono _ tr)|]. right. exists id.
    by apply (granted_mono tr2).
Qed.

Lemma mint_ready_grown tr tr' u payload identity :
  grown tr tr' -> mint_ready tr u payload identity -> mint_ready tr' u payload identity.
Proof.
  intros Hg (? & ? & (body & ? & ?) & ? & ? & ? & ?). pose proof (grown_subset _ _ Hg) as Hs.
  split; [by eapply unminted_grown|]. split; [by eapply signed_in_mono|].
  split; [exists body; auto|]. split; [by eapply org_seen_mono|]. split; [by eapply manages_mono|].
  split; [by eapply not_banned_mono|by eapply identity_ready_mono].
Qed.

(** Only an insert that returned its row stores one. *)
Lemma not_stored tr row r :
  unminted tr -> (forall k, error r = None -> data r <> Some k) ->
  forall row' k, ~ stored (tr ++ [@Ev tenant_effects (InsertApiKey row) r]) row' k.
Proof.
  intros Hun Hr row' k (r' & [Hin|Hin%list_elem_of_singleton]%elem_of_app & He & Hd).
  - by specialize (Hun _ Hin).
  - pose proof (Ev_cmd _ _ _ _ Hin) as [=->]. apply Ev_inj in Hin as ->. by eapply Hr.
Qed.

(** The insert itself, once the secret and the expiry are drawn. *)
Lemma insert_spec tr platformAdmin u payload identity hex expires :
  (coherent tenant_reads tr -> mint_ready tr u payload identity) -> unminted tr ->
  RandomHex ↣ hex ∈ tr -> expiry_of tr (expiresInDays payload) expires ->
  spec (on_coherent mint_licensed) (on_coherent mint_handled) tr
    (r ← ask (InsertApiKey (key_row (orgId payload) (name payload) (minted_from hex) (user_id u)
                              (Some identity) expires));
     match error r, data r with
     | Some e, _ => mret (json_error (error_message e) 500)
     | None, None => raise_error "Cannot read properties of null (reading 'id')"
     | None, Some k =>
         _ ← audit platformAdmin (orgId payload) (user_id u) "keys.mint" (ins_id k)
               (JObj [("name", JStr (ins_name k)); ("key_prefix", JStr (ins_prefix k));
                      ("identity_id", of_nullable (ins_identity k));
                      ("expires_at", of_nullable (ins_expires_at k))]);
         mret (json_response (JObj [("apiKey", ins_row k); ("secret", JStr (secret (minted_from hex)))]))
     end).
Proof.
  intros Hready Hun Hhex Hexp. unfold audit, recordAuditEvent, raise_error, raise_thrown, answered.
  pose proof (fun row r => not_stored tr row r Hun) as Hnot.
  exec.
  - intros Hco. destruct (Hready Hco) as (? & ? & (body & ? & ?) & ? & ? & ? & ?). split; [done|].
    exists u, body, payload, identity, hex, expires. repeat (split; [done|]). done.
  - intros _. right. split; [|done]. apply Hnot. congruence.
  - intros _. split; [done|]. eexists _, i. split; [exists x; split; [in_trace|done]|done].
  - intros _. left. eexists hex, _, i. split; [in_trace|].
    split; [exists x; split; [in_trace|done]|done].
  - intros _. left. eexists hex, _, i. split; [in_trace|].
    split; [exists x; split; [in_trace|done]|done].
  - intros _ row k. apply Hnot. congruence.
Qed.

Lemma mint_key_spec tr platformAdmin u payload identity :
  (coherent tenant_reads tr -> mint_ready tr u payload identity) -> unminted tr ->
  spec (on_coherent mint_licensed) (on_coherent mint_handled) tr
    (mint_key sha256_hex platformAdmin (user_id u) payload identity).
Proof.
  intros Hready Hun. unfold mint_key, mintApiKeySecret, mintKeySecret. exec_cbn. split; [by intros _|].
  intros hex. set (tr1 := tr ++ [@Ev tenant_effects RandomHex hex]).
  assert (grown tr tr1) as Hg1 by grown.
  assert (forall tr', grown tr1 tr' -> coherent tenant_reads tr' -> mint_ready tr' u payload identity) as Hr.
  { intros tr' Hg Hco. assert (grown tr tr') as Hg' by (by eapply grown_trans).
    apply (mint_ready_grown tr); [done|]. apply Hready.
    eapply coherent_mono; [|exact Hco]. by apply grown_subset. }
  assert (unminted tr1) as Hun1 by (by eapply unminted_grown).
  assert (RandomHex ↣ hex ∈ tr1) as Hhex by in_trace. clearbody tr1.
  unfold expiryTimestamp. destruct (expiresInDays payload) as [d|] eqn:Hd; exec_cbn.
  - split; [by intros _|]. intros now. apply insert_spec.
    + apply Hr. grown.
    + eapply unminted_grown; [|exact Hun1]. grown.
    + apply elem_of_app. by left.
    + rewrite Hd. exists now. split; [in_trace|done].
  - apply insert_spec; [apply Hr, grown_refl|done|done|by rewrite Hd].
Qed.

Lemma withheld_early tr resp : unminted tr -> no_secret resp -> on_coherent mint_handled tr (Done resp).
Proof. intros Hun Hr _. right. split; [|done]. intros row k. by apply unminted_stored. Qed.

Lemma raised_early tr e : unminted tr -> on_coherent mint_handled tr (Raised e).
Proof. intros Hun _ row k. by apply unminted_stored. Qed.

Lemma mint_reads tr c :
  match c with Gate _ => False | _ => writes c = false end -> on_coherent mint_licensed tr c.
Proof. intros H _. by destruct c. Qed.

Lemma parsed_step tr v :
  spec (on_coherent mint_licensed) (fun tr' o => grown tr tr' /\
    match o with Done payload => v = inr payload | Raised _ => True end) tr
    (answered v : T CreateApiKeyPayload).
Proof. destruct v; exec_cbn; (split; [grown|done]). Qed.

Lemma body_step tr :
  spec (on_coherent mint_licensed) (fun tr' o => grown tr tr' /\
    match o with Done r => RequestBody ↣ r ∈ tr' | Raised _ => True end) tr (ask RequestBody).
Proof. exec_cbn. split; [by intros _|]. intros r. split; [grown|in_trace]. Qed.

Lemma answered_body_step tr (r : Thrown + json) :
  spec (on_coherent mint_licensed) (fun tr' o => grown tr tr' /\
    match o with Done body => r = inr body | Raised _ => True end) tr (answered r : T json).
Proof. destruct r; exec_cbn; (split; [grown|done]). Qed.

(** From the parsed request on. *)
Lemma POST_parsed tr u body payload :
  unminted tr -> signed_in tr u -> RequestBody ↣ inr body ∈ tr ->
  parseCreateApiKeyPayload body = inr payload ->
  spec (on_coherent mint_licensed) (on_coherent mint_handled) tr
    (_ ← gate OrgAccess.createServerSupabaseClient;
     platformAdmin ← gate isPlatformAdmin;
     unless_answered (resolve_org platformAdmin (orgId payload) (user_id u)) (fun _ =>
     unless_answered (require_key_manager platformAdmin (user_id u) (orgId payload)) (fun _ =>
       _ ← createServiceRoleSupabaseClient;
       unless_answered (refuse_banned (orgId payload)) (fun _ =>
       unless_answered (resolveMintIdentity (orgId payload) (identityId payload)) (fun identity =>
         mint_key sha256_hex platformAdmin (user_id u) payload identity))))).
Proof.
  intros Hun0 Hu Hbody Hp.
  eapply chain_bind with (R := fun _ _ => True); [apply raised_early|done| |].
  { eapply spec_post; [apply client_step, mint_gate|]. by intros tr' []. }
  intros tr1 _ Hg1 Hun1 _.
  eapply chain_bind with (R := fun tr' b => b = true -> exists u', signed_in tr' u' /\ operates tr' u'); [apply raised_early|done| |].
  { eapply spec_post; [apply platform_step, mint_gate|]. intros tr' [b|e] [? H]; [|done].
    split; [done|]. intros ->. by apply H. }
  intros tr2 platformAdmin Hg2 Hun2 Hadmin.
  eapply chain_unless with (R := fun tr' _ => org_seen tr' u (orgId payload)); [apply withheld_early|apply raised_early|done|apply resolve_step, mint_reads|].
  intros tr3 _ Hg3 Hun3 Hseen.
  eapply chain_unless; [apply withheld_early|apply raised_early|done|apply manager_step, mint_gate|]. intros tr4 [] Hg4 Hun4 Hmanager.
  eapply chain_bind with (R := fun _ _ => True); [apply raised_early|done| |].
  { eapply spec_post; [apply service_step; by intros ? _|]. by intros tr' []. }
  intros tr5 _ Hg5 Hun5 _.
  eapply chain_unless; [apply withheld_early|apply raised_early|done|apply banned_step, mint_reads|]. intros tr6 [] Hg6 Hun6 Hban.
  unfold unless_answered at 1. apply spec_bind. eapply spec_post; [by apply identity_step|].
  intros tr7 [[resp|identity]|e] (Hg7 & Hun7 & H7); [by apply withheld_early| |done].
  apply mint_key_spec; [|done]. intros Hco.
  assert (grown tr tr6) as Hg06 by (repeat (eapply grown_trans; [eassumption|]); apply grown_refl).
  assert (tr ⊆ tr7) as Hs by (etrans; [apply (grown_subset _ _ Hg06)|done]).
  assert (tr4 ⊆ tr7) as Hs4 by (etrans; [apply (grown_subset _ _ (grown_trans _ _ _ Hg5 Hg6))|done]).
  assert (tr3 ⊆ tr7) as Hs3 by (etrans; [apply (grown_subset _ _ Hg4)|done]).
  assert (tr2 ⊆ tr7) as Hs2 by (etrans; [apply (grown_subset _ _ Hg3)|done]).
  assert (signed_in tr7 u) as Hu7 by (by apply (signed_in_mono tr)).
  split; [done|]. split; [done|]. split; [exists body; auto|].
  split; [by apply (org_seen_mono tr3)|]. split; [|split; [by apply (not_banned_mono tr6)|done]].
  by apply (managed tr2 tr4 _ _ _ platformAdmin).
Qed.

Lemma POST_spec :
  spec (on_coherent mint_licensed) (on_coherent mint_handled) [] (POST_handler sha256_hex).
Proof.
  assert (unminted []) as Hnil by (intros e He; by apply elem_of_nil in He).
  unfold POST_handler, requireUser.
  eapply chain_bind with (R := fun tr' u => signed_in tr' u); [apply raised_early|done| |].
  { eapply spec_post; [apply user_step, mint_gate|]. by intros tr' []. }
  intros tr1 u Hg1 Hun1 Hu. eapply chain_bind; [apply raised_early|done|apply body_step|].
  intros tr2 r Hg2 Hun2 Hr. eapply chain_bind; [apply raised_early|done|apply answered_body_step|].
  intros tr3 body Hg3 Hun3 ->. eapply chain_bind; [apply raised_early|done|apply parsed_step|].
  intros tr4 payload Hg4 Hun4 Hp. eapply POST_parsed; [done| | |exact Hp].
  - eapply signed_in_mono; [|exact Hu]. apply grown_subset.
    do 2 (eapply grown_trans; [eassumption|]). done.
  - apply (grown_subset tr2); [|done]. by eapply grown_trans.
Qed.

Section same_events.
Context (tr tr' : list (event tenant_effects)) (Hsame : forall e, e ∈ tr <-> e ∈ tr').

Lemma mint_licensed_same c : mint_licensed tr c -> mint_licensed tr' c.
Proof.
  assert (tr ⊆ tr') as Hg by (intros e; apply Hsame).
  assert (unminted tr -> unminted tr') as Hun by (intros H e He; by apply H, Hsame).
  destruct c; simpl; auto.
  - apply cache_licensed_same. by apply gate_events_same.
  - intros [? (row & k & (r & ? & ?) & ?)]. split; [done|]. exists row, k.
    split; [exists r; auto|done].
  - intros [? ?]. auto.
  - intros (? & u & body & payload & identity & hex & expires & ? & ? & ? & ? & ? & ? & ? & ? & Hexp & ?).
    split; [auto|]. exists u, body, payload, identity, hex, expires.
    split; [by eapply signed_in_mono|]. split; [auto|]. split; [done|].
    split; [by eapply org_seen_mono|]. split; [by eapply manages_mono|].
    split; [by eapply not_banned_mono|]. split; [by eapply identity_ready_mono|].
    split; [auto|]. split; [|done]. unfold expiry_of in *. destruct (expiresInDays payload); [|done].
    destruct Hexp as (now & ? & ?). exists now. auto.
Qed.

Lemma mint_outcome_same o : mint_outcome tr o -> mint_outcome tr' o.
Proof.
  assert (tr ⊆ tr') as Hg by (intros e; apply Hsame). assert (tr' ⊆ tr) as Hg' by (intros e; apply Hsame).
  destruct o as [resp|]; simpl; [|done].
  intros [(hex & row & k & ? & (r & ? & ?) & ?)|[Hno ?]]; [left|right].
  - exists hex, row, k. split; [auto|]. split; [exists r; auto|done].
  - split; [|done]. intros row k (r & ? & ?). apply (Hno row k). exists r. auto.
Qed.
End same_events.

(** *** Rotation *)
Definition key_read tr (keyId : string) (old : StoredKey) : Prop :=
  exists platformAdmin r, SelectApiKey platformAdmin keyId ↣ r ∈ tr /\ error r = None /\ data r = Some old.

Definition expiry_failed tr (keyId : string) : Prop :=
  exists t r, UpdateKeyExpiry keyId t ↣ r ∈ tr /\ error r <> None.

(** What rotating [keyId] may do: insert one replacement like the live key that was read, for someone
    who manages its organization; then set that key's expiry, one to seventy-two hours ahead; revoke
    only the replacement, and only when that failed; and record the rotation. *)
Definition rotate_licensed (keyId : string) tr (c : cmd tenant_effects) : Prop :=
  match c with
  | Gate c => cache_licensed (gate_events tr) c
  | InsertApiKey row =>
      unminted tr /\ exists u old hex,
        signed_in tr u /\ key_read tr keyId old /\ stored_revoked_at old = None /\
        manages tr u (stored_org old) /\ RandomHex ↣ hex ∈ tr /\
        row = key_row (stored_org old) (stored_name old) (minted_from hex) (user_id u)
                (stored_identity old) None
  | UpdateKeyExpiry id t =>
      id = keyId /\ (exists row k, stored tr row k) /\
      exists now hours, TenantClock ↣ now ∈ tr /\ t = Some (overlap_end now hours) /\
        PrimFloat.leb 1 hours = true /\ PrimFloat.leb hours 72 = true
  | UpdateKeyRevoked id _ by_ =>
      expiry_failed tr keyId /\ (exists row k, stored tr row k /\ id = ins_id k) /\
      exists u, signed_in tr u /\ by_ = Some (user_id u)
  | RpcRecordAudit e => audit_action e = "keys.rotate" /\ objectId e = keyId /\ exists row k, stored tr row k
  | c => writes c = false
  end.

(** The replacement was stored but the old key kept its expiry: the replacement is revoked again. *)
Definition compensated tr (keyId : string) (resp : response) : Prop :=
  no_secret resp /\ resp_status resp = 500 /\ expiry_failed tr keyId /\
  exists row k t by_ r, stored tr row k /\ UpdateKeyRevoked (ins_id k) t by_ ↣ r ∈ tr.

Definition rotate_outcome (keyId : string) tr (o : outcome app_error response) : Prop :=
  match o with
  | Done resp =>
      withheld tr resp \/ compensated tr keyId resp \/
      disclosed tr resp /\ exists t r, UpdateKeyExpiry keyId (Some t) ↣ r ∈ tr /\ error r = None /\
        jget (resp_body resp) "oldKeyExpiresAt" = Some (JStr t)
  | Raised _ => False
  end.

Definition rotate_handled (keyId : string) tr (o : outcome app_error response) : Prop :=
  match o with Raised _ => forall row k, ~ stored tr row k | _ => rotate_outcome keyId tr o end.

(** The parsed window is between one and seventy-two hours. *)
Lemma overlap_bounds body hours :
  parse_overlap body = Some hours ->
  PrimFloat.leb 1 hours = true /\ PrimFloat.leb hours 72 = true.
Proof.
  unfold parse_overlap. destruct (match body with inl _ => None | inr b => nullish b "overlapHours" end)
    as [[| |x| | |]|]; try done; [|by intros [=<-]].
  destruct (is_finite x); [|done]. intros [=<-]. unfold min_number, max_number.
  destruct (PrimFloat.ltb MIN_OVERLAP_HOURS x) eqn:H1; [|done].
  destruct (PrimFloat.ltb x MAX_OVERLAP_HOURS) eqn:H2; [|done]. by split; apply ltb_leb.
Qed.

Lemma rotate_gate keyId tr c : cache_licensed (gate_events tr) c -> on_coherent (rotate_licensed keyId) tr (Gate c).
Proof. by intros H _. Qed.

Lemma rotate_reads keyId tr c :
  match c with Gate _ => False | _ => writes c = false end -> on_coherent (rotate_licensed keyId) tr c.
Proof. intros H _. by destruct c. Qed.

Lemma rotate_early keyId tr resp :
  unminted tr -> no_secret resp -> on_coherent (rotate_handled keyId) tr (Done resp).
Proof. intros Hun Hr _. left. split; [|done]. intros row k. by apply unminted_stored. Qed.

Lemma rotate_raised keyId tr e : unminted tr -> on_coherent (rotate_handled keyId) tr (Raised e).
Proof. intros Hun _ row k. by apply unminted_stored. Qed.

Definition rotate_ready tr u (keyId : string) (old : StoredKey) : Prop :=
  signed_in tr u /\ key_read tr keyId old /\ stored_revoked_at old = None /\ manages tr u (stored_org old).

Lemma rotate_ready_mono tr tr' u keyId old :
  tr ⊆ tr' -> rotate_ready tr u keyId old -> rotate_ready tr' u keyId old.
Proof.
  intros Hg (? & (b & r & ? & ?) & ? & ?). split; [by eapply signed_in_mono|].
  split; [exists b, r; auto|]. split; [done|by eapply manages_mono].
Qed.

Lemma stored_mono tr tr' row k : tr ⊆ tr' -> stored tr row k -> stored tr' row k.
Proof. intros Hg (r & ? & ?). exists r. auto. Qed.

Lemma compensate_spec tr keyId u row k e :
  signed_in tr u -> stored tr row k -> expiry_failed tr keyId ->
  spec (on_coherent (rotate_licensed keyId)) (on_coherent (rotate_handled keyId)) tr
    (compensate (user_id u) (ins_id k) e).
Proof.
  intros Hu Hs Hf. unfold compensate. exec.
  - by intros _.
  - intros _. assert (tr ⊆ tr ++ [@Ev tenant_effects TenantClock x]) as Hg
      by (intros ? ?; apply elem_of_app; by left).
    destruct Hf as (t & r & ? & ?). split; [exists t, r; auto|].
    split; [exists row, k; split; [by eapply stored_mono|done]|].
    exists u. split; [by eapply signed_in_mono|done].
  - intros _. right. left. split; [done|]. split; [done|]. destruct Hf as (t & r & ? & ?). split.
    + exists t, r. split; [do 2 (apply elem_of_app; left); done|done].
    + eexists row, k, _, _, _. split; [|in_trace]. eapply stored_mono; [|exact Hs].
      intros ? ?. do 2 (apply elem_of_app; left). done.
Qed.

(** The second half: give the old key its expiry, or take the replacement back. *)
Lemma expire_spec tr platformAdmin u keyId hours org row k hex :
  signed_in tr u -> stored tr row k -> RandomHex ↣ hex ∈ tr ->
  key_hash row = sha256_hex (API_KEY_SECRET_PREFIX +:+ hex) ->
  PrimFloat.leb 1 hours = true -> PrimFloat.leb hours 72 = true ->
  spec (on_coherent (rotate_licensed keyId)) (on_coherent (rotate_handled keyId)) tr
    (now ← ask TenantClock;
     let oldKeyExpiresAt := overlap_end now hours in
     v ← ask (UpdateKeyExpiry keyId (Some oldKeyExpiresAt));
     match error v with
     | Some e => compensate (user_id u) (ins_id k) e
     | None =>
         _ ← audit platformAdmin org (user_id u) "keys.rotate" keyId
               (JObj [("replacementKeyId", JStr (ins_id k)); ("oldKeyExpiresAt", JStr oldKeyExpiresAt)]);
         mret (json_response (JObj [("apiKey", ins_row k); ("secret", JStr (API_KEY_SECRET_PREFIX +:+ hex));
                                    ("oldKeyExpiresAt", JStr oldKeyExpiresAt)]))
     end).
Proof.
  intros Hu Hs Hhex Hhash Hlo Hhi. unfold audit, recordAuditEvent, answered, raise_thrown.
  exec_cbn. split; [by intros _|]. intros now.
  assert (tr ⊆ tr ++ [@Ev tenant_effects TenantClock now]) as Hg1 by (intros ? ?; apply elem_of_app; by left).
  split.
  { intros _. split; [done|]. split; [exists row, k; by eapply stored_mono|].
    exists now, hours. split; [in_trace|done]. }
  intros v. set (tr1 := (tr ++ [@Ev tenant_effects TenantClock now]) ++ [@Ev tenant_effects (UpdateKeyExpiry keyId (Some (overlap_end now hours))) v]).
  assert (tr ⊆ tr1) as Hg by (intros ? ?; do 2 (apply elem_of_app; left); done).
  assert (UpdateKeyExpiry keyId (Some (overlap_end now hours)) ↣ v ∈ tr1) as Hv by in_trace.
  assert (stored tr1 row k) as Hs1 by (by eapply stored_mono).
  assert (RandomHex ↣ hex ∈ tr1) as Hhex1 by auto.
  assert (signed_in tr1 u) as Hu1 by (by eapply signed_in_mono). clearbody tr1.
  destruct (error v) as [e|] eqn:He.
  { apply (compensate_spec _ _ _ row); [done..|]. eexists _, v. split; [done|congruence]. }
  exec_cbn. split.
  { intros _. split; [done|]. split; [done|]. by exists row, k. }
  intros a. set (tr2 := tr1 ++ _). assert (tr1 ⊆ tr2) as Hg2 by (intros ? ?; apply elem_of_app; by left).
  assert (on_coherent (rotate_handled keyId) tr2 (Done (json_response (JObj [("apiKey", ins_row k);
    ("secret", JStr (API_KEY_SECRET_PREFIX +:+ hex)); ("oldKeyExpiresAt", JStr (overlap_end now hours))]))))
    as Hdone.
  { intros _. right. right. split; [|exists (overlap_end now hours), v; auto].
    exists hex, row, k. split; [auto|]. split; [by eapply stored_mono|done]. }
  clearbody tr2. destruct a; exec_cbn; exact Hdone.
Qed.

Lemma rotate_key_spec tr platformAdmin u keyId hours old :
  (coherent tenant_reads tr -> rotate_ready tr u keyId old) -> signed_in tr u -> unminted tr ->
  PrimFloat.leb 1 hours = true -> PrimFloat.leb hours 72 = true ->
  spec (on_coherent (rotate_licensed keyId)) (on_coherent (rotate_handled keyId)) tr
    (rotate_key sha256_hex platformAdmin (user_id u) keyId hours old).
Proof.
  intros Hready Hu Hun Hlo Hhi. unfold rotate_key.
  eapply chain_bind with (R := fun _ _ => True); [apply rotate_raised|done| |].
  { eapply spec_post; [apply service_step; by intros ? _|]. by intros tr' []. }
  intros tr1 _ Hg1 Hun1 _. unfold mintApiKeySecret, mintKeySecret. exec_cbn. split; [by intros _|].
  intros hex. set (tr2 := tr1 ++ [@Ev tenant_effects RandomHex hex]).
  assert (grown tr tr2) as Hg2 by grown. assert (unminted tr2) as Hun2 by (by eapply unminted_grown).
  assert (RandomHex ↣ hex ∈ tr2) as Hhex by in_trace. clearbody tr2.
  split.
  { intros Hco. split; [done|]. destruct (rotate_ready_mono tr tr2 u keyId old) as (? & ? & ? & ?).
    - by apply grown_subset.
    - apply Hready. by apply (coherent_mono _ tr2); [apply grown_subset|].
    - exists u, old, hex. auto 6. }
  intros r. unfold audit, recordAuditEvent, answered, raise_thrown.
  pose proof (not_stored tr2 (key_row (stored_org old) (stored_name old) (minted_from hex) (user_id u)
    (stored_identity old) None) r Hun2) as Hnot.
  destruct (error r) as [e|] eqn:He; [|destruct (data r) as [k|] eqn:Hd].
  - exec_cbn. intros _. left. split; [|done]. apply Hnot. congruence.
  - apply expire_spec with (row := key_row (stored_org old) (stored_name old) (minted_from hex)
      (user_id u) (stored_identity old) None); [| | |reflexivity|done|done].
    + eapply signed_in_mono; [|exact Hu]. intros ? ?. apply elem_of_app; left. by apply (grown_subset _ _ Hg2).
    + exists r. split; [in_trace|done].
    + apply elem_of_app. by left.
  - exec_cbn. intros _. left. split; [|done]. apply Hnot. congruence.
Qed.

Lemma rotate_spec keyId :
  spec (on_coherent (rotate_licensed keyId)) (on_coherent (rotate_handled keyId)) []
    (rotate_handler sha256_hex keyId).
Proof.
  assert (unminted []) as Hnil by (intros e He; by apply elem_of_nil in He).
  unfold rotate_handler, requireUser, parseOverlapHours.
  eapply chain_bind with (R := fun tr' u => signed_in tr' u); [apply rotate_raised|done| |].
  { eapply spec_post; [apply user_step, rotate_gate|]. by intros tr' []. }
  intros tr1 u Hg1 Hun1 Hu. exec_cbn. split; [by intros _|]. intros body.
  assert (unminted (tr1 ++ [@Ev tenant_effects RequestBody body])) as Hun2 by (by apply unminted_snoc).
  assert (signed_in (tr1 ++ [@Ev tenant_effects RequestBody body]) u) as Hu2.
  { eapply signed_in_mono; [|exact Hu]. intros ? ?. apply elem_of_app. by left. }
  destruct (parse_overlap body) as [hours|] eqn:Hh; [|by apply rotate_early].
  apply overlap_bounds in Hh as [Hlo Hhi].
  eapply chain_bind with (R := fun tr' b => b = true -> exists u', signed_in tr' u' /\ operates tr' u');
    [apply rotate_raised|done| |].
  { eapply spec_post; [apply platform_step, rotate_gate|]. intros tr' [b|e] [? H]; [|done].
    split; [done|]. intros ->. by apply H. }
  intros tr3 platformAdmin Hg3 Hun3 Hadmin.
  eapply chain_unless; [apply rotate_early|apply rotate_raised|done|apply read_key_step; [apply rotate_gate|apply rotate_reads]|].
  intros tr4 old Hg4 Hun4 Hold.
  eapply chain_unless; [apply rotate_early|apply rotate_raised|done|apply manager_step, rotate_gate|].
  intros tr5 [] Hg5 Hun5 Hmanager.
  destruct (stored_revoked_at old) eqn:Hrev; [by apply rotate_early|].
  assert (grown tr3 tr5) as Hg35 by (by eapply grown_trans).
  assert (signed_in tr5 u) as Hu5.
  { eapply signed_in_mono; [|exact Hu2]. apply grown_subset. by eapply grown_trans. }
  apply rotate_key_spec; [|done..]. intros Hco. split; [done|]. split.
  - destruct Hold as (r & ? & ?). exists platformAdmin, r. split; [|done]. by apply (grown_subset _ _ Hg5).
  - split; [done|]. by apply (managed tr3 tr5 _ _ _ platformAdmin); [| |apply grown_subset| | |].
Qed.

Section same_rotation.
Context (keyId : string) (tr tr' : list (event tenant_effects)) (Hsame : forall e, e ∈ tr <-> e ∈ tr').

Lemma rotate_licensed_same c : rotate_licensed keyId tr c -> rotate_licensed keyId tr' c.
Proof.
  assert (tr ⊆ tr') as Hg by (intros e; apply Hsame).
  assert (unminted tr -> unminted tr') as Hun by (intros H e He; by apply H, Hsame).
  destruct c; simpl; auto.
  - apply cache_licensed_same. by apply gate_events_same.
  - intros (? & ? & row & k & ?). split; [done|]. split; [done|]. exists row, k. by eapply stored_mono.
  - intros (? & u & old & hex & ? & (b & r & ? & ?) & ? & ? & ? & ?). split; [auto|].
    exists u, old, hex. split; [by eapply signed_in_mono|]. split; [exists b, r; auto|].
    split; [done|]. split; [by eapply manages_mono|auto].
  - intros (? & (row & k & ?) & now & hours & ? & ?). split; [done|].
    split; [exists row, k; by eapply stored_mono|]. exists now, hours. auto.
  - intros ((t & r & ? & ?) & (row & k & ? & ?) & u & ? & ?). split; [exists t, r; auto|].
    split; [exists row, k; split; [by eapply stored_mono|done]|].
    exists u. split; [by eapply signed_in_mono|done].
Qed.

Lemma rotate_outcome_same o : rotate_outcome keyId tr o -> rotate_outcome keyId tr' o.
Proof.
  assert (tr ⊆ tr') as Hg by (intros e; apply Hsame). assert (tr' ⊆ tr) as Hg' by (intros e; apply Hsame).
  destruct o as [resp|]; simpl; [|done].
  intros [[Hno ?]|[(? & ? & (t & r & ? & ?) & row & k & t' & b & r' & ? & ?)|
    [(hex & row & k & ? & ? & ?) (t & r & ? & ?)]]]; [left|right; left|right; right].
  - split; [|done]. intros row k Hs. apply (Hno row k). by eapply stored_mono.
  - split; [done|]. split; [done|]. split; [exists t, r; auto|].
    exists row, k, t', b, r'. split; [by eapply stored_mono|auto].
  - split; [|exists t, r; auto]. exists hex, row, k. split; [auto|]. split; [by eapply stored_mono|done].
Qed.
End same_rotation.
End key_facts.

(** ** Properties *)

(** C19. Keys are minted only where they should be. For every request and every answer of the services:
    a key is inserted at most once, under the organization and name of the well-formed request, for
    a signed-in user who is a platform admin or whom the access gate grants the organization at
    admin strength, in an organization the caller can see and that is not banned, under an identity
    that is active there or its ensured default, with the requested expiry and the digest of a fresh
    secret; only that insertion is audited; and the plaintext secret is in the response exactly when
    its digest was stored. *)
Theorem keys_minted_licensed sha256_hex :
  spec (mint_licensed sha256_hex) (mint_outcome sha256_hex) [] (cached tenant_reads (POST sha256_hex)).
Proof.
  apply spec_cached.
  - intros tr tr' c Hsame. by apply mint_licensed_same.
  - intros tr tr' o Hsame. by apply mint_outcome_same.
  - unfold POST, route. apply spec_try. eapply spec_post; [apply POST_spec|].
    intros tr [resp|e] H; [exact H|]. intros Hco. right. split; [exact (H Hco)|].
    by destruct e as [| |[|m status [c|] [a|]|]].
Qed.

(** C20. A rotation is never an outage and never leaves a stray key. For every request and answer: the
    replacement is inserted once, under the organization, name and identity of the live key that was
    read, for someone who manages that organization; the old key is touched only after the
    replacement is stored, and only to expire one to seventy-two hours from now; if that fails the
    replacement is revoked again and no secret is disclosed; and the secret is disclosed exactly
    when both succeeded. *)
Theorem rotation_pairs_keys sha256_hex keyId :
  spec (rotate_licensed sha256_hex keyId) (rotate_outcome sha256_hex keyId) []
    (cached tenant_reads (rotate sha256_hex keyId)).
Proof.
  apply spec_cached.
  - intros tr tr' c Hsame. by apply rotate_licensed_same.
  - intros tr tr' o Hsame. by apply rotate_outcome_same.
  - unfold rotate, route. apply spec_try. eapply spec_post; [apply rotate_spec|].
    intros tr [resp|e] H; [exact H|]. intros Hco. left. split; [exact (H Hco)|].
    by destruct e as [| |[|m status [c|] [a|]|]].
Qed.

(** ** A concrete deployment

    One organization ["o1"], its admin ["u1"], one stored key whose expiry the world keeps, at a fixed
    time; the digest is the identity. *)
Module Demo.
Record world := World { old_expires_at : option string; minted_rows : list KeyRow }.

Definition now : Z := 1767225600000.  (* 2026-01-01 *)

Definition access_answer (c : access_cmd) : access_ans c :=
  match c return access_ans c with
  | CookieNames => ["sb-x-auth-token"]
  | OpenServer => inr tt
  | SessionClaims => inr (db_ok (JObj [("sub", JStr "u1")]))
  | SelectMemberships _ => inr (db_ok [Some {| org_uuid := "o1"; org_slug := "acme" |}])
  | SelectPlatformAdmin _ => inr (DbResult None None)
  | SelectAllOrgs => inr (db_ok [])
  | SelectRole _ _ => inr (db_ok "admin")
  | RpcOrgSsoRequired _ => inr (db_ok (JBool false))
  | SsoCacheGet _ => None
  | SsoCacheSet _ _ => tt
  | AccessClock => now
  end.

Definition stored_key : StoredKey :=
  {| stored_org := "o1"; stored_name := "ci"; stored_identity := Some "org-o1"; stored_revoked_at := None |}.

Definition body : json := JObj [("orgId", JStr "o1"); ("name", JStr " ci "); ("expiresInDays", JNum 30%float)].

Definition handle : handler tenant_effects world :=
  fun w c =>
    (match c with
     | InsertApiKey row => World (old_expires_at w) (row :: minted_rows w)
     | UpdateKeyExpiry _ t => World t (minted_rows w)
     | _ => w
     end,
     match c return tenant_ans c with
     | Gate c => access_answer c
     | RequestBody => inr body
     | OpenServiceRole => inr tt
     | TenantClock => now
     | RpcRecordAudit _ => inr (db_ok tt)
     | SelectOrgById org => db_ok org
     | SelectOwnMembership org _ => db_ok org
     | SelectBannedAt _ => db_ok None
     | SelectIdentity _ _ => db_ok true
     | UpsertIdentity _ _ _ => db_ok tt
     | RandomHex => "0123456789abcdef0123456789abcdef01234567"
     | InsertApiKey row =>
         db_ok {| ins_id := "k2"; ins_name := key_name row; ins_prefix := key_prefix row;
                  ins_identity := key_identity row; ins_expires_at := key_expires_at row;
                  ins_row := JObj [("id", JStr "k2")] |}
     | SelectApiKey _ _ => db_ok stored_key
     | UpdateKeyExpiry _ _ | UpdateKeyRevoked _ _ _ => db_ok tt
     | c => quiet_answer c
     end).

(** A mint: the trimmed name, a thirty-day expiry, the secret in the response. *)
Example mints :
  let '(o, _, w) := run handle (cached tenant_reads (POST (fun s => s))) (World None []) in
  o = Done (json_response (JObj [("apiKey", JObj [("id", JStr "k2")]);
        ("secret", JStr "xpl_0123456789abcdef0123456789abcdef01234567")])) /\
  map (fun row => (key_name row, key_prefix row, key_suffix row, key_expires_at row)) (minted_rows w) =
    [("ci", "xpl_01234567", "4567", Some "2026-01-31T00:00:00.000Z")].
Proof. vm_compute. by split. Qed.
End Demo.

(** Rotating a key that expired a year ago sets its expiry to tomorrow: the dead secret authenticates
    again. The route reads whether a key is revoked, but not whether it has expired. *)
Theorem rotation_revives_expired :
  let w := Demo.World (Some "2025-01-01T00:00:00.000Z") [] in
  let '(o, _, w') := run Demo.handle (cached tenant_reads (rotate (fun s => s) "k1")) w in
  (exists resp, o = Done resp /\ resp_status resp = 200) /\
  Demo.old_expires_at w' = Some "2026-01-02T00:00:00.000Z".
Proof. vm_compute. split; [by eexists|done]. Qed.
