(* ===== verification/Passwords.v ===== *)
(** * Passwords and how a session proved itself (lib/auth/password.ts)

    The payloads of the password routes, which sign-in identities an account has, and which methods a
    session's claims say it was authenticated by. *)

From S2P Require Import Prelude JsMap JsString JsNumber Effects Url Json Services Routes Access OrgAccess TenantServices ApiKeys.

#[local] Open Scope Z_scope.

Record ChangePasswordPayload := {
  currentPassword : option string;
  newPassword : string;
  confirmPassword : string;
}.

Definition MIN_PASSWORD_LENGTH : nat := 6.
Definition PASSWORD_PROVIDER : string := "email".
Definition PASSWORD_AUTH_METHOD : string := "password".
Definition RECOVERY_AUTH_METHODS : list string := ["magiclink"; "otp"; "recovery"].

(** A string of at least [MIN_PASSWORD_LENGTH] characters. *)
Definition long_enough (v : option json) : option string :=
  s ← v ≫= jstr; if bool_decide (String.length s < MIN_PASSWORD_LENGTH)%nat then None else Some s.

Definition too_short {A} (what : string) : Thrown + A :=
  invalid (what +:+ " must be at least " +:+ string_of_Z (Z.of_nat MIN_PASSWORD_LENGTH) +:+ " characters.").

Definition parseChangePasswordPayload (value : json) : Thrown + ChangePasswordPayload :=
  match value with
  | JObj _ =>
      let rawCurrent := nullish value "currentPassword" in
      if bool_decide (rawCurrent <> None /\ rawCurrent ≫= jstr = None)
      then invalid "Current password must be a string."
      else
        let currentPassword := present (rawCurrent ≫= jstr) in
        match long_enough (jget value "newPassword") with
        | None => too_short "New password"
        | Some newPassword =>
            match long_enough (jget value "confirmPassword") with
            | None => too_short "Password confirmation"
            | Some confirmPassword =>
                if bool_decide (newPassword <> confirmPassword)
                then invalid "New password and confirmation must match."
                else if bool_decide (currentPassword = Some newPassword)
                then invalid "New password must be different from your current password."
                else inr {| currentPassword := currentPassword; newPassword := newPassword;
                            confirmPassword := confirmPassword |}
            end
        end
  | _ => invalid "Password change request must be an object."
  end.

(** The user record GoTrue returns, read where it is well-typed. *)
Definition providers_of (user : json) : list string :=
  let metadata := default JNull (jget user "app_metadata") in
  match jget_str metadata "provider" with Some p => [p] | None => [] end ++
  omap jstr (default [] (jget metadata "providers" ≫= jarr)) ++
  omap (fun identity => jget_str identity "provider") (default [] (jget user "identities" ≫= jarr)).

Definition hasPasswordIdentity (user : option json) : bool :=
  match user with
  | None => false
  | Some u => bool_decide (PASSWORD_PROVIDER ∈ js_set (providers_of u))
  end.

(** One entry of [claims.amr]: a method's name, or an object that has one. *)
Definition entry_method (entry : json) : option string :=
  match entry with JStr s => Some s | _ => jget_str entry "method" end.

Definition amr_of (claims : option json) : option (list json) := c ← claims; jget c "amr" ≫= jarr.

(** Some entry's method satisfies [P]. *)
Definition amr_some (P : string -> bool) (claims : option json) : bool :=
  match amr_of claims with
  | Some amr => existsb (fun entry => match entry_method entry with Some m => P m | None => false end) amr
  | None => false
  end.

Definition hasPasswordAuthMethod (claims : option json) : bool :=
  amr_some (fun m => bool_decide (m = PASSWORD_AUTH_METHOD)) claims.

Definition canChangePasswordForSession (user claims : option json) : bool :=
  hasPasswordIdentity user && hasPasswordAuthMethod claims.

Definition hasRecoveryAuthMethod (claims : option json) : bool :=
  amr_some (fun m => bool_decide (m ∈ RECOVERY_AUTH_METHODS)) claims.

Definition parseResetPassword (value : json) : Thrown + string :=
  match value with
  | JObj _ =>
      match long_enough (jget value "password") with
      | None => too_short "Password"
      | Some password => inr password
      end
  | _ => invalid "Request must be an object."
  end.

(** ** Lemmas *)
Lemma long_enough_Some v s : long_enough v = Some s <-> v = Some (JStr s) /\ (6 <= String.length s)%nat.
Proof.
  unfold long_enough. destruct v as [[]|]; simpl; try naive_solver. case_bool_decide as H; unfold MIN_PASSWORD_LENGTH in H.
  - split; [done|]. intros [[= ->] ?]. lia.
  - split; [intros [= ->]; split; [done|lia]|]. by intros [[= ->] _].
Qed.

(** A change request is accepted exactly when it names twice the same new password, of six characters or
    more, and a current one, if it names one, that differs. *)
Theorem change_payload_exact value p :
  parseChangePasswordPayload value = inr p <->
  (exists o, value = JObj o) /\ newPassword p = confirmPassword p /\ (6 <= String.length (newPassword p))%nat /\
  jget value "newPassword" = Some (JStr (newPassword p)) /\ jget value "confirmPassword" = Some (JStr (newPassword p)) /\
  match nullish value "currentPassword" with
  | None => currentPassword p = None
  | Some (JStr s) => currentPassword p = present (Some s) /\ currentPassword p <> Some (newPassword p)
  | Some _ => False
  end.
Proof.
  unfold parseChangePasswordPayload, too_short, invalid.
  assert (forall s, long_enough (jget value "newPassword") = Some s <-> jget value "newPassword" = Some (JStr s) /\ (6 <= String.length s)%nat)
    as Hnew by (intros; apply long_enough_Some).
  assert (forall s, long_enough (jget value "confirmPassword") = Some s <-> jget value "confirmPassword" = Some (JStr s) /\ (6 <= String.length s)%nat)
    as Hconf by (intros; apply long_enough_Some).
  destruct value as [| | | | |o]; try (split; [done|]; by intros [[? ?] _]).
  destruct (nullish (JObj o) "currentPassword") as [raw|] eqn:Hraw.
  1: destruct raw as [| | |s| |]; try (rewrite bool_decide_true by done; split; [done|]; by intros (_ & _ & _ & _ & _ & ?)).
  all: rewrite bool_decide_false by naive_solver; cbn [mbind option_bind jstr].
  all: destruct (long_enough (jget (JObj o) "newPassword")) as [new|] eqn:En;
    [|split; [done|]; intros (_ & _ & Hl & Hn & _); exfalso; assert (None = Some (newPassword p)) by (by apply Hnew); done].
  all: destruct (long_enough (jget (JObj o) "confirmPassword")) as [conf|] eqn:Ec;
    [|split; [done|]; intros (_ & _ & Hl & _ & Hn & _); exfalso; assert (None = Some (newPassword p)) by (by apply Hconf); done].
  all: destruct (proj1 (Hnew _) eq_refl) as [Hn Hln]; destruct (proj1 (Hconf _) eq_refl) as [Hc Hlc].
  all: case_bool_decide as Hm; [split; [done|]; intros (_ & _ & _ & Hn' & Hc' & _); congruence|].
  all: subst conf.
  all: try (case_bool_decide as Hs; [split; [done|]; intros (_ & _ & _ & Hn' & _ & Hp & Hd); congruence|]).
  all: split; [intros [= <-]; cbn; repeat split; eauto; congruence|].
  all: intros (_ & He & _ & Hn' & _ & Hp); f_equal; destruct p as [cur n c]; cbn in *; try destruct Hp; congruence.
Qed.
