(* ===== verification/Invites.v ===== *)
(** * Invitations (lib/admin/invite-email.ts, lib/members/manage.ts)

    The invitation email, and the decision between adding an existing account to an organization and
    inviting a new person. *)

From S2P Require Import Prelude JsMap JsString JsSort JsDate JsNumber Effects Url QueryStrings Json.
From S2P Require Import Services Routes Access OrgAccess TenantServices ApiKeys.

#[local] Open Scope Z_scope.

(** ** lib/admin/invites.ts and lib/admin/invitations.ts *)
Definition INVITE_ROLES : list string := ["admin"; "user"].

Definition invitationLink (origin token : string) : string :=
  strip_last "/" origin +:+ signinPath +:+ "?invite=" +:+ encodeURIComponent token.

(** ** lib/admin/invite-email.ts *)
Definition RESEND_DEFAULT_FROM : string := "Experiential Labs <members@experientiallabs.ai>".

(** [s.replaceAll(c, by)], for a one-character [c]. *)
Fixpoint replace_all (c : ascii) (by_ s : string) : string :=
  match s with
  | EmptyString => EmptyString
  | String a s => if bool_decide (a = c) then by_ +:+ replace_all c by_ s else String a (replace_all c by_ s)
  end.

Definition escapeHtml (value : string) : string :=
  replace_all quote "&quot;" (replace_all ">" "&gt;" (replace_all "<" "&lt;" (replace_all "&" "&amp;" value))).

Record InviteEmailTemplate := {
  tpl_to : string;
  tpl_subject : string;
  tpl_heading : string;
  tpl_intro : string;
  tpl_url : string;
}.

(** An attribute, its value quoted. *)
Definition attr (nm v : string) : string := " " +:+ nm +:+ "=" +:+ String quote v +:+ String quote EmptyString.

Definition html_lines (t : InviteEmailTemplate) : list string :=
  let url := escapeHtml (tpl_url t) in
  ["<div" +:+ attr "style" "font-family: -apple-system, 'Segoe UI', Helvetica, Arial, sans-serif; max-width: 480px; margin: 0 auto; color: #171717;" +:+ ">";
   "<h2" +:+ attr "style" "font-size: 18px; font-weight: 600;" +:+ ">" +:+ tpl_heading t +:+ "</h2>";
   "<p" +:+ attr "style" "font-size: 14px; line-height: 1.6;" +:+ ">" +:+ tpl_intro t +:+ "</p>";
   "<p" +:+ attr "style" "margin: 24px 0;" +:+ "><a" +:+ attr "href" url +:+ attr "style" "background: #171717; color: #ffffff; text-decoration: none; padding: 10px 20px; border-radius: 9999px; font-size: 14px; font-weight: 600;" +:+ ">Accept invitation</a></p>";
   "<p" +:+ attr "style" "font-size: 12px; color: #737373; line-height: 1.6;" +:+ ">Or paste this link into your browser:<br /><a" +:+ attr "href" url +:+ attr "style" "color: #737373;" +:+ ">" +:+ url +:+ "</a></p>";
   "<p" +:+ attr "style" "font-size: 12px; color: #737373;" +:+ ">This invitation expires in 14 days. If you weren't expecting it, you can ignore this email.</p>";
   "</div>"].

Definition inviteEmailHtml (t : InviteEmailTemplate) : string := join (String LF EmptyString) (html_lines t).

(** Why the email was not sent, if it was not. *)
Definition sendInviteEmail (t : InviteEmailTemplate) : T (option string) :=
  env ← ask MailSettings;
  match present env.1 with
  | None => mret (Some "RESEND_API_KEY is not configured")
  | Some apiKey =>
      r ← ask (PostEmail apiKey
        {| mail_from := default RESEND_DEFAULT_FROM env.2; mail_to := tpl_to t;
           mail_subject := tpl_subject t; mail_html := inviteEmailHtml t |});
      mret match r with
           | inl e => Some ("Resend request failed: " +:+ error_text e)
           | inr reply =>
               if mail_ok reply then None
               else Some ("Resend rejected the email: " +:+
                 default ("HTTP " +:+ string_of_Z (mail_status reply))
                   (mail_payload reply ≫= fun p => jget_str p "message"))
           end
  end.

(** The invitation to a new tenant's own organization. *)
Definition tenant_invite_template (to orgName inviteUrl : string) : InviteEmailTemplate :=
  {| tpl_to := to;
     tpl_subject := "You're invited to Experiential Labs, " +:+ orgName;
     tpl_heading := "You're invited to Experiential Labs";
     tpl_intro := "You've been invited to build simulations on the Experiential Labs platform. Accepting sets up your own <strong>"
       +:+ escapeHtml orgName +:+ "</strong> organization, ready for your traces.";
     tpl_url := inviteUrl |}.

Definition sendInvitationEmail (to orgName inviteUrl : string) : T (option string) :=
  sendInviteEmail (tenant_invite_template to orgName inviteUrl).

(** The invitation to join an organization. *)
Definition org_invite_template (to orgName role inviteUrl : string) : InviteEmailTemplate :=
  {| tpl_to := to;
     tpl_subject := "You've been invited to join " +:+ orgName;
     tpl_heading := "Join " +:+ escapeHtml orgName;
     tpl_intro := "<strong>" +:+ escapeHtml orgName +:+
       "</strong> has invited you to join their organization as <strong>" +:+ escapeHtml role +:+
       "</strong>. Accepting creates your account and gives you access to the organization's simulations.";
     tpl_url := inviteUrl |}.

Definition sendOrgInviteEmail (to orgName role inviteUrl : string) : T (option string) :=
  sendInviteEmail (org_invite_template to orgName role inviteUrl).

(** ** lib/members/manage.ts *)
Record MemberPayload := { member_email : string; member_role : string }.

Definition parseMemberPayload (value : json) : Thrown + MemberPayload :=
  match value with
  | JObj _ =>
      match jget_str value "email" with
      | None => invalid "Member request must include a valid email."
      | Some email =>
          if negb (includes_char "@" email) then invalid "Member request must include a valid email."
          else match jget_str value "role" with
               | Some role =>
                   if bool_decide (role ∈ INVITE_ROLES)
                   then inr {| member_email := to_lower (trim email); member_role := role |}
                   else invalid "role must be one of: admin, user."
               | None => invalid "role must be one of: admin, user."
               end
      end
  | _ => invalid "Member request must be an object."
  end.

Record AddMemberInput := {
  in_org : string;
  in_org_name : string;
  in_email : string;
  in_role : string;
  in_invited_by : string;
  in_origin : string;
}.

Inductive AddMemberResult :=
| Added (membership : json)
| Invited (status : Z) (invitationId role : string) (email_failure inviteUrl : option string)
| Failed (status : Z) (message : string).

Definition failed_db (e : db_error) : T AddMemberResult := mret (Failed 500 (error_message e)).

Definition UNIQUE_VIOLATION : string := "23505".

(** An existing account becomes a member at once. *)
Definition add_account (input : AddMemberInput) (userId : string) : T AddMemberResult :=
  r ← ask (InsertMember (in_org input) userId (in_role input));
  match error r with
  | Some e =>
      if bool_decide (error_code e = UNIQUE_VIOLATION)
      then mret (Failed 409 "That account is already a member of the organization.")
      else failed_db e
  | None => mret (Added (default JNull (data r)))
  end.

(** The email goes out, and the operator keeps the link when it could not. *)
Definition deliver_invite (input : AddMemberInput) (invite : InviteRow) (created : bool) :
    T AddMemberResult :=
  let inviteUrl := invitationLink (in_origin input) (invite_token invite) in
  failure ← sendOrgInviteEmail (in_email input) (in_org_name input) (invite_role invite) inviteUrl;
  mret (Invited (if created then 201 else 200) (invite_id invite) (invite_role invite) failure
          (match failure with None => None | Some _ => Some inviteUrl end)).

(** A recovered invite is given the role just selected. *)
Definition align_role (input : AddMemberInput) (invite : InviteRow) (created : bool) : T AddMemberResult :=
  if negb created && negb (bool_decide (invite_role invite = in_role input)) then
    r ← ask (UpdateInviteRole (invite_id invite) (in_role input));
    match error r, data r with
    | Some e, _ => failed_db e
    | None, Some invite => deliver_invite input invite created
    | None, None => raise_error "Cannot read properties of null (reading 'token')"
    end
  else deliver_invite input invite created.

Definition invite_or_stuck (input : AddMemberInput) (invite : option InviteRow) (created : bool) :
    T AddMemberResult :=
  match invite with
  | None => mret (Failed 409 "The pending invite could not be recovered. Revoke it before retrying.")
  | Some invite => align_role input invite created
  end.

(** Clear an expired invite, then recover the pending one or create it. *)
Definition invite_person (input : AddMemberInput) : T AddMemberResult :=
  t ← ask TenantClock;
  cleanup ← ask (DeleteExpiredInvites (in_org input) (in_email input) (iso_string t));
  match error cleanup with
  | Some e => failed_db e
  | None =>
      t ← ask TenantClock;
      let now := iso_string t in
      pending ← ask (SelectPendingInvite (in_org input) (in_email input) now);
      match error pending, data pending with
      | Some e, _ => failed_db e
      | None, Some invite => invite_or_stuck input (Some invite) false
      | None, None =>
          insert ← ask (InsertInvite (in_org input) (in_email input) (in_role input) (in_invited_by input));
          match error insert with
          | Some e =>
              if bool_decide (error_code e = UNIQUE_VIOLATION) then
                retry ← ask (SelectPendingInvite (in_org input) (in_email input) now);
                match error retry with
                | Some e => failed_db e
                | None => invite_or_stuck input (data retry) false
                end
              else failed_db e
          | None => invite_or_stuck input (data insert) true
          end
      end
  end.

Definition addOrInviteMember (input : AddMemberInput) : T AddMemberResult :=
  ban ← ask (SelectBannedAt (in_org input));
  match error ban, data ban with
  | Some e, _ => failed_db e
  | None, Some (Some _) =>
      mret (Failed 403 "This organization is banned. Members cannot be added or invited.")
  | None, _ =>
      lookup ← ask (RpcUserIdForEmail (in_email input));
      match error lookup, present (data lookup) with
      | Some e, _ => failed_db e
      | None, Some userId => add_account input userId
      | None, None => invite_person input
      end
  end.

(** ** HTML *)

(** The characters that open and close tags and attribute values. *)
Definition is_markup (a : ascii) : bool := includes_char a (String quote "<>").

Fixpoint markup (s : string) : string :=
  match s with
  | EmptyString => EmptyString
  | String a s => if is_markup a then String a (markup s) else markup s
  end.

(** The character an entity at the front of a string stands for, and the entity's length. *)
Definition entity_at (s : string) : option (ascii * nat) :=
  if starts_with "&amp;" s then Some ("&"%char, 5%nat)
  else if starts_with "&lt;" s then Some ("<"%char, 4%nat)
  else if starts_with "&gt;" s then Some (">"%char, 4%nat)
  else if starts_with "&quot;" s then Some (quote, 6%nat)
  else None.

(** The text an HTML reader shows; [skip] characters of an entity are still to pass. *)
Fixpoint html_text (skip : nat) (s : string) : string :=
  match s with
  | EmptyString => EmptyString
  | String a s' =>
      match skip with
      | S skip => html_text skip s'
      | O => match entity_at s with
             | Some (c, n) => String c (html_text (n - 1) s')
             | None => String a (html_text 0 s')
             end
      end
  end.

(** One character, escaped. *)
Definition escape_char (a : ascii) : string :=
  if bool_decide (a = "&"%char) then "&amp;"
  else if bool_decide (a = "<"%char) then "&lt;"
  else if bool_decide (a = ">"%char) then "&gt;"
  else if bool_decide (a = quote) then "&quot;"
  else String a EmptyString.

Lemma replace_all_append c by_ a b :
  replace_all c by_ (a +:+ b) = replace_all c by_ a +:+ replace_all c by_ b.
Proof.
  induction a as [|x a IH]; [done|]. cbn [String.append replace_all]. rewrite IH.
  case_bool_decide; [by rewrite append_assoc|done].
Qed.

(** The four passes escape each character on its own: no pass touches what an earlier one wrote. *)
Lemma escapeHtml_cons a s : escapeHtml (String a s) = escape_char a +:+ escapeHtml s.
Proof.
  unfold escapeHtml. change (String a s) with (String a EmptyString +:+ s). rewrite !replace_all_append.
  f_equal. unfold escape_char.
  destruct (decide (a = "&"%char)) as [->|H1]; [reflexivity|].
  destruct (decide (a = "<"%char)) as [->|H2]; [reflexivity|].
  destruct (decide (a = ">"%char)) as [->|H3]; [reflexivity|].
  destruct (decide (a = quote)) as [->|H4]; [reflexivity|].
  cbn [replace_all]. by repeat (rewrite bool_decide_eq_false_2 by done; cbn [replace_all]).
Qed.

Lemma markup_append a b : markup (a +:+ b) = markup a +:+ markup b.
Proof.
  induction a as [|x a IH]; [done|]. cbn [String.append markup]. rewrite IH. by destruct (is_markup x).
Qed.

Lemma markup_escaped s : markup (escapeHtml s) = EmptyString.
Proof.
  induction s as [|a s IH]; [done|]. rewrite escapeHtml_cons, markup_append, IH, append_nil_r.
  unfold escape_char. repeat (case_bool_decide; [done|]). cbn [markup].
  assert (is_markup a = false) as ->; [|done]. unfold is_markup. simpl.
  repeat (case_bool_decide; [congruence|]). done.
Qed.

Lemma html_text_escaped s : html_text 0 (escapeHtml s) = s.
Proof.
  induction s as [|a s IH]; [done|]. rewrite escapeHtml_cons. unfold escape_char.
  repeat (case_bool_decide; [subst; simpl; by rewrite IH|]).
  cbn [String.append html_text].
  assert (entity_at (String a (escapeHtml s)) = None) as ->; [|by rewrite IH].
  unfold entity_at. cbn [starts_with]. repeat rewrite bool_decide_eq_false_2 by congruence. done.
Qed.

Lemma markup_quote s : markup (String quote s) = String quote (markup s).
Proof. done. Qed.

Create Rewrite HintDb markup.
#[local] Hint Rewrite markup_append markup_quote markup_escaped : markup.

(** The markup of an invitation is its template's. *)
Lemma markup_html t t' :
  markup (tpl_heading t) = markup (tpl_heading t') -> markup (tpl_intro t) = markup (tpl_intro t') ->
  markup (inviteEmailHtml t) = markup (inviteEmailHtml t').
Proof.
  intros Hh Hi. unfold inviteEmailHtml, html_lines, join, attr. autorewrite with markup.
  by rewrite Hh, Hi.
Qed.

(** ** Adding and inviting *)
Implicit Types (tr : list (event tenant_effects)).

(** Nobody holds an account under the email. *)
Definition no_account tr (email : string) : Prop :=
  exists r, RpcUserIdForEmail email ↣ r ∈ tr /\ error r = None /\ present (data r) = None.

(** The invite to deliver: just created as asked, or recovered, and then of the role selected; or realigned
    to it. *)
Definition invite_ready tr (input : AddMemberInput) (invite : InviteRow) (created : bool) : Prop :=
  if created then
    exists r, InsertInvite (in_org input) (in_email input) (in_role input) (in_invited_by input) ↣ r ∈ tr /\
      error r = None /\ data r = Some invite
  else
    exists now r pending, SelectPendingInvite (in_org input) (in_email input) now ↣ r ∈ tr /\
      error r = None /\ data r = Some pending /\
      (pending = invite /\ invite_role invite = in_role input \/
       exists u, UpdateInviteRole (invite_id pending) (in_role input) ↣ u ∈ tr /\
         error u = None /\ data u = Some invite).

(** The link the invitee gets. *)
Definition invite_link (input : AddMemberInput) (invite : InviteRow) : string :=
  invitationLink (in_origin input) (invite_token invite).

Definition delivery (input : AddMemberInput) (invite : InviteRow) : InviteEmailTemplate :=
  org_invite_template (in_email input) (in_org_name input) (invite_role invite) (invite_link input invite).

(** What each command needs to have happened. *)
Definition admission_licensed (input : AddMemberInput) tr (c : cmd tenant_effects) : Prop :=
  match c with
  | InsertMember org user role =>
      org = in_org input /\ role = in_role input /\ not_banned tr org /\
      exists r, RpcUserIdForEmail (in_email input) ↣ r ∈ tr /\ error r = None /\ data r = Some user
  | DeleteExpiredInvites org email _ =>
      org = in_org input /\ email = in_email input /\ not_banned tr org /\ no_account tr email
  | InsertInvite org email role by_ =>
      org = in_org input /\ email = in_email input /\ role = in_role input /\ by_ = in_invited_by input /\
      not_banned tr org /\ no_account tr email /\
      exists now r, SelectPendingInvite org email now ↣ r ∈ tr /\ error r = None /\ data r = None
  | UpdateInviteRole id role =>
      role = in_role input /\ not_banned tr (in_org input) /\
      exists now r invite, SelectPendingInvite (in_org input) (in_email input) now ↣ r ∈ tr /\
        error r = None /\ data r = Some invite /\ id = invite_id invite /\ invite_role invite <> role
  | PostEmail _ mail =>
      not_banned tr (in_org input) /\ no_account tr (in_email input) /\
      exists invite created, invite_ready tr input invite created /\
        mail_to mail = in_email input /\ mail_html mail = inviteEmailHtml (delivery input invite)
  | c => writes c = false
  end.

Definition is_post (e : event tenant_effects) : bool :=
  match e with Ev (PostEmail _ _) _ => true | _ => false end.

Definition unposted tr : Prop := forall e, e ∈ tr -> is_post e = false.

(** The mail service took the invitation. *)
Definition mailed tr (input : AddMemberInput) (invite : InviteRow) : Prop :=
  exists key mail reply, PostEmail key mail ↣ inr reply ∈ tr /\ mail_ok reply = true /\
    mail_to mail = in_email input /\ mail_html mail = inviteEmailHtml (delivery input invite).

(** The mail service accepted nothing: it has no key to be asked with, or was asked and did not take it. *)
Definition unmailed tr : Prop :=
  (forall key mail reply, PostEmail key mail ↣ inr reply ∈ tr -> mail_ok reply = false) /\
  ((exists env, MailSettings ↣ env ∈ tr /\ present env.1 = None) \/
   exists key mail r, PostEmail key mail ↣ r ∈ tr).

(** What the result means. *)
Definition admission_outcome (input : AddMemberInput) tr (o : outcome app_error AddMemberResult) : Prop :=
  match o with
  | Done (Added membership) =>
      unposted tr /\ exists user r, InsertMember (in_org input) user (in_role input) ↣ r ∈ tr /\
        error r = None /\ membership = default JNull (data r)
  | Done (Invited status id role failure url) =>
      exists invite created, invite_ready tr input invite created /\ id = invite_id invite /\
        role = invite_role invite /\ status = (if created then 201 else 200) /\
        match failure with
        | None => mailed tr input invite /\ url = None
        | Some _ => unmailed tr /\ url = Some (invite_link input invite)
        end
  | Done (Failed _ _) | Raised _ => unposted tr
  end.

Lemma unposted_nil : unposted [].
Proof. intros e He. by apply elem_of_nil in He. Qed.

Lemma unposted_snoc tr e : unposted tr -> is_post e = false -> unposted (tr ++ [e]).
Proof. intros H He e' [?| ->%list_elem_of_singleton]%elem_of_app; auto. Qed.

(** Of the events after a stretch without mail, only the last asks the mail service. *)
Lemma unmailed_last tr env key mail r :
  unposted tr -> match r with inr reply => mail_ok reply = false | inl _ => True end ->
  unmailed ((tr ++ [@Ev tenant_effects MailSettings env]) ++ [@Ev tenant_effects (PostEmail key mail) r]).
Proof.
  intros Hun Hr. split; [|right; eexists _, _, _; in_trace].
  intros key' mail' reply [Hin|Heq%list_elem_of_singleton]%elem_of_app.
  - by apply (unposted_snoc _ (@Ev tenant_effects MailSettings env) Hun eq_refl) in Hin.
  - apply (f_equal (fun e : event tenant_effects => match e with
      | Ev (PostEmail _ _) (inr reply) => Some (mail_ok reply) | _ => None end)) in Heq.
    destruct r as [|x]; [done|]. simpl in Heq. by rewrite Hr in Heq; injection Heq.
Qed.

Lemma unmailed_unasked tr env :
  unposted tr -> present env.1 = None -> unmailed (tr ++ [@Ev tenant_effects MailSettings env]).
Proof.
  intros Hun Henv. split; [|left; exists env; split; [in_trace|done]].
  intros key mail reply Hin. by apply (unposted_snoc _ (@Ev tenant_effects MailSettings env) Hun eq_refl) in Hin.
Qed.

Lemma not_banned_snoc tr e org : not_banned tr org -> not_banned (tr ++ [e]) org.
Proof. intros (r & ? & ?). exists r. split; [apply elem_of_app; by left|done]. Qed.

Lemma no_account_snoc tr e email : no_account tr email -> no_account (tr ++ [e]) email.
Proof. intros (r & ? & ?). exists r. split; [apply elem_of_app; by left|done]. Qed.

Lemma invite_ready_snoc tr e input invite created :
  invite_ready tr input invite created -> invite_ready (tr ++ [e]) input invite created.
Proof.
  assert (forall x, x ∈ tr -> x ∈ tr ++ [e]) as Hin by (intros; apply elem_of_app; by left).
  destruct created; simpl.
  - intros (r & ? & ?). exists r. auto.
  - intros (now & r & pending & ? & ? & ? & H). exists now, r, pending. repeat split; auto.
    destruct H as [?|(u & ? & ?)]; [by left|right]. exists u. auto.
Qed.

#[local] Hint Extern 1 (admission_licensed _ _ _) => progress cbn [admission_licensed] : core.
#[local] Hint Resolve unposted_nil unposted_snoc not_banned_snoc no_account_snoc invite_ready_snoc : core.

(** An ending before anything was posted. *)
Ltac ends_unposted := unfold failed_db, raise_error, raise_thrown; cbn [invite_or_stuck]; exec_cbn; cbn [admission_outcome]; solve [auto 20].

Section admission.
Context (input : AddMemberInput).
#[local] Abbreviation I := (admission_licensed input).
#[local] Abbreviation Q := (admission_outcome input).

Lemma deliver_spec tr invite created :
  unposted tr -> not_banned tr (in_org input) -> no_account tr (in_email input) ->
  invite_ready tr input invite created ->
  spec I Q tr (deliver_invite input invite created).
Proof.
  intros Hun Hb Ha Hi. unfold deliver_invite, sendOrgInviteEmail, sendInviteEmail.
  exec_cbn. split; [done|]. intros env. destruct (present env.1) as [key|] eqn:Hkey; exec_cbn.
  - split; [split; [auto|split; [auto|]]; exists invite, created; by auto|]. intros r.
    exists invite, created. repeat (split; [by auto|]).
    destruct r as [e|reply]; [by split; [apply unmailed_last|]|].
    destruct (mail_ok reply) eqn:Hok; [|by split; [apply unmailed_last|]]. split; [|done]. eexists _, _, reply. split; [in_trace|]. by repeat split.
  - exists invite, created. repeat (split; [by auto|]). by split; [apply unmailed_unasked|].
Qed.

Lemma align_spec tr invite (created : bool) :
  unposted tr -> not_banned tr (in_org input) -> no_account tr (in_email input) ->
  (if created then invite_ready tr input invite true
   else exists now r, SelectPendingInvite (in_org input) (in_email input) now ↣ r ∈ tr /\
     error r = None /\ data r = Some invite) ->
  spec I Q tr (invite_or_stuck input (Some invite) created).
Proof.
  intros Hun Hb Ha Hi. unfold invite_or_stuck, align_role.
  destruct created; cbn [negb andb]; [by apply deliver_spec|].
  destruct Hi as (now & r & Hr & He & Hd). case_bool_decide as Hrole; cbn [negb].
  - apply deliver_spec; try done. exists now, r, invite. by repeat split; auto.
  - exec_cbn. split; [split; [done|]; split; [done|]; by exists now, r, invite|]. intros u.
    unfold failed_db, raise_error, raise_thrown. destruct (error u) eqn:Hu; [ends_unposted|].
    destruct (data u) as [invite'|] eqn:Hdu; [|ends_unposted].
    apply deliver_spec; auto. exists now, r, invite. split; [apply elem_of_app; by left|].
    do 2 (split; [done|]). right. exists u. split; [in_trace|done].
Qed.

Lemma invite_spec tr :
  unposted tr -> not_banned tr (in_org input) -> no_account tr (in_email input) ->
  spec I Q tr (invite_person input).
Proof.
  intros Hun Hb Ha. unfold invite_person, failed_db. exec_cbn. split; [done|]. intros t.
  split; [by auto 10|]. intros cleanup. destruct (error cleanup); [ends_unposted|].
  exec_cbn. split; [done|]. intros t'. split; [done|]. intros pending.
  destruct (error pending) eqn:Hp; [ends_unposted|].
  destruct (data pending) as [invite|] eqn:Hd.
  { apply align_spec; auto 8. exists (iso_string t'), pending. split; [in_trace|done]. }
  exec_cbn. split; [repeat (split; [by auto 8|]); eexists _, _; split; [in_trace|done]|]. intros insert.
  destruct (error insert) as [e|] eqn:Hins.
  - case_bool_decide; [|ends_unposted]. exec_cbn. split; [done|]. intros retry.
    destruct (error retry) eqn:Hre; [ends_unposted|].
    destruct (data retry) as [invite|] eqn:Hrd; [|ends_unposted].
    apply align_spec; auto 20. exists (iso_string t'), retry. split; [in_trace|done].
  - destruct (data insert) as [invite|] eqn:Hid; [|ends_unposted].
    apply align_spec; auto 10. exists insert. split; [in_trace|done].
Qed.
End admission.

(** ** Properties *)

(** C23. Adding or inviting a person, for every answer of the services: nobody joins or is invited into a
    banned organization; the account added is the one the email names, with the role selected; an
    invite is created only for an email without an account and without a pending invite, and one
    recovered is delivered with the role selected; the email goes to the person invited and carries
    that invite's link; the operator is told it was sent exactly if the mail service took it, and is
    handed the link exactly if it was asked and did not take it, or could not be asked for want of a key. *)
Theorem people_join_licensed input :
  spec (admission_licensed input) (admission_outcome input) [] (addOrInviteMember input).
Proof.
  unfold addOrInviteMember, failed_db. exec_cbn. split; [done|]. intros ban. cbn [app].
  set (tr := [@Ev tenant_effects _ _]). assert (unposted tr) as Hun.
  { intros e ->%list_elem_of_singleton. done. }
  assert (error ban = None -> (forall at_, data ban <> Some (Some at_)) -> not_banned tr (in_org input)) as Hb.
  { intros He Hd. exists ban. split; [by apply list_elem_of_singleton|done]. }
  clearbody tr. destruct (error ban); [done|].
  assert (not_banned tr (in_org input) ->
    spec (admission_licensed input) (admission_outcome input) tr
      (lookup ← ask (RpcUserIdForEmail (in_email input));
       match error lookup, present (data lookup) with
       | Some e, _ => failed_db e
       | None, Some userId => add_account input userId
       | None, None => invite_person input
       end)) as Hgo; [|destruct (data ban) as [[at_|]|]; [done| |]; apply Hgo; by apply Hb].
  clear Hb. intros Hb. exec_cbn. split; [done|]. intros lookup.
  destruct (error lookup) eqn:Hl; [unfold failed_db; ends_unposted|].
  destruct (present (data lookup)) as [userId|] eqn:Hu.
  - apply present_Some in Hu as [Hu _]. unfold add_account, failed_db. exec_cbn.
    split; [repeat (split; [by auto|]); eexists; split; [in_trace|done]|]. intros r.
    destruct (error r) eqn:Hr; [case_bool_decide; ends_unposted|]. exec_cbn.
    split; [by auto|]. exists userId, r. split; [in_trace|done].
  - apply invite_spec; auto. exists lookup. split; [in_trace|done].
Qed.

(** The invitation email cannot be altered by what is written into it: whatever the organization's
    name, the role and the link, the tags and attributes of the email are the template's own, and
    each text is shown to the reader as it is. *)
Theorem invitation_email_inert to orgName role url text :
  markup (inviteEmailHtml (org_invite_template to orgName role url)) =
    markup (inviteEmailHtml (org_invite_template to EmptyString EmptyString EmptyString)) /\
  markup (inviteEmailHtml (tenant_invite_template to orgName url)) =
    markup (inviteEmailHtml (tenant_invite_template to EmptyString EmptyString)) /\
  html_text 0 (escapeHtml text) = text.
Proof.
  split; [|split; [|apply html_text_escaped]]; apply markup_html;
    cbn [tpl_heading tpl_intro org_invite_template tenant_invite_template];
    by autorewrite with markup.
Qed.
