(* ===== verification/Members.v ===== *)
(** * Organization members (lib/members/manage.ts, app/api/orgs/[orgId]/members/)

    The routes that add or invite a person, change a role and remove a member; and the rule that an
    organization keeps at least one admin. *)

From S2P Require Import Prelude JsMap JsString JsSort JsDate JsNumber Effects Url QueryStrings Json.
From S2P Require Import Services Routes Access OrgAccess TenantServices ApiKeys Invites.

#[local] Open Scope Z_scope.

(** ** lib/members/manage.ts *)
Definition isLastOrgAdmin (org user : string) : T bool :=
  r ← ask (SelectAdmins org);
  match error r with
  | Some e => raise_error ("Unable to verify remaining admins: " +:+ error_message e)
  | None => mret (bool_decide (default [] (data r) = [user]))
  end.

(** ** The routes *)
Record Manager := { manager_org : string; manager_user : string; manager_operator : bool }.

Definition not_found_response : response := json_error "Not found" 404.

(** [requireOrgManager]. *)
Definition requireOrgManager (orgIdentifier : string) : T (response + Manager) :=
  user ← gate requireAuthenticatedUser;
  org ← gate (requireOrgId orgIdentifier);
  platformAdmin ← gate isPlatformAdmin;
  canManage ← (if platformAdmin : bool then mret true else gate (isOrgAdmin (user_id user) org));
  if canManage : bool
  then mret (inr {| manager_org := org; manager_user := user_id user; manager_operator := platformAdmin |})
  else mret (inl not_found_response).

Definition member_audit (m : Manager) (action object_type object : string) (after : option json) : T unit :=
  recordAuditEvent
    {| audit_org := Some (manager_org m); actorKind := if manager_operator m then "platform_admin" else "user";
       audit_actor := Some (manager_user m); audit_action := action; objectType := object_type;
       objectId := object; audit_before := None; audit_after := after |}.

Definition last_admin_refusal : response := json_error "The organization needs at least one admin." 409.

(** The role a body asks for; a body that does not parse is [null]. *)
Definition requested_role (body : Thrown + json) : option string :=
  match body with
  | inl _ => None
  | inr b => match jget_str b "role" with
             | Some role => if bool_decide (role ∈ INVITE_ROLES) then Some role else None
             | None => None
             end
  end.

(** The write of either route, and its answer. *)
Definition apply_role (m : Manager) (userId role : string) : T response :=
  r ← ask (UpdateMemberRole (manager_org m) userId role);
  match error r, default [] (data r) with
  | Some e, _ => mret (json_error (error_message e) 500)
  | None, [] => mret (json_error "Membership not found." 404)
  | None, row :: _ =>
      _ ← member_audit m "members.role_set" "member" userId (Some (JObj [("role", JStr role)]));
      mret (json_response (JObj [("membership", row)]))
  end.

Definition PATCH_handler (orgIdentifier userId : string) : T response :=
  unless_answered (requireOrgManager orgIdentifier) (fun m =>
    body ← ask RequestBody;
    match requested_role body with
    | None => mret (json_error "role must be one of: admin, user." 400)
    | Some role =>
        _ ← createServiceRoleSupabaseClient;
        last ← (if bool_decide (role = "admin") then mret false else isLastOrgAdmin (manager_org m) userId);
        if last : bool then mret last_admin_refusal else apply_role m userId role
    end).

Definition PATCH (orgIdentifier userId : string) : T response := route (PATCH_handler orgIdentifier userId).

Definition apply_removal (m : Manager) (userId : string) : T response :=
  r ← ask (DeleteMember (manager_org m) userId);
  match error r, default [] (data r) with
  | Some e, _ => mret (json_error (error_message e) 500)
  | None, [] => mret (json_error "Membership not found." 404)
  | None, _ :: _ =>
      _ ← member_audit m "members.remove" "member" userId None;
      mret no_content
  end.

Definition DELETE_handler (orgIdentifier userId : string) : T response :=
  unless_answered (requireOrgManager orgIdentifier) (fun m =>
    _ ← createServiceRoleSupabaseClient;
    last ← isLastOrgAdmin (manager_org m) userId;
    if last : bool then mret last_admin_refusal else apply_removal m userId).

Definition DELETE (orgIdentifier userId : string) : T response := route (DELETE_handler orgIdentifier userId).

(** What the add route answers with. *)
Definition result_response (r : AddMemberResult) : response :=
  match r with
  | Failed status m => json_error m status
  | Added membership => Response 201 (JObj [("action", JStr "added"); ("membership", membership)])
  | Invited status id role failure url =>
      Response status (JObj [("action", JStr "invited"); ("invitationId", JStr id); ("role", JStr role);
        ("email", match failure with
                  | None => JObj [("sent", JBool true)]
                  | Some reason => JObj [("sent", JBool false); ("reason", JStr reason)]
                  end);
        ("inviteUrl", of_nullable url)])
  end.

(** [requireOrg]: gate the identifier, then fetch the organization. *)
Definition requireOrg (orgIdentifier : string) : T (string * string) :=
  org ← gate (requireOrgId orgIdentifier);
  r ← ask (GetOrg org);
  match r with inl e => Throw (DataSourceError e) | inr o => mret o end.

Definition parsed_body (body : Thrown + json) : Thrown + MemberPayload :=
  match body with inl e => inl e | inr b => parseMemberPayload b end.

Definition POST_handler (orgIdentifier origin : string) : T response :=
  user ← gate requireAuthenticatedUser;
  org ← requireOrg orgIdentifier;
  platformAdmin ← gate isPlatformAdmin;
  canManage ← (if platformAdmin : bool then mret true else gate (isOrgAdmin (user_id user) org.1));
  if negb canManage then mret not_found_response
  else
    body ← ask RequestBody;
    match parsed_body body with
    | inl e => mret (json_error (if thrown_is_error e then thrown_message e else "Invalid member request.") 400)
    | inr payload =>
        _ ← createServiceRoleSupabaseClient;
        result ← addOrInviteMember
          {| in_org := org.1; in_org_name := org.2; in_email := member_email payload;
             in_role := member_role payload; in_invited_by := user_id user; in_origin := origin |};
        _ ← match result with
            | Invited _ id role _ _ =>
                member_audit {| manager_org := org.1; manager_user := user_id user;
                                manager_operator := platformAdmin |}
                  "invites.create" "invite" id
                  (Some (JObj [("email", JStr (member_email payload)); ("role", JStr role)]))
            | _ => mret tt
            end;
        mret (result_response result)
    end.

Definition POST (orgIdentifier origin : string) : T response := route (POST_handler orgIdentifier origin).

(** ** What the events say *)
Implicit Types (tr : list (event tenant_effects)) (u : AuthenticatedUser).

Definition is_member_write (e : event tenant_effects) : bool :=
  match e with Ev (UpdateMemberRole _ _ _) _ | Ev (DeleteMember _ _) _ => true | _ => false end.

Definition unwritten tr : Prop := forall e, e ∈ tr -> is_member_write e = false.

(** Someone entitled to manage the members of the organization [ident] addresses. *)
Definition member_manager tr (ident org : string) : Prop :=
  granted (gate_events tr) ident RoleUser org /\ exists u, signed_in tr u /\ manages tr u org.

(** The member is not the only admin just read. *)
Definition spare_admin tr (org user : string) : Prop :=
  exists r, SelectAdmins org ↣ r ∈ tr /\ error r = None /\ default [] (data r) <> [user].

(** One change of one member: by a manager, and leaving an admin. *)
Definition member_licensed (ident userId : string) tr (c : cmd tenant_effects) : Prop :=
  match c with
  | Gate c => cache_licensed (gate_events tr) c
  | UpdateMemberRole org user role =>
      user = userId /\ unwritten tr /\ member_manager tr ident org /\
      (role = "admin" \/ role = "user" /\ spare_admin tr org user)
  | DeleteMember org user =>
      user = userId /\ unwritten tr /\ member_manager tr ident org /\ spare_admin tr org user
  | RpcRecordAudit e => objectId e = userId /\ ~ unwritten tr
  | c => writes c = false
  end.

(** ** Lemmas *)
Lemma reads_unwritten tr : Forall reads tr -> unwritten tr.
Proof.
  intros H e He. rewrite Forall_forall in H. specialize (H e He). by destruct e as [[] ?].
Qed.

Section change.
Context (ident userId : string).
#[local] Abbreviation I := (on_coherent (member_licensed ident userId)).
#[local] Abbreviation anyhow := (fun (_ : list (event tenant_effects)) (_ : outcome app_error response) => True).

Lemma member_gate tr c : cache_licensed (gate_events tr) c -> I tr (Gate c).
Proof. by intros H _. Qed.

Lemma member_reads tr c : match c with Gate _ => False | _ => writes c = false end -> I tr c.
Proof. intros H _. by destruct c. Qed.

Lemma manager_spec tr :
  spec I (fun tr' o => grown tr tr' /\ match o with
      | Done (inr m) => coherent tenant_reads tr' -> member_manager tr' ident (manager_org m)
      | _ => True end) tr (requireOrgManager ident).
Proof.
  unfold requireOrgManager. apply spec_bind. eapply spec_post; [apply user_step, member_gate|].
  intros tr1 [u|e] [Hg1 Hu]; [|done]. apply spec_bind. eapply spec_post; [apply org_id_step, member_gate|].
  intros tr2 [org|e] [Hg2 Horg]; [|split; [by eapply grown_trans|done]].
  apply spec_bind. eapply spec_post; [apply platform_step, member_gate|].
  assert (forall t, grown tr2 t -> grown tr t) as Hg2' by (intros t ?; eapply grown_trans; [|done]; by eapply grown_trans).
  intros tr3 [platformAdmin|e] [Hg3 Hadmin]; [|split; [auto|done]].
  assert (spec I (fun tr' o => grown tr3 tr' /\ match o with
      | Done true => platformAdmin = true \/
          (coherent tenant_reads tr' -> exists id, granted (gate_events tr') org RoleAdmin id)
      | _ => True end) tr3
    (if platformAdmin then mret true else gate (isOrgAdmin (user_id u) org))) as Hcan.
  { destruct platformAdmin; [exec_cbn; split; [apply grown_refl|by left]|].
    eapply spec_post; [apply org_admin_step, member_gate|]. intros tr' [[|]|e] [Hg H]; auto. }
  apply spec_bind. eapply spec_post; [exact Hcan|].
  intros tr4 [[|]|e] [Hg4 H4]; exec_cbn; (split; [apply Hg2'; by eapply grown_trans|]); [|done..].
  intros Hco. split.
  - apply (granted_mono tr2); [|apply Horg].
    + apply grown_subset. by eapply grown_trans.
    + apply (coherent_mono _ tr4); [|done]. apply grown_subset. by eapply grown_trans.
  - assert (signed_in tr4 u) as Hu4.
    { apply (signed_in_mono tr1); [|done]. apply grown_subset.
      do 2 (eapply grown_trans; [eassumption|]). done. }
    exists u. split; [done|]. apply (managed tr3 tr4 _ _ _ platformAdmin); try done.
    + intros ->. by apply Hadmin.
    + by apply grown_subset.
Qed.

Lemma unwritten_grown tr tr' : grown tr tr' -> unwritten tr -> unwritten tr'.
Proof.
  intros (q & -> & Hq) H e [He|He]%elem_of_app; [auto|]. by apply (reads_unwritten q).
Qed.

Lemma last_admin_step tr org user :
  spec I (fun tr' o => grown tr tr' /\ match o with
      | Done false => spare_admin tr' org user | _ => True end) tr (isLastOrgAdmin org user).
Proof.
  unfold isLastOrgAdmin, raise_error, raise_thrown. exec; [by intros _|..]; (split; [grown|]); [done|].
  case_bool_decide as Hl; [done|]. eexists. split; [in_trace|done].
Qed.

Lemma member_manager_mono tr tr' org : tr ⊆ tr' -> member_manager tr ident org -> member_manager tr' ident org.
Proof.
  intros Hg (? & u & ? & ?). split; [by eapply granted_mono|]. exists u.
  split; [by eapply signed_in_mono|by eapply manages_mono].
Qed.

Lemma spare_admin_mono tr tr' org user : tr ⊆ tr' -> spare_admin tr org user -> spare_admin tr' org user.
Proof. intros Hg (r & ? & ?). exists r. auto. Qed.

(** After the change only the audit follows. *)
Lemma audited tr (m : Manager) action after (k : response) :
  ~ unwritten tr ->
  spec I anyhow tr (_ ← member_audit m action "member" userId after; mret k).
Proof.
  intros Hw. unfold member_audit, recordAuditEvent, answered, raise_thrown. exec; done.
Qed.

Lemma written_snoc tr c x : is_member_write (Ev c x) = true -> ~ unwritten (tr ++ [Ev c x]).
Proof. intros He Hw. assert (Ev c x ∈ tr ++ [Ev c x]) as Hin by in_trace. by rewrite (Hw _ Hin) in He. Qed.

Lemma apply_role_spec tr (m : Manager) role :
  unwritten tr -> (coherent tenant_reads tr -> member_manager tr ident (manager_org m)) ->
  role = "admin" \/ role = "user" /\ spare_admin tr (manager_org m) userId ->
  spec I anyhow tr (apply_role m userId role).
Proof.
  intros Hun Hm Hr. unfold apply_role. exec_cbn. split; [intros Hco; split; [done|split; [done|split; [by apply Hm|done]]]|]. intros r.
  destruct (error r); [done|]. destruct (default [] (data r)); [done|].
  apply audited. by apply written_snoc.
Qed.

Lemma apply_removal_spec tr (m : Manager) :
  unwritten tr -> (coherent tenant_reads tr -> member_manager tr ident (manager_org m)) ->
  spare_admin tr (manager_org m) userId ->
  spec I anyhow tr (apply_removal m userId).
Proof.
  intros Hun Hm Hr. unfold apply_removal. exec_cbn. split; [intros Hco; split; [done|split; [done|split; [by apply Hm|done]]]|]. intros r.
  destruct (error r); [done|]. destruct (default [] (data r)); [done|].
  apply audited. by apply written_snoc.
Qed.

Lemma anyhow_unless {A} (R : list (event tenant_effects) -> A -> Prop) tr (p : T (response + A)) k :
  spec I (fun tr' o => grown tr tr' /\ match o with Done (inr a) => R tr' a | _ => True end) tr p ->
  (forall tr' a, grown tr tr' -> R tr' a -> spec I anyhow tr' (k a)) ->
  spec I anyhow tr (unless_answered p k).
Proof.
  intros Hp Hk. unfold unless_answered. apply spec_bind. eapply spec_post; [exact Hp|].
  intros tr' [[resp|a]|e] [Hg H]; [done|by apply Hk|done].
Qed.

Lemma requested_role_valid body role : requested_role body = Some role -> role = "admin" \/ role = "user".
Proof.
  unfold requested_role. destruct body as [e|b]; [done|]. destruct (jget_str b "role") as [s|]; [|done].
  case_bool_decide as Hin; [|done]. intros [=<-].
  apply elem_of_cons in Hin as [?|Hin]; [by left|right].
  apply elem_of_cons in Hin as [?|Hin]; [done|by apply elem_of_nil in Hin].
Qed.

Lemma PATCH_spec : spec I anyhow [] (PATCH_handler ident userId).
Proof.
  assert (unwritten []) as Hnil by (intros e He; by apply elem_of_nil in He).
  unfold PATCH_handler. eapply anyhow_unless; [apply manager_spec|]. intros tr1 m Hg1 Hm.
  exec_cbn. split; [by intros _|]. intros body. destruct (requested_role body) as [role|] eqn:Hrole; [|done].
  apply requested_role_valid in Hrole. set (tr2 := tr1 ++ _). assert (grown tr1 tr2) as Hg2 by grown. clearbody tr2.
  apply spec_bind. eapply spec_post; [apply service_step; by intros ? _|].
  intros tr3 [[]|e] Hg3; [|done]. apply spec_bind.
  eapply (spec_post I (fun tr' o => grown tr3 tr' /\ match o with
      | Done false => role = "admin" \/ role = "user" /\ spare_admin tr' (manager_org m) userId
      | _ => True end)).
  - case_bool_decide as Hadm; [exec_cbn; split; [apply grown_refl|by left]|].
    eapply spec_post; [apply last_admin_step|]. intros tr' [[|]|e] [Hg H]; (split; [done|]); [done| |done].
    right. split; [by destruct Hrole|done].
  - intros tr4 [[|]|e] [Hg4 H4]; [done| |done].
    assert (grown tr1 tr4) as Hg14 by (do 2 (eapply grown_trans; [eassumption|]); done).
    apply apply_role_spec; [|  |done].
    + eapply unwritten_grown; [|exact Hnil]. by eapply grown_trans.
    + intros Hco. apply (member_manager_mono tr1); [by apply grown_subset|]. apply Hm.
      apply (coherent_mono _ tr4); [by apply grown_subset|done].
Qed.

Lemma DELETE_spec : spec I anyhow [] (DELETE_handler ident userId).
Proof.
  assert (unwritten []) as Hnil by (intros e He; by apply elem_of_nil in He).
  unfold DELETE_handler. eapply anyhow_unless; [apply manager_spec|]. intros tr1 m Hg1 Hm.
  apply spec_bind. eapply spec_post; [apply service_step; by intros ? _|].
  intros tr3 [[]|e] Hg3; [|done]. apply spec_bind. eapply spec_post; [apply last_admin_step|].
  intros tr4 [[|]|e] [Hg4 H4]; [done| |done].
  assert (grown tr1 tr4) as Hg14 by (by eapply grown_trans).
  apply apply_removal_spec; [|  |done].
  - eapply unwritten_grown; [|exact Hnil]. by eapply grown_trans.
  - intros Hco. apply (member_manager_mono tr1); [by apply grown_subset|]. apply Hm.
    apply (coherent_mono _ tr4); [by apply grown_subset|done].
Qed.

Lemma member_licensed_same tr tr' c :
  (forall e, e ∈ tr <-> e ∈ tr') -> member_licensed ident userId tr c -> member_licensed ident userId tr' c.
Proof.
  intros Hsame. assert (tr ⊆ tr') as Hg by (intros e; apply Hsame).
  assert (forall t t', (forall e, e ∈ t <-> e ∈ t') -> unwritten t -> unwritten t') as Hun
    by (intros t t' Hs H e He; by apply H, Hs).
  destruct c; simpl; auto.
  - apply cache_licensed_same. by apply gate_events_same.
  - intros [? H]. split; [done|]. contradict H. by apply (Hun tr').
  - intros (? & ? & ? & H). split; [done|]. split; [by apply (Hun tr)|].
    split; [by eapply member_manager_mono|]. destruct H as [?|[? ?]]; [by left|right].
    split; [done|by eapply spare_admin_mono].
  - intros (? & ? & ? & ?). split; [done|]. split; [by apply (Hun tr)|].
    split; [by eapply member_manager_mono|by eapply spare_admin_mono].
Qed.

(** Either route, as it runs: licensed. *)
Lemma change_licensed (p : T response) :
  spec I anyhow [] p ->
  spec (member_licensed ident userId) anyhow [] (cached tenant_reads (route p)).
Proof.
  intros Hp. apply spec_cached.
  - intros tr tr' c. apply member_licensed_same.
  - done.
  - unfold route. apply spec_try. eapply spec_post; [exact Hp|]. by intros tr [].
Qed.
End change.

(** ** The membership store

    A database as the routes see it: it reads back exactly the admins it holds, a change touches the
    member it names only, and nothing else removes an admin. *)
Section store.
Context {W : Type} (h : handler tenant_effects W) (admins : W -> string -> list string).

Definition changes_member (c : cmd tenant_effects) : bool :=
  match c with UpdateMemberRole _ _ _ | DeleteMember _ _ => true | _ => false end.

Record member_store : Prop := {
  reads_admins : forall w org,
    error (h w (SelectAdmins org)).2 = None -> default [] (data (h w (SelectAdmins org)).2) = admins w org;
  admins_unique : forall w org, NoDup (admins w org);
  role_keeps : forall w org user role org' a, a ∈ admins w org' ->
    org' <> org \/ a <> user \/ role = "admin" -> a ∈ admins (h w (UpdateMemberRole org user role)).1 org';
  removal_keeps : forall w org user org' a, a ∈ admins w org' ->
    org' <> org \/ a <> user -> a ∈ admins (h w (DeleteMember org user)).1 org';
  others_keep : forall w c org a, changes_member c = false ->
    a ∈ admins w org -> a ∈ admins (h w c).1 org;
}.

Hypothesis Hstore : member_store.

Lemma unwritten_keeps tr w w' org a :
  follows h w tr w' -> unwritten tr -> a ∈ admins w org -> a ∈ admins w' org.
Proof.
  revert w. induction tr as [|[c x] tr IH]; intros w Hf Hun Ha; simpl in Hf; [by subst|].
  destruct Hf as [_ Hf]. eapply IH; [exact Hf|intros e He; apply Hun; by right|].
  apply (others_keep Hstore); [|done]. specialize (Hun (Ev c x) ltac:(left)). by destruct c.
Qed.

Lemma another_admin w org user :
  admins w org <> [] -> admins w org <> [user] -> exists a, a ∈ admins w org /\ a <> user.
Proof.
  intros Hne Hone. pose proof (admins_unique Hstore w org) as Hnd.
  destruct (admins w org) as [|a [|b l]] eqn:Hl; [done| |].
  - exists a. split; [left|]. congruence.
  - destruct (decide (a = user)) as [->|]; [|exists a; split; [left|done]].
    exists b. split; [right; left|]. intros ->. apply NoDup_cons in Hnd as [Hnd _]. apply Hnd. left.
Qed.

(** What a spare admin read earlier in the run says of the store now. *)
Lemma spare_now pre w w1 org user :
  follows h w pre w1 -> unwritten pre -> spare_admin pre org user -> admins w org <> [] ->
  exists a, a ∈ admins w1 org /\ a <> user.
Proof.
  intros Hf Hun (r & Hr & He & Hd) Hne. apply list_elem_of_split in Hr as (p1 & p2 & ->).
  apply follows_app in Hf as (wx & Hf1 & Hx & Hf2). simpl in Hx. subst r.
  assert (admins wx org <> [user]) as Hd' by (rewrite <- (reads_admins Hstore wx org He); exact Hd).
  destruct (another_admin wx org user) as (a & Ha & Hne'); [|done|].
  - destruct (admins w org) as [|a l] eqn:Hl; [done|]. assert (a ∈ admins wx org) as Hin.
    { eapply unwritten_keeps; [exact Hf1|intros e He'; apply Hun, elem_of_app; by left|].
      rewrite Hl. left. }
    intros Hnil. rewrite Hnil in Hin. by apply elem_of_nil in Hin.
  - exists a. split; [|done]. eapply unwritten_keeps; [exact Hf2| |].
    + intros e He'. apply Hun, elem_of_app. right. by right.
    + by apply (others_keep Hstore).
Qed.

Lemma first_write tr : unwritten tr \/
  exists pre e post, tr = pre ++ e :: post /\ unwritten pre /\ is_member_write e = true.
Proof.
  induction tr as [|e tr IH]; [left; intros e He; by apply elem_of_nil in He|].
  destruct (is_member_write e) eqn:Hw.
  { right. exists [], e, tr. split; [done|]. split; [|done]. intros x Hx. by apply elem_of_nil in Hx. }
  destruct IH as [Hun|(pre & x & post & -> & Hun & Hx)].
  - left. intros x [->|Hx]%elem_of_cons; auto.
  - right. exists (e :: pre), x, post. split; [done|]. split; [|done].
    intros y [->|Hy]%elem_of_cons; auto.
Qed.

(** One licensed run leaves an admin. *)
Lemma change_keeps ident userId (p : T response) w org :
  spec (member_licensed ident userId) (fun _ _ => True) [] p ->
  admins w org <> [] -> admins (run h p w).2 org <> [].
Proof.
  intros Hp Hne. pose proof (run_follows h p w) as Hf.
  assert (forall w1, (exists a, a ∈ admins w1 org) -> admins w1 org <> []) as Hsome.
  { intros w1 [a Ha] Hnil. rewrite Hnil in Ha. by apply elem_of_nil in Ha. }
  assert (exists a, a ∈ admins w org) as [a0 Ha0].
  { destruct (admins w org) as [|a l]; [done|]. exists a. left. }
  destruct (first_write (run h p w).1.2) as [Hun|(pre & [c x] & post & Htr & Hun & Hw)].
  { apply Hsome. exists a0. by eapply unwritten_keeps. }
  pose proof (spec_run_licensed h _ _ _ _ w pre c x post Hp Htr) as Hc. simpl in Hc.
  assert (unwritten post) as Hpost.
  { intros e He. apply list_elem_of_split in He as (q1 & q2 & ->). destruct (is_member_write e) eqn:Hwe; [|done].
    destruct e as [c' x']. assert ((run h p w).1.2 = (pre ++ Ev c x :: q1) ++ Ev c' x' :: q2) as Htr'
      by (rewrite Htr; by rewrite <- app_assoc).
    pose proof (spec_run_licensed h _ _ _ _ w _ c' x' q2 Hp Htr') as Hc'. simpl in Hc'.
    assert (unwritten (pre ++ Ev c x :: q1)) as Hbad by (destruct c'; try discriminate Hwe; simpl in Hc'; tauto).
    assert (@Ev tenant_effects c x ∈ pre ++ Ev c x :: q1) as Hin by (apply elem_of_app; right; left).
    rewrite (Hbad _ Hin) in Hw. done. }
  rewrite Htr in Hf. apply follows_app in Hf as (w1 & Hf1 & _ & Hf2). apply Hsome.
  assert (exists a, a ∈ admins (h w1 c).1 org) as [a Ha]; [|exists a; by eapply unwritten_keeps].
  assert (a0 ∈ admins w1 org) as Ha1 by (by eapply unwritten_keeps).
  destruct c; try discriminate Hw; simpl in Hc.
  - destruct (decide (org = org0)) as [->|]; [|exists a0; apply (role_keeps Hstore); auto].
    destruct Hc as (_ & _ & _ & [->|[_ Hs]]); [exists a0; apply (role_keeps Hstore); auto|].
    destruct (spare_now _ _ _ _ _ Hf1 Hun Hs Hne) as (a & Ha & Hau). exists a. apply (role_keeps Hstore); auto.
  - destruct (decide (org = org0)) as [->|]; [|exists a0; apply (removal_keeps Hstore); auto].
    destruct Hc as (_ & _ & _ & Hs).
    destruct (spare_now _ _ _ _ _ Hf1 Hun Hs Hne) as (a & Ha & Hau). exists a. apply (removal_keeps Hstore); auto.
Qed.

Inductive member_request := SetRole (ident userId : string) | Remove (ident userId : string).

Definition member_route (q : member_request) : T response :=
  match q with
  | SetRole ident userId => cached tenant_reads (PATCH ident userId)
  | Remove ident userId => cached tenant_reads (DELETE ident userId)
  end.

(** Requests served one after the other. *)
Definition serve (requests : list member_request) (w : W) : W :=
  foldl (fun w q => (run h (member_route q) w).2) w requests.
End store.

(** ** Properties *)

(** Members change only at the hands of a manager: for every answer of the services, a role change or
    a removal is issued at most once per request, for the member the path names, in the
    organization the identifier addresses, by a signed-in caller who is a platform admin or an admin
    of it; and, unless it makes an admin, only after the organization's admins were read and were
    not that member alone. *)
Theorem member_changes_licensed ident userId :
  spec (member_licensed ident userId) (fun _ _ => True) [] (member_route (SetRole ident userId)) /\
  spec (member_licensed ident userId) (fun _ _ => True) [] (member_route (Remove ident userId)).
Proof. split; apply change_licensed; [apply PATCH_spec|apply DELETE_spec]. Qed.

(** C22. An organization keeps an admin: whatever role changes and removals are requested, served one
    after the other, an organization that has an admin still has one. *)
Theorem organization_keeps_admin {W} (h : handler tenant_effects W) admins requests w org :
  member_store h admins -> admins w org <> [] -> admins (serve h requests w) org <> [].
Proof.
  intros Hstore. unfold serve. revert w. induction requests as [|q requests IH]; intros w Hw; simpl; [done|].
  apply IH. destruct q as [ident userId|ident userId]; eapply change_keeps; try done;
    apply change_licensed; [apply PATCH_spec|apply DELETE_spec].
Qed.

(** ** A concrete store: the admins of organization ["o1"], whose admin ["u1"] signs every request *)
Module Demo.
Definition handle : handler tenant_effects (list string) :=
  fun w c =>
    (match c with
     | UpdateMemberRole "o1" user role =>
         if bool_decide (role = "admin") then (if bool_decide (user ∈ w) then w else w ++ [user])
         else filter (fun a => a <> user) w
     | DeleteMember "o1" user => filter (fun a => a <> user) w
     | _ => w
     end,
     match c return tenant_ans c with
     | SelectAdmins org => db_ok (if bool_decide (org = "o1") then remove_dups w else [])
     | UpdateMemberRole _ user role => db_ok [JObj [("user_id", JStr user); ("role", JStr role)]]
     | DeleteMember _ user => db_ok [JObj [("user_id", JStr user)]]
     | RequestBody => inr (JObj [("role", JStr "user")])
     | c => (ApiKeys.Demo.handle (ApiKeys.Demo.World None []) c).2
     end).

Definition admins (w : list string) (org : string) : list string :=
  if bool_decide (org = "o1") then remove_dups w else [].

Lemma admins_elem w org a : a ∈ admins w org <-> org = "o1" /\ a ∈ w.
Proof.
  unfold admins. case_bool_decide; [rewrite elem_of_remove_dups; naive_solver|].
  split; [intros []%elem_of_nil|naive_solver].
Qed.

Lemma store : member_store handle admins.
Proof.
  split.
  - done.
  - intros w org. unfold admins. case_bool_decide; [apply NoDup_remove_dups|constructor].
  - intros w org user role org' a [-> Ha]%admins_elem Hk. apply admins_elem. split; [done|]. simpl.
    assert (org = "o1" \/ org <> "o1") as [->|Ho] by (destruct (decide (org = "o1")); auto).
    + case_bool_decide; [case_bool_decide; [done|apply elem_of_app; by left]|].
      apply list_elem_of_filter. split; [naive_solver|done].
    + repeat (case_match; try done).
  - intros w org user org' a [-> Ha]%admins_elem Hk. apply admins_elem. split; [done|]. simpl.
    assert (org = "o1" \/ org <> "o1") as [->|Ho] by (destruct (decide (org = "o1")); auto).
    + apply list_elem_of_filter. split; [naive_solver|done].
    + repeat (case_match; try done).
  - intros w c org a Hc [-> Ha]%admins_elem. apply admins_elem. split; [done|]. by destruct c.
Qed.
End Demo.

Lemma organization_keeps_admin_witness :
  Demo.admins (serve Demo.handle [Remove "acme" "u2"; SetRole "acme" "u1"; Remove "o1" "u1"] ["u1"; "u2"]) "o1"
    <> [].
Proof.
  apply (organization_keeps_admin Demo.handle Demo.admins
    [Remove "acme" "u2"; SetRole "acme" "u1"; Remove "o1" "u1"] ["u1"; "u2"] "o1").
  - exact Demo.store.
  - vm_compute. discriminate.
Defined.

(** Served together they may not: two removals that both read the two admins before either deletes
    leave the organization with none. [reading n] gives each request its first [n] commands. *)
Definition reading (n : nat) : list nat := repeat 0%nat n ++ repeat 1%nat n.

Theorem concurrent_removals_leave_none :
  (pool Demo.handle (["u1"; "u2"], [member_route (Remove "o1" "u2"); member_route (Remove "o1" "u1")])
     (reading 16 ++ [0; 1; 0; 1]%nat)).1 = [].
Proof. vm_compute. reflexivity. Qed.
