(* ===== verification/Catalog.v ===== *)
(** * The models catalog (lib/models-catalog/, components/models-catalog/filtering.ts)

    The catalog's vocabulary and the pure decisions every catalog surface shares: brand families,
    serving lanes, cheapest prices, promotions and their chips, and the storefront's filters. *)

From S2P Require Import Prelude JsMap JsString JsSort JsDate JsNumber Url Json.

#[local] Open Scope Z_scope.

(** ** lib/models-catalog/types.ts: the fields the decisions read *)
Record CatalogModel := {
  model_id : string;
  slug : string;
  display_name : string;
  icon : option string;
  release_date : option string;
  context_window : option Z;
  max_output_tokens : option Z;
  input_modalities : list string;
  supported_params : list (string * json);
  category : option string;
  tags : list string;
}.

Record CatalogDeployment := {
  provider : string;
  provider_model_id : string;
  owning_org_id : option string;
  billing_source : string;
  input_micro : option Z;
  cached_input_micro : option Z;
  output_micro : option Z;
  throughput_tps : option Z;
  status : string;
}.

Record CatalogEntry := { model : CatalogModel; providers : list CatalogDeployment }.

Record ModelPromotion := {
  promo_slugs : list string;
  display_order : Z;
  promo_free : bool;
  percent_off : number;
  promo_providers : list string;
}.

#[export] Instance CatalogModel_eq_dec : EqDecision CatalogModel.
Proof. solve_decision. Defined.
#[export] Instance CatalogDeployment_eq_dec : EqDecision CatalogDeployment.
Proof. solve_decision. Defined.
#[export] Instance CatalogEntry_eq_dec : EqDecision CatalogEntry.
Proof. solve_decision. Defined.
#[export] Instance ModelPromotion_eq_dec : EqDecision ModelPromotion.
Proof. solve_decision. Defined.

(** ** lib/models-catalog/families.ts *)

(** One alternative of a rule: a literal, with a word boundary required before it, after it, or not. *)
Record pattern := Pat { bound_before : bool; literal : string; bound_after : bool }.

Definition word_char (a : ascii) : bool := alnum a || bool_decide (a = "_"%char).

Definition head_word (s : string) : bool := match s with String a _ => word_char a | EmptyString => false end.

Fixpoint last_word (s : string) : bool :=
  match s with
  | EmptyString => false
  | String a EmptyString => word_char a
  | String _ s => last_word s
  end.

(** The pattern matches somewhere in [s]; [prev] tells whether a word character precedes [s]. *)
Fixpoint pattern_in (p : pattern) (prev : bool) (s : string) : bool :=
  ((negb (bound_before p) || xorb prev (head_word s)) && starts_with (literal p) s &&
   (negb (bound_after p) || xorb (last_word (literal p)) (head_word (str_drop (String.length (literal p)) s))))
  || match s with String a s' => pattern_in p (word_char a) s' | EmptyString => false end.

Definition test_rule (ps : list pattern) (s : string) : bool := existsb (fun p => pattern_in p false s) ps.

Definition free (s : string) : pattern := Pat false s false.
Definition from_ (s : string) : pattern := Pat true s false.
Definition word (s : string) : pattern := Pat true s true.

Definition FAMILY_LABELS : list (string * string) :=
  [("anthropic", "Claude"); ("openai", "GPT"); ("google", "Gemini"); ("qwen", "Qwen"); ("deepseek", "DeepSeek");
   ("moonshot", "Kimi"); ("meta", "Llama"); ("mistral", "Mistral"); ("zai", "GLM"); ("xai", "Grok");
   ("cohere", "Cohere"); ("amazon", "Amazon"); ("microsoft", "Microsoft"); ("nvidia", "NVIDIA");
   ("perplexity", "Perplexity"); ("nous", "Nous"); ("minimax", "MiniMax"); ("baidu", "Baidu");
   ("bytedance", "ByteDance"); ("ai21", "AI21"); ("jais", "Jais"); ("stability", "Stability");
   ("voyage", "Voyage"); ("writer", "Writer"); ("luma", "Luma"); ("twelvelabs", "TwelveLabs");
   ("stepfun", "StepFun"); ("upstage", "Solar"); ("allenai", "Molmo"); ("blackforest", "FLUX");
   ("thinkingmachines", "Thinking Machines"); ("fireworks", "Fireworks"); ("openrouter", "Other")].

Definition FAMILY_RULES : list (string * list pattern) :=
  [("anthropic", [word "claude"]);
   ("deepseek", [from_ "deepseek"]);
   ("moonshot", [word "kimi"; free "moonshot"]);
   ("zai", [word "glm"; free "z-ai"; free "zhipu"]);
   ("qwen", [from_ "qwen"; word "qwq"]);
   ("google", [from_ "gemini"; free "gemma"]);
   ("nous", [word "nous"]);
   ("meta", [from_ "llama"; word "meta"]);
   ("mistral", [free "mistral"; free "mixtral"; free "codestral"; free "devstral"; free "ministral"]);
   ("cohere", [word "cohere"; free "command-r"; free "command-a"]);
   ("ai21", [word "ai21"; free "jamba"]);
   ("jais", [word "jais"]);
   ("stability", [from_ "stable"; free "stability"; word "sd3"]);
   ("amazon", [word "nova"; from_ "titan"; word "amazon"]);
   ("nvidia", [free "nemotron"; word "nvidia"]);
   ("microsoft", [from_ "phi"; word "mai"; free "mai-"; free "microsoft"]);
   ("minimax", [free "minimax"]);
   ("baidu", [word "ernie"; free "paddleocr"; word "baidu"]);
   ("bytedance", [from_ "seed"; free "bytedance"]);
   ("writer", [free "palmyra"; word "writer"]);
   ("voyage", [word "voyage"]);
   ("luma", [word "luma"]);
   ("twelvelabs", [free "twelvelabs"; free "marengo"]);
   ("stepfun", [free "stepfun"; word "step"]);
   ("upstage", [word "solar"; free "upstage"]);
   ("sakana", [word "sakana"]);
   ("allenai", [from_ "molmo"; word "olmo"; free "allenai"]);
   ("xai", [from_ "grok"]);
   ("blackforest", [from_ "flux"]);
   ("thinkingmachines", [word "inkling"]);
   ("openai", [from_ "gpt"; word "codex"; word "o1"; word "o3"; word "o4"; free "dall-e"; free "dalle"; word "sora";
               word "whisper"; word "davinci"; word "curie"; word "babbage"; word "ada"; free "text-embedding";
               free "text-search"; free "text-similarity"; free "computer-use"; free "model-router"; free "aoai"]);
   ("fireworks", [free "firefunction"; free "firesearch"; free "firellava"])].

Record ModelFamily := { family_key : string; family_label : string }.

Definition upper_ascii (a : ascii) : ascii :=
  let n := N_of_ascii a in if decide (97 <= n <= 122)%N then ascii_of_N (n - 32) else a.

Definition labelFor (key : string) : string :=
  match mget FAMILY_LABELS key with
  | Some l => l
  | None => match key with String a s => String (upper_ascii a) s | EmptyString => EmptyString end
  end.

(** The characters before the first white space. *)
Fixpoint first_token (s : string) : string :=
  match s with
  | EmptyString => EmptyString
  | String a s => if is_space a then EmptyString else String a (first_token s)
  end.

Definition nameFamily (m : CatalogModel) : ModelFamily :=
  let first := first_token (trim (display_name m)) in
  if bool_decide (first = EmptyString) then {| family_key := "other"; family_label := "Other" |}
  else {| family_key := "name:" +:+ to_lower first; family_label := first |}.

Definition model_haystack (m : CatalogModel) : string := to_lower (display_name m +:+ " " +:+ slug m).

Definition familyForModel (m : CatalogModel) : ModelFamily :=
  match present (trim <$> icon m) with
  | Some key => {| family_key := key; family_label := labelFor key |}
  | None =>
      match find_first (fun rule => test_rule rule.2 (model_haystack m)) FAMILY_RULES with
      | Some rule => {| family_key := rule.1; family_label := labelFor rule.1 |}
      | None => nameFamily m
      end
  end.

Definition modelFamily (e : CatalogEntry) : ModelFamily := familyForModel (model e).
Definition modelIconKey (m : CatalogModel) : string := family_key (familyForModel m).
Definition modelFamilyKey (e : CatalogEntry) : string := family_key (modelFamily e).
Definition sameFamily (a b : CatalogEntry) : bool := bool_decide (modelFamilyKey a = modelFamilyKey b).

Definition PROPRIETARY_FAMILIES : list string := ["anthropic"; "openai"; "google"; "xai"; "amazon"; "perplexity"].

Definition isSelfHostable (m : CatalogModel) : bool :=
  if pattern_in (word "gemma") false (model_haystack m) then true
  else negb (bool_decide (family_key (familyForModel m) ∈ PROPRIETARY_FAMILIES)).

Definition sample (name_ slug_ : string) (icon_ : option string) : CatalogModel :=
  {| model_id := slug_; slug := slug_; display_name := name_; icon := icon_; release_date := None;
     context_window := None; max_output_tokens := None; input_modalities := []; supported_params := [];
     category := None; tags := [] |}.

Example families :
  map (fun m => family_key (familyForModel m))
    [sample "Claude Sonnet" "bedrock-anthropic.claude" None; sample "Hermes 3 Llama" "nous-hermes" None;
     sample "GPT-5" "azure_openai-gpt-5" None; sample "Cohere Embed" "azure_openai-embed" None;
     sample "  Acme One" "acme" None; sample "X" "x" (Some " openai ")] =
  ["anthropic"; "nous"; "openai"; "cohere"; "name:acme"; "openai"] /\
  map isSelfHostable [sample "Gemma 3" "gemma-3" None; sample "Gemini" "gemini" None; sample "Qwen" "qwen" None] =
  [true; false; true].
Proof. by vm_compute. Qed.

(** ** lib/models-catalog/serving.ts *)
Inductive ServingLane := Experiential | Byok | LocalLane.

Definition isHostServed (d : CatalogDeployment) : bool :=
  bool_decide (billing_source d = "host_managed") && bool_decide (status d = "active") &&
  bool_decide (owning_org_id d = None).

Definition pinExperientialCloudFirst (l : list CatalogDeployment) : list CatalogDeployment :=
  let leading := filter (fun d => provider d = "experiential_cloud") l in
  if bool_decide (leading = []) then l
  else leading ++ filter (fun d => provider d <> "experiential_cloud") l.

Definition servingLane (d : CatalogDeployment) : ServingLane :=
  if isHostServed d then Experiential
  else if bool_decide (provider d = "local") then LocalLane else Byok.

Definition servedThroughExperiential (l : list CatalogDeployment) : bool := existsb isHostServed l.

Definition requiresOwnKey (e : CatalogEntry) : bool :=
  bool_decide (0 < length (providers e))%nat && negb (servedThroughExperiential (providers e)).

(** ** lib/models-catalog/format.ts: the figures *)
Definition PROVIDER_LABELS : list (string * string) :=
  [("openai", "OpenAI"); ("anthropic", "Anthropic"); ("gemini", "Gemini"); ("azure_openai", "Azure Foundry");
   ("openrouter", "OpenRouter"); ("bedrock", "Bedrock"); ("local", "Local"); ("fireworks", "Fireworks");
   ("modal", "Modal"); ("experiential_cloud", "Experiential Cloud")].

Definition providerLabel (p : string) : string := default p (mget PROVIDER_LABELS p).

(** [Math.min(...l)] and [Math.max(...l)] of a list that is not empty. *)
Definition minimum (x : Z) (l : list Z) : Z := foldl Z.min x l.
Definition maximum (x : Z) (l : list Z) : Z := foldl Z.max x l.

Definition minKnown (l : list (option Z)) : option Z :=
  match omap id l with [] => None | x :: known => Some (minimum x known) end.

Definition maxKnown (l : list (option Z)) : option Z :=
  match omap id l with [] => None | x :: known => Some (maximum x known) end.

Definition hasCacheDiscount (d : CatalogDeployment) : bool :=
  match input_micro d, cached_input_micro d with
  | Some input, Some cached => bool_decide (cached < input)
  | _, _ => false
  end.

Definition cheapestInputMicro (e : CatalogEntry) : option Z := minKnown (map input_micro (providers e)).
Definition cheapestOutputMicro (e : CatalogEntry) : option Z := minKnown (map output_micro (providers e)).
Definition bestThroughput (e : CatalogEntry) : option Z := maxKnown (map throughput_tps (providers e)).

(** ** lib/models-catalog/promotions.ts *)
Inductive PromoChip :=
| FreeChip (lanes : list string)
| PercentChip (percent : number) (lanes : list string).

Definition chip_lanes (c : PromoChip) : list string :=
  match c with FreeChip l | PercentChip _ l => l end.

(** A finite number in units of 2^-1074, the order of which is the numbers' own. *)
Definition number_key (x : number) : Z :=
  match Prim2SF x with
  | S754_finite s m e => (if s then -1 else 1) * Z.pos m * 2 ^ (e + 1074)
  | _ => 0
  end.

(** The two comparators: of a difference of numbers only the sign counts. *)
Definition by_percent (a b : ModelPromotion) : Z :=
  cmp_or (by_key_desc (fun p => number_key (percent_off p)) a b) (by_key display_order a b).

Definition rankPromosForSlug (promos : list ModelPromotion) : option PromoChip :=
  match js_sort (by_key display_order) (filter (fun p => promo_free p = true) promos) with
  | p :: _ => Some (FreeChip (promo_providers p))
  | [] =>
      match js_sort by_percent (filter (fun p => PrimFloat.ltb PrimFloat.zero (percent_off p) = true) promos) with
      | p :: _ => Some (PercentChip (percent_off p) (promo_providers p))
      | [] => None
      end
  end.

(** [Math.round(micro * (1 - percent_off / 100))]. *)
Definition discounted (percent : number) (micro : Z) : Z :=
  default 0 (math_round (number_of_Z micro * (1 - percent / 100))%float).

Definition promoEffectiveMicro (chip : option PromoChip) (micro : option Z) : option Z :=
  match chip, micro with
  | Some (FreeChip _), Some _ => Some 0
  | Some (PercentChip percent _), Some m => Some (discounted percent m)
  | _, _ => micro
  end.

Record PricedLane := { lane_provider : string; lane_micro : option Z }.

(** The list price and the effective one. *)
Definition promoEffectivePrice (chip : option PromoChip) (lanes : list PricedLane) : option Z * option Z :=
  let list_price := minKnown (map lane_micro lanes) in
  match chip, list_price with
  | Some c, Some l =>
      if bool_decide (chip_lanes c = []) then (list_price, promoEffectiveMicro chip list_price)
      else
        let covered := minKnown (map lane_micro (filter (fun x => lane_provider x ∈ chip_lanes c) lanes)) in
        (list_price,
         match promoEffectiveMicro chip covered with
         | None => list_price
         | Some d => Some (Z.min l d)
         end)
  | _, _ => (list_price, list_price)
  end.

(** Each slug's promotions, in order. *)
Definition promosBySlug (promotions : list ModelPromotion) : list (string * list ModelPromotion) :=
  accumulate fst (fun l a => l ++ [a.2]) []
    (flat_map (fun p => map (fun s => (s, p)) (promo_slugs p)) promotions).

Definition promoChipsBySlug (promotions : list ModelPromotion) : list (string * PromoChip) :=
  foldl (fun chips kv => match rankPromosForSlug kv.2 with Some c => mset chips kv.1 c | None => chips end)
    [] (promosBySlug promotions).

(** ** components/models-catalog/filtering.ts *)
Record CatalogFilterState := {
  query : string;
  modalities : list string;
  filter_providers : list string;
  params_required : list string;
  filter_category : option string;
  minContext : option Z;
  maxInputMicro : option Z;
  discountsOnly : bool;
  maxAgeDays : option Z;
}.

Definition EMPTY_FILTERS : CatalogFilterState :=
  {| query := EmptyString; modalities := []; filter_providers := []; params_required := []; filter_category := None;
     minContext := None; maxInputMicro := None; discountsOnly := false; maxAgeDays := None |}.

Definition one_if (b : bool) : nat := if b then 1%nat else 0%nat.

Definition countActiveFilters (state : CatalogFilterState) : nat :=
  (one_if (truthy (trim (query state))) + length (modalities state) + length (filter_providers state) +
   length (params_required state) + one_if (bool_decide (filter_category state <> None)) +
   one_if (bool_decide (minContext state <> None)) + one_if (bool_decide (maxInputMicro state <> None)) +
   one_if (discountsOnly state) + one_if (bool_decide (maxAgeDays state <> None)))%nat.

Record RouteRow := { row_entry : CatalogEntry; row_deployment : CatalogDeployment }.

Definition search_haystack (e : CatalogEntry) : string :=
  to_lower (join " " ([display_name (model e); slug (model e); default EmptyString (category (model e))] ++
                      tags (model e) ++ map (fun d => providerLabel (provider d)) (providers e) ++
                      map provider_model_id (providers e))).

(** [ageDays > cap], the age a float; a release date that is no date has age [NaN], which passes. *)
Definition too_old (release_date : string) (now cap : Z) : bool :=
  match parse_timestamp (release_date +:+ "T00:00:00Z") with
  | Some released => PrimFloat.ltb (number_of_Z cap) (number_of_Z (now - released) / 86400000)%float
  | None => false
  end.

Definition entryMatches (e : CatalogEntry) (state : CatalogFilterState) (now : Z) : bool :=
  let m := model e in
  let q := to_lower (trim (query state)) in
  if truthy q && negb (includes q (search_haystack e)) then false
  else if existsb (fun x => negb (bool_decide (x ∈ input_modalities m))) (modalities state) then false
  else if negb (bool_decide (filter_providers state = [])) &&
          negb (existsb (fun d => bool_decide (provider d ∈ filter_providers state)) (providers e)) then false
  else if existsb (fun p => negb (bool_decide (mget (supported_params m) p = Some (JBool true)))) (params_required state)
  then false
  else if bool_decide (filter_category state <> None) && negb (bool_decide (category m = filter_category state)) then false
  else if match minContext state, context_window m with
          | Some _, None => true
          | Some lo, Some w => bool_decide (w < lo)
          | None, _ => false
          end then false
  else if match maxInputMicro state, cheapestInputMicro e with
          | Some _, None => true
          | Some cap, Some cheapest => bool_decide (cap < cheapest)
          | None, _ => false
          end then false
  else if discountsOnly state && negb (existsb hasCacheDiscount (providers e)) then false
  else match maxAgeDays state, release_date m with
       | Some _, None => false
       | Some cap, Some date => negb (too_old date now cap)
       | None, _ => true
       end.

Definition filterEntries (entries : list CatalogEntry) (state : CatalogFilterState) (now : Z) : list CatalogEntry :=
  filter (fun e => entryMatches e state now = true) entries.

(** The two [continue]s of the row loop. *)
Definition shows_route (state : CatalogFilterState) (d : CatalogDeployment) : bool :=
  negb (negb (bool_decide (filter_providers state = [])) && negb (bool_decide (provider d ∈ filter_providers state))) &&
  negb (discountsOnly state && negb (hasCacheDiscount d)).

Definition filterRoutes (entries : list CatalogEntry) (state : CatalogFilterState) (now : Z) : list RouteRow :=
  flat_map (fun e => map (fun d => {| row_entry := e; row_deployment := d |})
                         (filter (fun d => shows_route state d = true) (pinExperientialCloudFirst (providers e))))
    (filterEntries entries state now).

Definition catalogCategories (entries : list CatalogEntry) : list string :=
  js_sort str_cmp (js_set (omap (fun e => category (model e)) entries)).

Definition catalogProviders (entries : list CatalogEntry) : list string :=
  js_sort str_cmp (js_set (flat_map (fun e => map provider (providers e)) entries)).

Definition throughputSortValue : CatalogEntry -> option Z := bestThroughput.

Definition lane (p : string) (input cached : option Z) : CatalogDeployment :=
  {| provider := p; provider_model_id := p +:+ "/m"; owning_org_id := None; billing_source := "host_managed";
     input_micro := input; cached_input_micro := cached; output_micro := None; throughput_tps := None;
     status := "active" |}.

Definition with_query (q : string) : CatalogFilterState :=
  {| query := q; modalities := []; filter_providers := []; params_required := []; filter_category := None;
     minContext := None; maxInputMicro := Some 300; discountsOnly := true; maxAgeDays := None |}.

Example filtering :
  let e := {| model := sample "GPT-5" "gpt-5" None;
              providers := [lane "azure_openai" (Some 500) None; lane "openai" (Some 900) (Some 90);
                            lane "experiential_cloud" (Some 250) (Some 25)] |} in
  map (fun r => provider (row_deployment r)) (filterRoutes [e] (with_query " OpenAI ") 0) = ["experiential_cloud"; "openai"] /\
  filterRoutes [e] (with_query "anthropic") 0 = [] /\ countActiveFilters (with_query " x ") = 3%nat /\
  catalogProviders [e] = ["azure_openai"; "experiential_cloud"; "openai"].
Proof. by vm_compute. Qed.

(** ** Lemmas *)
Lemma foldl_min_spec x l :
  (minimum x l = x \/ minimum x l ∈ l) /\ minimum x l <= x /\ forall y, y ∈ l -> minimum x l <= y.
Proof.
  unfold minimum. revert x. induction l as [|y l IH]; intros x; simpl.
  { split_and!; [by left|lia|set_solver]. }
  destruct (IH (Z.min x y)) as (Hin & Hle & Hall). split_and!; [|lia|].
  - destruct Hin as [->|?]; [|set_solver]. destruct (Z.min_spec x y) as [[_ ->]|[_ ->]]; set_solver.
  - intros z [->|Hz]%elem_of_cons; [lia|auto].
Qed.

Lemma minKnown_Some l m : minKnown l = Some m <-> Some m ∈ l /\ forall x, Some x ∈ l -> m <= x.
Proof.
  assert (forall x, Some x ∈ l <-> x ∈ omap id l) as Hin.
  { intros x. rewrite list_elem_of_omap. unfold id. naive_solver. }
  unfold minKnown. setoid_rewrite Hin. destruct (omap id l) as [|y known]; [set_solver|].
  destruct (foldl_min_spec y known) as (Hmem & Hle & Hall). split.
  - intros [= <-]. split; [destruct Hmem as [->|?]; set_solver|].
    intros x [->|Hx]%elem_of_cons; auto.
  - intros [Hm Hmin]. f_equal. apply Z.le_antisymm.
    + apply elem_of_cons in Hm as [->|Hm]; auto.
    + apply Hmin. destruct Hmem as [->|?]; set_solver.
Qed.

Lemma minKnown_None l : minKnown l = None <-> forall x, Some x ∉ l.
Proof.
  split.
  - unfold minKnown. destruct (omap id l) as [|y known] eqn:E; [|done]. intros _ x Hx.
    assert (x ∈ omap id l) as Hx' by (apply list_elem_of_omap; by exists (Some x)).
    rewrite E in Hx'. set_solver.
  - intros Hnone. destruct (minKnown l) eqn:E; [|done]. apply minKnown_Some in E as [Hm _]. by apply Hnone in Hm.
Qed.

Lemma pin_cloud_elem l d : d ∈ pinExperientialCloudFirst l <-> d ∈ l.
Proof.
  unfold pinExperientialCloudFirst. case_bool_decide; [done|].
  rewrite elem_of_app, !list_elem_of_filter. destruct (decide (provider d = "experiential_cloud")); naive_solver.
Qed.

Lemma shows_route_spec state d :
  shows_route state d = true <->
  (filter_providers state = [] \/ provider d ∈ filter_providers state) /\
  (discountsOnly state = true -> hasCacheDiscount d = true).
Proof.
  unfold shows_route. destruct (discountsOnly state), (hasCacheDiscount d); simpl;
    repeat case_bool_decide; simpl; naive_solver.
Qed.

(** What the ranking picks, without sorting: the best free promotion, or else the best discount. *)
Definition best_chip (promos : list ModelPromotion) : option PromoChip :=
  match first_best (by_key display_order) (filter (fun p => promo_free p = true) promos) with
  | Some p => Some (FreeChip (promo_providers p))
  | None =>
      match first_best by_percent (filter (fun p => PrimFloat.ltb PrimFloat.zero (percent_off p) = true) promos) with
      | Some p => Some (PercentChip (percent_off p) (promo_providers p))
      | None => None
      end
  end.

#[export] Instance by_percent_comparator : Comparator by_percent.
Proof. unfold by_percent. apply cmp_or_comparator; apply _. Qed.

Lemma rank_best promos : rankPromosForSlug promos = best_chip promos.
Proof. unfold rankPromosForSlug, best_chip. rewrite <- !head_sort by apply _. by repeat destruct (js_sort _ _). Qed.

Definition covers (s : string) (p : ModelPromotion) : nat := length (filter (fun x => x = s) (promo_slugs p)).

Lemma covers_elem s p : s ∈ promo_slugs p <-> covers s p <> 0%nat.
Proof.
  unfold covers. induction (promo_slugs p) as [|x l IH]; [set_solver|].
  rewrite filter_cons. case_decide; set_solver.
Qed.

Lemma filter_repeat {A} (P : A -> Prop) `{forall x, Decision (P x)} (n : A -> nat) l :
  filter P (flat_map (fun x => repeat x (n x)) l) = flat_map (fun x => repeat x (n x)) (filter P l).
Proof.
  induction l as [|x l IH]; simpl; [done|]. rewrite filter_app, IH, filter_cons. case_decide.
  - simpl. f_equal. induction (n x) as [|k IHk]; simpl; [done|]. by rewrite filter_cons, decide_True, IHk.
  - induction (n x) as [|k IHk]; simpl; [done|]. by rewrite filter_cons, decide_False.
Qed.

Lemma best_chip_repeat (n : ModelPromotion -> nat) promos : (forall p, p ∈ promos -> n p <> 0%nat) ->
  best_chip (flat_map (fun p => repeat p (n p)) promos) = best_chip promos.
Proof.
  intros Hn. unfold best_chip. rewrite !filter_repeat, !first_best_repeat; [done|..];
    intros p Hp; apply list_elem_of_filter in Hp as [_ Hp]; auto.
Qed.

Lemma foldl_snoc_map {A B} (f : A -> B) l acc : foldl (fun r a => r ++ [f a]) acc l = acc ++ map f l.
Proof. revert acc. induction l as [|a l IH]; intros acc; simpl; [by rewrite app_nil_r|]. by rewrite IH, <- app_assoc. Qed.

Lemma slug_pairs s promotions :
  map snd (filter (fun a => a.1 = s) (flat_map (fun p => map (fun x => (x, p)) (promo_slugs p)) promotions)) =
  flat_map (fun p => repeat p (covers s p)) promotions.
Proof.
  induction promotions as [|p l IH]; simpl; [done|]. rewrite filter_app, map_app, IH. f_equal. unfold covers.
  induction (promo_slugs p) as [|x slugs IHs]; simpl; [done|]. rewrite !filter_cons. simpl.
  case_decide; simpl; by rewrite ?IHs.
Qed.

Lemma repeat_covers s promotions :
  flat_map (fun p => repeat p (covers s p)) promotions =
  flat_map (fun p => repeat p (covers s p)) (filter (fun p => s ∈ promo_slugs p) promotions).
Proof.
  induction promotions as [|p l IH]; simpl; [done|]. rewrite filter_cons, IH. case_decide as Hp; [done|].
  rewrite covers_elem in Hp. by destruct (covers s p); [|exfalso; apply Hp].
Qed.

Lemma mget_chips (m : list (string * list ModelPromotion)) chips k : mwf m -> k ∉ mkeys chips \/ k ∉ mkeys m ->
  mget (foldl (fun chips kv => match rankPromosForSlug kv.2 with Some c => mset chips kv.1 c | None => chips end)
    chips m) k =
  match mget m k with Some promos => rankPromosForSlug promos | None => mget chips k end.
Proof.
  revert chips. unfold mwf. induction m as [|[k' promos] m IH]; intros chips Hwf Hk; simpl; [done|].
  simpl in Hwf. apply NoDup_cons in Hwf as [Hk' Hwf]. rewrite IH; [|done|].
  - case_decide as Heq; simpl; [subst|].
    + apply mget_None in Hk' as ->. destruct (rankPromosForSlug promos); [by rewrite mget_set_eq|].
      apply mget_None. destruct Hk; set_solver.
    + destruct (mget m k); [done|]. destruct (rankPromosForSlug promos); [|done]. by rewrite mget_set_ne.
  - destruct (decide (k = k')) as [->|Hne]; [by right|]. destruct Hk as [Hk|Hk]; [left|right; set_solver].
    destruct (rankPromosForSlug promos); [|done]. rewrite elem_keys_set. set_solver.
Qed.

(** The chip every catalog row wears is the one the promotions covering its slug rank to, for
    every promotion set, slugs listed twice in one promotion included. A free promotion outranks
    every discount; of the free ones the first of least display order is worn, of the discounts the
    first of greatest percentage and then of least display order; a slug nothing covers wears none. *)
Theorem chips_ranked promotions s :
  mget (promoChipsBySlug promotions) s = best_chip (filter (fun p => s ∈ promo_slugs p) promotions).
Proof.
  unfold promoChipsBySlug. rewrite mget_chips; [|apply mwf_accumulate|left; set_solver].
  unfold promosBySlug. rewrite mget_accumulate, foldl_snoc_map, slug_pairs, repeat_covers. simpl.
  set (covering := filter _ promotions).
  assert (rankPromosForSlug (flat_map (fun p => repeat p (covers s p)) covering) = best_chip covering) as Hrank.
  { rewrite rank_best. apply best_chip_repeat. intros p [Hp _]%list_elem_of_filter. by apply covers_elem. }
  case_bool_decide as Hs; [done|].
  assert (covering = []) as ->; [|done].
  apply filter_none. intros p Hp Hin. apply Hs, list_elem_of_In, in_map_iff. exists (s, p). split; [done|].
  apply in_flat_map. exists p. split; [by apply list_elem_of_In|]. apply in_map_iff. exists s.
  split; [done|by apply list_elem_of_In].
Qed.

(** ** The promoted price *)
Definition lane_prices (lanes : list PricedLane) : list (option Z) := map lane_micro lanes.

Definition covered_by (c : PromoChip) (x : PricedLane) : Prop := lane_provider x ∈ chip_lanes c.

Lemma effective_None chip : promoEffectiveMicro chip None = None.
Proof. by destruct chip as [[]|]. Qed.

Lemma effective_Some chip m : is_Some (promoEffectiveMicro chip (Some m)).
Proof. destruct chip as [[]|]; simpl; eauto. Qed.

Lemma priced_elem lanes m : Some m ∈ lane_prices lanes <-> exists x, x ∈ lanes /\ lane_micro x = Some m.
Proof. unfold lane_prices. rewrite list_elem_of_fmap. naive_solver. Qed.

(** The price pair of a promoted model is honest. The list price is the least known price of
    the lanes; the effective price is known exactly when it is, so a promotion never prices what has
    no price; a promotion scoped to lanes never raises the price, is without effect when none of its
    lanes is priced, and otherwise its effective price is the lesser of the list price and the
    discounted price of its cheapest lane, which no lane outside its scope enters. *)
Theorem promoted_price_honest chip lanes :
  let price := promoEffectivePrice chip lanes in
  (forall m, price.1 = Some m <->
     (exists x, x ∈ lanes /\ lane_micro x = Some m) /\
     forall x m', x ∈ lanes -> lane_micro x = Some m' -> m <= m') /\
  (price.2 = None <-> price.1 = None) /\
  match chip with
  | None => price.2 = price.1
  | Some c =>
      if bool_decide (chip_lanes c = []) then price.2 = promoEffectiveMicro chip price.1
      else forall m, price.1 = Some m ->
        ((forall x, x ∈ lanes -> covered_by c x -> lane_micro x = None) -> price.2 = Some m) /\
        (forall x p, x ∈ lanes -> covered_by c x -> lane_micro x = Some p ->
           (forall y q, y ∈ lanes -> covered_by c y -> lane_micro y = Some q -> p <= q) ->
           exists d, promoEffectiveMicro chip (Some p) = Some d /\ price.2 = Some (Z.min m d))
  end.
Proof.
  intros price. assert (price.1 = minKnown (lane_prices lanes)) as Hlist.
  { unfold price, promoEffectivePrice, lane_prices. by destruct chip; [destruct (minKnown _); [case_bool_decide|]|]. }
  split_and!.
  - intros m. rewrite Hlist, minKnown_Some. setoid_rewrite priced_elem. naive_solver.
  - rewrite Hlist. unfold price, promoEffectivePrice. fold (lane_prices lanes).
    destruct chip as [c|]; [|done]. destruct (minKnown (lane_prices lanes)) as [l|] eqn:E; [|done].
    case_bool_decide; simpl.
    + split; [|done]. intros Hn. by destruct (effective_Some (Some c) l) as [? ?]; simplify_eq/=.
    + split; [|done]. by case_match.
  - destruct chip as [c|]; [|done]. rewrite Hlist. unfold price, promoEffectivePrice. fold (lane_prices lanes).
    case_bool_decide as Hc; [by destruct (minKnown _) eqn:E; rewrite ?E, ?effective_None|].
    intros m Hm. rewrite Hm. cbn [snd]. fold (lane_prices (filter (fun x => lane_provider x ∈ chip_lanes c) lanes)).
    split.
    + intros Hnone. assert (minKnown (lane_prices (filter (fun x => lane_provider x ∈ chip_lanes c) lanes)) = None) as ->.
      { apply minKnown_None. intros q (x & [Hcov Hx]%list_elem_of_filter & Hq)%priced_elem.
        by rewrite (Hnone x Hx Hcov) in Hq. }
      by rewrite effective_None.
    + intros x p Hx Hcov Hp Hmin.
      assert (minKnown (lane_prices (filter (fun x => lane_provider x ∈ chip_lanes c) lanes)) = Some p) as ->.
      { apply minKnown_Some. setoid_rewrite priced_elem. setoid_rewrite list_elem_of_filter.
        split; [by exists x|]. intros q (y & [Hy Hin] & Hq). by apply (Hmin y). }
      destruct (effective_Some (Some c) p) as [d Hd]. exists d. by rewrite Hd.
Qed.

(** ** The two views of the catalog *)
Definition offers (state : CatalogFilterState) (d : CatalogDeployment) : Prop :=
  (filter_providers state = [] \/ provider d ∈ filter_providers state) /\
  (discountsOnly state = true -> hasCacheDiscount d = true).

Lemma entry_offers e state now : entryMatches e state now = true ->
  (filter_providers state <> [] -> exists d, d ∈ providers e /\ provider d ∈ filter_providers state) /\
  (discountsOnly state = true -> exists d, d ∈ providers e /\ hasCacheDiscount d = true).
Proof.
  unfold entryMatches. cbv zeta. intros H.
  repeat match type of H with (if ?b then false else _) = true => destruct b eqn:?; [discriminate H|] end.
  repeat match goal with Hb : _ && _ = false |- _ => apply andb_false_iff in Hb end.
  split.
  - intros Hp. destruct (existsb (fun d => bool_decide (provider d ∈ filter_providers state)) (providers e)) eqn:Ex.
    + apply existsb_exists in Ex as (d & Hd & Hin). apply bool_decide_eq_true in Hin. exists d. by rewrite list_elem_of_In.
    + match goal with Hb : negb (bool_decide (filter_providers state = [])) = false \/ _ |- _ => destruct Hb as [Hc|Hc] end.
      * apply negb_false_iff in Hc. by apply bool_decide_eq_true in Hc.
      * apply negb_false_iff in Hc. congruence.
  - intros Hd. destruct (existsb hasCacheDiscount (providers e)) eqn:Ex.
    + apply existsb_exists in Ex as (d & Hin & Hc). exists d. by rewrite list_elem_of_In.
    + match goal with Hb : discountsOnly state = false \/ _ |- _ => destruct Hb end; [congruence|discriminate].
Qed.

(** The routes view and the models view of a filter state agree. A row is shown for exactly the
    routes, of matching entries, that pass the provider and discount filters themselves; and as long
    as those two are not both set, every matching entry that has a route at all shows one, so no
    model the models view lists disappears from the routes view. *)
Theorem routes_view_exact entries state now :
  (forall e d, {| row_entry := e; row_deployment := d |} ∈ filterRoutes entries state now <->
     e ∈ filterEntries entries state now /\ d ∈ providers e /\ offers state d) /\
  (filter_providers state = [] \/ discountsOnly state = false ->
   forall e, e ∈ filterEntries entries state now -> providers e <> [] ->
   exists d, {| row_entry := e; row_deployment := d |} ∈ filterRoutes entries state now).
Proof.
  assert (forall e d, {| row_entry := e; row_deployment := d |} ∈ filterRoutes entries state now <->
     e ∈ filterEntries entries state now /\ d ∈ providers e /\ offers state d) as Hrows.
  { intros e d. unfold filterRoutes. rewrite list_elem_of_In, in_flat_map.
    setoid_rewrite in_map_iff. setoid_rewrite <- list_elem_of_In. setoid_rewrite list_elem_of_filter.
    setoid_rewrite shows_route_spec. setoid_rewrite pin_cloud_elem. fold (offers state). split.
    - by intros (e' & He & d' & [= -> ->] & Hd & Hin).
    - intros (He & Hin & Hd). exists e. split; [done|]. by exists d. }
  split; [done|]. intros Hone e He Hroutes. setoid_rewrite Hrows.
  pose proof He as [Hmatch _]%list_elem_of_filter. destruct (entry_offers _ _ _ Hmatch) as [Hprov Hdisc].
  destruct (decide (filter_providers state = [])) as [Hnil|Hnil].
  - destruct (discountsOnly state) eqn:Hd.
    + destruct (Hdisc eq_refl) as (d & Hin & Hcache). exists d. unfold offers. auto.
    + destruct (providers e) as [|d l] eqn:E; [done|]. exists d. unfold offers. rewrite Hd.
      split_and!; [done|left|by left|done].
  - destruct (Hprov Hnil) as (d & Hin & Hp). exists d. split_and!; [done..|]. unfold offers. destruct Hone; [done|]. split; [by right|congruence].
Qed.
