(* ===== verification/CatalogServer.v ===== *)
(** * Reading the catalog (lib/models-catalog/server.ts)

    The storefront's server side: one shared, anonymous catalog read, paged past the API's cap and kept
    from hammering a backend that is down, and the thin per-viewer overlay merged onto it. The
    cross-request cache around the shared read is the framework's: its answer is a command. *)

From S2P Require Import Prelude JsMap JsString JsSort JsDate JsNumber Url Json Effects Services Access OrgAccess TenantServices ActiveOrg Catalog.

#[local] Open Scope Z_scope.

(** ** The wire types the reads return *)
Record ModelList := {
  models : list CatalogEntry;
  promotions : option (list ModelPromotion);
  total : Z;
  limit : Z;
  offset : Z;
}.

Record CatalogRequest := { request_url : string; request_headers : list (string * string) }.

(** A response: its status, what its body is as an error, and what it is as the value asked for. *)
Record CatalogReply (A : Type) := {
  reply_status : Z;
  reply_error : Thrown + json;
  reply_value : Thrown + A;
}.
Arguments reply_status {A} _.
Arguments reply_error {A} _.
Arguments reply_value {A} _.

#[export] Instance CatalogRequest_eq_dec : EqDecision CatalogRequest.
Proof. solve_decision. Defined.

(** [FetchAll] is [Promise.all] of several reads: every one is sent; with its answers comes the order
    in which they settle. *)
Inductive catalog_cmd :=
| Workspace (c : tenant_cmd)
| CatalogClock
| PublicCatalog
| FetchList (r : CatalogRequest)
| FetchAll (rs : list CatalogRequest)
| FetchDetail (r : CatalogRequest).

Definition catalog_ans (c : catalog_cmd) : Type :=
  match c with
  | Workspace c => tenant_ans c
  | CatalogClock => Z
  | PublicCatalog => app_error + ModelList
  | FetchList _ => Thrown + CatalogReply ModelList
  | FetchAll _ => list (Thrown + CatalogReply ModelList) * list nat
  | FetchDetail _ => Thrown + CatalogReply json
  end.

Definition catalog_effects : effects := Effects catalog_cmd catalog_ans.

Abbreviation K := (prog catalog_effects app_error).
#[local] Abbreviation ask c := (@call catalog_effects app_error c).

Definition workspace {A} (p : T A) : K A :=
  embed (E := tenant_effects) (F := catalog_effects) Workspace (fun c x => x) (fun e => e) p.

(** ** [catalogPath] and [catalogGet] *)
Definition CATALOG_PAGE_LIMIT : Z := 1000.
Definition CATALOG_FAILURE_COOLDOWN_MS : Z := 30000.

Record CatalogParams := { owner : option string; audienceOrgId : option string }.

Definition no_params : CatalogParams := {| owner := None; audienceOrgId := None |}.

Definition set_some (ps : params) (k : string) (v : option string) : params :=
  match v with Some v => params_set ps k v | None => ps end.

Definition catalog_query (offset : Z) (ps : CatalogParams) : params :=
  let search := [("limit", string_of_Z CATALOG_PAGE_LIMIT)] in
  let search := if decide (0 < offset) then params_set search "offset" (string_of_Z offset) else search in
  set_some (set_some search "owner" (owner ps)) "audience_org" (audienceOrgId ps).

Definition catalogPath (offset : Z) (ps : CatalogParams) : string :=
  "/api/models?" +:+ params_string (catalog_query offset ps).

(** [process.env.EXPLABS_BACKEND_URL] and [EXPLABS_API_KEY]. *)
Record CatalogEnv := { backend_url : option string; backend_key : option string }.

Definition catalog_request (env : CatalogEnv) (path : string) (actorId : option string) : Thrown + CatalogRequest :=
  match present (backend_url env), present (backend_key env) with
  | Some base, Some key =>
      inr {| request_url := strip_last "/" base +:+ path;
             request_headers := ("Authorization", "Bearer " +:+ key) ::
               match actorId with Some id => [("X-Explabs-Actor-Id", id)] | None => [] end |}
  | _, _ => inl (new_Error "EXPLABS_BACKEND_URL and EXPLABS_API_KEY must be set for the Experiential web app.")
  end.

Definition reply_message (status : Z) (body : Thrown + json) : string :=
  match body with
  | inr b =>
      match jget_str b "error" with
      | Some m => m
      | None => "Experiential backend request failed with HTTP " +:+ string_of_Z status
      end
  | inl _ => "Experiential backend request failed with HTTP " +:+ string_of_Z status
  end.

(** What one read comes to, given its answer. *)
Definition read_reply {A} (answer : Thrown + CatalogReply A) : app_error + A :=
  match answer with
  | inl e => inl (DataSourceError (OtherError e))
  | inr r =>
      if decide (200 <= reply_status r <= 299) then
        match reply_value r with inl e => inl (DataSourceError (OtherError e)) | inr x => inr x end
      else
        let message := reply_message (reply_status r) (reply_error r) in
        inl (DataSourceError (if decide (reply_status r = 404) then DataSourceNotFoundError message
                              else DataSourceRequestError message (reply_status r) None None))
  end.

Definition settled {A} (r : app_error + A) : K A := match r with inl e => Throw e | inr x => mret x end.

Definition catalogGet (env : CatalogEnv) (path : string) (actorId : option string) : K ModelList :=
  r ← answered (catalog_request env path actorId);
  answer ← ask (FetchList r);
  settled (read_reply answer).

(** [Promise.all]: every value, or the rejection that settled first. *)
Definition reject {A} (r : app_error + A) : option app_error := match r with inl e => Some e | inr _ => None end.
Definition fulfil {A} (r : app_error + A) : option A := match r with inl _ => None | inr x => Some x end.

Definition promise_all {A} (order : list nat) (rs : list (app_error + A)) : app_error + list A :=
  match head (omap (fun i => rs !! i ≫= reject) order ++ omap reject rs) with
  | Some e => inl e
  | None => inr (omap fulfil rs)
  end.

(** [Promise.all(paths.map((path) => catalogGet(path, actorId)))]. *)
Definition catalogGetAll (env : CatalogEnv) (paths : list string) (actorId : option string) : K (list ModelList) :=
  requests ← for_of (fun acc path => r ← answered (catalog_request env path actorId); mret (acc ++ [r])) paths [];
  if decide (requests = []) then mret []
  else
    '(answers, order) ← ask (FetchAll requests);
    settled (promise_all order (map read_reply answers)).

(** ** [pageCatalog] *)

(** [for (offset = first; offset < total; offset += CATALOG_PAGE_LIMIT)]: at most one offset per row
    still missing, so [total - first] iterations are fuel enough. *)
Fixpoint page_offsets (fuel : nat) (offset total : Z) : list Z :=
  match fuel with
  | O => []
  | S fuel => if decide (offset < total) then offset :: page_offsets fuel (offset + CATALOG_PAGE_LIMIT) total else []
  end.

Definition pageCatalog (env : CatalogEnv) (actorId : option string) (ps : CatalogParams) : K ModelList :=
  first ← catalogGet env (catalogPath 0 ps) actorId;
  let got := Z.of_nat (length (models first)) in
  let result rows := {| models := rows; promotions := Some (default [] (promotions first)); total := total first;
                        limit := CATALOG_PAGE_LIMIT; offset := 0 |} in
  if decide (total first <= got) then mret (result (models first))
  else
    rest ← catalogGetAll env (map (fun o => catalogPath o ps)
             (page_offsets (Z.to_nat (total first - got)) got (total first))) actorId;
    mret (result (models first ++ flat_map models rest)).

(** ** The shared read and its cooldown

    [until] is the module's [catalogCooldownUntilMs]; the new value comes with the outcome. *)
Definition unavailable : app_error :=
  DataSourceError (DataSourceRequestError "The catalog backend is unavailable; retry shortly." 503 None None).

Definition refreshCatalog (env : CatalogEnv) (until : Z) : K (Z * (app_error + ModelList)) :=
  now ← ask CatalogClock;
  if decide (now < until) then mret (until, inl unavailable)
  else
    r ← try_catch (catalog ← pageCatalog env None no_params; mret (inr catalog)) (fun e => mret (inl e));
    match r with
    | inr catalog => mret (0, inr catalog)
    | inl e => now ← ask CatalogClock; mret (now + CATALOG_FAILURE_COOLDOWN_MS, inl e)
    end.

(** ** [fetchModelList] and the per-viewer reads *)
Definition entry_id (e : CatalogEntry) : string := model_id (model e).

Definition merge_overlay (base overlay : ModelList) : ModelList :=
  let promos := match promotions overlay with Some p => Some p | None => promotions base end in
  if decide (models overlay = []) then
    {| models := models base; promotions := promos; total := total base; limit := limit base; offset := offset base |}
  else
    let baseIds := js_set (map entry_id (models base)) in
    let rows := models base ++ filter (fun e => entry_id e ∉ baseIds) (models overlay) in
    {| models := rows; promotions := promos; total := Z.of_nat (length rows); limit := limit base; offset := 0 |}.

Definition org_owned (audience : option string) : CatalogParams := {| owner := Some "org"; audienceOrgId := audience |}.

Definition fetchModelList (env : CatalogEnv) : K ModelList :=
  base ← ask PublicCatalog;
  base ← settled base;
  user ← workspace (gate getAuthenticatedUser);
  match user with
  | None => mret base
  | Some u =>
      activeOrg ← workspace resolveActiveOrgForTelemetry;
      overlay ← pageCatalog env (Some (user_id u)) (org_owned (org_uuid <$> activeOrg));
      mret (merge_overlay base overlay)
  end.

Definition fetchOrgOwnedModels (env : CatalogEnv) (actorId : string) (audienceOrgId : option string) : K ModelList :=
  pageCatalog env (Some actorId) (org_owned audienceOrgId).

Definition fetchModelDetail (env : CatalogEnv) (slug : string) : K (option json) :=
  user ← workspace (gate getAuthenticatedUser);
  try_catch
    (r ← answered (catalog_request env ("/api/models/" +:+ encodeURIComponent slug) (user_id <$> user));
     answer ← ask (FetchDetail r);
     detail ← settled (read_reply answer);
     mret (Some detail))
    (fun e => match e with DataSourceError (DataSourceNotFoundError _) => mret None | e => Throw e end).

(** ** Lemmas: paging *)

(** A backend that holds [all] and serves the page a request's query names. *)
Definition page_of (base : string) (all : list CatalogEntry) (promos : option (list ModelPromotion)) (r : CatalogRequest) : ModelList :=
  let q := params_parse (str_drop (String.length (strip_last "/" base +:+ "/api/models?")) (request_url r)) in
  let arg k d := default d (params_get q k ≫= decimal_Z) in
  {| models := take (Z.to_nat (arg "limit" 100)) (drop (Z.to_nat (arg "offset" 0)) all);
     promotions := promos; total := Z.of_nat (length all); limit := arg "limit" 100; offset := arg "offset" 0 |}.

Definition page_reply (l : ModelList) : Thrown + CatalogReply ModelList :=
  inr {| reply_status := 200; reply_error := inr JNull; reply_value := inr l |}.

Definition serve (base : string) (all : list CatalogEntry) (promos : option (list ModelPromotion)) : handler catalog_effects unit :=
  fun w c =>
    (w, match c return catalog_ans c with
        | Workspace c => quiet_answer c
        | CatalogClock => 0
        | PublicCatalog => inl unavailable
        | FetchList r => page_reply (page_of base all promos r)
        | FetchAll rs => (map (fun r => page_reply (page_of base all promos r)) rs, [])
        | FetchDetail _ => inl (new_Error "")
        end).

Lemma str_drop_append a b : str_drop (String.length a) (a +:+ b) = b.
Proof. induction a as [|c a IH]; simpl; [by destruct b|done]. Qed.

Lemma query_get offset ps : 0 <= offset ->
  params_get (catalog_query offset ps) "limit" ≫= decimal_Z = Some 1000 /\
  default 0 (params_get (catalog_query offset ps) "offset" ≫= decimal_Z) = offset.
Proof.
  intros Ho. unfold catalog_query, params_get. destruct ps as [[o|] [a|]]; unfold set_some; cbn [owner audienceOrgId];
    case_decide; cbn [params_set mget decide]; simpl; (split; [done|]); by rewrite ?decimal_string by lia; simpl; lia.
Qed.

Section configured.
Context (base key : string) (Hbase : base <> EmptyString) (Hkey : key <> EmptyString).

Definition configured : CatalogEnv := {| backend_url := Some base; backend_key := Some key |}.

Definition request_of (path : string) (actorId : option string) : CatalogRequest :=
  {| request_url := strip_last "/" base +:+ path;
     request_headers := ("Authorization", "Bearer " +:+ key) ::
       match actorId with Some id => [("X-Explabs-Actor-Id", id)] | None => [] end |}.

Lemma configured_request path actorId : catalog_request configured path actorId = inr (request_of path actorId).
Proof.
  unfold catalog_request, configured. cbn [backend_url backend_key].
  by rewrite (proj2 (present_Some (Some base) base)), (proj2 (present_Some (Some key) key)).
Qed.

Lemma page_served all promos offset ps actorId : 0 <= offset ->
  models (page_of base all promos (request_of (catalogPath offset ps) actorId)) =
    take 1000 (drop (Z.to_nat offset) all).
Proof.
  intros Ho. unfold page_of, catalogPath. cbn [request_url models request_of].
  rewrite <- append_assoc, str_drop_append, params_roundtrip.
  destruct (query_get offset ps Ho) as [Hl Hoff]. by rewrite Hl, Hoff.
Qed.

Lemma requests_built paths actorId acc :
  for_of (E := catalog_effects) (fun acc path => r ← answered (catalog_request configured path actorId); mret (acc ++ [r]))
    paths acc = mret (acc ++ map (fun path => request_of path actorId) paths).
Proof.
  revert acc. induction paths as [|path paths IH]; intros acc; cbn [for_of map]; [by rewrite app_nil_r|].
  rewrite configured_request. unfold answered. cbn [mbind prog_bind mret prog_ret]. by rewrite IH, <- app_assoc.
Qed.

Lemma promise_all_fulfilled {A} (xs : list A) : promise_all [] (map inr xs) = inr xs.
Proof.
  unfold promise_all. cbn [omap list_omap app].
  assert (omap reject (map inr xs : list (app_error + A)) = []) as -> by (by induction xs).
  cbn [head]. f_equal. induction xs; simpl; [done|]. by f_equal.
Qed.

(** The offsets of the loop take the rest of the rows, each once. *)
Lemma offsets_take {A} (all : list A) fuel offset :
  0 <= offset -> (Z.to_nat (Z.of_nat (length all) - offset) <= fuel)%nat ->
  flat_map (fun o => take 1000 (drop (Z.to_nat o) all)) (page_offsets fuel offset (Z.of_nat (length all))) =
  drop (Z.to_nat offset) all.
Proof.
  revert offset. induction fuel as [|fuel IH]; intros offset Ho Hf; cbn [page_offsets].
  - simpl. symmetry. apply drop_ge. lia.
  - case_decide; cbn [flat_map]; [|symmetry; apply drop_ge; lia].
    unfold CATALOG_PAGE_LIMIT. rewrite IH by lia.
    assert (Z.to_nat (offset + 1000) = Z.to_nat offset + 1000)%nat as -> by lia.
    by rewrite <- drop_drop, take_drop.
Qed.

Lemma offsets_nonneg fuel offset total o : 0 <= offset -> o ∈ page_offsets fuel offset total -> 0 <= o.
Proof.
  revert offset. induction fuel as [|fuel IH]; intros offset Ho; cbn [page_offsets]; [by intros []%elem_of_nil|].
  case_decide; [|by intros []%elem_of_nil]. intros [->|H']%elem_of_cons; [done|]. eapply IH; [|exact H'].
  unfold CATALOG_PAGE_LIMIT. lia.
Qed.
End configured.

Lemma run_first base key all promos actorId ps : base <> EmptyString -> key <> EmptyString ->
  exists tr, run (serve base all promos) (catalogGet (configured base key) (catalogPath 0 ps) actorId) tt =
    (Done (page_of base all promos (request_of base key (catalogPath 0 ps) actorId)), tr, tt).
Proof.
  intros Hb Hk. unfold catalogGet. rewrite configured_request by done. by eexists.
Qed.

Lemma run_rest base key all promos actorId ps offs : base <> EmptyString -> key <> EmptyString ->
  exists tr, run (serve base all promos) (catalogGetAll (configured base key) (map (fun o => catalogPath o ps) offs) actorId) tt =
    (Done (map (fun o => page_of base all promos (request_of base key (catalogPath o ps) actorId)) offs), tr, tt).
Proof.
  intros Hb Hk. unfold catalogGetAll. rewrite requests_built by done. cbn [mbind prog_bind mret prog_ret app].
  case_decide as Hnil.
  - destruct offs; [by eexists|done].
  - cbn [mbind prog_bind call run serve]. rewrite !map_map.
    assert (forall l, map (fun x => read_reply (page_reply (page_of base all promos
      (request_of base key (catalogPath x ps) actorId)))) l = map inr (map (fun o => page_of base all promos
      (request_of base key (catalogPath o ps) actorId)) l)) as Hmap by (intros l; by rewrite map_map).
    rewrite Hmap, promise_all_fulfilled. by eexists.
Qed.

(** C35. Paging is complete: against a backend that serves the pages asked of it, the paged read always
    ends and returns the whole catalog, every row once and in the backend's order, for every catalog
    size, viewer and filter; the total is the catalog's and the promotions are the first page's. *)
Theorem catalog_joined base key all promos actorId ps (Hbase : base <> EmptyString) (Hkey : key <> EmptyString) :
  (run (serve base all promos) (pageCatalog (configured base key) actorId ps) tt).1.1 =
  Done {| models := all; promotions := Some (default [] promos); total := Z.of_nat (length all);
          limit := CATALOG_PAGE_LIMIT; offset := 0 |}.
Proof.
  unfold pageCatalog. rewrite run_bind.
  destruct (run_first base key all promos actorId ps) as [tr ->]; [done..|]. cbn [fst snd].
  rewrite page_served by lia.
  set (first := page_of base all promos _).
  assert (total first = Z.of_nat (length all)) as -> by done.
  assert (promotions first = promos) as -> by done. rewrite drop_0.
  case_decide as Hone; [cbn [run mret prog_ret fst]; rewrite take_ge; [done|]; rewrite length_take in Hone; lia|].
  rewrite run_bind. match goal with |- context [catalogGetAll _ (map _ ?offs)] => set (offsets := offs) end.
  destruct (run_rest base key all promos actorId ps offsets) as [tr' ->]; [done..|].
  cbn [run mret prog_ret fst snd]. do 2 f_equal.
  assert (forall o, o ∈ offsets -> 0 <= o) as Hnn by (intros o; apply offsets_nonneg; lia).
  assert (forall l, (forall o, o ∈ l -> 0 <= o) ->
    flat_map models (map (fun o => page_of base all promos (request_of base key (catalogPath o ps) actorId)) l) =
    flat_map (fun o => take 1000 (drop (Z.to_nat o) all)) l) as Hmap.
  { induction l as [|o l IH]; intros Hl; [done|]. cbn [map flat_map].
    rewrite IH by (intros; apply Hl; by right). by rewrite page_served by (apply Hl; left). }
  rewrite Hmap by done. unfold offsets. rewrite offsets_take by lia.
  rewrite Nat2Z.id, length_take, Nat.min_l; [apply take_drop|]. rewrite length_take in Hone. lia.
Qed.

Lemma catalog_joined_witness :
  (run (serve "https://api.example/" [] None)
     (pageCatalog (configured "https://api.example/" "k") None no_params) tt).1.1 =
  Done {| models := []; promotions := Some []; total := 0; limit := 1000; offset := 0 |}.
Proof. apply (catalog_joined "https://api.example/" "k" [] None None no_params); discriminate. Defined.

(** ** Lemmas: the cooldown *)
Implicit Types (tr : list (event catalog_effects)).

(** A catalog read, or a batch of them, that failed. *)
Definition failed_read (e : event catalog_effects) : bool :=
  match e with
  | Ev (FetchList _) a => match read_reply a with inl _ => true | inr _ => false end
  | Ev (FetchAll _) a => match promise_all a.2 (map read_reply a.1) with inl _ => true | inr _ => false end
  | _ => false
  end.

Definition tick (t : Z) : event catalog_effects := @Ev catalog_effects CatalogClock t.

(** Among the events, the clock was read twice, at least the cooldown apart. *)
Definition cooled (mid : list (event catalog_effects)) : Prop :=
  exists t t', [tick t; tick t'] `sublist_of` mid /\ t + CATALOG_FAILURE_COOLDOWN_MS <= t'.

(** Or once, and [until] is at least the cooldown later. *)
Definition cooling (until : Z) (mid : list (event catalog_effects)) : Prop :=
  cooled mid \/ exists t, tick t ∈ mid /\ t + CATALOG_FAILURE_COOLDOWN_MS <= until.

(** Every failed read is followed by events that satisfy [P]. *)
Definition after_failures (P : list (event catalog_effects) -> Prop) tr : Prop :=
  forall pre e mid, tr = pre ++ e :: mid -> failed_read e = true -> P mid.

Definition anonymous (r : CatalogRequest) : Prop := mget (request_headers r) "X-Explabs-Actor-Id" = None.

Definition paced tr (c : cmd catalog_effects) : Prop :=
  match c with
  | FetchList r => anonymous r /\ after_failures cooled tr
  | FetchAll rs => Forall anonymous rs
  | CatalogClock => True
  | _ => False
  end.

Lemma after_snoc (P P' : list (event catalog_effects) -> Prop) tr e :
  after_failures P tr -> (forall mid, P mid -> P' (mid ++ [e])) -> (failed_read e = true -> P' []) ->
  after_failures P' (tr ++ [e]).
Proof.
  intros H Hstep Hlast pre e' mid Heq Hf.
  destruct mid as [|x mid _] using rev_ind.
  - apply app_inj_tail in Heq as [_ ->]. auto.
  - rewrite app_comm_cons, app_assoc in Heq. apply app_inj_tail in Heq as [-> ->].
    apply Hstep. by eapply H.
Qed.

Lemma after_weaken (P P' : list (event catalog_effects) -> Prop) tr :
  after_failures P tr -> (forall mid, P mid -> P' mid) -> after_failures P' tr.
Proof. intros H HP pre e mid Heq Hf. by eapply HP, H. Qed.

Lemma cooled_snoc mid e : cooled mid -> cooled (mid ++ [e]).
Proof.
  intros (t & t' & Hs & Hle). exists t, t'. split; [|done]. by apply sublist_inserts_r.
Qed.

Lemma cooling_snoc until mid e : cooling until mid -> cooling until (mid ++ [e]).
Proof.
  intros [H|(t & Ht & Hle)]; [left; by apply cooled_snoc|right]. exists t. split; [|done].
  apply elem_of_app. by left.
Qed.

(** Past the cooldown, the clock's reading completes the pair. *)
Lemma cooling_over until now mid : until <= now -> cooling until mid -> cooled (mid ++ [tick now]).
Proof.
  intros Hnow [H|(t & Ht & Hle)]; [by apply cooled_snoc|]. exists t, now. split; [|lia].
  change [tick t; tick now] with ([tick t] ++ [tick now]). apply sublist_app; [|done].
  apply list_elem_of_split in Ht as (l1 & l2 & ->). apply sublist_inserts_l, sublist_skip, sublist_nil_l.
Qed.

(** The end of a read attempt: its failures are behind a cooldown, the last event apart. *)
Definition just_failed mid : Prop := mid = [] \/ cooled mid.

Lemma page_spec env ps tr : after_failures cooled tr ->
  spec paced (fun tr' o => match o with
      | Done _ => after_failures cooled tr'
      | Raised _ => after_failures just_failed tr' end) tr (pageCatalog env None ps).
Proof.
  intros Htr. assert (after_failures just_failed tr) as Hj by (eapply after_weaken; [done|by right]).
  unfold pageCatalog, catalogGet, answered. apply spec_bind.
  destruct (catalog_request env _ None) as [e|r] eqn:Hr; exec_cbn; [done|].
  assert (forall path r, catalog_request env path None = inr r -> anonymous r) as Hanon.
  { unfold catalog_request. intros path r0 H. by repeat case_match; simplify_eq. }
  split; [by split; [eapply Hanon|]|]. intros a. unfold settled. destruct (read_reply a) as [e|first] eqn:Ha; exec_cbn.
  { eapply after_snoc; [exact Htr| |by left]. intros mid H. right. by apply cooled_snoc. }
  assert (after_failures cooled (tr ++ [@Ev catalog_effects (FetchList r) a])) as Htr1.
  { eapply after_snoc; [exact Htr|intros; by apply cooled_snoc|]. simpl. by rewrite Ha. }
  case_decide; [done|]. apply spec_bind. unfold catalogGetAll. apply spec_bind.
  set (tr1 := tr ++ _) in *.
  eapply spec_post; [apply (spec_for_of paced (fun tr' _ => after_failures just_failed tr')
    (fun _ tr' (acc : list CatalogRequest) => tr' = tr1 /\ Forall anonymous acc))|].
  - done.
  - intros pre x post tr' acc _ [-> Hacc]. unfold answered.
    destruct (catalog_request env x None) as [e|r1] eqn:Hr1; exec_cbn.
    + eapply after_weaken; [done|by right].
    + split; [done|]. apply Forall_snoc. split; [done|]. by eapply Hanon.
  - intros tr' [requests|e]; [|done]. intros [-> Hreq]. case_decide; exec_cbn; [done|].
    split; [done|]. intros [answers order].
    unfold settled. destruct (promise_all _ _) eqn:Hall; exec_cbn.
    + eapply after_snoc; [exact Htr1| |by left]. intros mid Hmid. right. by apply cooled_snoc.
    + eapply after_snoc; [exact Htr1|intros; by apply cooled_snoc|]. simpl. by rewrite Hall.
Qed.

Lemma refresh_spec env until tr : after_failures (cooling until) tr ->
  spec paced (fun tr' o => match o with
      | Done (until', _) => after_failures (cooling until') tr'
      | Raised _ => False end) tr (refreshCatalog env until).
Proof.
  intros Htr. unfold refreshCatalog. exec_cbn. split; [done|]. intros now. case_decide as Hnow; exec_cbn.
  { eapply after_snoc; [exact Htr| |done]. intros mid. apply cooling_snoc. }
  assert (after_failures cooled (tr ++ [tick now])) as Htr1.
  { eapply after_snoc; [exact Htr| |done]. intros mid. apply cooling_over. lia. }
  apply spec_bind, spec_try, spec_bind. eapply spec_post; [by apply page_spec|].
  intros tr' [catalog|e] H; exec_cbn; [eapply after_weaken; [exact H|]; by left|].
  split; [done|]. intros now'. eapply after_snoc; [exact H| |done]. intros mid [->|Hmid].
  - right. exists now'. split; [left|unfold CATALOG_FAILURE_COOLDOWN_MS; lia].
  - left. by apply cooled_snoc.
Qed.

(** Page views, one after another, sharing the module's cooldown; the first finds it unset. *)
Definition visits (env : CatalogEnv) (n : nat) : K Z :=
  for_of (fun until _ => r ← refreshCatalog env until; mret r.1) (repeat tt n) 0.

(** A dead backend is not hammered, and the shared catalog is nobody's. Over any number of
    successive refreshes and whatever the backend and the clock answer: after a failed catalog read
    the backend is read again only once the clock has advanced by thirty seconds since; every request
    the shared read sends is anonymous; a refresh asks nothing else; and none escapes by throwing. *)
Theorem refresh_paced env n : spec paced (fun _ o => exists until, o = Done until) [] (visits env n).
Proof.
  unfold visits. eapply spec_post.
  - apply (spec_for_of paced (fun _ _ => False) (fun _ tr until => after_failures (cooling until) tr)).
    + intros pre e mid Heq _. by destruct pre.
    + intros pre [] post tr until _ Htr. apply spec_bind. eapply spec_post; [by apply refresh_spec|].
      intros tr' [[until' r]|e] H; exec_cbn; done.
  - intros tr' [until|e] H; [by eexists|done].
Qed.

(** ** The overlay *)
Definition ids (l : ModelList) : list string := map entry_id (models l).

(** Merging the viewer's own models onto the shared catalog loses and repeats nothing: the shared
    rows stay first and in order, every row of either list is in the result by its id, a row of the
    overlay never replaces a shared one, ids stay distinct, the total counts the rows, and the
    promotions are the viewer's where the overlay has any set. *)
Theorem overlay_merged base overlay
    (Hbase : NoDup (ids base)) (Hoverlay : NoDup (ids overlay)) (Htotal : total base = Z.of_nat (length (models base))) :
  let l := merge_overlay base overlay in
  NoDup (ids l) /\ total l = Z.of_nat (length (models l)) /\
  (exists own, models l = models base ++ own /\ own `sublist_of` models overlay /\
     forall e, e ∈ own <-> e ∈ models overlay /\ entry_id e ∉ ids base) /\
  (forall id, id ∈ ids l <-> id ∈ ids base \/ id ∈ ids overlay) /\
  promotions l = match promotions overlay with Some p => Some p | None => promotions base end.
Proof.
  intros l. set (fresh := fun e => entry_id e ∉ js_set (map entry_id (models base))).
  set (own := filter fresh (models overlay)).
  assert (models l = models base ++ own) as Hl.
  { unfold l, merge_overlay. case_decide as Hnil; [|done]. cbn [models]. unfold own. rewrite Hnil. by rewrite app_nil_r. }
  assert (forall e, e ∈ own <-> e ∈ models overlay /\ entry_id e ∉ ids base) as Hown.
  { intros e. unfold own, fresh. rewrite list_elem_of_filter, elem_js_set. unfold ids. naive_solver. }
  assert (own `sublist_of` models overlay) as Hsub.
  { unfold own. generalize (models overlay). induction l0 as [|x l0 IH]; [done|]. rewrite filter_cons.
    case_decide; by constructor. }
  split_and!.
  - unfold ids. rewrite Hl, map_app. apply NoDup_app. split; [done|]. split.
    + intros id Hb (e & -> & He)%list_elem_of_fmap. by apply Hown in He as [_ ?].
    + eapply sublist_NoDup; [exact Hoverlay|]. unfold ids. clear -Hsub.
      induction Hsub; simpl; by constructor.
  - rewrite Hl. unfold l, merge_overlay. case_decide as Hnil; cbn [total].
    + unfold own. rewrite Hnil. by rewrite app_nil_r.
    + done.
  - by exists own.
  - intros id. unfold ids. rewrite Hl, map_app, elem_of_app, !list_elem_of_fmap. setoid_rewrite Hown. unfold ids.
    split; [naive_solver|]. intros [?|(e & -> & He)]; [by left|].
    destruct (decide (entry_id e ∈ map entry_id (models base))) as [Hin|]; [left|right; by exists e].
    by apply list_elem_of_fmap in Hin.
  - unfold l, merge_overlay. by case_decide.
Qed.

Lemma overlay_merged_witness :
  let e s := {| model := sample s s None; providers := [] |} in
  let l rows := {| models := rows; promotions := None; total := Z.of_nat (length rows); limit := 1000; offset := 0 |} in
  ids (merge_overlay (l [e "a"; e "b"]) (l [e "c"; e "a"])) = ["a"; "b"; "c"] /\
  NoDup (ids (merge_overlay (l [e "a"; e "b"]) (l [e "c"; e "a"]))).
Proof.
  split; [reflexivity|].
  apply (overlay_merged {| models := [{| model := sample "a" "a" None; providers := [] |}; {| model := sample "b" "b" None; providers := [] |}];
                           promotions := None; total := 2; limit := 1000; offset := 0 |}
           {| models := [{| model := sample "c" "c" None; providers := [] |}; {| model := sample "a" "a" None; providers := [] |}];
              promotions := None; total := 2; limit := 1000; offset := 0 |});
    [apply (bool_decide_unpack _); vm_compute; exact I..|reflexivity].
Defined.

(** The overlay's requests: the viewer's own rows, for the organization they act in. *)
Definition workspace_event (e : event catalog_effects) : option (event tenant_effects) :=
  match e with Ev (Workspace c) x => Some (@Ev tenant_effects c x) | _ => None end.

Definition workspace_events tr : list (event tenant_effects) := omap workspace_event tr.

#[export] Instance catalog_cmd_eq_dec : EqDecision catalog_cmd.
Proof. solve_decision. Defined.
#[export] Instance catalog_effects_eq_dec : EqDecision (cmd catalog_effects) := catalog_cmd_eq_dec.

(** What React's [cache] covers in a page render. *)
Definition render_reads (c : cmd catalog_effects) : bool :=
  match c with Workspace c => tenant_reads c | _ => false end.

Lemma workspace_event_Some e (c : tenant_cmd) (x : tenant_ans c) :
  workspace_event e = Some (@Ev tenant_effects c x) -> e = @Ev catalog_effects (Workspace c) x.
Proof.
  intros H. destruct e as [c0 y]. destruct c0; try discriminate H. simpl in H.
  apply (inj Some) in H. pose proof (Ev_cmd _ _ _ _ H) as Hc. simpl in Hc. subst.
  by apply Ev_inj in H as ->.
Qed.

Lemma workspace_events_mono tr tr' : tr ⊆ tr' -> workspace_events tr ⊆ workspace_events tr'.
Proof.
  intros Hg e (x & Hx & He)%list_elem_of_omap. apply list_elem_of_omap. exists x. auto.
Qed.

Lemma coherent_workspace tr : coherent render_reads tr -> coherent tenant_reads (workspace_events tr).
Proof.
  intros Hco c x y Hc (e & He & Hx)%list_elem_of_omap (e' & He' & Hy)%list_elem_of_omap.
  apply workspace_event_Some in Hx as ->. apply workspace_event_Some in Hy as ->. by eapply (Hco (Workspace c)).
Qed.

Section viewer.
Context (env : CatalogEnv).

(** A request for the rows of the signed-in viewer, and of no organization but one the session was
    granted. *)
Definition viewer_request tr (r : CatalogRequest) : Prop :=
  exists u audience offset, signed_in (workspace_events tr) u /\
    catalog_request env (catalogPath offset (org_owned audience)) (Some (user_id u)) = inr r /\
    forall org, audience = Some org ->
      exists o, active_outcome (workspace_events tr) (Done (Some o)) /\ org_uuid o = org.

Definition viewer_licensed tr (c : cmd catalog_effects) : Prop :=
  match c with
  | Workspace c => reads_only (workspace_events tr) c
  | PublicCatalog => True
  | FetchList r => viewer_request tr r
  | FetchAll rs => Forall (viewer_request tr) rs
  | _ => False
  end.

Lemma active_mono (evs evs' : list (event tenant_effects)) o :
  evs ⊆ evs' -> active_outcome evs o -> active_outcome evs' o.
Proof.
  destruct o as [[o|]|]; try done. intros Hg [Hl [id Hid]]. split; [by eapply listed_mono|].
  exists id. by eapply granted_mono.
Qed.

Lemma viewer_request_mono tr tr' r : tr ⊆ tr' -> viewer_request tr r -> viewer_request tr' r.
Proof.
  intros Hg (u & audience & offset & Hu & Hr & Ha). exists u, audience, offset.
  split; [eapply signed_in_mono; [|exact Hu]; by apply workspace_events_mono|]. split; [done|].
  intros org Horg. destruct (Ha org Horg) as (o & Ho & ?). exists o. split; [|done].
  eapply active_mono; [|exact Ho]. by apply workspace_events_mono.
Qed.

Definition on_render {X} (P : list (event catalog_effects) -> X -> Prop) tr (x : X) : Prop :=
  coherent render_reads tr -> P tr x.

Lemma coherent_prefix tr e : coherent render_reads (tr ++ [e]) -> coherent render_reads tr.
Proof. intros Hco c x y Hc Hx Hy. eapply Hco; [done|apply elem_of_app; by left..]. Qed.

Lemma workspace_step {A} Q tr (p : T A) :
  spec reads_only Q (workspace_events tr) p ->
  spec (on_render viewer_licensed) (fun tr' o => tr ⊆ tr' /\ Q (workspace_events tr') o) tr (workspace p).
Proof.
  intros H. eapply spec_post.
  - eapply (spec_embed (E := tenant_effects) (F := catalog_effects) Workspace (fun c x => x) (fun e => e)
      workspace_events); [|by intros tr' c Hc _|exact H].
    intros tr' c x. unfold workspace_events. by rewrite omap_app.
  - intros tr' [a|e] [(q & -> & _) Ho]; (split; [intros x Hx; apply elem_of_app; by left|]); [done|].
    by destruct Ho as (e' & -> & ?).
Qed.

Lemma overlay_spec tr u audience :
  (coherent render_reads tr -> signed_in (workspace_events tr) u /\
    forall org, audience = Some org ->
      exists o, active_outcome (workspace_events tr) (Done (Some o)) /\ org_uuid o = org) ->
  spec (on_render viewer_licensed) (fun _ _ => True) tr (pageCatalog env (Some (user_id u)) (org_owned audience)).
Proof.
  intros Hready.
  assert (forall offset r tr', tr ⊆ tr' -> coherent render_reads tr' ->
    catalog_request env (catalogPath offset (org_owned audience)) (Some (user_id u)) = inr r -> viewer_request tr' r) as Hsent.
  { intros offset r tr' Hg Hco Hr. apply (viewer_request_mono tr); [done|].
    destruct Hready as [Hu Ha]; [intros c x y Hc Hx Hy; eapply Hco; eauto|]. by exists u, audience, offset. }
  unfold pageCatalog, catalogGet, answered, settled. apply spec_bind.
  destruct (catalog_request env _ _) as [e|r] eqn:Hr; exec_cbn; [done|].
  split; [intros Hco; by eapply Hsent|]. intros a. destruct (read_reply a) as [e|first]; exec_cbn; [done|].
  case_decide; [done|]. apply spec_bind. unfold catalogGetAll. apply spec_bind. set (tr1 := tr ++ _).
  eapply spec_post; [apply (spec_for_of _ (fun _ _ => True) (fun _ tr' (acc : list CatalogRequest) => tr' = tr1 /\
    Forall (fun r => exists offset, catalog_request env (catalogPath offset (org_owned audience)) (Some (user_id u)) = inr r) acc))|].
  - done.
  - intros pre x post tr' acc Hl [-> Hacc]. unfold answered.
    assert (exists offset, x = catalogPath offset (org_owned audience)) as [offset ->].
    { assert (x ∈ pre ++ x :: post) as Hx by set_solver. rewrite <- Hl in Hx.
      apply list_elem_of_fmap in Hx as (offset & -> & _). by exists offset. }
    destruct (catalog_request env (catalogPath offset (org_owned audience)) (Some (user_id u))) as [e|r1] eqn:Hr1;
      exec_cbn; [done|]. split; [done|]. apply Forall_snoc. split; [done|]. by exists offset.
  - intros tr' [requests|e]; [|done]. intros [-> Hreq]. case_decide; exec_cbn; [done|].
    split; [|intros [answers order]; unfold settled; by destruct (promise_all _ _)].
    intros Hco. eapply Forall_impl; [exact Hreq|]. intros r1 (offset & Hr1). eapply Hsent; [|done|exact Hr1].
    intros x Hx. apply elem_of_app. by left.
Qed.
End viewer.

Lemma viewer_spec env :
  spec (on_render (viewer_licensed env)) (fun _ _ => True) [] (fetchModelList env).
Proof.
  unfold fetchModelList, settled. exec_cbn. split; [done|]. intros [e|base]; exec_cbn; [done|].
  apply spec_bind. eapply spec_post.
  { apply workspace_step. apply (gate_step reads_only reads_only_gate), user_spec. }
  intros tr1 [[u|]|e] [_ [_ Hu]]; exec_cbn; [|done..]. destruct Hu as [_ Hu].
  apply spec_bind. eapply spec_post.
  { apply workspace_step, telemetry_spec. }
  intros tr2 [activeOrg|e] [Hg Ha]; exec_cbn; [|done]. apply spec_bind.
  eapply spec_post; [apply overlay_spec|by intros tr3 [overlay|e] _; exec_cbn].
  intros Hco. split; [eapply signed_in_mono; [by apply workspace_events_mono|exact Hu]|].
  intros org Horg. destruct activeOrg as [o|]; [|done]. simplify_eq/=. exists o. split; [|done].
  apply Ha. by apply coherent_workspace.
Qed.

Section same_render.
Context (tr tr' : list (event catalog_effects)) (Hsame : forall e, e ∈ tr <-> e ∈ tr').

Lemma viewer_licensed_same env c : viewer_licensed env tr c -> viewer_licensed env tr' c.
Proof.
  assert (tr ⊆ tr') as Hg by (intros e; apply Hsame).
  destruct c; simpl; auto.
  - apply reads_only_same. intros e. split; apply workspace_events_mono; [done|]. intros x. apply Hsame.
  - by apply viewer_request_mono.
  - intros H. eapply Forall_impl; [exact H|]. intros r. by apply viewer_request_mono.
Qed.
End same_render.

(** C18. A viewer's overlay is read as that viewer only. For every session, cookie and answer of the
    services, every catalog request a page's read sends itself asks for organization-owned rows,
    under the actor id of the user whose session was verified, and names no acting organization but
    one the access gate granted that session; resolving these writes nothing but the gate's cache. *)
Theorem overlay_private env :
  spec (viewer_licensed env) (fun _ _ => True) [] (cached render_reads (fetchModelList env)).
Proof.
  apply spec_cached; [intros tr tr' c Hsame; by apply viewer_licensed_same|done|].
  eapply spec_impl; [| |apply viewer_spec]; done.
Qed.
