(* ===== verification/PlaygroundParams.v ===== *)
(** * The playground's parameters (lib/playground/model-params.ts; [pickServingParams] of app/api/playground/chat/route.ts)

    The rail turns a model's declared parameters into controls and the controls' state into request
    members; the route filters whatever arrives through its own allowlist before the gateway sees it. *)

From S2P Require Import Prelude JsMap JsString JsNumber Json JsonText Catalog.

#[local] Open Scope Z_scope.

(** ** Numbers *)

(** [lo <= x && x <= hi]; false of [NaN]. *)
Definition between (lo hi x : number) : bool := PrimFloat.leb lo x && PrimFloat.leb x hi.

(** The double [Number.parseInt] gives for the digits it read. *)
Definition integer_number (z : Z) : number :=
  match z with
  | Z0 => PrimFloat.zero
  | Z.pos p => number_of_integer false p
  | Z.neg p => number_of_integer true p
  end.

(** ** The route's allowlist *)
Definition keep_number (ok : number -> bool) (v : option json) : option json :=
  match v with Some (JNum x) => if ok x then Some (JNum x) else None | _ => None end.

Definition keep_string (ok : list string) (v : option json) : option json :=
  match v with Some (JStr s) => if bool_decide (s ∈ ok) then Some (JStr s) else None | _ => None end.

Definition keep_array (ok : list json -> bool) (v : option json) : option json :=
  match v with Some (JArr l) => if ok l then Some (JArr l) else None | _ => None end.

Definition REASONING_EFFORTS : list string := ["low"; "medium"; "high"].

Definition MAX_STOPS : nat := 8.
Definition MAX_TOOLS : nat := 64.

(** One member of the parameters, if the source sets it. *)
Definition param (k : string) (v : option json) : list (string * json) :=
  match v with Some v => [(k, v)] | None => [] end.

Definition json_object : json := JObj [("type", JStr "json_object")].

Definition pickServingParams (raw : option json) : list (string * json) :=
  let source k := raw ≫= fun j => jget j k in
  let tools := keep_array (fun l => bool_decide (length l <= MAX_TOOLS)%nat) (source "tools") in
  param "temperature" (keep_number (fun x => is_finite x && between 0 2 x) (source "temperature")) ++
  param "top_p" (keep_number (fun x => is_finite x && between 0 1 x) (source "top_p")) ++
  param "max_tokens" (keep_number (fun x => is_integer x && between 1 200000 x) (source "max_tokens")) ++
  param "reasoning_effort" (keep_string REASONING_EFFORTS (source "reasoning_effort")) ++
  param "seed" (keep_number is_integer (source "seed")) ++
  param "stop" (keep_array (fun l => bool_decide (length l <= MAX_STOPS)%nat &&
                                     forallb (fun j => bool_decide (jstr j <> None)) l) (source "stop")) ++
  param "tools" tools ++ param "tool_choice" ((fun _ => JStr "auto") <$> tools) ++
  param "response_format"
    match source "response_format" with
    | Some v => if bool_decide (jget v "type" = Some (JStr "json_object")) then Some json_object else None
    | None => None
    end.

(** ** lib/playground/model-params.ts *)
Inductive ParamControlKind :=
| Temperature | TopP | MaxTokens | ReasoningEffort | Seed | Stop | Tools | ResponseFormat.

#[export] Instance ParamControlKind_eq_dec : EqDecision ParamControlKind.
Proof. solve_decision. Defined.

Record ParamState := {
  temperature : option number;
  topP : option number;
  maxTokens : string;
  reasoningEffort : option string;
  seed : string;
  stop : string;
  toolsJson : string;
  jsonMode : bool;
}.

Definition emptyParamState : ParamState :=
  {| temperature := None; topP := None; maxTokens := EmptyString; reasoningEffort := None; seed := EmptyString;
     stop := EmptyString; toolsJson := EmptyString; jsonMode := false |}.

Definition control_if (b : bool) (k : ParamControlKind) : list ParamControlKind := if b then [k] else [].

Definition availableControls (m : CatalogModel) : list ParamControlKind :=
  let flag k b := bool_decide (mget (supported_params m) k = Some (JBool b)) in
  control_if (negb (flag "temperature" false)) Temperature ++ control_if (flag "top_p" true) TopP ++ [MaxTokens] ++
  control_if (flag "reasoning" true) ReasoningEffort ++ control_if (flag "seed" true) Seed ++
  control_if (flag "stop" true) Stop ++ control_if (flag "tools" true) Tools ++
  control_if (flag "response_format" true || flag "structured_outputs" true) ResponseFormat.

(** [BuiltParams]: an error's text, or the members. *)
Abbreviation BuiltParams := (string + list (string * json))%type.

Definition has (m : CatalogModel) (k : ParamControlKind) : bool := bool_decide (k ∈ availableControls m).

Definition entered (s : string) : bool := negb (bool_decide (trim s = EmptyString)).

(** [Number.parseInt(s, 10)] where it is an integer. *)
Definition parsed_integer (s : string) : option number :=
  match parse_int s with
  | Some z => if is_integer (integer_number z) then Some (integer_number z) else None
  | None => None
  end.

Definition min_number (a b : number) : number := if PrimFloat.ltb b a then b else a.

(** Each field's step: its members, or the error. *)
Definition build_max_tokens (m : CatalogModel) (st : ParamState) : BuiltParams :=
  if has m MaxTokens && entered (maxTokens st) then
    match parsed_integer (maxTokens st) with
    | Some x => if PrimFloat.ltb x 1 then inl "Max tokens must be a positive integer."
                else inr [("max_tokens", JNum (min_number x (number_of_Z (default 32768 (max_output_tokens m)))))]
    | None => inl "Max tokens must be a positive integer."
    end
  else inr [].

Definition build_seed (m : CatalogModel) (st : ParamState) : BuiltParams :=
  if has m Seed && entered (seed st) then
    match parsed_integer (seed st) with
    | Some x => inr [("seed", JNum x)]
    | None => inl "Seed must be an integer."
    end
  else inr [].

Definition stop_sequences (s : string) : list string :=
  filter (fun e => e <> EmptyString) (map trim (split_on "," s)).

Definition build_stop (m : CatalogModel) (st : ParamState) : list (string * json) :=
  if has m Stop && entered (stop st) && negb (bool_decide (stop_sequences (stop st) = []))
  then [("stop", of_strings (stop_sequences (stop st)))] else [].

Definition build_tools (m : CatalogModel) (st : ParamState) : BuiltParams :=
  if has m Tools && entered (toolsJson st) then
    match json_parse (toolsJson st) with
    | None => inl "Tools must be valid JSON."
    | Some (JArr l) => inr [("tools", JArr l); ("tool_choice", JStr "auto")]
    | Some _ => inl "Tools must be a JSON array of tool definitions."
    end
  else inr [].

Definition buildRequestParams (m : CatalogModel) (st : ParamState) : BuiltParams :=
  match build_max_tokens m st with
  | inl e => inl e
  | inr max_tokens =>
      match build_seed m st with
      | inl e => inl e
      | inr seed_ =>
          match build_tools m st with
          | inl e => inl e
          | inr tools =>
              inr ((if has m Temperature then param "temperature" (JNum <$> temperature st) else []) ++
                   (if has m TopP then param "top_p" (JNum <$> topP st) else []) ++ max_tokens ++
                   (if has m ReasoningEffort then param "reasoning_effort" (JStr <$> reasoningEffort st) else []) ++
                   seed_ ++ build_stop m st ++ tools ++
                   (if has m ResponseFormat && jsonMode st then [("response_format", json_object)] else []))
          end
      end
  end.

Definition supportedAttachmentModalities (m : CatalogModel) : list string :=
  let declared := map to_lower (input_modalities m) in
  (if bool_decide ("image" ∈ declared) then ["image"] else []) ++
  (if bool_decide ("pdf" ∈ declared \/ "document" ∈ declared \/ "file" ∈ declared) then ["pdf"] else []).

(** In dollars; the token counts are the gateway's numbers. *)
Definition estimateResponseCostUsd (e : CatalogEntry) (promptTokens completionTokens : option number) : option number :=
  match cheapestInputMicro e, cheapestOutputMicro e, promptTokens, completionTokens with
  | Some input, Some output, Some p, Some c =>
      Some ((p * number_of_Z input + c * number_of_Z output) / 1000000000000)%float
  | _, _, _, _ => None
  end.

Definition declared (ps : list (string * bool)) (cap : option Z) : CatalogModel :=
  {| model_id := "m"; slug := "m"; display_name := "M"; icon := None; release_date := None; context_window := None;
     max_output_tokens := cap; input_modalities := ["text"; "Image"; "PDF"];
     supported_params := map (fun p => (p.1, JBool p.2)) ps; category := None; tags := [] |}.

Definition typed (tokens seed_ stop_ tools : string) : ParamState :=
  {| temperature := Some 0.5%float; topP := None; maxTokens := tokens; reasoningEffort := Some "high"; seed := seed_;
     stop := stop_; toolsJson := tools; jsonMode := true |}.

Example builds :
  let m := declared [("temperature", false); ("seed", true); ("stop", true); ("structured_outputs", true)] (Some 4096) in
  buildRequestParams m (typed " 9000" "-7x" " a, ,b" "[]") =
    inr [("max_tokens", JNum 4096); ("seed", JNum (-7)); ("stop", of_strings ["a"; "b"]); ("response_format", json_object)]%float /\
  buildRequestParams m (typed "many" "" "" "") = inl "Max tokens must be a positive integer." /\
  buildRequestParams (declared [("tools", true)] None) (typed "" "" "" "{}") =
    inl "Tools must be a JSON array of tool definitions." /\
  supportedAttachmentModalities m = ["image"; "pdf"].
Proof. by vm_compute. Qed.

(** ** Lemmas *)
Definition allowed (k : string) (v : json) : Prop :=
  match v with
  | JNum x =>
      (k = "temperature" /\ is_finite x = true /\ between 0 2 x = true) \/
      (k = "top_p" /\ is_finite x = true /\ between 0 1 x = true) \/
      (k = "max_tokens" /\ is_integer x = true /\ between 1 200000 x = true) \/
      (k = "seed" /\ is_integer x = true)
  | JStr s => (k = "reasoning_effort" /\ s ∈ REASONING_EFFORTS) \/ (k = "tool_choice" /\ s = "auto")
  | JArr l =>
      (k = "stop" /\ (length l <= MAX_STOPS)%nat /\ Forall (fun j => jstr j <> None) l) \/
      (k = "tools" /\ (length l <= MAX_TOOLS)%nat)
  | JObj o => k = "response_format" /\ v = json_object
  | _ => False
  end.

Lemma param_elem k v p : p ∈ param k v <-> exists x, v = Some x /\ p = (k, x).
Proof. unfold param. destruct v; set_solver. Qed.

Lemma keep_number_Some ok v x : keep_number ok v = Some x <-> exists n, v = Some (JNum n) /\ ok n = true /\ x = JNum n.
Proof.
  unfold keep_number. split.
  - destruct v as [[]|]; try done. destruct (ok x0) eqn:?; [|done]. intros [= <-]. eauto.
  - intros (n & -> & -> & ->). done.
Qed.

Lemma keep_string_Some ok v x : keep_string ok v = Some x <-> exists s, v = Some (JStr s) /\ s ∈ ok /\ x = JStr s.
Proof.
  unfold keep_string. split.
  - destruct v as [[]|]; try done. case_bool_decide; [|done]. intros [= <-]. eauto.
  - intros (s & -> & Hs & ->). by rewrite bool_decide_eq_true_2.
Qed.

Lemma keep_array_Some ok v x : keep_array ok v = Some x <-> exists l, v = Some (JArr l) /\ ok l = true /\ x = JArr l.
Proof.
  unfold keep_array. split.
  - destruct v as [[]|]; try done. destruct (ok l) eqn:?; [|done]. intros [= <-]. eauto.
  - intros (l & -> & -> & ->). done.
Qed.

Definition PARAM_KEYS : list string :=
  ["temperature"; "top_p"; "max_tokens"; "reasoning_effort"; "seed"; "stop"; "tools"; "tool_choice"; "response_format"].

Lemma param_keys (kvs : list (string * option json)) : NoDup (map fst kvs) ->
  NoDup (map fst (flat_map (fun kv => param kv.1 kv.2) kvs)).
Proof.
  assert (forall kvs k, k ∈ map fst (flat_map (fun kv : string * option json => param kv.1 kv.2) kvs) -> k ∈ map fst kvs) as Hin.
  { clear kvs. induction kvs as [|[k' [v|]] kvs IH]; simpl; intros k Hk; [done| |].
    - apply elem_of_cons in Hk as [->|Hk]; [left|right; auto].
    - right. auto. }
  induction kvs as [|[k [v|]] kvs IH]; simpl; [constructor| |].
  - intros [Hk Hnd]%NoDup_cons. constructor; [|auto]. intros H. by apply Hk, Hin.
  - intros [Hk Hnd]%NoDup_cons. auto.
Qed.

(** The same filter, as a list of members. *)
Lemma pick_members raw : exists kvs, map fst kvs = PARAM_KEYS /\
  pickServingParams raw = flat_map (fun kv => param kv.1 kv.2) kvs.
Proof.
  unfold pickServingParams. eexists [(_, _); (_, _); (_, _); (_, _); (_, _); (_, _); (_, _); (_, _); (_, _)].
  split; [reflexivity|]. cbn [flat_map fst snd]. by rewrite app_nil_r.
Qed.

(** C36. Whatever the browser sends as parameters, the gateway sees only what the allowlist admits: each
    name at most once, every number finite and inside its range, at most eight stop sequences, all
    strings, at most sixty-four tools, one tool choice, one response format; and nothing else. *)
Theorem picked_allowed raw :
  NoDup (map fst (pickServingParams raw)) /\
  (forall k v, (k, v) ∈ pickServingParams raw -> allowed k v) /\
  ((exists v, ("tool_choice", v) ∈ pickServingParams raw) <-> exists v, ("tools", v) ∈ pickServingParams raw).
Proof.
  split_and!.
  - destruct (pick_members raw) as (kvs & Hk & ->). apply param_keys. rewrite Hk.
    apply (bool_decide_unpack _). by vm_compute.
  - intros k v. unfold pickServingParams. rewrite !elem_of_app, !param_elem. intros H.
    repeat destruct H as [H|H]; destruct H as (x & Hx & [= -> ->]).
    1-3, 5: apply keep_number_Some in Hx as (n & _ & Hn & ->); simpl; bool_simpl; tauto.
    + apply keep_string_Some in Hx as (s & _ & Hs & ->). left. done.
    + apply keep_array_Some in Hx as (l & _ & Hl & ->). left. apply andb_true_iff in Hl as [Hlen Hl].
      split; [done|]. split; [by apply bool_decide_eq_true in Hlen|].
      apply Forall_forall. intros j Hj. rewrite forallb_forall in Hl.
      apply list_elem_of_In, Hl in Hj. by apply bool_decide_eq_true in Hj.
    + apply keep_array_Some in Hx as (l & _ & Hl & ->). right. by apply bool_decide_eq_true in Hl.
    + destruct (keep_array _ _); simplify_eq/=. by right.
    + destruct (raw ≫= _) as [w|]; [|done]. case_bool_decide; simplify_eq/=. done.
  - unfold pickServingParams. setoid_rewrite elem_of_app. repeat setoid_rewrite elem_of_app. setoid_rewrite param_elem.
    destruct (keep_array (fun l => bool_decide (length l <= MAX_TOOLS)%nat) _) as [t|]; naive_solver.
Qed.

Lemma mget_params (kvs : list (string * option json)) k : NoDup (map fst kvs) ->
  mget (flat_map (fun kv => param kv.1 kv.2) kvs) k = mget kvs k ≫= fun v => v.
Proof.
  induction kvs as [|[k' v] kvs IH]; [done|]. cbn [map fst flat_map snd]. intros [Hk Hnd]%NoDup_cons.
  assert (k' = k -> mget (flat_map (fun kv : string * option json => param kv.1 kv.2) kvs) k = None) as Hnone.
  { intros ->. rewrite IH by done. by rewrite (proj2 (mget_None kvs k)) by done. }
  simpl. destruct v as [v|]; simpl; case_decide; simpl; auto.
Qed.

(** The nine members the rail may send, in the route's order. *)
Definition members (t p m r s st tl tc rf : option json) : list (string * option json) :=
  [("temperature", t); ("top_p", p); ("max_tokens", m); ("reasoning_effort", r); ("seed", s); ("stop", st);
   ("tools", tl); ("tool_choice", tc); ("response_format", rf)].

Lemma build_members m st ps : buildRequestParams m st = inr ps ->
  exists t p mt r s sq tl rf,
    ps = flat_map (fun kv => param kv.1 kv.2) (members (JNum <$> t) (JNum <$> p) (JNum <$> mt) (JStr <$> r) (JNum <$> s)
           (of_strings <$> sq) (JArr <$> tl) ((fun _ => JStr "auto") <$> tl) ((fun _ : unit => json_object) <$> rf)) /\
    (t <> None -> has m Temperature = true) /\ (p <> None -> has m TopP = true) /\ (mt <> None -> has m MaxTokens = true) /\
    (r <> None -> has m ReasoningEffort = true) /\ (s <> None -> has m Seed = true) /\ (sq <> None -> has m Stop = true) /\
    (tl <> None -> has m Tools = true) /\ (rf <> None -> has m ResponseFormat = true).
Proof.
  unfold buildRequestParams. intros H.
  destruct (build_max_tokens m st) as [|mt] eqn:Hmt; [done|]. destruct (build_seed m st) as [|s] eqn:Hs; [done|].
  destruct (build_tools m st) as [|tl] eqn:Htl; [done|]. injection H as <-.
  assert (exists x, mt = param "max_tokens" (JNum <$> x) /\ (x <> None -> has m MaxTokens = true)) as (x1 & -> & H1).
  { unfold build_max_tokens in Hmt. destruct (has m MaxTokens); [|by exists None; simplify_eq/=].
    destruct (entered _); [|by exists None; simplify_eq/=]. destruct (parsed_integer _) as [x|]; [|done].
    destruct (PrimFloat.ltb x 1); [done|]. eexists (Some _). by simplify_eq/=. }
  assert (exists x, s = param "seed" (JNum <$> x) /\ (x <> None -> has m Seed = true)) as (x2 & -> & H2).
  { unfold build_seed in Hs. destruct (has m Seed); [|by exists None; simplify_eq/=].
    destruct (entered _); [|by exists None; simplify_eq/=]. destruct (parsed_integer _) as [x|]; [|done].
    exists (Some x). by simplify_eq/=. }
  assert (exists x, tl = param "tools" (JArr <$> x) ++ param "tool_choice" ((fun _ => JStr "auto") <$> x) /\
    (x <> None -> has m Tools = true)) as (x3 & -> & H3).
  { unfold build_tools in Htl. destruct (has m Tools); [|by exists None; simplify_eq/=].
    destruct (entered _); [|by exists None; simplify_eq/=]. destruct (json_parse _) as [[]|]; try done.
    exists (Some l). by simplify_eq/=. }
  assert (exists x, build_stop m st = param "stop" (of_strings <$> x) /\ (x <> None -> has m Stop = true)) as (x4 & -> & H4).
  { unfold build_stop. destruct (has m Stop); [|by exists None]. destruct (true && entered (stop st) && _); [|by exists None].
    by exists (Some (stop_sequences (stop st))). }
  exists (if has m Temperature then temperature st else None), (if has m TopP then topP st else None), x1,
    (if has m ReasoningEffort then reasoningEffort st else None), x2, x4, x3,
    (if has m ResponseFormat && jsonMode st then Some tt else None).
  split; [|split_and!; try done; intros Hne; match goal with |- ?b = true => by destruct b end].
  unfold members. cbn [flat_map fst snd]. rewrite app_nil_r, <- !app_assoc.
  destruct (has m Temperature), (has m TopP), (has m ReasoningEffort), (has m ResponseFormat && jsonMode st); done.
Qed.

(** The control that shows a member. *)
Definition control_of (k : string) : option ParamControlKind :=
  mget [("temperature", Temperature); ("top_p", TopP); ("max_tokens", MaxTokens); ("reasoning_effort", ReasoningEffort);
        ("seed", Seed); ("stop", Stop); ("tools", Tools); ("tool_choice", Tools); ("response_format", ResponseFormat)] k.

Definition exposed (m : CatalogModel) (k : string) : Prop := exists c, control_of k = Some c /\ c ∈ availableControls m.

Lemma has_exposed m k c : control_of k = Some c -> has m c = true -> exposed m k.
Proof. intros Hk Hc. exists c. split; [done|]. by apply bool_decide_eq_true in Hc. Qed.

Lemma of_strings_strings l : forallb (fun j => bool_decide (jstr j <> None)) (map JStr l) = true.
Proof. by induction l. Qed.

(** What is allowed under each name, read back. *)
Lemma allowed_number k x : allowed k (JNum x) ->
  (k = "temperature" -> is_finite x && between 0 2 x = true) /\ (k = "top_p" -> is_finite x && between 0 1 x = true) /\
  (k = "max_tokens" -> is_integer x && between 1 200000 x = true) /\ (k = "seed" -> is_integer x = true).
Proof. simpl. intros H. split_and!; intros ->; decompose [and or] H; try discriminate; by rewrite ?andb_true_iff. Qed.

Lemma allowed_array k l : allowed k (JArr l) ->
  (k = "stop" -> (length l <= MAX_STOPS)%nat) /\ (k = "tools" -> (length l <= MAX_TOOLS)%nat).
Proof. simpl. intros H. split_and!; intros ->; decompose [and or] H; try discriminate; done. Qed.

Lemma pick_built t p mt r s sq tl rf :
  let ps := flat_map (fun kv => param kv.1 kv.2) (members (JNum <$> t) (JNum <$> p) (JNum <$> mt) (JStr <$> r)
    (JNum <$> s) (of_strings <$> sq) (JArr <$> tl) ((fun _ => JStr "auto") <$> tl) ((fun _ : unit => json_object) <$> rf)) in
  Forall (fun kv => allowed kv.1 kv.2) ps -> pickServingParams (Some (JObj ps)) = ps.
Proof.
  intros ps Hall. rewrite Forall_forall in Hall.
  assert (forall k, Some (JObj ps) ≫= (fun j => jget j k) = mget (members (JNum <$> t) (JNum <$> p) (JNum <$> mt) (JStr <$> r)
    (JNum <$> s) (of_strings <$> sq) (JArr <$> tl) ((fun _ => JStr "auto") <$> tl) ((fun _ : unit => json_object) <$> rf)) k
      ≫= fun v => v) as Hget.
  { intros k. simpl. apply mget_params. apply (bool_decide_unpack _). by vm_compute. }
  assert (forall k v, mget (members (JNum <$> t) (JNum <$> p) (JNum <$> mt) (JStr <$> r)
    (JNum <$> s) (of_strings <$> sq) (JArr <$> tl) ((fun _ => JStr "auto") <$> tl) ((fun _ : unit => json_object) <$> rf)) k
      ≫= (fun v => v) = Some v -> allowed k v) as Hv.
  { intros k v Hk. rewrite <- Hget in Hk. apply (Hall (k, v)), mget_Some_elem, Hk. }
  unfold pickServingParams. rewrite !Hget. unfold ps. clear Hget Hall ps. revert Hv.
  unfold members. cbn [flat_map fst snd]. rewrite app_nil_r. intros Hv.
  pose proof (Hv "temperature") as H1. pose proof (Hv "top_p") as H2. pose proof (Hv "max_tokens") as H3.
  pose proof (Hv "reasoning_effort") as H4. pose proof (Hv "seed") as H5. pose proof (Hv "stop") as H6.
  pose proof (Hv "tools") as H7. clear Hv. simpl mget in *. cbn [mbind option_bind] in *.
  assert (keep_array (fun l => bool_decide (length l <= MAX_TOOLS)%nat) (JArr <$> tl) = JArr <$> tl) as ->.
  { destruct tl as [l|]; [|done]. apply keep_array_Some. exists l. split_and!; [done| |done].
    apply bool_decide_eq_true. by apply (allowed_array "tools" l (H7 _ eq_refl)). }
  repeat apply (f_equal2 app); f_equal.
  - destruct t as [x|]; [|done]. apply keep_number_Some. exists x. split_and!; try done.
    by apply (allowed_number "temperature" x (H1 _ eq_refl)).
  - destruct p as [x|]; [|done]. apply keep_number_Some. exists x. split_and!; try done.
    by apply (allowed_number "top_p" x (H2 _ eq_refl)).
  - destruct mt as [x|]; [|done]. apply keep_number_Some. exists x. split_and!; try done.
    by apply (allowed_number "max_tokens" x (H3 _ eq_refl)).
  - destruct r as [x|]; [|done]. apply keep_string_Some. exists x. split_and!; try done.
    destruct (H4 _ eq_refl) as [[_ ?]|[? _]]; done.
  - destruct s as [x|]; [|done]. apply keep_number_Some. exists x. split_and!; try done.
    by apply (allowed_number "seed" x (H5 _ eq_refl)).
  - destruct sq as [l|]; [|done]. apply keep_array_Some. exists (map JStr l). split_and!; try done.
    apply andb_true_iff. split; [|apply of_strings_strings].
    apply bool_decide_eq_true. by apply (allowed_array "stop" _ (H6 _ eq_refl)).
  - by destruct tl.
  - by destruct rf as [[]|].
Qed.

Lemma picked_source raw k v : (k, v) ∈ pickServingParams raw ->
  (k <> "tool_choice" -> k <> "response_format" -> raw ≫= (fun j => jget j k) = Some v) /\
  (k = "tool_choice" -> v = JStr "auto" /\ exists l, raw ≫= (fun j => jget j "tools") = Some (JArr l)) /\
  (k = "response_format" -> v = json_object /\ exists w, raw ≫= (fun j => jget j "response_format") = Some w).
Proof.
  unfold pickServingParams. rewrite !elem_of_app, !param_elem. intros H.
  destruct H as [H|[H|[H|[H|[H|[H|[H|[H|H]]]]]]]]; destruct H as (x & Hx & [= -> ->]); (split_and!; try done).
  1-3, 5: by apply keep_number_Some in Hx as (n & Hn & _ & ->).
  - by apply keep_string_Some in Hx as (n & Hn & _ & ->).
  - by apply keep_array_Some in Hx as (n & Hn & _ & ->).
  - by apply keep_array_Some in Hx as (n & Hn & _ & ->).
  - intros _. destruct (keep_array _ _) eqn:Hk; simplify_eq/=. split; [done|].
    apply keep_array_Some in Hk as (l & Hl & _ & _). by exists l.
  - intros _. destruct (raw ≫= _) as [w|] eqn:Hw; [|done]. case_bool_decide; simplify_eq/=. split; [done|]. by exists w.
Qed.

Lemma picked_built t p mt r s sq tl rf :
  let ps := flat_map (fun kv => param kv.1 kv.2) (members (JNum <$> t) (JNum <$> p) (JNum <$> mt) (JStr <$> r)
    (JNum <$> s) (of_strings <$> sq) (JArr <$> tl) ((fun _ => JStr "auto") <$> tl) ((fun _ : unit => json_object) <$> rf)) in
  forall k v, (k, v) ∈ pickServingParams (Some (JObj ps)) -> (k, v) ∈ ps.
Proof.
  intros ps k v (Hany & Htool & Hformat)%picked_source.
  destruct (decide (k = "tool_choice")) as [->|Ht]; [|destruct (decide (k = "response_format")) as [->|Hf]].
  - destruct (Htool eq_refl) as (-> & l & Hl%mget_Some_elem). clear Hany Htool Hformat. unfold ps, members in *.
    cbn [flat_map fst snd] in *. rewrite !elem_of_app, !param_elem in *. destruct tl as [l'|].
    2: { exfalso. repeat (destruct Hl as [(x & Hx & Heq)|Hl]; [by simplify_eq/=|]). by apply elem_of_nil in Hl. }
    do 7 right. left. by eexists.
  - destruct (Hformat eq_refl) as (-> & w & Hw%mget_Some_elem). clear Hany Htool Hformat. unfold ps, members in *.
    cbn [flat_map fst snd] in *. rewrite !elem_of_app, !param_elem in *. destruct rf as [l'|].
    2: { exfalso. repeat (destruct Hw as [(x & Hx & Heq)|Hw]; [by simplify_eq/=|]). by apply elem_of_nil in Hw. }
    do 8 right. left. by eexists.
  - by apply mget_Some_elem, Hany.
Qed.

(** The rail and the route agree. The rail sends a parameter only where the model exposes its control;
    what it builds reaches the gateway unchanged exactly when every member is one the route admits; and
    otherwise the route only drops members, it changes none. *)
Theorem rail_meets_route m st ps (Hbuilt : buildRequestParams m st = inr ps) :
  (forall k v, (k, v) ∈ ps -> exposed m k) /\
  (pickServingParams (Some (JObj ps)) = ps <-> Forall (fun kv => allowed kv.1 kv.2) ps) /\
  (forall k v, (k, v) ∈ pickServingParams (Some (JObj ps)) -> (k, v) ∈ ps).
Proof.
  destruct (build_members m st ps Hbuilt) as (t & p & mt & r & s & sq & tl & rf & -> & H1 & H2 & H3 & H4 & H5 & H6 & H7 & H8).
  split_and!.
  - intros k v. unfold members. cbn [flat_map fst snd]. rewrite !elem_of_app, !param_elem. intros H.
    destruct H as [H|[H|[H|[H|[H|[H|[H|[H|[H|H%elem_of_nil]]]]]]]]]; [..|done].
    all: destruct H as (x & Hx & [= -> ->]); eapply has_exposed; [reflexivity|].
    all: first [apply H1|apply H2|apply H3|apply H4|apply H5|apply H6|apply H7|apply H8]; intros ->; discriminate.
  - split; [|apply pick_built]. intros Heq. rewrite <- Heq. apply Forall_forall. intros [k v] Hkv.
    by eapply picked_allowed.
  - apply picked_built.
Qed.

Lemma rail_meets_route_witness :
  let m := declared [("seed", true)] (Some 4096) in
  let st := {| temperature := Some 0.5%float; topP := None; maxTokens := "9000"; reasoningEffort := None;
               seed := "7"; stop := EmptyString; toolsJson := EmptyString; jsonMode := false |} in
  buildRequestParams m st = inr [("temperature", JNum 0.5); ("max_tokens", JNum 4096); ("seed", JNum 7)]%float /\
  exposed m "seed".
Proof.
  split; [reflexivity|].
  exact (proj1 (rail_meets_route (declared [("seed", true)] (Some 4096))
    {| temperature := Some 0.5%float; topP := None; maxTokens := "9000"; reasoningEffort := None;
       seed := "7"; stop := EmptyString; toolsJson := EmptyString; jsonMode := false |}
    [("temperature", JNum 0.5); ("max_tokens", JNum 4096); ("seed", JNum 7)]%float eq_refl) "seed" (JNum 7%float)
    ltac:(right; right; left)).
Defined.

(** A model that emits more than 200,000 tokens: the rail accepts a larger cap and promises it, the route
    drops the member, and the request runs at the model's default; nine stop sequences vanish likewise. *)
Theorem rail_cap_dropped :
  let m := declared [("stop", true)] (Some 300000) in
  let st := {| temperature := None; topP := None; maxTokens := "250000"; reasoningEffort := None; seed := EmptyString;
               stop := "a,b,c,d,e,f,g,h,i"; toolsJson := EmptyString; jsonMode := false |} in
  (exists ps, buildRequestParams m st = inr ps /\ mget ps "max_tokens" = Some (JNum 250000%float) /\
     pickServingParams (Some (JObj ps)) = []).
Proof. eexists. split; [vm_compute; reflexivity|]. by vm_compute. Qed.
