(* ===== verification/Playground.v ===== *)
(** * The playground's chat transport
    (app/api/playground/chat/route.ts, lib/playground/chat-events.ts, lib/playground/serving-key.ts)

    One streamed completion: the request is validated, a serving key is minted for the exchange, the
    gateway's stream is relayed as the playground's own events, and the key is revoked. The route
    returns its response as soon as the stream is set up and the relay runs on behind it; here the
    relay's commands follow in the same trace. *)

From S2P Require Import Prelude JsMap JsString JsDate JsNumber Json JsonText Sse Effects Services Access OrgAccess TenantServices ApiKeys PlaygroundParams.

#[local] Open Scope Z_scope.

#[local] Abbreviation ask c := (@call tenant_effects app_error c).

(** ** lib/playground/chat-events.ts *)
Inductive PlaygroundChatEvent :=
| Delta (text : string)
| Usage (promptTokens completionTokens : option number) (latencyMs : number)
| ErrorEvent (message : string)
| DoneEvent.

Definition number_or_null (x : option number) : json := match x with Some x => JNum x | None => JNull end.

(** The object literal of an event. *)
Definition event_json (e : PlaygroundChatEvent) : json :=
  match e with
  | Delta text => JObj [("type", JStr "delta"); ("text", JStr text)]
  | Usage p c l =>
      JObj [("type", JStr "usage"); ("promptTokens", number_or_null p); ("completionTokens", number_or_null c);
            ("latencyMs", JNum l)]
  | ErrorEvent m => JObj [("type", JStr "error"); ("message", JStr m)]
  | DoneEvent => JObj [("type", JStr "done")]
  end.

Definition jget_num (j : json) (k : string) : option number := jget j k ≫= jnum.

Definition parsePlaygroundChatEvent (payload : string) : option PlaygroundChatEvent :=
  match json_parse payload with
  | None => None
  | Some d =>
      match jget_str d "type" with
      | Some "delta" => Delta <$> jget_str d "text"
      | Some "usage" => Usage (jget_num d "promptTokens") (jget_num d "completionTokens") <$> jget_num d "latencyMs"
      | Some "error" => ErrorEvent <$> jget_str d "message"
      | Some "done" => Some DoneEvent
      | _ => None
      end
  end.

(** ** The request *)
Definition MAX_MESSAGES : nat := 40.
Definition MAX_TOTAL_CONTENT_CHARS : Z := 200000.
Definition MAX_BODY_BYTES : number := 8000000%float.

Record PlaygroundMessage := { role : string; content : json }.

Definition contentChars (content : json) : Z :=
  Z.of_nat match content with JStr s => String.length s | c => String.length (stringify c) end.

Definition message_content (item : json) : option json :=
  match jget item "content" with
  | Some (JStr s) => Some (JStr s)
  | Some (JArr l) => Some (JArr l)
  | _ => None
  end.

(** The loop, with the characters counted so far. *)
Fixpoint parse_messages_from (totalChars : Z) (items : list json) : option (list PlaygroundMessage) :=
  match items with
  | [] => Some []
  | item :: items =>
      match jget_str item "role", message_content item with
      | Some r, Some c =>
          let totalChars := totalChars + contentChars c in
          if decide (MAX_TOTAL_CONTENT_CHARS < totalChars) then None
          else cons {| role := r; content := c |} <$> parse_messages_from totalChars items
      | _, _ => None
      end
  end.

Definition parseMessages (raw : option json) : option (list PlaygroundMessage) :=
  match raw with
  | Some (JArr l) =>
      if bool_decide (l = []) || bool_decide (MAX_MESSAGES < length l)%nat then None else parse_messages_from 0 l
  | _ => None
  end.

Definition message_json (m : PlaygroundMessage) : json := JObj [("role", JStr (role m)); ("content", content m)].

Definition chat_request (model : string) (messages : list PlaygroundMessage) (params : list (string * json)) : json :=
  JObj ([("model", JStr model); ("messages", JArr (map message_json messages)); ("stream", JBool true);
         ("stream_options", JObj [("include_usage", JBool true)])] ++ params).

(** ** The relay *)
Definition parseChunk (payload : string) : option json :=
  match json_parse payload with
  | Some (JArr l) => Some (JArr l)
  | Some (JObj o) => Some (JObj o)
  | _ => None
  end.

Definition upstreamErrorMessage (upstream : ChatStream) : string :=
  let error := match chat_json upstream with inr j => jget j "error" | inl _ => None end in
  match error with
  | Some (JStr s) => s
  | Some e => default "The model could not serve this request." (jget_str e "message")
  | None => "The model could not serve this request."
  end.

Definition emit (e : PlaygroundChatEvent) : T unit :=
  r ← ask (Enqueue (frame (stringify (event_json e)))); answered r.

(** [for (const choice of chunk.choices ?? [])]: the iterated values; a value that cannot be iterated
    throws. A string is iterated by character, none of which has a delta. *)
Definition choices_of (chunk : json) : T (list json) :=
  match jget chunk "choices" with
  | None | Some JNull | Some (JStr _) => mret []
  | Some (JArr l) => mret l
  | Some _ => raise_error "chunk.choices is not iterable"
  end.

(** [choice.delta?.content] where it is text. *)
Definition delta_text (choice : json) : option string :=
  jget choice "delta" ≫= fun d => present (jget_str d "content").

Definition relay_choice (_ : unit) (choice : json) : T unit :=
  match choice with
  | JNull => raise_error "Cannot read properties of null (reading 'delta')"
  | c => match delta_text c with Some text => emit (Delta text) | None => mret tt end
  end.

Record Tokens := { promptTokens : option number; completionTokens : option number }.

Definition no_tokens : Tokens := {| promptTokens := None; completionTokens := None |}.

(** The usage block, where the chunk has one; a value that is not an object has no counts. *)
Definition take_usage (t : Tokens) (chunk : json) : Tokens :=
  match jget chunk "usage" with
  | Some u =>
      {| promptTokens := match jget_num u "prompt_tokens" with Some x => Some x | None => promptTokens t end;
         completionTokens := match jget_num u "completion_tokens" with Some x => Some x | None => completionTokens t end |}
  | None => t
  end.

Definition relay_chunk (t : Tokens) (payload : string) : T Tokens :=
  match parseChunk payload with
  | None => mret t
  | Some chunk =>
      choices ← choices_of chunk;
      _ ← for_of relay_choice choices tt;
      mret (take_usage t chunk)
  end.

(** The payloads up to [[DONE]]; past the last, the body's failure, if it failed. *)
Fixpoint relay_payloads (t : Tokens) (payloads : list string) (failure : option Thrown) : T Tokens :=
  match payloads with
  | [] => match failure with Some e => raise_thrown e | None => mret t end
  | payload :: payloads =>
      if decide (payload = "[DONE]") then mret t
      else t ← relay_chunk t payload; relay_payloads t payloads failure
  end.

Definition body_payloads (body : list string * (Thrown + string)) : list string * option Thrown :=
  match body.2 with
  | inr tail => (readSseData body.1 tail, None)
  | inl e => (read_open (Reader EmptyString []) body.1, Some e)
  end.

Definition relay_stream (upstream : ChatStream) (startedAt : Z) : T unit :=
  match chat_ok upstream, chat_body upstream with
  | true, Some body =>
      let '(payloads, failure) := body_payloads body in
      t ← relay_payloads no_tokens payloads failure;
      now ← ask TenantClock;
      _ ← emit (Usage (promptTokens t) (completionTokens t) (number_of_Z (now - startedAt)));
      emit DoneEvent
  | _, _ =>
      _ ← emit (ErrorEvent (upstreamErrorMessage upstream));
      emit DoneEvent
  end.

(** [error instanceof Error ? error.message : "..."]. *)
Definition stream_error_text (e : app_error) : string :=
  match e with
  | DataSourceError (OtherError t) => if thrown_is_error t then thrown_message t else "The response could not be completed."
  | e => app_error_text e
  end.

(** [try { p } finally { f }]. *)
Definition try_finally {A} (p : T A) (f : T unit) : T A :=
  r ← try_catch (x ← p; mret (inr x)) (fun e => mret (inl e));
  _ ← f;
  match r with inl e => Throw e | inr x => mret x end.

(** The stream's [start]. *)
Definition start (upstream : ChatStream) (startedAt : Z) (key : PlaygroundServingKey) : T unit :=
  try_finally
    (try_catch (relay_stream upstream startedAt)
       (fun e =>
          aborted ← ask SignalAborted;
          if aborted : bool then mret tt
          else _ ← emit (ErrorEvent (stream_error_text e)); emit DoneEvent))
    (_ ← revoke key false; r ← ask CloseStream; answered r).

(** The response that carries the stream. *)
Definition sseResponse : response := Response 200 JNull.

Definition refuse (message : string) (status : Z) : T response := mret (json_error message status).

Section route.
Variable sha256_hex : string -> string.

(** The exchange: the key, the upstream call, the stream. A rejected [start] breaks the stream, not the
    response. *)
Definition exchange (orgId userId : string) (body : json) : T response :=
  servingKey ← mintPlaygroundServingKey sha256_hex orgId userId;
  startedAt ← ask TenantClock;
  upstream ← ask (StreamChat (serving_secret servingKey) body);
  match upstream with
  | inl e => _ ← revoke servingKey false; raise_thrown e
  | inr upstream =>
      _ ← try_catch (start upstream startedAt servingKey) (fun _ => mret tt);
      mret sseResponse
  end.

Definition chat_handler : T response :=
  user ← gate getAuthenticatedUser;
  match user with
  | None => refuse "Authentication required." 401
  | Some u =>
      header ← ask ContentLength;
      if PrimFloat.ltb MAX_BODY_BYTES (to_number (default "0" header)) then refuse "Request body is too large." 413
      else
        body ← ask RequestBody;
        let body := match body with inr b => b | inl _ => JNull end in
        match jget_str body "model" with
        | None => refuse "A model must be selected." 400
        | Some model =>
            if bool_decide (trim model = EmptyString) || bool_decide (200 < String.length model)%nat
            then refuse "A model must be selected." 400
            else
              match jget_str body "orgId" with
              | None => refuse "An organization is required." 400
              | Some orgIdentifier =>
                  if bool_decide (trim orgIdentifier = EmptyString) then refuse "An organization is required." 400
                  else
                    match parseMessages (jget body "messages") with
                    | None => refuse "Malformed or oversized conversation." 400
                    | Some messages =>
                        orgId ← gate (requireOrgId orgIdentifier);
                        exchange orgId (user_id u) (chat_request model messages (pickServingParams (jget body "params")))
                    end
              end
        end
  end.

Definition POST : T response := route chat_handler.
End route.

(** ** Lemmas: the wire *)

(** Counts and times that are integers below 2^53. *)
Definition counted (x : number) : Prop := exists z, Z.abs z < 2 ^ 53 /\ x = number_of_Z z.

Definition wire_event (e : PlaygroundChatEvent) : Prop :=
  match e with
  | Usage p c l => (forall x, p = Some x -> counted x) /\ (forall x, c = Some x -> counted x) /\ counted l
  | _ => True
  end.

Lemma number_or_null_wire x : (forall n, x = Some n -> counted n) -> wire_json (number_or_null x).
Proof. destruct x; simpl; [|done]. intros H. by apply H. Qed.

Lemma event_wire e : wire_event e -> wire_json (event_json e).
Proof.
  assert (forall kvs, bool_decide (NoDup (map fst kvs)) = true -> Forall (fun kv => wire_json kv.2) kvs -> wire_json (JObj kvs)) as Hobj.
  { intros kvs Hnd Hall. apply wire_obj. split; [by apply bool_decide_eq_true in Hnd|done]. }
  destruct e as [text|p c l|m|]; simpl event_json; intros H; (apply Hobj; [reflexivity|]); repeat constructor; simpl; try done.
  - apply number_or_null_wire, H.
  - apply number_or_null_wire, H.
  - apply H.
Qed.

Lemma parse_event e : wire_event e -> parsePlaygroundChatEvent (stringify (event_json e)) = Some e.
Proof.
  intros H%event_wire. unfold parsePlaygroundChatEvent. rewrite json_parse_stringify by done.
  by destruct e as [text|[p|] [c|] l|m|].
Qed.

Lemma framed_events events : Forall wire_event events ->
  Forall (fun p => includes_char LF p = false /\ includes_char CR p = false) (map (fun e => stringify (event_json e)) events).
Proof.
  intros H. apply Forall_fmap. eapply Forall_impl; [exact H|]. intros e He%event_wire%stringify_visible.
  split; by apply visible_free.
Qed.

Definition joined (l : list string) : string := foldr String.append EmptyString l.

(** What the route enqueues, the browser reads back, however the network cuts it. *)
Lemma events_read_back events chunks : Forall wire_event events ->
  joined chunks = joined (map (fun e => frame (stringify (event_json e))) events) ->
  omap parsePlaygroundChatEvent (readSseData chunks EmptyString) = events.
Proof.
  intros Hw Hc. unfold joined in *. rewrite (frames_read (map (fun e => stringify (event_json e)) events)).
  - clear Hc. induction Hw as [|e events He _ IH]; [done|]. cbn [map omap list_omap]. rewrite parse_event by done.
    by rewrite IH.
  - by apply framed_events.
  - by rewrite map_map.
Qed.

(** ** Lemmas: a completion end to end *)

(** A world that keeps what is enqueued, for an upstream that has answered and a fixed clock. *)
Definition browser (now : Z) : handler tenant_effects (list string) :=
  fun w c => (match c with Enqueue text => w ++ [text] | _ => w end,
              match c return tenant_ans c with TenantClock => now | c => quiet_answer c end).

(** The chunks of a completion as the gateway streams them: text deltas, then the usage. *)
Definition delta_chunk (text : string) : json :=
  JObj [("choices", JArr [JObj [("delta", JObj [("content", JStr text)])]])].

Definition usage_chunk (p c : Z) : json :=
  JObj [("choices", JArr []); ("usage", JObj [("prompt_tokens", JNum (number_of_Z p)); ("completion_tokens", JNum (number_of_Z c))])].

Definition completion (texts : list string) (p c : Z) : list string :=
  map (fun t => stringify (delta_chunk t)) texts ++ [stringify (usage_chunk p c); "[DONE]"].

Lemma delta_chunk_wire t : wire_json (delta_chunk t).
Proof.
  unfold delta_chunk. simpl. repeat split; try constructor; try apply not_elem_of_nil; constructor.
Qed.

Lemma usage_chunk_wire p c : Z.abs p < 2 ^ 53 -> Z.abs c < 2 ^ 53 -> wire_json (usage_chunk p c).
Proof.
  intros Hp Hc. unfold usage_chunk. simpl.
  assert (NoDup ["choices"; "usage"] /\ NoDup ["prompt_tokens"; "completion_tokens"]) as [H1 H2]
    by (split; apply (bool_decide_unpack _); by vm_compute).
  split_and!; try done; [by exists p|by exists c].
Qed.

Section relayed.
Context (now : Z).
Abbreviation runs := (runs (browser now)).

Definition wire (e : PlaygroundChatEvent) : string := frame (stringify (event_json e)).

Lemma runs_emit e w : runs (emit e) w (Done tt) (w ++ [wire e]).
Proof. unfold emit. apply runs_vis. apply runs_ret. Qed.

Lemma runs_delta t text w : text <> EmptyString ->
  runs (relay_chunk t (stringify (delta_chunk text))) w (Done t) (w ++ [wire (Delta text)]).
Proof.
  intros Ht. unfold relay_chunk, parseChunk. rewrite json_parse_stringify by apply delta_chunk_wire.
  cbn [delta_chunk choices_of jget mget decide]. unfold delta_chunk, choices_of. simpl jget.
  apply (runs_bind _ _ _ _ [JObj [("delta", JObj [("content", JStr text)])]] w); [apply runs_ret|].
  apply (runs_bind _ _ _ _ tt (w ++ [wire (Delta text)])); [|apply runs_ret].
  cbn [for_of]. apply (runs_bind _ _ _ _ tt (w ++ [wire (Delta text)])); [|apply runs_ret].
  unfold relay_choice. assert (delta_text (JObj [("delta", JObj [("content", JStr text)])]) = Some text) as ->.
  { unfold delta_text. simpl. by destruct text. }
  apply runs_emit.
Qed.

Lemma runs_usage t p c w : Z.abs p < 2 ^ 53 -> Z.abs c < 2 ^ 53 ->
  runs (relay_chunk t (stringify (usage_chunk p c))) w
    (Done {| promptTokens := Some (number_of_Z p); completionTokens := Some (number_of_Z c) |}) w.
Proof.
  intros Hp Hc. unfold relay_chunk, parseChunk. rewrite json_parse_stringify by by apply usage_chunk_wire.
  unfold usage_chunk. apply (runs_bind _ _ _ _ [] w); [apply runs_ret|]. cbn [for_of].
  apply (runs_bind _ _ _ _ tt w); [apply runs_ret|]. apply runs_ret.
Qed.

Lemma not_done j : wire_json j -> stringify j <> "[DONE]".
Proof. intros Hw Heq. pose proof (json_parse_stringify j Hw) as H. by rewrite Heq in H. Qed.

Lemma runs_completion texts p c after t w : Forall (fun s => s <> EmptyString) texts -> Z.abs p < 2 ^ 53 -> Z.abs c < 2 ^ 53 ->
  runs (relay_payloads t (completion texts p c ++ after) None) w
    (Done {| promptTokens := Some (number_of_Z p); completionTokens := Some (number_of_Z c) |})
    (w ++ map (fun s => wire (Delta s)) texts).
Proof.
  intros Htexts Hp Hc. unfold completion. revert t w. induction Htexts as [|s texts Hs _ IH]; intros t w; cbn [map app relay_payloads].
  - rewrite decide_False by by apply not_done, usage_chunk_wire. rewrite app_nil_r.
    eapply runs_bind; [by apply runs_usage|]. rewrite decide_True by done. apply runs_ret.
  - rewrite decide_False by apply not_done, delta_chunk_wire.
    eapply runs_bind; [by apply runs_delta|]. pose proof (IH t (w ++ [wire (Delta s)])) as H.
    replace ((w ++ [wire (Delta s)]) ++ map (fun s => wire (Delta s)) texts)
      with (w ++ wire (Delta s) :: map (fun s => wire (Delta s)) texts) in H by (by rewrite <- app_assoc). exact H.
Qed.
End relayed.

Lemma completion_framed texts p c : Z.abs p < 2 ^ 53 -> Z.abs c < 2 ^ 53 ->
  Forall (fun s => includes_char LF s = false /\ includes_char CR s = false) (completion texts p c).
Proof.
  intros Hp Hc.
  assert (forall j, wire_json j -> includes_char LF (stringify j) = false /\ includes_char CR (stringify j) = false) as Hj.
  { intros j Hw%stringify_visible. split; (apply visible_free; [done|vm_compute; reflexivity]). }
  unfold completion. apply Forall_app. split.
  - apply Forall_fmap, Forall_true. intros s. apply Hj, delta_chunk_wire.
  - repeat constructor; by apply Hj, usage_chunk_wire.
Qed.

(** C12. What the model says arrives. Whatever the completion's text deltas and token counts, wherever the
    network cuts the gateway's stream on its way in and the route's stream on its way out, and whatever
    the gateway sends after it is done: the browser reads exactly those deltas, in order, then the
    gateway's own counts with the measured latency, then the end. *)
Theorem completion_arrives texts p c after key startedAt now chunks reads
    (Htexts : Forall (fun s => s <> EmptyString) texts)
    (Hcounts : Z.abs p < 2 ^ 53 /\ Z.abs c < 2 ^ 53 /\ Z.abs (now - startedAt) < 2 ^ 53)
    (Hafter : Forall (fun s => includes_char LF s = false /\ includes_char CR s = false) after)
    (Hchunks : joined chunks = joined (map frame (completion texts p c ++ after)))
    (Hreads : joined reads = joined (run (browser now)
       (start {| chat_ok := true; chat_json := inr JNull; chat_body := Some (chunks, inr EmptyString) |} startedAt key) []).2) :
  omap parsePlaygroundChatEvent (readSseData reads EmptyString) =
    map Delta texts ++ [Usage (Some (number_of_Z p)) (Some (number_of_Z c)) (number_of_Z (now - startedAt)); DoneEvent].
Proof.
  destruct Hcounts as (Hp & Hc & Hl).
  assert (readSseData chunks EmptyString = completion texts p c ++ after) as Hin.
  { apply frames_read; [|done]. apply Forall_app. split; [by apply completion_framed|done]. }
  set (events := map Delta texts ++ [Usage (Some (number_of_Z p)) (Some (number_of_Z c)) (number_of_Z (now - startedAt)); DoneEvent]).
  apply events_read_back.
  { apply Forall_app. split; [apply Forall_fmap, Forall_true; done|]. repeat constructor.
    - intros x [= <-]. by exists p.
    - intros x [= <-]. by exists c.
    - by exists (now - startedAt). }
  rewrite Hreads. clear reads Hreads.
  match goal with |- joined (run _ ?q _).2 = _ => assert (runs (browser now) q [] (Done tt) (map wire events)) as [tr ->]; [|done] end.
  unfold start, try_finally. eapply runs_bind.
  - eapply runs_try, runs_bind; [|apply runs_ret]. eapply runs_try. unfold relay_stream, body_payloads.
    cbn [chat_ok chat_body fst snd]. rewrite Hin.
    eapply runs_bind; [by apply runs_completion|]. apply runs_vis. cbn [browser fst snd].
    eapply runs_bind; [apply runs_emit|]. apply runs_emit.
  - cbn beta. eapply runs_bind; [|apply runs_ret]. unfold revoke. eapply runs_bind.
    + apply runs_vis. cbn [browser fst snd]. apply runs_vis. cbn [browser fst snd]. apply runs_ret.
    + apply runs_vis. cbn [browser fst snd]. unfold events. rewrite map_app, map_map, <- app_assoc. apply runs_ret.
Qed.

Definition demo_key : PlaygroundServingKey := {| serving_secret := "xpl_1"; serving_key_id := "k1" |}.

(** The stream [c1] cut in two places on the way in, and unread further on the way out. *)
Definition demo_stream : ChatStream :=
  let c1 := joined (map frame (completion ["Hi"; " there"] 3 2 ++ [":)"])) in
  {| chat_ok := true; chat_json := inr JNull; chat_body := Some ([str_take 20 c1; str_drop 20 c1], inr EmptyString) |}.

Lemma completion_arrives_witness :
  omap parsePlaygroundChatEvent (readSseData (run (browser 1500) (start demo_stream 0 demo_key) []).2 EmptyString) =
    [Delta "Hi"; Delta " there"; Usage (Some (number_of_Z 3)) (Some (number_of_Z 2)) (number_of_Z 1500); DoneEvent].
Proof.
  apply (completion_arrives ["Hi"; " there"] 3 2 [":)"] demo_key 0 1500
    (let c1 := joined (map frame (completion ["Hi"; " there"] 3 2 ++ [":)"])) in [str_take 20 c1; str_drop 20 c1])).
  - repeat constructor; discriminate.
  - repeat split; lia.
  - repeat constructor.
  - vm_compute. reflexivity.
  - reflexivity.
Defined.

(** A failure after a first delta is reported in the stream; one before any delta, too. *)
Example relays_failures :
  let broken := {| chat_ok := true; chat_json := inr JNull;
                   chat_body := Some ([frame (stringify (delta_chunk "Hi"))], inl (new_Error "socket closed")) |} in
  let refused := {| chat_ok := false; chat_json := inr (JObj [("error", JObj [("message", JStr "No credits.")])]); chat_body := None |} in
  (run (browser 0) (start broken 0 demo_key) []).2 = [wire (Delta "Hi"); wire (ErrorEvent "socket closed"); wire DoneEvent] /\
  (run (browser 0) (start refused 0 demo_key) []).2 = [wire (ErrorEvent "No credits."); wire DoneEvent].
Proof. by vm_compute. Qed.

(** ** Lemmas: the key's life *)
Implicit Types (tr : list (event tenant_effects)).

(** The key an event stores, or revokes. *)
Definition mint_of (e : event tenant_effects) : option string :=
  match e with
  | Ev (InsertApiKey _) r => match error r, data r with None, Some k => Some (ins_id k) | _, _ => None end
  | _ => None
  end.

Definition revoke_of (e : event tenant_effects) : option string :=
  match e with Ev (UpdateKeyRevoked id _ _) _ => Some id | _ => None end.

Definition mints tr : list string := omap mint_of tr.
Definition revokes tr : list string := omap revoke_of tr.

Definition unkeyed tr : Prop := mints tr = [] /\ revokes tr = [].
Definition held (id : string) tr : Prop := mints tr = [id] /\ revokes tr = [].

Definition quiet (e : event tenant_effects) : Prop := mint_of e = None /\ revoke_of e = None.

Lemma mints_snoc tr e : mints (tr ++ [e]) = mints tr ++ mints [e].
Proof. apply omap_app. Qed.

Lemma revokes_snoc tr e : revokes (tr ++ [e]) = revokes tr ++ revokes [e].
Proof. apply omap_app. Qed.

Lemma held_quiet id tr e : quiet e -> held id tr -> held id (tr ++ [e]).
Proof.
  intros [Hm Hr] [H1 H2]. split; [rewrite mints_snoc, H1|rewrite revokes_snoc, H2]; cbn; by rewrite ?Hm, ?Hr.
Qed.

Lemma unkeyed_quiet tr e : quiet e -> unkeyed tr -> unkeyed (tr ++ [e]).
Proof.
  intros [Hm Hr] [H1 H2]. split; [rewrite mints_snoc, H1|rewrite revokes_snoc, H2]; cbn; by rewrite ?Hm, ?Hr.
Qed.

Lemma reads_quiet e : reads e -> quiet e.
Proof. by destruct e as [[] x]. Qed.

Lemma unkeyed_grown tr tr' : grown tr tr' -> unkeyed tr -> unkeyed tr'.
Proof.
  intros (q & -> & Hq) H. induction q as [|e q IH] using rev_ind; [by rewrite app_nil_r|].
  apply Forall_snoc in Hq as [Hq He]. rewrite app_assoc. apply unkeyed_quiet; [by apply reads_quiet|auto].
Qed.

Section key_life.
Variable sha256_hex : string -> string.

(** A playground key: stored for a signed-in user the access gate let into an organization that is not
    banned, from a fresh secret. *)
Definition play_key tr (row : KeyRow) (secret : string) : Prop :=
  exists u ident hex, signed_in tr u /\ granted (gate_events tr) ident RoleUser (key_org row) /\
    not_banned tr (key_org row) /\ RandomHex ↣ hex ∈ tr /\ secret = API_KEY_SECRET_PREFIX +:+ hex /\
    key_created_by row = user_id u /\ key_name row = PLAYGROUND_KEY_NAME /\ key_hash row = sha256_hex secret.

Definition play_licensed tr (c : cmd tenant_effects) : Prop :=
  match c with
  | Gate c => cache_licensed (gate_events tr) c
  | UpsertIdentity _ _ _ => unkeyed tr
  | InsertApiKey row => unkeyed tr /\ exists secret, play_key tr row secret
  | StreamChat secret body =>
      (exists id row k, held id tr /\ stored tr row k /\ id = ins_id k /\ play_key tr row secret) /\
      (exists model messages raw, body = chat_request model messages (pickServingParams raw))
  | Enqueue text => (exists id, held id tr) /\ exists e, text = wire e
  | UpdateKeyRevoked id _ _ => held id tr
  | CloseStream => exists id, mints tr = [id] /\ revokes tr = [id]
  | c => writes c = false
  end.

(** However the exchange ends, at most one key was stored, and every key stored was revoked, once. *)
Definition key_settled tr : Prop := revokes tr = mints tr /\ (length (mints tr) <= 1)%nat.

Abbreviation I := (on_coherent play_licensed).

(** A part of the relay: the key is held throughout. *)
Definition keeps {A} (p : T A) : Prop := forall id tr, held id tr -> spec I (fun tr' _ => held id tr') tr p.

Lemma keeps_ret {A} (a : A) : keeps (mret a).
Proof. by intros id tr H. Qed.

Lemma keeps_throw {A} (e : app_error) : keeps (Throw e : T A).
Proof. by intros id tr H. Qed.

Lemma keeps_bind {A B} (p : T A) (f : A -> T B) : keeps p -> (forall a, keeps (f a)) -> keeps (mbind f p).
Proof.
  intros Hp Hf id tr H. apply spec_bind. eapply spec_post; [by apply Hp|]. intros tr' [a|e] H'; [by apply Hf|done].
Qed.

Lemma keeps_try {A} (p : T A) h : keeps p -> (forall e, keeps (h e)) -> keeps (try_catch p h).
Proof.
  intros Hp Hh id tr H. apply spec_try. eapply spec_post; [by apply Hp|]. intros tr' [a|e] H'; [done|by apply Hh].
Qed.

Lemma keeps_read c : writes c = false -> match c with Gate _ => False | _ => True end -> keeps (ask c).
Proof.
  intros Hw Hc id tr H. split; [|intros x; apply held_quiet; [|done]; by apply (reads_quiet (@Ev tenant_effects c x))].
  intros _. by destruct c.
Qed.

Lemma keeps_answered {A} (r : Thrown + A) : keeps (answered r).
Proof. destruct r; [apply keeps_throw|apply keeps_ret]. Qed.

Lemma keeps_emit e : keeps (emit e).
Proof.
  unfold emit. apply keeps_bind; [|apply keeps_answered]. intros id tr H. split; [|intros x; by apply held_quiet].
  intros _. split; [by exists id|by exists e].
Qed.

Lemma keeps_for {S A} (body : S -> A -> T S) l s : (forall s x, keeps (body s x)) -> keeps (for_of body l s).
Proof.
  intros Hb. revert s. induction l as [|x l IH]; intros s; [apply keeps_ret|]. cbn [for_of]. by apply keeps_bind.
Qed.

Lemma keeps_relay_chunk t payload : keeps (relay_chunk t payload).
Proof.
  unfold relay_chunk. destruct (parseChunk payload) as [chunk|]; [|apply keeps_ret].
  apply keeps_bind; [|intros choices; apply keeps_bind; [apply keeps_for|intros; apply keeps_ret]].
  - unfold choices_of, raise_error, raise_thrown. repeat case_match; (apply keeps_ret || apply keeps_throw).
  - intros s x. unfold relay_choice, raise_error, raise_thrown. destruct x; [apply keeps_throw|..];
      (destruct (delta_text _); [apply keeps_emit|apply keeps_ret]).
Qed.

Lemma keeps_payloads t payloads failure : keeps (relay_payloads t payloads failure).
Proof.
  revert t. induction payloads as [|payload payloads IH]; intros t; cbn [relay_payloads].
  - destruct failure; [apply keeps_throw|apply keeps_ret].
  - case_decide; [apply keeps_ret|]. apply keeps_bind; [apply keeps_relay_chunk|apply IH].
Qed.

Lemma keeps_stream upstream startedAt : keeps (relay_stream upstream startedAt).
Proof.
  assert (forall e, keeps (_ ← emit e; emit DoneEvent)) as Hlast.
  { intros e. apply keeps_bind; [|intros _]; apply keeps_emit. }
  unfold relay_stream. destruct (chat_ok upstream); [|apply Hlast]. destruct (chat_body upstream) as [body|]; [|apply Hlast].
  destruct (body_payloads body) as [payloads failure]. apply keeps_bind; [apply keeps_payloads|]. intros t.
  apply keeps_bind; [by apply keeps_read|]. intros now. apply Hlast.
Qed.

Lemma keeps_caught upstream startedAt :
  keeps (try_catch (relay_stream upstream startedAt)
    (fun e => aborted ← ask SignalAborted;
      if aborted : bool then mret tt else _ ← emit (ErrorEvent (stream_error_text e)); emit DoneEvent)).
Proof.
  apply keeps_try; [apply keeps_stream|]. intros e. apply keeps_bind; [by apply keeps_read|].
  intros [|]; [apply keeps_ret|]. apply keeps_bind; [|intros _]; apply keeps_emit.
Qed.

Lemma revoke_spec key tr : held (serving_key_id key) tr ->
  spec I (fun tr' _ => mints tr' = [serving_key_id key] /\ revokes tr' = [serving_key_id key]) tr (revoke key false).
Proof.
  intros H. unfold revoke. exec_cbn. split; [done|]. intros now.
  assert (held (serving_key_id key) (tr ++ [@Ev tenant_effects TenantClock now])) as H1 by by apply held_quiet.
  split; [by intros _|]. intros r. destruct H1 as [Hm Hr]. rewrite mints_snoc, revokes_snoc, Hm, Hr. done.
Qed.

Lemma start_spec upstream startedAt key tr : held (serving_key_id key) tr ->
  spec I (fun tr' _ => mints tr' = [serving_key_id key] /\ revokes tr' = [serving_key_id key]) tr
    (start upstream startedAt key).
Proof.
  intros H. unfold start, try_finally. apply spec_bind, spec_try, spec_bind.
  eapply spec_post; [by apply keeps_caught|].
  assert (forall (r : app_error + unit) tr', held (serving_key_id key) tr' ->
    spec I (fun tr' _ => mints tr' = [serving_key_id key] /\ revokes tr' = [serving_key_id key]) tr'
      (_ ← (_ ← revoke key false; r ← ask CloseStream; answered r);
       match r with inl e => Throw e | inr x => mret x end)) as Hfin.
  { intros r tr' H'. apply spec_bind, spec_bind. eapply spec_post; [by apply revoke_spec|].
    intros tr1 [b|e] [Hm Hr]; exec_cbn; [|done]. split; [intros _; by exists (serving_key_id key)|]. intros x.
    assert (mints (tr1 ++ [@Ev tenant_effects CloseStream x]) = [serving_key_id key] /\
            revokes (tr1 ++ [@Ev tenant_effects CloseStream x]) = [serving_key_id key]) as [? ?]
      by (by rewrite mints_snoc, revokes_snoc, Hm, Hr).
    unfold answered, raise_thrown. destruct x; exec_cbn; [done|]. by destruct r. }
  intros tr' [[]|e] H'; exec_cbn; [apply (Hfin (inr tt))|apply (Hfin (inl e))]; done.
Qed.

Lemma play_key_mono tr tr' row secret : tr ⊆ tr' -> play_key tr row secret -> play_key tr' row secret.
Proof.
  intros Hg (u & ident & hex & Hu & Hgr & Hb & Hhex & Hrest). exists u, ident, hex.
  split; [by eapply signed_in_mono|]. split; [by eapply granted_mono|]. split; [by eapply not_banned_mono|]. auto.
Qed.

Lemma snoc_mono tr e : tr ⊆ tr ++ [e].
Proof. intros x Hx. apply elem_of_app. by left. Qed.

(** What the mint leaves: a held key, stored for the secret it hands out; or nothing. *)
Definition provisioned tr (o : outcome app_error PlaygroundServingKey) : Prop :=
  match o with
  | Done key => held (serving_key_id key) tr /\
      exists row k, stored tr row k /\ serving_key_id key = ins_id k /\
        (coherent tenant_reads tr -> play_key tr row (serving_secret key))
  | Raised _ => unkeyed tr
  end.

Lemma insert_step tr org u ident identity hex : unkeyed tr -> signed_in tr u ->
  (coherent tenant_reads tr -> granted (gate_events tr) ident RoleUser org) -> not_banned tr org -> RandomHex ↣ hex ∈ tr ->
  spec I provisioned tr
    (let minted := {| secret := API_KEY_SECRET_PREFIX +:+ hex;
                      minted_prefix := str_take KEY_PREFIX_LENGTH (API_KEY_SECRET_PREFIX +:+ hex);
                      minted_suffix := slice_end KEY_SUFFIX_LENGTH (API_KEY_SECRET_PREFIX +:+ hex);
                      minted_hash := sha256_hex (API_KEY_SECRET_PREFIX +:+ hex) |} in
     r ← ask (InsertApiKey (key_row org PLAYGROUND_KEY_NAME minted (user_id u) (Some identity) None));
     match error r, data r with
     | None, Some k => mret {| serving_secret := secret minted; serving_key_id := ins_id k |}
     | e, _ => raise_error ("Could not provision a playground serving key: " +:+
                 match e with Some e => error_message e | None => "no row returned" end)
     end).
Proof.
  intros Hun Hu Hg Hb Hhex. cbv zeta. set (row := key_row _ _ _ _ _ _). exec_cbn.
  assert (coherent tenant_reads tr -> play_key tr row (API_KEY_SECRET_PREFIX +:+ hex)) as Hkey.
  { intros Hco. exists u, ident, hex. split; [done|]. split; [by apply Hg|]. done. }
  split; [intros Hco; split; [done|eexists; by apply Hkey]|]. intros r. set (e := @Ev tenant_effects (InsertApiKey row) r).
  destruct Hun as [Hm Hr]. unfold raise_error, raise_thrown.
  assert (mints (tr ++ [e]) = mints [e]) as Hm' by (by rewrite mints_snoc, Hm).
  assert (revokes (tr ++ [e]) = []) as Hr' by (by rewrite revokes_snoc, Hr).
  destruct (error r) as [err|] eqn:He; [|destruct (data r) as [k|] eqn:Hd]; exec_cbn.
  - split; [rewrite Hm'; cbn; by rewrite He|done].
  - split; [split; [rewrite Hm'; cbn; by rewrite He, Hd|done]|]. exists row, k.
    split; [exists r; split; [apply elem_of_app; right; left|done]|]. split; [done|].
    intros Hco. eapply play_key_mono; [apply snoc_mono|]. apply Hkey. by eapply coherent_mono; [apply snoc_mono|].
  - split; [rewrite Hm'; cbn; by rewrite He, Hd|done].
Qed.

Lemma mint_spec tr org u ident : unkeyed tr -> signed_in tr u ->
  (coherent tenant_reads tr -> granted (gate_events tr) ident RoleUser org) ->
  spec I provisioned tr (mintPlaygroundServingKey sha256_hex org (user_id u)).
Proof.
  intros Hun Hu Hg. unfold mintPlaygroundServingKey, createServiceRoleSupabaseClient, ensureOrgDefaultIdentity,
    mintApiKeySecret, mintKeySecret, answered, raise_error, raise_thrown.
  exec_cbn. split; [done|]. intros [e|[]]; exec_cbn; [by apply unkeyed_quiet|].
  split; [done|]. intros ban. set (tr1 := (tr ++ _) ++ _).
  assert (unkeyed tr1) as Hun1 by (apply unkeyed_quiet; [done|]; by apply unkeyed_quiet).
  destruct (error ban) as [err|] eqn:He; exec_cbn; [done|].
  destruct (match data ban with Some (Some _) => true | _ => false end) eqn:Hban.
  { by destruct (data ban) as [[at_|]|]. }
  assert (not_banned tr1 org) as Hb.
  { exists ban. split; [in_trace|]. split; [done|]. intros at_ Hat. by rewrite Hat in Hban. }
  assert (spec I provisioned tr1
    (identity ← (r ← ask (UpsertIdentity (ORG_IDENTITY_PREFIX +:+ org) org DEFAULT_IDENTITY_DISPLAY_NAME);
       match error r with
       | Some e => Throw (DataSourceError (OtherError (new_Error
           ("Could not provision the org's default gateway identity: " +:+ error_message e))))
       | None => mret (ORG_IDENTITY_PREFIX +:+ org)
       end);
     hex ← ask RandomHex;
     let minted := {| secret := API_KEY_SECRET_PREFIX +:+ hex;
                      minted_prefix := str_take KEY_PREFIX_LENGTH (API_KEY_SECRET_PREFIX +:+ hex);
                      minted_suffix := slice_end KEY_SUFFIX_LENGTH (API_KEY_SECRET_PREFIX +:+ hex);
                      minted_hash := sha256_hex (API_KEY_SECRET_PREFIX +:+ hex) |} in
     r ← ask (InsertApiKey (key_row org PLAYGROUND_KEY_NAME minted (user_id u) (Some identity) None));
     match error r, data r with
     | None, Some k => mret {| serving_secret := secret minted; serving_key_id := ins_id k |}
     | e, _ => raise_error ("Could not provision a playground serving key: " +:+
                 match e with Some e => error_message e | None => "no row returned" end)
     end)) as Hrest.
  { exec_cbn. split; [by intros _|]. intros r. set (tr2 := tr1 ++ _).
    assert (unkeyed tr2) as Hun2 by (by apply unkeyed_quiet).
    destruct (error r); exec_cbn; [done|]. split; [done|]. intros hex.
    assert (tr ⊆ tr2 ++ [@Ev tenant_effects RandomHex hex]) as Hsub.
    { intros x Hx. unfold tr2, tr1. rewrite !elem_of_app. auto. }
    apply (insert_step _ org u ident); [by apply unkeyed_quiet|by eapply signed_in_mono| | |in_trace].
    - intros Hco. eapply granted_mono; [exact Hsub|]. apply Hg. by eapply coherent_mono.
    - eapply not_banned_mono; [|exact Hb]. intros x Hx. unfold tr2. rewrite !elem_of_app. auto. }
  destruct (data ban) as [[at_|]|]; [done|exact Hrest..].
Qed.

Definition settled_outcome tr (o : outcome app_error response) : Prop :=
  key_settled tr /\ (o = Done sseResponse -> mints tr <> []).

Lemma settled_unkeyed tr o : unkeyed tr -> o <> Done sseResponse -> settled_outcome tr o.
Proof. intros [Hm Hr] Ho. split; [|done]. split; rewrite ?Hm, ?Hr; [done|simpl; lia]. Qed.

Lemma settled_revoked id tr o : mints tr = [id] -> revokes tr = [id] -> settled_outcome tr o.
Proof. intros Hm Hr. split; [split|]; rewrite ?Hm, ?Hr; [done|simpl; lia|done]. Qed.

Lemma exchange_spec tr org u ident model messages raw : unkeyed tr -> signed_in tr u ->
  (coherent tenant_reads tr -> granted (gate_events tr) ident RoleUser org) ->
  spec I settled_outcome tr
    (exchange sha256_hex org (user_id u) (chat_request model messages (pickServingParams raw))).
Proof.
  intros Hun Hu Hg. unfold exchange. apply spec_bind. eapply spec_post; [by eapply mint_spec|].
  intros tr1 [key|e] H; [|by apply settled_unkeyed]. destruct H as [Hheld (row & k & Hstored & Hid & Hkey)].
  exec_cbn. split; [done|]. intros startedAt. set (tr2 := tr1 ++ _).
  assert (held (serving_key_id key) tr2) as Hheld2 by (by apply held_quiet).
  assert (tr1 ⊆ tr2) as Hsub by apply snoc_mono. split.
  { intros Hco. split; [|by eexists _, _, _]. exists (serving_key_id key), row, k. split; [done|].
    split; [by eapply stored_mono|]. split; [done|]. eapply play_key_mono; [exact Hsub|].
    apply Hkey. by eapply coherent_mono. }
  intros [e|upstream].
  - set (tr3 := tr2 ++ _). assert (held (serving_key_id key) tr3) as H3 by (by apply held_quiet).
    apply spec_bind. eapply spec_post; [by apply revoke_spec|]. unfold raise_thrown.
    intros tr4 [b|e'] [Hm Hr]; exec_cbn; by eapply settled_revoked.
  - set (tr3 := tr2 ++ _). assert (held (serving_key_id key) tr3) as H3 by (by apply held_quiet).
    apply spec_bind, spec_try. eapply spec_post; [by apply start_spec|].
    intros tr4 [b|e'] [Hm Hr]; exec_cbn; by eapply settled_revoked.
Qed.

Lemma play_gate tr c : cache_licensed (gate_events tr) c -> I tr (Gate c).
Proof. by intros H _. Qed.

Lemma refused_outcome tr message status : unkeyed tr -> settled_outcome tr (Done (json_error message status)).
Proof. intros H. by apply settled_unkeyed. Qed.

Lemma chat_spec : spec I settled_outcome [] (chat_handler sha256_hex).
Proof.
  unfold chat_handler, refuse. apply spec_bind.
  eapply spec_post; [apply (gate_step I play_gate), user_spec|].
  intros tr1 o [Hg1 Hu]. assert (unkeyed tr1) as Hun1 by (by eapply unkeyed_grown).
  destruct o as [[u|]|e]; exec_cbn; [|by apply refused_outcome|by apply settled_unkeyed]. destruct Hu as [_ Hu].
  split; [done|]. intros header. set (tr2 := tr1 ++ _).
  assert (unkeyed tr2) as Hun2 by (by apply unkeyed_quiet).
  assert (signed_in tr2 u) as Hu2 by (eapply signed_in_mono; [apply snoc_mono|exact Hu]).
  destruct (PrimFloat.ltb _ _); exec_cbn; [by apply refused_outcome|]. split; [done|]. intros r. set (tr3 := tr2 ++ _).
  assert (unkeyed tr3) as Hun3 by (by apply unkeyed_quiet).
  assert (signed_in tr3 u) as Hu3 by (eapply signed_in_mono; [apply snoc_mono|exact Hu2]).
  clearbody tr3. clear tr2 Hun2 Hu2 tr1 Hun1 Hu Hg1.
  set (body := match r with inr b => b | inl _ => JNull end).
  destruct (jget_str body "model") as [model|]; [|by apply refused_outcome].
  destruct (bool_decide _ || bool_decide _); [by apply refused_outcome|].
  destruct (jget_str body "orgId") as [ident|]; [|by apply refused_outcome].
  destruct (bool_decide _); [by apply refused_outcome|].
  destruct (parseMessages _) as [messages|]; [|by apply refused_outcome].
  apply spec_bind. eapply spec_post.
  { apply (gate_step I play_gate (fun evs o => coherent request_reads evs ->
      match o with Done org => granted evs ident RoleUser org | Raised _ => True end)).
    unfold requireOrgId. apply spec_bind. eapply spec_post; [apply access_spec|].
    intros evs [x|e] H; exec_cbn; [exact H|done]. }
  intros tr4 o [Hg4 Ho]. assert (unkeyed tr4) as Hun4 by (by eapply unkeyed_grown).
  destruct o as [org|e]; [|by apply settled_unkeyed].
  eapply (exchange_spec tr4 org u ident); [done| |].
  - eapply signed_in_mono; [by apply grown_subset|exact Hu3].
  - intros Hco. by apply Ho, coherent_gate.
Qed.

Section same_exchange.
Context (tr tr' : list (event tenant_effects)) (Hsame : forall e, e ∈ tr <-> e ∈ tr').
Hypothesis Horder : uncached tenant_reads tr = uncached tenant_reads tr'.

Lemma mints_uncached evs : mints (uncached tenant_reads evs) = mints evs.
Proof.
  unfold mints, uncached. induction evs as [|e evs IH]; [done|]. rewrite filter_cons. case_decide as Hc.
  - cbn [omap list_omap]. by rewrite IH.
  - rewrite IH. cbn [omap list_omap]. destruct e as [[] x]; try done; by destruct Hc.
Qed.

Lemma revokes_uncached evs : revokes (uncached tenant_reads evs) = revokes evs.
Proof.
  unfold revokes, uncached. induction evs as [|e evs IH]; [done|]. rewrite filter_cons. case_decide as Hc.
  - cbn [omap list_omap]. by rewrite IH.
  - rewrite IH. cbn [omap list_omap]. destruct e as [[] x]; try done; by destruct Hc.
Qed.

Lemma mints_same : mints tr = mints tr'.
Proof. by rewrite <- mints_uncached, Horder, mints_uncached. Qed.

Lemma revokes_same : revokes tr = revokes tr'.
Proof. by rewrite <- revokes_uncached, Horder, revokes_uncached. Qed.

Lemma play_licensed_same c : play_licensed tr c -> play_licensed tr' c.
Proof.
  assert (tr ⊆ tr') as Hg by (intros e; apply Hsame).
  assert (forall row secret, play_key tr row secret -> play_key tr' row secret) as Hkey
    by (intros row secret; by apply play_key_mono).
  destruct c; simpl; unfold unkeyed, held; rewrite ?mints_same, ?revokes_same; try done.
  - apply cache_licensed_same. by apply gate_events_same.
  - intros [? (secret & ?)]. split; [done|]. exists secret. auto.
  - intros [(id & row & k & ? & ? & ? & ?) ?]. split; [|done]. exists id, row, k.
    split; [done|]. split; [by eapply stored_mono|auto].
Qed.
End same_exchange.
End key_life.

(** C11. A playground key lives for its exchange and no longer. For every request and every answer of the
    services and of the gateway's stream, failures and disconnects included: a key is stored at most
    once, from a fresh secret, for a signed-in user whom the access gate lets into an organization that is
    not banned; only its secret is sent upstream, with the parameters the allowlist admits, while it is
    live; events reach the browser only then; and however the exchange ends, every key that was stored
    has been revoked exactly once. The route always answers. *)
Theorem playground_key_settled sha256_hex :
  spec (play_licensed sha256_hex) (fun tr o => settled_outcome tr o /\ exists resp, o = Done resp) []
    (cached tenant_reads (POST sha256_hex)).
Proof.
  apply spec_cached_order.
  - intros tr tr' c Hsame Horder. by apply play_licensed_same.
  - intros tr tr' o Hsame Horder. unfold settled_outcome, key_settled. by rewrite (mints_same _ _ Horder), (revokes_same _ _ Horder).
  - unfold POST, route. apply spec_try. eapply spec_post; [apply chat_spec|].
    intros tr [resp|e] H; exec_cbn; intros _; [by split; [|eexists]|].
    split; [|by eexists]. destruct H as [H _]. split; [done|]. intros Heq. exfalso. revert Heq.
    by destruct e as [| |[|m status [c|] [a|]|]].
Qed.
