(* ===== verification/BackendSource.v ===== *)
(** * The backend data source (lib/backend-source.ts, lib/errors.ts)

    Every read and write the web app makes of its backend is a method of [BackendDataSource]: it
    builds one request, sends it with the deployment's bearer and the acting user, and reads the
    answer; the chat completion alone goes out under a customer's serving key. Each method is one
    definition below; [api_method] lists them all, and the theorems hold of every method, every
    argument and every answer.

    A request body is a JSON value; a typed payload the code passes through unread stays JSON. The
    multipart upload body is abstract. *)

From S2P Require Import Prelude JsMap JsString JsDate JsNumber Url QueryStrings Json ServingAudit Effects Services.

#[local] Open Scope Z_scope.

(** ** Requests, responses, errors *)
Inductive body := NoBody | JsonBody (j : json) | FormBody (content : string).

Record http_request := {
  origin : string;
  path : list piece;
  http_method : string;
  headers : list (string * string);
  request_body : body;
}.

(** [response.status], the parse of [response.json()] ([None] when it throws), [response.text()],
    and whether the response carries a body stream. *)
Record http_response := {
  http_status : Z;
  payload : option json;
  text : string;
  has_body : bool;
}.

Definition response_ok (r : http_response) : bool :=
  bool_decide (200 <= http_status r <= 299).

Inductive ds_cmd :=
| ActorId
| Fetch (r : http_request).

Definition ds_ans (c : ds_cmd) : Type :=
  match c with
  | ActorId => Thrown + option string
  | Fetch _ => Thrown + http_response
  end.

Definition ds_effects : effects := Effects ds_cmd ds_ans.

Abbreviation DS := (prog ds_effects ds_error).
Abbreviation perform c := (@call ds_effects ds_error c).

Definition unwrap {A} (r : Thrown + A) : DS A :=
  match r with inl e => Throw (OtherError e) | inr x => mret x end.

(** ** The client *)
Record client := { baseUrl : string; servingBaseUrl : string; apiKey : string }.

(** The constructor; an empty string is as missing as no string. *)
Definition BackendDataSource (baseUrl apiKey : string) (servingBaseUrl : option string) :
    Thrown + client :=
  if negb (truthy baseUrl) then
    inl (new_Error "EXPLABS_BACKEND_URL must be set for the Experiential web app.")
  else if negb (truthy apiKey) then
    inl (new_Error "EXPLABS_API_KEY must be set for the Experiential web app.")
  else inr {| baseUrl := strip_last "/" baseUrl;
              servingBaseUrl := strip_last "/" (default baseUrl servingBaseUrl);
              apiKey := apiKey |}.

Definition request_headers (c : client) (actor : option string) (hasBody : bool) :
    list (string * string) :=
  [("Authorization", "Bearer " +:+ apiKey c)]
  ++ match actor with Some a => [("X-Explabs-Actor-Id", a)] | None => [] end
  ++ (if hasBody then [("content-type", "application/json")] else []).

(** [await this.headers(hasBody)]. *)
Definition get_headers (c : client) (hasBody : bool) : DS (list (string * string)) :=
  actor ← perform ActorId;
  actor ← unwrap actor;
  mret (request_headers c actor hasBody).

Definition fetch (r : http_request) : DS http_response :=
  response ← perform (Fetch r);
  unwrap response.

(** ** Errors *)
Definition responseMessage (payload : json) (status : Z) : string :=
  match jget_str payload "error" with
  | Some m => m
  | None =>
      match jget_str payload "detail" with
      | Some m => m
      | None =>
          match jget payload "detail" ≫= fun d => jget_str d "message" with
          | Some m => m
          | None => "Experiential backend request failed with HTTP " +:+ string_of_Z status
          end
      end
  end.

Definition responseError (r : http_response) : ds_error :=
  let p := default JNull (payload r) in
  let message := responseMessage p (http_status r) in
  if bool_decide (http_status r = 404) then DataSourceNotFoundError message
  else DataSourceRequestError message (http_status r) (jget_str p "code") (jget_str p "action").

Definition check_ok (r : http_response) : DS unit :=
  if response_ok r then mret tt else Throw (responseError r).

(** [await response.json()]. *)
Definition read_json (r : http_response) : DS json :=
  match payload r with
  | Some j => mret j
  | None => Throw (OtherError (new_Error "Unexpected token in JSON"))
  end.

Definition parseResponse (r : http_response) : DS json :=
  _ ← check_ok r; read_json r.

(** ** Sending *)
Definition json_body (b : option json) : body :=
  match b with Some j => JsonBody j | None => NoBody end.

Definition fetchJson (c : client) (path : list piece) (method : string) (b : option json) : DS json :=
  hs ← get_headers c (match b with Some _ => true | None => false end);
  response ← fetch {| origin := baseUrl c; path := path; http_method := method; headers := hs;
                      request_body := json_body b |};
  parseResponse response.

Definition fetchVoid (c : client) (path : list piece) (method : string) : DS unit :=
  hs ← get_headers c false;
  response ← fetch {| origin := baseUrl c; path := path; http_method := method; headers := hs;
                      request_body := NoBody |};
  check_ok response.

Definition fetchText (c : client) (path : list piece) : DS string :=
  hs ← get_headers c false;
  response ← fetch {| origin := baseUrl c; path := path; http_method := "GET"; headers := hs;
                      request_body := NoBody |};
  _ ← check_ok response;
  mret (text response).

(** The response whose body is streamed; [{...extraHeaders, ...headers, accept}] puts the
    caller's headers first so they cannot override. *)
Definition fetchEventStream (c : client) (path : list piece) (b : option json)
    (extraHeaders : list (string * string)) : DS http_response :=
  hs ← get_headers c (match b with Some _ => true | None => false end);
  response ← fetch {| origin := baseUrl c; path := path;
    http_method := match b with Some _ => "POST" | None => "GET" end;
    headers := mset (foldl (fun m h => mset m h.1 h.2) (of_pairs extraHeaders) hs)
      "accept" "text/event-stream";
    request_body := json_body b |};
  _ ← check_ok response;
  if has_body response then mret response
  else Throw (OtherError (new_Error
    ("Experiential backend returned an empty event stream for " +:+ render path))).

(** Destructuring a member of a payload: [null] throws. *)
Definition member (j : json) (k : string) : DS (option json) :=
  match j with
  | JNull => Throw (OtherError (new_Error "Cannot destructure null"))
  | _ => mret (jget j k)
  end.

(** A response of which one member is returned. *)
Definition fetch_member (c : client) (k : string) (path : list piece) (method : string)
    (b : option json) : DS (option json) :=
  j ← fetchJson c path method b; member j k.

(** ** Methods that send one request and return its payload *)
Definition listOrgs (c : client) : DS json :=
  fetchJson c [Lit "/api/orgs"] "GET" None.

Definition getOrgAuditLog (c : client) (orgId : string) (query : AuditLogQuery) : DS json :=
  fetchJson c [Lit "/api/orgs/"; Enc orgId; Lit "/audit-log"; Raw (auditLogQueryString query)] "GET"
    None.

Definition getOrgCapabilities (c : client) (orgId : string) : DS json :=
  fetchJson c [Lit "/api/orgs/"; Enc orgId; Lit "/capabilities"] "GET" None.

Definition listOrgDomains (c : client) (orgId : string) : DS json :=
  fetchJson c [Lit "/api/orgs/"; Enc orgId; Lit "/domains"] "GET" None.

Definition createOrgDomain (c : client) (orgId : string) (domain : json) : DS json :=
  fetchJson c [Lit "/api/orgs/"; Enc orgId; Lit "/domains"] "POST" (Some (JObj [("domain", domain)])).

Definition verifyOrgDomain (c : client) (orgId domain : string) : DS json :=
  fetchJson c [Lit "/api/orgs/"; Enc orgId; Lit "/domains/"; Enc domain; Lit "/verify"] "POST" (Some
    (JObj [])).

Definition setOrgDomainSsoRequired (c : client) (orgId domain : string) (ssoRequired : bool) : DS json
    :=
  fetchJson c [Lit "/api/orgs/"; Enc orgId; Lit "/domains/"; Enc domain] "PATCH" (Some (JObj [("sso_required",
    JBool ssoRequired)])).

Definition deleteOrgDomain (c : client) (orgId domain : string) : DS json :=
  fetchJson c [Lit "/api/orgs/"; Enc orgId; Lit "/domains/"; Enc domain] "DELETE" None.

Definition getOrgSsoProvider (c : client) (orgId : string) : DS json :=
  fetchJson c [Lit "/api/orgs/"; Enc orgId; Lit "/sso-provider"] "GET" None.

Definition putOrgSsoProvider (c : client) (orgId : string) (input : json) : DS json :=
  fetchJson c [Lit "/api/orgs/"; Enc orgId; Lit "/sso-provider"] "PUT" (Some input).

Definition deleteOrgSsoProvider (c : client) (orgId : string) : DS json :=
  fetchJson c [Lit "/api/orgs/"; Enc orgId; Lit "/sso-provider"] "DELETE" None.

Definition getScimTokenStatus (c : client) (orgId : string) : DS json :=
  fetchJson c [Lit "/api/orgs/"; Enc orgId; Lit "/scim-token"] "GET" None.

Definition mintScimToken (c : client) (orgId keyPolicy : string) : DS json :=
  fetchJson c [Lit "/api/orgs/"; Enc orgId; Lit "/scim-token"] "POST" (Some (JObj [("key_policy", JStr
    keyPolicy)])).

Definition revokeScimToken (c : client) (orgId : string) : DS json :=
  fetchJson c [Lit "/api/orgs/"; Enc orgId; Lit "/scim-token"] "DELETE" None.

Definition listOrgTeams (c : client) (orgId : string) : DS json :=
  fetchJson c [Lit "/api/orgs/"; Enc orgId; Lit "/teams"] "GET" None.

Definition createOrgTeam (c : client) (orgId name : string) : DS json :=
  fetchJson c [Lit "/api/orgs/"; Enc orgId; Lit "/teams"] "POST" (Some (JObj [("name", JStr name)])).

Definition renameOrgTeam (c : client) (orgId teamId name : string) : DS json :=
  fetchJson c [Lit "/api/orgs/"; Enc orgId; Lit "/teams/"; Enc teamId] "PATCH" (Some (JObj [("name",
    JStr name)])).

Definition listOrgTeamMembers (c : client) (orgId teamId : string) : DS json :=
  fetchJson c [Lit "/api/orgs/"; Enc orgId; Lit "/teams/"; Enc teamId; Lit "/members"] "GET" None.

Definition addOrgTeamMember (c : client) (orgId teamId userId : string) : DS json :=
  fetchJson c [Lit "/api/orgs/"; Enc orgId; Lit "/teams/"; Enc teamId; Lit "/members/"; Enc userId]
    "PUT" None.

Definition removeOrgTeamMember (c : client) (orgId teamId userId : string) : DS json :=
  fetchJson c [Lit "/api/orgs/"; Enc orgId; Lit "/teams/"; Enc teamId; Lit "/members/"; Enc userId]
    "DELETE" None.

Definition assignOrgTeamKey (c : client) (orgId teamId keyId : string) : DS json :=
  fetchJson c [Lit "/api/orgs/"; Enc orgId; Lit "/teams/"; Enc teamId; Lit "/keys/"; Enc keyId] "PUT"
    None.

Definition unassignOrgTeamKey (c : client) (orgId teamId keyId : string) : DS json :=
  fetchJson c [Lit "/api/orgs/"; Enc orgId; Lit "/teams/"; Enc teamId; Lit "/keys/"; Enc keyId] "DELETE"
    None.

Definition getProviderDataControls (c : client) (orgId : string) : DS json :=
  fetchJson c [Lit "/api/orgs/"; Enc orgId; Lit "/provider-data-controls"] "GET" None.

Definition getProviderPolicy (c : client) (orgId : string) : DS json :=
  fetchJson c [Lit "/api/orgs/"; Enc orgId; Lit "/provider-policy"] "GET" None.

Definition putProviderPolicy (c : client) (orgId : string) (input : json) : DS json :=
  fetchJson c [Lit "/api/orgs/"; Enc orgId; Lit "/provider-policy"] "PUT" (Some input).

Definition deleteProviderPolicy (c : client) (orgId : string) : DS json :=
  fetchJson c [Lit "/api/orgs/"; Enc orgId; Lit "/provider-policy"] "DELETE" None.

Definition listNamedAliases (c : client) (orgId : string) : DS json :=
  fetchJson c [Lit "/api/aliases?org_id="; Enc orgId] "GET" None.

Definition createNamedAlias (c : client) (orgId name model : string) : DS json :=
  fetchJson c [Lit "/api/aliases"] "POST" (Some (JObj [("org_id", JStr orgId); ("name", JStr name);
    ("model", JStr model)])).

Definition repointNamedAlias (c : client) (orgId name model : string) : DS json :=
  fetchJson c [Lit "/api/aliases/"; Enc name] "PUT" (Some (JObj [("org_id", JStr orgId); ("model",
    JStr model)])).

Definition listNamedAliasRevisions (c : client) (orgId name : string) : DS json :=
  fetchJson c [Lit "/api/aliases/"; Enc name; Lit "/revisions?org_id="; Enc orgId] "GET" None.

Definition rollbackNamedAlias (c : client) (orgId name revisionId : string) : DS json :=
  fetchJson c [Lit "/api/aliases/"; Enc name; Lit "/rollback"] "POST" (Some (JObj [("org_id", JStr
    orgId); ("revision_id", JStr revisionId)])).

Definition deactivateNamedAlias (c : client) (orgId name : string) : DS unit :=
  fetchVoid c [Lit "/api/aliases/"; Enc name; Lit "?org_id="; Enc orgId] "DELETE".

Definition deleteOrgData (c : client) (orgId : string) : DS json :=
  fetchJson c [Lit "/api/orgs/"; Enc orgId; Lit "/data"] "DELETE" None.

Definition getOrgUsage (c : client) (orgId : string) : DS json :=
  fetchJson c [Lit "/api/orgs/"; Enc orgId; Lit "/usage"] "GET" None.

Definition getOrgBudget (c : client) (orgId : string) : DS json :=
  fetchJson c [Lit "/api/orgs/"; Enc orgId; Lit "/budget"] "GET" None.

Definition getOrgCreditLedger (c : client) (orgId : string) : DS json :=
  fetchJson c [Lit "/api/orgs/"; Enc orgId; Lit "/credit/ledger"] "GET" None.

Definition postAdminCreditGrant (c : client) (orgId : string) (grant : json) : DS json :=
  fetchJson c [Lit "/api/admin/orgs/"; Enc orgId; Lit "/credit-grants"] "POST" (Some grant).

Definition listAllOrgEntitlements (c : client) : DS json :=
  fetchJson c [Lit "/api/admin/entitlements"] "GET" None.

Definition listOrgEntitlements (c : client) (orgId : string) : DS json :=
  fetchJson c [Lit "/api/admin/orgs/"; Enc orgId; Lit "/entitlements"] "GET" None.

Definition grantOrgEntitlement (c : client) (orgId capability : string) (note expiresAt : option string)
    : DS json :=
  fetchJson c [Lit "/api/admin/orgs/"; Enc orgId; Lit "/entitlements/"; Enc capability] "PUT" (Some
    (JObj [("note", of_nullable note); ("expires_at", of_nullable expiresAt)])).

Definition revokeOrgEntitlement (c : client) (orgId capability : string) : DS json :=
  fetchJson c [Lit "/api/admin/orgs/"; Enc orgId; Lit "/entitlements/"; Enc capability] "DELETE" None.

Definition postAdminYcGrant (c : client) (orgId : string) (grant : json) : DS json :=
  fetchJson c [Lit "/api/admin/orgs/"; Enc orgId; Lit "/yc-grant"] "POST" (Some grant).

Definition getAdminWelcomeTrigger (c : client) (orgId : string) : DS json :=
  fetchJson c [Lit "/api/admin/orgs/"; Enc orgId; Lit "/welcome-trigger"] "GET" None.

Definition putAdminWelcomeTrigger (c : client) (orgId : string) (trigger : json) : DS json :=
  fetchJson c [Lit "/api/admin/orgs/"; Enc orgId; Lit "/welcome-trigger"] "PUT" (Some trigger).

Definition postAdminWelcomeTriggerByLabel (c : client) (input : json) : DS json :=
  fetchJson c [Lit "/api/admin/welcome-triggers/by-label"] "POST" (Some input).

Definition putAdminFreeCreditCaps (c : client) (orgId : string) (lifted : bool) : DS json :=
  fetchJson c [Lit "/api/admin/orgs/"; Enc orgId; Lit "/free-credit-caps"] "PUT" (Some (JObj [("lifted",
    JBool lifted)])).

Definition getCreditGating (c : client) : DS json :=
  fetchJson c [Lit "/api/admin/settings/credit-gating"] "GET" None.

Definition putPreVerifyAllowance (c : client) (enabled : bool) : DS json :=
  fetchJson c [Lit "/api/admin/settings/pre-verify-allowance"] "PUT" (Some (JObj [("enabled", JBool
    enabled)])).

Definition putWelcomeGrant (c : client) (microUsd : number) : DS json :=
  fetchJson c [Lit "/api/admin/settings/welcome-grant"] "PUT" (Some (JObj [("micro_usd", JNum microUsd)])).

Definition putYcGrant (c : client) (microUsd : number) : DS json :=
  fetchJson c [Lit "/api/admin/settings/yc-grant"] "PUT" (Some (JObj [("micro_usd", JNum microUsd)])).

Definition putSpendUnlockRequirement (c : client) (requirement : string) : DS json :=
  fetchJson c [Lit "/api/admin/settings/spend-unlock-requirement"] "PUT" (Some (JObj [("requirement",
    JStr requirement)])).

Definition getPlatformOrgUsage (c : client) : DS json :=
  fetchJson c [Lit "/api/orgs/usage"] "GET" None.

Definition createAdminModelPromotion (c : client) (input : json) : DS json :=
  fetchJson c [Lit "/api/admin/model-promotions"] "POST" (Some input).

Definition updateAdminModelPromotion (c : client) (id : string) (input : json) : DS json :=
  fetchJson c [Lit "/api/admin/model-promotions/"; Enc id] "PUT" (Some input).

Definition deleteAdminModelPromotion (c : client) (id : string) : DS unit :=
  fetchVoid c [Lit "/api/admin/model-promotions/"; Enc id] "DELETE".

Definition addAdminOrgLabel (c : client) (orgId key : string) : DS json :=
  fetchJson c [Lit "/api/admin/orgs/"; Enc orgId; Lit "/labels"] "POST" (Some (JObj [("key", JStr key)])).

Definition removeAdminOrgLabel (c : client) (orgId key : string) : DS unit :=
  fetchVoid c [Lit "/api/admin/orgs/"; Enc orgId; Lit "/labels/"; Enc key] "DELETE".

Definition addAdminOrgNote (c : client) (orgId body : string) : DS json :=
  fetchJson c [Lit "/api/admin/orgs/"; Enc orgId; Lit "/notes"] "POST" (Some (JObj [("body", JStr body)])).

Definition deleteAdminOrgNote (c : client) (orgId noteId : string) : DS unit :=
  fetchVoid c [Lit "/api/admin/orgs/"; Enc orgId; Lit "/notes/"; Enc noteId] "DELETE".

Definition listAdminExperientialCloud (c : client) : DS json :=
  fetchJson c [Lit "/api/admin/experiential-cloud"] "GET" None.

Definition createAdminExperientialCloud (c : client) (input : json) : DS json :=
  fetchJson c [Lit "/api/admin/experiential-cloud"] "POST" (Some input).

Definition updateAdminExperientialCloud (c : client) (id : string) (input : json) : DS json :=
  fetchJson c [Lit "/api/admin/experiential-cloud/"; Enc id] "PATCH" (Some input).

Definition setAdminExperientialCloudStatus (c : client) (id status : string) : DS json :=
  fetchJson c [Lit "/api/admin/experiential-cloud/"; Enc id; Lit "/status"] "POST" (Some (JObj [("status",
    JStr status)])).

Definition listIdentities (c : client) (orgId : string) : DS json :=
  fetchJson c [Lit "/api/orgs/"; Enc orgId; Lit "/identities"] "GET" None.

Definition createIdentity (c : client) (orgId : string) (input : json) : DS json :=
  fetchJson c [Lit "/api/orgs/"; Enc orgId; Lit "/identities"] "POST" (Some input).

Definition updateIdentity (c : client) (orgId identityId : string) (input : json) : DS json :=
  fetchJson c [Lit "/api/orgs/"; Enc orgId; Lit "/identities/"; Enc identityId] "PATCH" (Some input).

Definition disableIdentity (c : client) (orgId identityId : string) : DS json :=
  fetchJson c [Lit "/api/orgs/"; Enc orgId; Lit "/identities/"; Enc identityId] "DELETE" None.

Definition getGrantMatrix (c : client) (orgId : string) : DS json :=
  fetchJson c [Lit "/api/orgs/"; Enc orgId; Lit "/grants"] "GET" None.

Definition addGrant (c : client) (orgId identityId aliasId : string) : DS json :=
  fetchJson c [Lit "/api/orgs/"; Enc orgId; Lit "/identities/"; Enc identityId; Lit "/grants/"; Enc
    aliasId] "PUT" None.

Definition removeGrant (c : client) (orgId identityId aliasId : string) : DS json :=
  fetchJson c [Lit "/api/orgs/"; Enc orgId; Lit "/identities/"; Enc identityId; Lit "/grants/"; Enc
    aliasId] "DELETE" None.

Definition listBudgets (c : client) (orgId period : string) : DS json :=
  fetchJson c [Lit "/api/orgs/"; Enc orgId; Lit "/budgets?period="; Enc period] "GET" None.

Definition setBudget (c : client) (orgId : string) (input : json) : DS json :=
  fetchJson c [Lit "/api/orgs/"; Enc orgId; Lit "/budgets"] "PUT" (Some input).

Definition deleteBudget (c : client) (orgId budgetId : string) : DS json :=
  fetchJson c [Lit "/api/orgs/"; Enc orgId; Lit "/budgets/"; Enc budgetId] "DELETE" None.

Definition listSpendAlerts (c : client) (orgId : string) : DS json :=
  fetchJson c [Lit "/api/orgs/"; Enc orgId; Lit "/spend-alerts"] "GET" None.

Definition createSpendAlert (c : client) (orgId : string) (input : json) : DS json :=
  fetchJson c [Lit "/api/orgs/"; Enc orgId; Lit "/spend-alerts"] "POST" (Some input).

Definition deleteSpendAlert (c : client) (orgId alertId : string) : DS json :=
  fetchJson c [Lit "/api/orgs/"; Enc orgId; Lit "/spend-alerts/"; Enc alertId] "DELETE" None.

Definition getGatewayKeyLimits (c : client) (apiKeyId : string) : DS json :=
  fetchJson c [Lit "/api/gateway/keys/"; Enc apiKeyId; Lit "/limits"] "GET" None.

Definition putGatewayKeyLimits (c : client) (apiKeyId : string) (input : json) : DS json :=
  fetchJson c [Lit "/api/gateway/keys/"; Enc apiKeyId; Lit "/limits"] "PUT" (Some input).

Definition getCapturedPrompt (c : client) (orgId requestId : string) : DS json :=
  fetchJson c [Lit "/api/orgs/"; Enc orgId; Lit "/usage/requests/"; Enc requestId; Lit "/prompt"] "GET"
    None.

Definition runBroadcast (c : client) : DS json :=
  fetchJson c [Lit "/api/internal/broadcast"] "POST" None.

Definition getTelemetrySettings (c : client) (orgId : string) : DS json :=
  fetchJson c [Lit "/api/orgs/"; Enc orgId; Lit "/telemetry-settings"] "GET" None.

Definition setTelemetrySettings (c : client) (orgId : string) (settings : json) : DS json :=
  fetchJson c [Lit "/api/orgs/"; Enc orgId; Lit "/telemetry-settings"] "PUT" (Some settings).

Definition getImportedUsage (c : client) (orgId : string) : DS json :=
  fetchJson c [Lit "/api/orgs/"; Enc orgId; Lit "/usage/imported"] "GET" None.

Definition queryInsights (c : client) (orgId question : string) : DS json :=
  fetchJson c [Lit "/api/orgs/"; Enc orgId; Lit "/insights/query"] "POST" (Some (JObj [("question",
    JStr question)])).

Definition postYcClaim (c : client) (orgId : string) : DS json :=
  fetchJson c [Lit "/api/orgs/"; Enc orgId; Lit "/yc-claim"] "POST" (Some (JObj [])).

Definition getJoinOffer (c : client) : DS json :=
  fetchJson c [Lit "/api/join-requests/offer"] "GET" None.

Definition requestOrgAccess (c : client) : DS json :=
  fetchJson c [Lit "/api/join-requests"] "POST" (Some (JObj [])).

Definition listJoinRequests (c : client) (orgId : string) : DS json :=
  fetchJson c [Lit "/api/orgs/"; Enc orgId; Lit "/join-requests"] "GET" None.

Definition approveJoinRequest (c : client) (orgId requestId : string) : DS json :=
  fetchJson c [Lit "/api/orgs/"; Enc orgId; Lit "/join-requests/"; Enc requestId; Lit "/approve"] "POST"
    (Some (JObj [])).

Definition denyJoinRequest (c : client) (orgId requestId : string) : DS json :=
  fetchJson c [Lit "/api/orgs/"; Enc orgId; Lit "/join-requests/"; Enc requestId; Lit "/deny"] "POST"
    (Some (JObj [])).

Definition checkProviderConnection (c : client) (orgId provider : string) : DS json :=
  fetchJson c [Lit "/api/orgs/"; Enc orgId; Lit "/provider-connections/"; Enc provider; Lit "/check"]
    "POST" (Some (JObj [])).

Definition checkModelDeployment (c : client) (orgId provider : string) (input : json) : DS json :=
  fetchJson c [Lit "/api/orgs/"; Enc orgId; Lit "/provider-connections/"; Enc provider; Lit "/deployment-check"]
    "POST" (Some input).

Definition refreshProviderSpend (c : client) (orgId provider : string) : DS json :=
  fetchJson c [Lit "/api/orgs/"; Enc orgId; Lit "/provider-connections/"; Enc provider; Lit "/spend-refresh"]
    "POST" (Some (JObj [])).

Definition deleteToolAccount (c : client) (orgId vendor : string) : DS unit :=
  fetchVoid c [Lit "/api/orgs/"; Enc orgId; Lit "/tool-accounts/"; Enc vendor] "DELETE".

Definition getProjectBySlug (c : client) (orgId slug : string) : DS json :=
  fetchJson c [Lit "/api/orgs/"; Enc orgId; Lit "/projects/"; Enc slug] "GET" None.

Definition createProject (c : client) (orgId : string) (input : json) : DS json :=
  fetchJson c [Lit "/api/orgs/"; Enc orgId; Lit "/projects"] "POST" (Some input).

Definition getProject (c : client) (projectId : string) : DS json :=
  fetchJson c [Lit "/api/projects/"; Enc projectId] "GET" None.

Definition archiveProject (c : client) (projectId : string) : DS json :=
  fetchJson c [Lit "/api/projects/"; Enc projectId; Lit "/archive"] "POST" None.

Definition getProjectUsage (c : client) (projectId : string) : DS json :=
  fetchJson c [Lit "/api/projects/"; Enc projectId; Lit "/usage"] "GET" None.

Definition getProjectSavings (c : client) (projectId : string) : DS json :=
  fetchJson c [Lit "/api/projects/"; Enc projectId; Lit "/savings"] "GET" None.

Definition getProjectScenarioSet (c : client) (projectId : string) : DS json :=
  fetchJson c [Lit "/api/projects/"; Enc projectId; Lit "/scenario-set"] "GET" None.

Definition getProjectScenarioMap (c : client) (projectId : string) : DS json :=
  fetchJson c [Lit "/api/projects/"; Enc projectId; Lit "/scenario-map"] "GET" None.

Definition getProjectFidelity (c : client) (projectId : string) : DS json :=
  fetchJson c [Lit "/api/projects/"; Enc projectId; Lit "/fidelity"] "GET" None.

Definition listProjectDatasetSources (c : client) (projectId : string) : DS json :=
  fetchJson c [Lit "/api/projects/"; Enc projectId; Lit "/dataset/sources"] "GET" None.

Definition listProjectTraceConnections (c : client) (projectId : string) : DS json :=
  fetchJson c [Lit "/api/projects/"; Enc projectId; Lit "/trace-connections"] "GET" None.

Definition getLatestProjectTraceAcquisition (c : client) (projectId : string) : DS json :=
  fetchJson c [Lit "/api/projects/"; Enc projectId; Lit "/trace-acquisitions/latest"] "GET" None.

Definition getProjectTraceAcquisition (c : client) (projectId acquisitionId : string) : DS json :=
  fetchJson c [Lit "/api/projects/"; Enc projectId; Lit "/trace-acquisitions/"; Enc acquisitionId]
    "GET" None.

Definition acquireRemoteProjectTraces (c : client) (projectId : string) (input : json) : DS json :=
  fetchJson c [Lit "/api/projects/"; Enc projectId; Lit "/trace-acquisitions"] "POST" (Some input).

Definition retryProjectTraceAcquisition (c : client) (projectId acquisitionId : string) : DS json :=
  fetchJson c [Lit "/api/projects/"; Enc projectId; Lit "/trace-acquisitions/"; Enc acquisitionId;
    Lit "/retry"] "POST" (Some (JObj [])).

Definition getCurrentProjectTraceSource (c : client) (projectId : string) : DS json :=
  fetchJson c [Lit "/api/projects/"; Enc projectId; Lit "/trace-sources/current"] "GET" None.

Definition getProjectPreparation (c : client) (projectId : string) : DS json :=
  fetchJson c [Lit "/api/projects/"; Enc projectId; Lit "/preparation"] "GET" None.

Definition enqueueProjectPreparation (c : client) (projectId : string) : DS json :=
  fetchJson c [Lit "/api/projects/"; Enc projectId; Lit "/preparations"] "POST" (Some (JObj [])).

Definition getProjectSetup (c : client) (projectId : string) : DS json :=
  fetchJson c [Lit "/api/projects/"; Enc projectId; Lit "/setup"] "GET" None.

Definition updateProjectSetup (c : client) (projectId : string) (input : json) : DS json :=
  fetchJson c [Lit "/api/projects/"; Enc projectId; Lit "/setup"] "PUT" (Some input).

Definition getCurrentProjectJob (c : client) (projectId : string) : DS json :=
  fetchJson c [Lit "/api/projects/"; Enc projectId; Lit "/jobs/current"] "GET" None.

Definition enqueueProjectJob (c : client) (projectId : string) : DS json :=
  fetchJson c [Lit "/api/projects/"; Enc projectId; Lit "/jobs"] "POST" (Some (JObj [])).

Definition getProjectJob (c : client) (jobId : string) : DS json :=
  fetchJson c [Lit "/api/project-jobs/"; Enc jobId] "GET" None.

Definition cancelProjectJob (c : client) (jobId : string) : DS json :=
  fetchJson c [Lit "/api/project-jobs/"; Enc jobId; Lit "/cancel"] "POST" (Some (JObj [])).

Definition getProjectResult (c : client) (projectId : string) : DS json :=
  fetchJson c [Lit "/api/projects/"; Enc projectId; Lit "/result"] "GET" None.

Definition getProjectServingSettings (c : client) (projectId : string) : DS json :=
  fetchJson c [Lit "/api/projects/"; Enc projectId; Lit "/serving-settings"] "GET" None.

Definition updateProjectServingSettings (c : client) (projectId : string) (input : json) : DS json
    :=
  fetchJson c [Lit "/api/projects/"; Enc projectId; Lit "/serving-settings"] "PUT" (Some input).

Definition getProjectServingUsage (c : client) (projectId : string) : DS json :=
  fetchJson c [Lit "/api/projects/"; Enc projectId; Lit "/serving-usage"] "GET" None.

Definition createCatalogModel (c : client) (input : json) : DS json :=
  fetchJson c [Lit "/api/models"] "POST" (Some input).

Definition addCatalogDeployment (c : client) (slug : string) (input : json) : DS json :=
  fetchJson c [Lit "/api/models/"; Enc slug; Lit "/providers"] "POST" (Some input).

Definition getCatalogWaterfall (c : client) (slug orgId : string) : DS json :=
  fetchJson c [Lit "/api/models/"; Enc slug; Lit "/waterfall?org_id="; Enc orgId] "GET" None.

Definition putCatalogWaterfall (c : client) (slug orgId : string) (modelProviderIds : list string)
    : DS json :=
  fetchJson c [Lit "/api/models/"; Enc slug; Lit "/waterfall"] "PUT" (Some (JObj [("model_provider_ids",
    of_strings modelProviderIds); ("org_id", JStr orgId)])).

(** ** Methods with query strings, or that read their payload *)
Definition getOrgAuditLogCsv (c : client) (orgId : string) (query : AuditLogQuery) : DS string :=
  let qs := auditLogQueryString query in
  let separator := if truthy qs then "&" else "?" in
  fetchText c [Lit "/api/orgs/"; Enc orgId; Lit "/audit-log"; Raw qs; Lit separator;
               Lit "format=csv"].

Definition deleteOrgTeam (c : client) (orgId teamId : string) (force : bool) : DS json :=
  let suffix := if force then "?force=true" else "" in
  fetchJson c [Lit "/api/orgs/"; Enc orgId; Lit "/teams/"; Enc teamId; Raw suffix] "DELETE" None.

(** One entry's slug and name; a missing [model] throws. *)
Definition alias_option (entry : json) : DS json :=
  match jget entry "model" with
  | Some (JNull) | None => Throw (OtherError (new_Error "Cannot read properties of undefined"))
  | Some m => mret (obj [("slug", jget m "slug"); ("display_name", jget m "display_name")])
  end.

Definition listAliasModelOptions (c : client) : DS (list json) :=
  payload ← fetchJson c [Lit "/api/models?limit=1000"] "GET" None;
  models ← member payload "models";
  match models ≫= jarr with
  | Some l => for_of (fun acc entry => o ← alias_option entry; mret (acc ++ [o])) l []
  | None => Throw (OtherError (new_Error "payload.models.map is not a function"))
  end.

Definition listAdminModelPromotions (c : client) : DS (option json) :=
  fetch_member c "promotions" [Lit "/api/admin/model-promotions"] "GET" None.

Definition getAdminOrgLabels (c : client) : DS (option json) :=
  fetch_member c "labels" [Lit "/api/admin/orgs/labels"] "GET" None.

Definition listAdminOrgLabels (c : client) (orgId : string) : DS (option json) :=
  fetch_member c "labels" [Lit "/api/admin/orgs/"; Enc orgId; Lit "/labels"] "GET" None.

Definition listAdminOrgNotes (c : client) (orgId : string) : DS (option json) :=
  fetch_member c "notes" [Lit "/api/admin/orgs/"; Enc orgId; Lit "/notes"] "GET" None.

Definition listAdminRecommendedModels (c : client) : DS (option json) :=
  fetch_member c "models" [Lit "/api/admin/recommended-models"] "GET" None.

Definition replaceAdminRecommendedModels (c : client) (slugs : list string) : DS (option json) :=
  fetch_member c "models" [Lit "/api/admin/recommended-models"] "PUT"
    (Some (JObj [("slugs", of_strings slugs)])).

Definition getGatewayUsageDaily (c : client) (orgId scope groupBy : string) (from to : option string)
    (limit : option Z) : DS json :=
  let ps := set_number "limit" limit (set_defined "to" to (set_defined "from" from
              [("org_id", orgId); ("scope", scope); ("group_by", groupBy)])) in
  fetchJson c [Lit "/api/gateway/usage/daily?"; Raw (params_string ps)] "GET" None.

Definition getGatewayUsagePlatformDaily (c : client) (groupBy : string) (from to : option string)
    (limit : option Z) : DS json :=
  let ps := set_number "limit" limit (set_defined "to" to (set_defined "from" from
              [("group_by", groupBy)])) in
  fetchJson c [Lit "/api/gateway/usage/platform-daily?"; Raw (params_string ps)] "GET" None.

(** [qs ? `?${qs}` : ""]. *)
Definition query_suffix (qs : string) : string := if truthy qs then "?" +:+ qs else "".

(** [window ? `?window=${window}` : ""]. *)
Definition window_suffix (window : option ServingWindow) : string :=
  match window with Some w => "?window=" +:+ window_key w | None => "" end.

Definition getUsageTimeseries (c : client) (orgId : string) (query : UsageTimeseriesQuery) : DS json :=
  fetchJson c [Lit "/api/orgs/"; Enc orgId; Lit "/usage/timeseries";
               Raw (query_suffix (usageTimeseriesQueryString query))] "GET" None.

Definition getUsageByKey (c : client) (orgId : string) (window : option ServingWindow) : DS json :=
  fetchJson c [Lit "/api/orgs/"; Enc orgId; Lit "/usage/by-key"; Raw (window_suffix window)]
    "GET" None.

Definition getUsageByProvider (c : client) (orgId : string) (window : option ServingWindow) :
    DS json :=
  let qs := match window with
            | Some w => "?window=" +:+ encodeURIComponent (window_key w)
            | None => "" end in
  fetchJson c [Lit "/api/orgs/"; Enc orgId; Lit "/usage/by-provider"; Raw qs] "GET" None.

Definition getUsageByPrompt (c : client) (orgId : string) (window : option ServingWindow) : DS json :=
  fetchJson c [Lit "/api/orgs/"; Enc orgId; Lit "/usage/by-prompt"; Raw (window_suffix window)]
    "GET" None.

Definition listUsageRequests (c : client) (orgId : string) (query : UsageRequestsQuery) : DS json :=
  fetchJson c [Lit "/api/orgs/"; Enc orgId; Lit "/usage/requests";
               Raw (query_suffix (usageRequestsQueryString query))] "GET" None.

Definition getSuggestions (c : client) (orgId : string) (window : option ServingWindow) : DS json :=
  fetchJson c [Lit "/api/orgs/"; Enc orgId; Lit "/suggestions"; Raw (window_suffix window)]
    "GET" None.

Definition runAgentAdvice (c : client) (orgId : string) (window : option ServingWindow) : DS json :=
  fetchJson c [Lit "/api/orgs/"; Enc orgId; Lit "/insights/agent-advice";
               Raw (window_suffix window)] "POST" None.

Definition getModelDetail (c : client) (slug : string) (orgId : option string) : DS json :=
  let query := match orgId with Some o => "?org_id=" +:+ encodeURIComponent o | None => "" end in
  fetchJson c [Lit "/api/models/"; Enc slug; Raw query] "GET" None.

Definition listServingRequests (c : client) (orgId : string) (query : ServingRequestQuery) : DS json :=
  fetchJson c [Lit "/api/orgs/"; Enc orgId; Lit "/serving/requests";
               Raw (query_suffix (servingRequestQueryString query))] "GET" None.

Definition getServingRequest (c : client) (orgId requestId : string) : DS (option json) :=
  fetch_member c "request"
    [Lit "/api/orgs/"; Enc orgId; Lit "/serving/requests/"; Enc requestId] "GET" None.

(** Assert a validated payload at the boundary. *)
Definition parsed {A} (value : option A) (what : string) : DS A :=
  match value with
  | Some x => mret x
  | None => Throw (DataSourceRequestError
      ("Experiential backend returned an unreadable " +:+ what +:+ " payload.") 502 None None)
  end.

Definition getServingRequestAudit (c : client) (requestId : string) : DS ServingRoutingAuditPayload :=
  payload ← fetchJson c [Lit "/api/admin/serving-requests/"; Enc requestId] "GET" None;
  parsed (parseServingRoutingAudit (Some payload)) "serving routing audit".

Definition getServingSummary (c : client) (orgId : string) (endpoint : option string)
    (window : option ServingWindow) : DS json :=
  let ps := set_present "window" (window_key <$> window) (set_present "endpoint" endpoint []) in
  fetchJson c [Lit "/api/orgs/"; Enc orgId; Lit "/serving/summary";
               Raw (query_suffix (params_string ps))] "GET" None.

Definition listServingEndpoints (c : client) (orgId : string) : DS (option json) :=
  fetch_member c "endpoints" [Lit "/api/orgs/"; Enc orgId; Lit "/serving/endpoints"] "GET" None.

(** [params.size === 0 ? "" : `?${params.toString()}`]. *)
Definition sized_suffix (ps : params) : string :=
  match ps with [] => "" | _ => "?" +:+ params_string ps end.

Definition listProjects (c : client) (orgId : string) (includeArchived : bool)
    (limit offset : option Z) : DS json :=
  let ps := if includeArchived then params_set [] "include_archived" "true" else [] in
  let ps := set_number "offset" offset (set_number "limit" limit ps) in
  fetchJson c [Lit "/api/orgs/"; Enc orgId; Lit "/projects"; Raw (sized_suffix ps)] "GET" None.

Definition updateProject (c : client) (projectId : string) (input : json) : DS json :=
  fetchJson c [Lit "/api/projects/"; Enc projectId] "PATCH" (Some input).

Definition getProjectUsageTimeseries (c : client) (projectId : string) (window : option string) :
    DS json :=
  let query := match present window with
               | Some w => "?window=" +:+ encodeURIComponent w
               | None => "" end in
  fetchJson c [Lit "/api/projects/"; Enc projectId; Lit "/usage/timeseries"; Raw query] "GET" None.

Definition listProjectDatasetEpisodes (c : client) (projectId sourceId : string)
    (limit offset : option Z) : DS json :=
  let ps := set_number "offset" offset (set_number "limit" limit []) in
  fetchJson c [Lit "/api/projects/"; Enc projectId; Lit "/dataset/sources/"; Enc sourceId;
               Lit "/episodes"; Raw (sized_suffix ps)] "GET" None.

(** The multipart upload: no content type, so the runtime writes the boundary. *)
Definition uploadProjectTraceSource (c : client) (projectId input : string) : DS json :=
  hs ← get_headers c false;
  response ← fetch {| origin := baseUrl c;
    path := [Lit "/api/projects/"; Enc projectId; Lit "/trace-sources/upload"];
    http_method := "POST"; headers := hs; request_body := FormBody input |};
  parseResponse response.

Definition streamProjectJobEvents (c : client) (jobId : string) (after : Z) : DS http_response :=
  fetchEventStream c [Lit "/api/project-jobs/"; Enc jobId; Lit "/stream?after=";
                      Raw (string_of_Z after)] None [].

(** The one request under a customer's serving key, never the deployment bearer. *)
Definition streamChatCompletion (c : client) (servingKey : string) (body : json) :
    DS http_response :=
  fetch {| origin := servingBaseUrl c; path := [Lit "/v1/chat/completions"]; http_method := "POST";
           headers := [("Authorization", "Bearer " +:+ servingKey);
                       ("accept", "text/event-stream"); ("content-type", "application/json")];
           request_body := JsonBody body |}.

(** ** Tool accounts *)
Definition TRACKED_TOOL_VENDORS : list string := ["e2b"; "greptile"; "cursor"; "devin"].

Definition isTrackedToolVendor (value : string) : bool :=
  bool_decide (value ∈ TRACKED_TOOL_VENDORS).

(** A vendor that is not a string, outside the payload's type, is reported without its value. *)
Definition toolVendorAtBoundary (vendor : option json) : DS json :=
  match vendor with
  | Some (JStr v) =>
      if isTrackedToolVendor v then mret (JStr v)
      else Throw (DataSourceRequestError
        ("Experiential backend returned an unknown tool vendor " +:+ String (ascii_of_nat 34) v
          +:+ String (ascii_of_nat 34) ".") 502 None None)
  | _ => Throw (DataSourceRequestError
        "Experiential backend returned an unknown tool vendor." 502 None None)
  end.

Definition toToolAccountState (row : json) : DS json :=
  vendor ← member row "vendor";
  vendor ← toolVendorAtBoundary vendor;
  mret (obj [("vendor", Some vendor); ("connected", jget row "connected");
             ("ycGated", jget row "yc_gated"); ("config", jget row "config");
             ("credentialLast4", jget row "credential_last4");
             ("declaredBalanceUsd", jget row "declared_balance_usd");
             ("declaredBalanceSetAt", jget row "declared_balance_set_at");
             ("balanceSource", jget row "balance_source");
             ("lowBalanceThresholdUsd", jget row "low_balance_threshold_usd");
             ("lastFetchAt", jget row "last_fetch_at");
             ("lastFetchStatus", jget row "last_fetch_status");
             ("lastFetchMessage", jget row "last_fetch_message")]).

Definition toToolBalanceFetchResult (row : json) : DS json :=
  vendor ← member row "vendor";
  vendor ← toolVendorAtBoundary vendor;
  mret (obj [("vendor", Some vendor); ("kind", jget row "kind"); ("strategy", jget row "strategy");
             ("refreshed", jget row "refreshed"); ("balanceUsd", jget row "balance_usd");
             ("source", jget row "source"); ("message", jget row "message")]).

Definition listToolAccounts (c : client) (orgId : string) : DS (list json) :=
  payload ← fetchJson c [Lit "/api/orgs/"; Enc orgId; Lit "/tool-accounts"] "GET" None;
  match jarr payload with
  | Some rows => for_of (fun acc row => s ← toToolAccountState row; mret (acc ++ [s])) rows []
  | None => Throw (OtherError (new_Error "payload.map is not a function"))
  end.

Definition upsertToolAccount (c : client) (orgId vendor : string) (body : json) : DS json :=
  payload ← fetchJson c [Lit "/api/orgs/"; Enc orgId; Lit "/tool-accounts/"; Enc vendor] "PUT"
    (Some body);
  toToolAccountState payload.

Definition fetchToolAccountBalance (c : client) (orgId vendor : string) : DS json :=
  payload ← fetchJson c [Lit "/api/orgs/"; Enc orgId; Lit "/tool-accounts/"; Enc vendor;
                         Lit "/fetch-balance"] "POST" (Some (JObj []));
  toToolBalanceFetchResult payload.

Definition runScheduledBalanceFetch (c : client) : DS json :=
  payload ← fetchJson c [Lit "/api/internal/balance-fetch"] "POST" (Some (JObj []));
  checked ← member payload "providers_checked";
  mret (obj [("providersChecked", checked);
             ("providerSnapshotsWritten", jget payload "provider_snapshots_written");
             ("providersSkippedFloor", jget payload "providers_skipped_floor");
             ("toolAccountsChecked", jget payload "tool_accounts_checked");
             ("toolBalancesUpdated", jget payload "tool_balances_updated");
             ("errors", jget payload "errors")]).

(** What a method sends under: the deployment's bearer and the acting user, or a customer's serving key,
    for the body it was given. *)
Inductive credential := Deployment | Customer (servingKey : string) (body : json).

(** Every method of the data source, applied to any arguments, with what it sends under. *)
Inductive api_method (c : client) : credential -> forall {A}, DS A -> Prop :=
| call_streamChatCompletion servingKey body :
    api_method c (Customer servingKey body) (streamChatCompletion c servingKey body)
| call_listOrgs : api_method c Deployment (listOrgs c)
| call_getOrgAuditLog orgId query : api_method c Deployment (getOrgAuditLog c orgId query)
| call_getOrgCapabilities orgId : api_method c Deployment (getOrgCapabilities c orgId)
| call_getOrgAuditLogCsv orgId query : api_method c Deployment (getOrgAuditLogCsv c orgId query)
| call_listOrgDomains orgId : api_method c Deployment (listOrgDomains c orgId)
| call_createOrgDomain orgId domain : api_method c Deployment (createOrgDomain c orgId domain)
| call_verifyOrgDomain orgId domain : api_method c Deployment (verifyOrgDomain c orgId domain)
| call_setOrgDomainSsoRequired orgId domain ssoRequired : api_method c Deployment (setOrgDomainSsoRequired c orgId
    domain ssoRequired)
| call_deleteOrgDomain orgId domain : api_method c Deployment (deleteOrgDomain c orgId domain)
| call_getOrgSsoProvider orgId : api_method c Deployment (getOrgSsoProvider c orgId)
| call_putOrgSsoProvider orgId input : api_method c Deployment (putOrgSsoProvider c orgId input)
| call_deleteOrgSsoProvider orgId : api_method c Deployment (deleteOrgSsoProvider c orgId)
| call_getScimTokenStatus orgId : api_method c Deployment (getScimTokenStatus c orgId)
| call_mintScimToken orgId keyPolicy : api_method c Deployment (mintScimToken c orgId keyPolicy)
| call_revokeScimToken orgId : api_method c Deployment (revokeScimToken c orgId)
| call_listOrgTeams orgId : api_method c Deployment (listOrgTeams c orgId)
| call_createOrgTeam orgId name : api_method c Deployment (createOrgTeam c orgId name)
| call_renameOrgTeam orgId teamId name : api_method c Deployment (renameOrgTeam c orgId teamId name)
| call_deleteOrgTeam orgId teamId force : api_method c Deployment (deleteOrgTeam c orgId teamId force)
| call_listOrgTeamMembers orgId teamId : api_method c Deployment (listOrgTeamMembers c orgId teamId)
| call_addOrgTeamMember orgId teamId userId : api_method c Deployment (addOrgTeamMember c orgId teamId userId)
| call_removeOrgTeamMember orgId teamId userId : api_method c Deployment (removeOrgTeamMember c orgId teamId userId)
| call_assignOrgTeamKey orgId teamId keyId : api_method c Deployment (assignOrgTeamKey c orgId teamId keyId)
| call_unassignOrgTeamKey orgId teamId keyId : api_method c Deployment (unassignOrgTeamKey c orgId teamId keyId)
| call_getProviderDataControls orgId : api_method c Deployment (getProviderDataControls c orgId)
| call_getProviderPolicy orgId : api_method c Deployment (getProviderPolicy c orgId)
| call_putProviderPolicy orgId input : api_method c Deployment (putProviderPolicy c orgId input)
| call_deleteProviderPolicy orgId : api_method c Deployment (deleteProviderPolicy c orgId)
| call_listNamedAliases orgId : api_method c Deployment (listNamedAliases c orgId)
| call_createNamedAlias orgId name model : api_method c Deployment (createNamedAlias c orgId name model)
| call_repointNamedAlias orgId name model : api_method c Deployment (repointNamedAlias c orgId name model)
| call_listNamedAliasRevisions orgId name : api_method c Deployment (listNamedAliasRevisions c orgId name)
| call_rollbackNamedAlias orgId name revisionId : api_method c Deployment (rollbackNamedAlias c orgId name revisionId)
| call_deactivateNamedAlias orgId name : api_method c Deployment (deactivateNamedAlias c orgId name)
| call_listAliasModelOptions : api_method c Deployment (listAliasModelOptions c)
| call_deleteOrgData orgId : api_method c Deployment (deleteOrgData c orgId)
| call_getOrgUsage orgId : api_method c Deployment (getOrgUsage c orgId)
| call_getOrgBudget orgId : api_method c Deployment (getOrgBudget c orgId)
| call_getOrgCreditLedger orgId : api_method c Deployment (getOrgCreditLedger c orgId)
| call_postAdminCreditGrant orgId grant : api_method c Deployment (postAdminCreditGrant c orgId grant)
| call_listAllOrgEntitlements : api_method c Deployment (listAllOrgEntitlements c)
| call_listOrgEntitlements orgId : api_method c Deployment (listOrgEntitlements c orgId)
| call_grantOrgEntitlement orgId capability note expiresAt : api_method c Deployment (grantOrgEntitlement c orgId
    capability note expiresAt)
| call_revokeOrgEntitlement orgId capability : api_method c Deployment (revokeOrgEntitlement c orgId capability)
| call_postAdminYcGrant orgId grant : api_method c Deployment (postAdminYcGrant c orgId grant)
| call_getAdminWelcomeTrigger orgId : api_method c Deployment (getAdminWelcomeTrigger c orgId)
| call_putAdminWelcomeTrigger orgId trigger : api_method c Deployment (putAdminWelcomeTrigger c orgId trigger)
| call_postAdminWelcomeTriggerByLabel input : api_method c Deployment (postAdminWelcomeTriggerByLabel c input)
| call_putAdminFreeCreditCaps orgId lifted : api_method c Deployment (putAdminFreeCreditCaps c orgId lifted)
| call_getCreditGating : api_method c Deployment (getCreditGating c)
| call_putPreVerifyAllowance enabled : api_method c Deployment (putPreVerifyAllowance c enabled)
| call_putWelcomeGrant microUsd : api_method c Deployment (putWelcomeGrant c microUsd)
| call_putYcGrant microUsd : api_method c Deployment (putYcGrant c microUsd)
| call_putSpendUnlockRequirement requirement : api_method c Deployment (putSpendUnlockRequirement c requirement)
| call_getPlatformOrgUsage : api_method c Deployment (getPlatformOrgUsage c)
| call_listAdminModelPromotions : api_method c Deployment (listAdminModelPromotions c)
| call_createAdminModelPromotion input : api_method c Deployment (createAdminModelPromotion c input)
| call_updateAdminModelPromotion id input : api_method c Deployment (updateAdminModelPromotion c id input)
| call_deleteAdminModelPromotion id : api_method c Deployment (deleteAdminModelPromotion c id)
| call_getAdminOrgLabels : api_method c Deployment (getAdminOrgLabels c)
| call_listAdminOrgLabels orgId : api_method c Deployment (listAdminOrgLabels c orgId)
| call_addAdminOrgLabel orgId key : api_method c Deployment (addAdminOrgLabel c orgId key)
| call_removeAdminOrgLabel orgId key : api_method c Deployment (removeAdminOrgLabel c orgId key)
| call_listAdminOrgNotes orgId : api_method c Deployment (listAdminOrgNotes c orgId)
| call_addAdminOrgNote orgId body : api_method c Deployment (addAdminOrgNote c orgId body)
| call_deleteAdminOrgNote orgId noteId : api_method c Deployment (deleteAdminOrgNote c orgId noteId)
| call_listAdminRecommendedModels : api_method c Deployment (listAdminRecommendedModels c)
| call_replaceAdminRecommendedModels slugs : api_method c Deployment (replaceAdminRecommendedModels c slugs)
| call_listAdminExperientialCloud : api_method c Deployment (listAdminExperientialCloud c)
| call_createAdminExperientialCloud input : api_method c Deployment (createAdminExperientialCloud c input)
| call_updateAdminExperientialCloud id input : api_method c Deployment (updateAdminExperientialCloud c id input)
| call_setAdminExperientialCloudStatus id status : api_method c Deployment (setAdminExperientialCloudStatus c
    id status)
| call_listIdentities orgId : api_method c Deployment (listIdentities c orgId)
| call_createIdentity orgId input : api_method c Deployment (createIdentity c orgId input)
| call_updateIdentity orgId identityId input : api_method c Deployment (updateIdentity c orgId identityId input)
| call_disableIdentity orgId identityId : api_method c Deployment (disableIdentity c orgId identityId)
| call_getGrantMatrix orgId : api_method c Deployment (getGrantMatrix c orgId)
| call_addGrant orgId identityId aliasId : api_method c Deployment (addGrant c orgId identityId aliasId)
| call_removeGrant orgId identityId aliasId : api_method c Deployment (removeGrant c orgId identityId aliasId)
| call_listBudgets orgId period : api_method c Deployment (listBudgets c orgId period)
| call_setBudget orgId input : api_method c Deployment (setBudget c orgId input)
| call_deleteBudget orgId budgetId : api_method c Deployment (deleteBudget c orgId budgetId)
| call_listSpendAlerts orgId : api_method c Deployment (listSpendAlerts c orgId)
| call_createSpendAlert orgId input : api_method c Deployment (createSpendAlert c orgId input)
| call_deleteSpendAlert orgId alertId : api_method c Deployment (deleteSpendAlert c orgId alertId)
| call_getGatewayUsageDaily orgId scope groupBy from to limit : api_method c Deployment (getGatewayUsageDaily
    c orgId scope groupBy from to limit)
| call_getGatewayUsagePlatformDaily groupBy from to limit : api_method c Deployment (getGatewayUsagePlatformDaily
    c groupBy from to limit)
| call_getGatewayKeyLimits apiKeyId : api_method c Deployment (getGatewayKeyLimits c apiKeyId)
| call_putGatewayKeyLimits apiKeyId input : api_method c Deployment (putGatewayKeyLimits c apiKeyId input)
| call_getUsageTimeseries orgId query : api_method c Deployment (getUsageTimeseries c orgId query)
| call_getUsageByKey orgId window : api_method c Deployment (getUsageByKey c orgId window)
| call_getUsageByProvider orgId window : api_method c Deployment (getUsageByProvider c orgId window)
| call_getCapturedPrompt orgId requestId : api_method c Deployment (getCapturedPrompt c orgId requestId)
| call_runBroadcast : api_method c Deployment (runBroadcast c)
| call_getUsageByPrompt orgId window : api_method c Deployment (getUsageByPrompt c orgId window)
| call_listUsageRequests orgId query : api_method c Deployment (listUsageRequests c orgId query)
| call_getTelemetrySettings orgId : api_method c Deployment (getTelemetrySettings c orgId)
| call_setTelemetrySettings orgId settings : api_method c Deployment (setTelemetrySettings c orgId settings)
| call_getImportedUsage orgId : api_method c Deployment (getImportedUsage c orgId)
| call_getSuggestions orgId window : api_method c Deployment (getSuggestions c orgId window)
| call_queryInsights orgId question : api_method c Deployment (queryInsights c orgId question)
| call_runAgentAdvice orgId window : api_method c Deployment (runAgentAdvice c orgId window)
| call_postYcClaim orgId : api_method c Deployment (postYcClaim c orgId)
| call_getJoinOffer : api_method c Deployment (getJoinOffer c)
| call_requestOrgAccess : api_method c Deployment (requestOrgAccess c)
| call_listJoinRequests orgId : api_method c Deployment (listJoinRequests c orgId)
| call_approveJoinRequest orgId requestId : api_method c Deployment (approveJoinRequest c orgId requestId)
| call_denyJoinRequest orgId requestId : api_method c Deployment (denyJoinRequest c orgId requestId)
| call_checkProviderConnection orgId provider : api_method c Deployment (checkProviderConnection c orgId provider)
| call_checkModelDeployment orgId provider input : api_method c Deployment (checkModelDeployment c orgId provider
    input)
| call_getModelDetail slug orgId : api_method c Deployment (getModelDetail c slug orgId)
| call_refreshProviderSpend orgId provider : api_method c Deployment (refreshProviderSpend c orgId provider)
| call_listToolAccounts orgId : api_method c Deployment (listToolAccounts c orgId)
| call_upsertToolAccount orgId vendor body : api_method c Deployment (upsertToolAccount c orgId vendor body)
| call_fetchToolAccountBalance orgId vendor : api_method c Deployment (fetchToolAccountBalance c orgId vendor)
| call_deleteToolAccount orgId vendor : api_method c Deployment (deleteToolAccount c orgId vendor)
| call_runScheduledBalanceFetch : api_method c Deployment (runScheduledBalanceFetch c)
| call_listServingRequests orgId query : api_method c Deployment (listServingRequests c orgId query)
| call_getServingRequest orgId requestId : api_method c Deployment (getServingRequest c orgId requestId)
| call_getServingRequestAudit requestId : api_method c Deployment (getServingRequestAudit c requestId)
| call_getServingSummary orgId endpoint window : api_method c Deployment (getServingSummary c orgId endpoint window)
| call_listServingEndpoints orgId : api_method c Deployment (listServingEndpoints c orgId)
| call_listProjects orgId includeArchived limit offset : api_method c Deployment (listProjects c orgId includeArchived
    limit offset)
| call_getProjectBySlug orgId slug : api_method c Deployment (getProjectBySlug c orgId slug)
| call_createProject orgId input : api_method c Deployment (createProject c orgId input)
| call_getProject projectId : api_method c Deployment (getProject c projectId)
| call_updateProject projectId input : api_method c Deployment (updateProject c projectId input)
| call_archiveProject projectId : api_method c Deployment (archiveProject c projectId)
| call_getProjectUsage projectId : api_method c Deployment (getProjectUsage c projectId)
| call_getProjectUsageTimeseries projectId window : api_method c Deployment (getProjectUsageTimeseries c projectId
    window)
| call_getProjectSavings projectId : api_method c Deployment (getProjectSavings c projectId)
| call_getProjectScenarioSet projectId : api_method c Deployment (getProjectScenarioSet c projectId)
| call_getProjectScenarioMap projectId : api_method c Deployment (getProjectScenarioMap c projectId)
| call_getProjectFidelity projectId : api_method c Deployment (getProjectFidelity c projectId)
| call_listProjectDatasetSources projectId : api_method c Deployment (listProjectDatasetSources c projectId)
| call_listProjectDatasetEpisodes projectId sourceId limit offset : api_method c Deployment (listProjectDatasetEpisodes
    c projectId sourceId limit offset)
| call_uploadProjectTraceSource projectId input : api_method c Deployment (uploadProjectTraceSource c projectId
    input)
| call_listProjectTraceConnections projectId : api_method c Deployment (listProjectTraceConnections c projectId)
| call_getLatestProjectTraceAcquisition projectId : api_method c Deployment (getLatestProjectTraceAcquisition
    c projectId)
| call_getProjectTraceAcquisition projectId acquisitionId : api_method c Deployment (getProjectTraceAcquisition
    c projectId acquisitionId)
| call_acquireRemoteProjectTraces projectId input : api_method c Deployment (acquireRemoteProjectTraces c projectId
    input)
| call_retryProjectTraceAcquisition projectId acquisitionId : api_method c Deployment (retryProjectTraceAcquisition
    c projectId acquisitionId)
| call_getCurrentProjectTraceSource projectId : api_method c Deployment (getCurrentProjectTraceSource c projectId)
| call_getProjectPreparation projectId : api_method c Deployment (getProjectPreparation c projectId)
| call_enqueueProjectPreparation projectId : api_method c Deployment (enqueueProjectPreparation c projectId)
| call_getProjectSetup projectId : api_method c Deployment (getProjectSetup c projectId)
| call_updateProjectSetup projectId input : api_method c Deployment (updateProjectSetup c projectId input)
| call_getCurrentProjectJob projectId : api_method c Deployment (getCurrentProjectJob c projectId)
| call_enqueueProjectJob projectId : api_method c Deployment (enqueueProjectJob c projectId)
| call_getProjectJob jobId : api_method c Deployment (getProjectJob c jobId)
| call_cancelProjectJob jobId : api_method c Deployment (cancelProjectJob c jobId)
| call_streamProjectJobEvents jobId after : api_method c Deployment (streamProjectJobEvents c jobId after)
| call_getProjectResult projectId : api_method c Deployment (getProjectResult c projectId)
| call_getProjectServingSettings projectId : api_method c Deployment (getProjectServingSettings c projectId)
| call_updateProjectServingSettings projectId input : api_method c Deployment (updateProjectServingSettings c
    projectId input)
| call_getProjectServingUsage projectId : api_method c Deployment (getProjectServingUsage c projectId)
| call_createCatalogModel input : api_method c Deployment (createCatalogModel c input)
| call_addCatalogDeployment slug input : api_method c Deployment (addCatalogDeployment c slug input)
| call_getCatalogWaterfall slug orgId : api_method c Deployment (getCatalogWaterfall c slug orgId)
| call_putCatalogWaterfall slug orgId modelProviderIds : api_method c Deployment (putCatalogWaterfall c slug orgId
    modelProviderIds).

(** ** Where a request goes

    A segment of a request path is literal text or one encoded argument. *)
Inductive segment := Literal (s : string) | Argument (x : string).

Definition segment_text (s : segment) : string :=
  match s with Literal s => s | Argument x => encodeURIComponent x end.

Definition is_chr (t : token) : bool := match t with Chr _ => true | Arg _ => false end.

Definition segment_of (l : list token) : option segment :=
  match l with
  | [Arg x] => Some (Argument x)
  | _ => if forallb is_chr l && negb (single_dot (token_string l)) && negb (double_dot (token_string l))
         then Some (Literal (token_string l)) else None
  end.

(** The template's segments, when every argument fills a segment of its own and the path is one of
    the backend's API. *)
Definition api_segments (t : list piece) : option (list segment) :=
  match mapM segment_of (path_segments t) with
  | Some (Literal "" :: Literal "api" :: segs) => Some (Literal "" :: Literal "api" :: segs)
  | _ => None
  end.

(** The rendered path has the template's segments; each argument is read back from its own; and the
    URL parser leaves it alone unless an argument is itself a dot segment. *)
Definition confined (t : list piece) (segs : list segment) : Prop :=
  split_on "/" (before_query (render t)) = map segment_text segs /\
  firstn 2 segs = [Literal ""; Literal "api"] /\
  (forall x, Argument x ∈ segs -> decodeURIComponent (segment_text (Argument x)) = Some x) /\
  ((forall x, Argument x ∈ segs -> x <> "." /\ x <> "..") ->
    resolve_dots [] (map segment_text segs) = map segment_text segs).

Lemma segment_of_cases l s :
  segment_of l = Some s ->
  (exists x, l = [Arg x] /\ s = Argument x) \/
  (s = Literal (token_string l) /\ single_dot (token_string l) = false /\
   double_dot (token_string l) = false).
Proof.
  assert (forall b, (if forallb is_chr l && negb (single_dot (token_string l)) &&
    negb (double_dot (token_string l)) then Some (Literal (token_string l)) else None) = b ->
    b = Some s -> s = Literal (token_string l) /\ single_dot (token_string l) = false /\
    double_dot (token_string l) = false) as Hlit.
  { intros b <-. destruct (_ && _) eqn:Hb; [|done]. intros [=<-]. by bool_simpl. }
  intros H. destruct l as [|[a|x] [|y l]]; try (right; by eapply Hlit).
  left. injection H as <-. by exists x.
Qed.

Lemma segment_of_text l s : segment_of l = Some s -> token_string l = segment_text s.
Proof.
  intros [(x & -> & ->)|(-> & _ & _)]%segment_of_cases; [|done]. apply append_nil_r.
Qed.

Lemma segment_of_no_dot l s :
  segment_of l = Some s -> (forall x, s = Argument x -> x <> "." /\ x <> "..") ->
  single_dot (segment_text s) = false /\ double_dot (segment_text s) = false.
Proof.
  intros [(x & -> & ->)|(-> & H1 & H2)]%segment_of_cases Hx; [|done].
  destruct (Hx x eq_refl). apply orb_false_elim, not_true_is_false.
  by intros [->| ->]%dot_argument.
Qed.

Lemma api_segments_confined t segs : api_segments t = Some segs -> confined t segs.
Proof.
  unfold api_segments. destruct (mapM segment_of (path_segments t)) as [l|] eqn:Hm; [|done].
  intros H. assert (l = segs /\ firstn 2 segs = [Literal ""; Literal "api"]) as [-> Hf]
    by (repeat case_match; simplify_eq; done).
  clear H. apply mapM_Some_1 in Hm.
  assert (map token_string (path_segments t) = map segment_text segs) as Ht.
  { clear Hf. induction Hm as [|l s ls ss Hs Hls IH]; [done|]. simpl. f_equal; [|done].
    by apply segment_of_text. }
  split; [by rewrite render_segments|]. split; [done|].
  split; [intros x _; apply decode_encode|].
  intros Hx. rewrite resolve_dots_none; [done|]. apply Forall_map, Forall_forall.
  intros s Hs. apply list_elem_of_lookup in Hs as [i Hi].
  destruct (Forall2_lookup_r _ _ _ _ _ Hm Hi) as (l & _ & Hl).
  eapply segment_of_no_dot; [done|]. intros x ->. apply Hx. by eapply list_elem_of_lookup_2.
Qed.

(** What a method may ask of the outside: first who acts, then one request, to the backend, for an
    API path, under the deployment's bearer and exactly that actor, with a content type exactly when
    it carries a JSON body. *)
Definition licensed (c : client) (tr : list (event ds_effects)) (cmd : cmd ds_effects) : Prop :=
  match cmd with
  | ActorId => tr = []
  | Fetch r => exists actor segs,
      tr = [Ev (E := ds_effects) ActorId (inr actor)] /\ origin r = baseUrl c /\
      confined (path r) segs /\
      mget (headers r) "Authorization" = Some ("Bearer " +:+ apiKey c) /\
      mget (headers r) "X-Explabs-Actor-Id" = actor /\
      (mget (headers r) "content-type" = Some "application/json" <->
        exists j, request_body r = JsonBody j)
  end.

(** The answer decides: a transport's error and a refusal are thrown as they are. *)
Definition answered_by {A} (x : Thrown + http_response) (o : outcome ds_error A) : Prop :=
  match x with
  | inl e => o = Raised (OtherError e)
  | inr res => if response_ok res then True else o = Raised (responseError res)
  end.

(** One request was sent and its answer decided; or the acting user could not be told, and none was. *)
Definition sent_once {A} (tr : list (event ds_effects)) (o : outcome ds_error A) : Prop :=
  (exists e, tr = [Ev (E := ds_effects) ActorId (inl e)] /\ o = Raised (OtherError e)) \/
  (exists actor r x, tr = [Ev (E := ds_effects) ActorId (inr actor); Ev (E := ds_effects) (Fetch r) x] /\
     answered_by x o).

Definition sends {A} (c : client) (p : DS A) : Prop := spec (licensed c) sent_once [] p.

(** The one request under a customer's key: nobody is asked who acts, and no deployment bearer or actor
    goes with it. *)
Definition customer_licensed (c : client) (servingKey : string) (body : json)
    (tr : list (event ds_effects)) (cmd : cmd ds_effects) : Prop :=
  match cmd with
  | ActorId => False
  | Fetch r => tr = [] /\ origin r = servingBaseUrl c /\ render (path r) = "/v1/chat/completions" /\
      http_method r = "POST" /\ request_body r = JsonBody body /\
      mget (headers r) "Authorization" = Some ("Bearer " +:+ servingKey) /\
      mget (headers r) "X-Explabs-Actor-Id" = None /\
      mget (headers r) "content-type" = Some "application/json"
  end.

(** Its answer is the caller's to read, a refusal too. *)
Definition customer_sent {A} (tr : list (event ds_effects)) (o : outcome ds_error A) : Prop :=
  exists r x, tr = [Ev (E := ds_effects) (Fetch r) x] /\
    match x with
    | inl e => o = Raised (OtherError e)
    | inr res => exists a, o = Done a
    end.

Definition confined_once (c : client) (who : credential) {A} (p : DS A) : Prop :=
  match who with
  | Deployment => sends c p
  | Customer servingKey body => spec (customer_licensed c servingKey body) customer_sent [] p
  end.

(** A continuation that only computes. *)
Definition pure {A} (p : DS A) : Prop := forall tr, spec (fun _ _ => False) (fun _ _ => True) tr p.

Lemma sends_bind {A B} c (p : DS A) (f : A -> DS B) :
  sends c p -> (forall a, pure (f a)) -> sends c (mbind f p).
Proof.
  intros Hp Hf. apply spec_bind. eapply spec_post; [exact Hp|]. intros tr [a|e] H.
  2: { destruct H as [(e' & -> & [= ->])|(actor & r & x & -> & H)]; [left; by eexists|right].
       eexists _, _, x. split; [done|]. destruct x as [|res]; [by injection H as ->|].
       simpl in *. destruct (response_ok res); [done|]. by injection H as ->. }
  apply (spec_impl (fun _ _ => False) _ (fun tr' _ => tr' = tr)); [done| |by apply spec_end, Hf].
  intros tr' o ->. destruct H as [(e' & -> & [=])|(actor & r & x & -> & H)]. right.
  eexists _, _, x. split; [done|]. destruct x as [|res]; [done|]. simpl in *. by destruct (response_ok res).
Qed.

(** A request the actor was asked for, and its answer. *)
Lemma sent_fetch {A} actor r x (o : outcome ds_error A) :
  answered_by x o -> sent_once [Ev (E := ds_effects) ActorId (inr actor); Ev (E := ds_effects) (Fetch r) x] o.
Proof. intros H. right. by eexists _, _, _. Qed.

Lemma sent_none {A} e : sent_once (A := A) [Ev (E := ds_effects) ActorId (inl e)] (Raised (OtherError e)).
Proof. left. by eexists. Qed.

Lemma answered_ok {A} res (o : outcome ds_error A) : response_ok res = true -> answered_by (inr res) o.
Proof. simpl. by intros ->. Qed.

Lemma answered_refused {A} res : response_ok res = false -> answered_by (A := A) (inr res) (Raised (responseError res)).
Proof. simpl. by intros ->. Qed.

(** A sender's ending. *)
Ltac sent_ends := cbn [app]; first [apply sent_none|apply sent_fetch; first [by apply answered_ok|by apply answered_refused|done]].

Lemma pure_bind {A B} (p : DS A) (f : A -> DS B) : pure p -> (forall a, pure (f a)) -> pure (mbind f p).
Proof.
  intros Hp Hf tr. apply spec_bind. eapply spec_post; [apply (Hp tr)|].
  intros tr' [a|e] _; [apply Hf|done].
Qed.

Lemma pure_for_of {S A} (body : S -> A -> DS S) l s :
  (forall s a, pure (body s a)) -> pure (for_of body l s).
Proof.
  intros Hb. revert s. induction l as [|a l IH]; intros s; simpl; [by intros tr|].
  apply pure_bind; [apply Hb|apply IH].
Qed.

Lemma mget_request_headers c actor b :
  let hs := request_headers c actor b in
  mget hs "Authorization" = Some ("Bearer " +:+ apiKey c) /\
  mget hs "X-Explabs-Actor-Id" = actor /\
  mget hs "content-type" = if b then Some "application/json" else None.
Proof. by destruct actor, b. Qed.

(** The request every sender makes. *)
Lemma request_licensed c t actor segs m hs b (has : bool) :
  api_segments t = Some segs ->
  hs = request_headers c actor has ->
  (has = true <-> exists j, b = JsonBody j) ->
  licensed c [Ev (E := ds_effects) ActorId (inr actor)]
    (Fetch {| origin := baseUrl c; path := t; http_method := m; headers := hs;
              request_body := b |}).
Proof.
  intros Ht -> Hb. exists actor, segs. destruct (mget_request_headers c actor has) as (H1 & H2 & H3).
  do 2 (split; [done|]). split; [by apply api_segments_confined|]. do 2 (split; [done|]).
  cbn [headers request_body]. rewrite H3, <- Hb. by destruct has.
Qed.

Lemma json_body_iff b :
  (match b with Some _ => true | None => false end) = true <-> exists j, json_body b = JsonBody j.
Proof. destruct b; simpl; split; [eauto|done|done|by intros []]. Qed.

Lemma no_body_iff : false = true <-> exists j, NoBody = JsonBody j.
Proof. split; [done|by intros []]. Qed.

Lemma form_body_iff f : false = true <-> exists j, FormBody f = JsonBody j.
Proof. split; [done|by intros []]. Qed.

Lemma fetchJson_sends c t m b : is_Some (api_segments t) -> sends c (fetchJson c t m b).
Proof.
  intros [segs Ht]. destruct b; unfold sends, fetchJson, get_headers, fetch, unwrap, parseResponse, check_ok, read_json.
  all: exec; try done; try sent_ends; (eapply request_licensed; [done..|]); apply (json_body_iff (Some _)) || apply no_body_iff.
Qed.

Lemma fetchVoid_sends c t m : is_Some (api_segments t) -> sends c (fetchVoid c t m).
Proof.
  intros [segs Ht]. unfold sends, fetchVoid, get_headers, fetch, unwrap, check_ok.
  exec; try done; try sent_ends; (eapply request_licensed; [done..|]); apply no_body_iff.
Qed.

Lemma fetchText_sends c t : is_Some (api_segments t) -> sends c (fetchText c t).
Proof.
  intros [segs Ht]. unfold sends, fetchText, get_headers, fetch, unwrap, check_ok.
  exec; try done; try sent_ends; (eapply request_licensed; [done..|]); apply no_body_iff.
Qed.

Lemma fetch_member_sends c k t m b : is_Some (api_segments t) -> sends c (fetch_member c k t m b).
Proof.
  intros Ht. apply sends_bind; [by apply fetchJson_sends|]. intros j tr. by destruct j.
Qed.

Lemma fetchEventStream_sends c t : is_Some (api_segments t) -> sends c (fetchEventStream c t None []).
Proof.
  intros [segs Ht]. unfold sends, fetchEventStream, get_headers, fetch, unwrap, check_ok.
  exec; try done; try sent_ends; eexists _, segs; do 2 (split; [done|]);
    (split; [by apply api_segments_confined|]); cbn [headers request_body json_body];
    (destruct o; do 2 (split; [done|]); (split; [done|by intros []])).
Qed.

Lemma upload_sends c projectId input : sends c (uploadProjectTraceSource c projectId input).
Proof.
  unfold sends, uploadProjectTraceSource, get_headers, fetch, unwrap, parseResponse, check_ok, read_json.
  exec; try done; try sent_ends; eapply request_licensed; [reflexivity|done|apply form_body_iff].
Qed.

(** A query suffix is empty or begins the query. *)
Lemma query_suffix_cases qs : query_suffix qs = "" \/ exists s, query_suffix qs = String "?" s.
Proof. unfold query_suffix. destruct (truthy qs); [right; by eexists|by left]. Qed.

Lemma window_suffix_cases w : window_suffix w = "" \/ exists s, window_suffix w = String "?" s.
Proof. destruct w; [right; by eexists|by left]. Qed.

Lemma sized_suffix_cases ps : sized_suffix ps = "" \/ exists s, sized_suffix ps = String "?" s.
Proof. destruct ps; [by left|right; by eexists]. Qed.

Lemma audit_suffix_cases q :
  auditLogQueryString q = "" \/ exists s, auditLogQueryString q = String "?" s.
Proof. unfold auditLogQueryString. cbv zeta. destruct (truthy _); [right; by eexists|by left]. Qed.

Lemma alias_option_pure entry : pure (alias_option entry).
Proof. intros tr. unfold alias_option. by repeat case_match. Qed.

Lemma vendor_pure v : pure (toolVendorAtBoundary v).
Proof. intros tr. unfold toolVendorAtBoundary. by repeat case_match. Qed.

Lemma member_pure j k : pure (member j k).
Proof. intros tr. by destruct j. Qed.

Lemma ret_pure {A} (x : A) : pure (mret x).
Proof. by intros tr. Qed.

Lemma throw_pure {A} e : pure (Throw (A := A) e).
Proof. by intros tr. Qed.

Create HintDb sends.
#[local] Hint Resolve alias_option_pure vendor_pure member_pure ret_pure throw_pure : sends.

Lemma state_pure row : pure (toToolAccountState row).
Proof. repeat (apply pure_bind; [auto with sends|intros ?]). auto with sends. Qed.

Lemma balance_pure row : pure (toToolBalanceFetchResult row).
Proof. repeat (apply pure_bind; [auto with sends|intros ?]). auto with sends. Qed.

Lemma parsed_pure {A} (v : option A) what : pure (parsed v what).
Proof. destruct v; intros tr; done. Qed.

(** The method a program is an application of. *)
Ltac head_of t := lazymatch t with ?f _ => head_of f | _ => t end.

(** A continuation made of pure steps. *)
Ltac only_computes :=
  repeat first
  [ apply alias_option_pure | apply vendor_pure | apply member_pure | apply ret_pure
  | apply throw_pure | apply parsed_pure | apply state_pure | apply balance_pure
  | apply pure_for_of; intros ? ? | apply pure_bind; [|intros ?]
  | match goal with |- pure (match ?x with _ => _ end) => destruct x end ].

(** Compute a template's segments. *)
Ltac segments := eexists; reflexivity.

(** Split a query suffix into its two forms before computing the segments. *)
Ltac suffix_segments :=
  match goal with
  | |- context [query_suffix ?q] => destruct (query_suffix_cases q) as [->|[? ->]]
  | |- context [window_suffix ?w] => destruct (window_suffix_cases w) as [->|[? ->]]
  | |- context [sized_suffix ?p] => destruct (sized_suffix_cases p) as [->|[? ->]]
  | |- context [auditLogQueryString ?q] => destruct (audit_suffix_cases q) as [->|[? ->]]
  | |- context [match present ?w with _ => _ end] => destruct (present w)
  | |- context [match ?w with Some _ => _ | None => _ end] => destruct w
  | |- context [if ?b then _ else _] => destruct b
  end; segments.

Lemma customer_spec c key b : spec (customer_licensed c key b) customer_sent [] (streamChatCompletion c key b).
Proof. split; [done|]. intros [e|res]; eexists _, _; (split; [reflexivity|]); [done|by eexists]. Qed.

(** *** The upstream's own words: the error, else the detail, else the detail's message, else the status *)
Inductive upstream_message (p : json) (status : Z) : string -> Prop :=
| says_error m : jget p "error" = Some (JStr m) -> upstream_message p status m
| says_detail m : jget_str p "error" = None -> jget p "detail" = Some (JStr m) -> upstream_message p status m
| says_detail_message d m : jget_str p "error" = None -> jget p "detail" = Some d ->
    jget d "message" = Some (JStr m) -> upstream_message p status m
| says_nothing : jget_str p "error" = None -> jget_str p "detail" = None ->
    (forall d, jget p "detail" = Some d -> jget_str d "message" = None) ->
    upstream_message p status ("Experiential backend request failed with HTTP " +:+ string_of_Z status).

Lemma jget_str_Some j k m : jget_str j k = Some m <-> jget j k = Some (JStr m).
Proof. unfold jget_str. destruct (jget j k) as [[]|]; naive_solver. Qed.

Lemma upstream_message_spec p status : upstream_message p status (responseMessage p status).
Proof.
  unfold responseMessage. destruct (jget_str p "error") as [m|] eqn:He; [by apply says_error, jget_str_Some|].
  destruct (jget_str p "detail") as [m|] eqn:Hd; [apply says_detail; [done|by apply jget_str_Some]|].
  destruct (jget p "detail") as [d|] eqn:Hj; cbn [mbind option_bind].
  2: { apply says_nothing; [done..|]. intros d Hd'. congruence. }
  destruct (jget_str d "message") as [m|] eqn:Hm; [eapply says_detail_message; [done..|by apply jget_str_Some]|].
  apply says_nothing; [done..|]. congruence.
Qed.

(** ** Properties *)


(** C25. A request that is answered ends as its answer says: a payload is returned exactly when the
    status is 2xx and the body is JSON; a 404 becomes a not-found error, any other failure a request
    error that keeps the upstream status and the body's own message, code and action; and when the
    acting user cannot be resolved nothing is sent at all. *)
Theorem fetchJson_outcome c t m b :
  spec (fun _ _ => True) (fun tr o =>
    (exists e, tr = [Ev (E := ds_effects) ActorId (inl e)] /\ o = Raised (OtherError e)) \/
    (exists actor answer,
      tr = [Ev (E := ds_effects) ActorId (inr actor);
            Ev (E := ds_effects) (Fetch
              {| origin := baseUrl c; path := t; http_method := m;
                 headers := request_headers c actor
                   (match b with Some _ => true | None => false end);
                 request_body := json_body b |}) answer] /\
      match answer with
      | inl e => o = Raised (OtherError e)
      | inr res =>
          let p := default JNull (payload res) in
          let status := http_status res in
          (200 <= status <= 299 /\
            match payload res with
            | Some j => o = Done j
            | None => exists e, o = Raised (OtherError e)
            end) \/
          (~ 200 <= status <= 299 /\ exists message, upstream_message p status message /\
            ((status = 404 /\ o = Raised (DataSourceNotFoundError message)) \/
             (status <> 404 /\ o = Raised
               (DataSourceRequestError message status (jget_str p "code") (jget_str p "action")))))
      end)) [] (fetchJson c t m b).
Proof.
  unfold fetchJson, get_headers, fetch, unwrap, parseResponse, check_ok, read_json.
  cbn [mbind prog_bind call spec]. split; [done|]. intros [e|actor]; [left; by eexists|].
  cbn [mbind prog_bind mret prog_ret spec]. split; [done|].
  intros [e|res]; cbn [mbind prog_bind mret prog_ret]; [right; by eexists _, _|].
  destruct (response_ok res) eqn:Hok; cbn [mbind prog_bind mret prog_ret].
  - apply bool_decide_eq_true in Hok.
    destruct (payload res) eqn:Hp; right; eexists _, (inr res); (split; [reflexivity|]);
      left; (split; [done|]); rewrite Hp; eauto.
  - apply bool_decide_eq_false in Hok. right. eexists _, (inr res); (split; [reflexivity|]). right.
    split; [done|]. exists (responseMessage (default JNull (payload res)) (http_status res)).
    split; [apply upstream_message_spec|]. unfold responseError. case_bool_decide; auto.
Qed.

(** A dot segment is the one argument the encoder lets the URL parser act on: [deleteOrgTeam] with
    the team id [..] addresses the organization itself. *)
Theorem dot_segment_escapes :
  resolve_dots [] (split_on "/" (before_query (render
    [Lit "/api/orgs/"; Enc "o1"; Lit "/teams/"; Enc ".."; Raw ""]))) = [""; "api"; "orgs"; "o1"; ""].
Proof. vm_compute. reflexivity. Qed.

(** The constructor refuses a deployment without a backend URL or key, and otherwise keeps the key
    and both origins up to one trailing slash, the serving origin falling back to the backend. *)
Theorem client_configuration base key serving :
  match BackendDataSource base key serving with
  | inl e => base = "" \/ key = ""
  | inr c => base <> "" /\ key <> "" /\ apiKey c = key /\
      (baseUrl c = base \/ base = baseUrl c +:+ "/") /\
      (let s := default base serving in servingBaseUrl c = s \/ s = servingBaseUrl c +:+ "/")
  end.
Proof.
  assert (forall s, strip_last "/" s = s \/ s = strip_last "/" s +:+ "/") as Hstrip.
  { induction s as [|a s IH]; [by left|]. destruct s as [|b s].
    - simpl. case_decide as Ha; [subst; by right|by left].
    - change (strip_last "/" (String a (String b s))) with
        (String a (strip_last "/" (String b s))).
      destruct IH as [->|Hr]; [by left|right]. cbn [String.append]. congruence. }
  unfold BackendDataSource, truthy. by repeat (case_bool_decide; simpl; auto).
Qed.

