(* ===== verification/AutoRecharge.v ===== *)
(** * The auto-recharge worker (lib/billing/auto-recharge.ts)

    Drains the queue of auto-recharge attempts: each pending attempt (or one whose lease expired)
    is claimed with a compare-and-swap on its [updated_at] and charged off-session, keyed on the
    attempt id. The database and Stripe are effects; every theorem holds for all their answers. *)

From S2P Require Import Prelude JsMap JsString JsDate JsNumber Effects Json Services.

#[local] Open Scope Z_scope.

(** ** Data *)
Definition LEASE_MS : Z := 5 * 60 * 1000.
Definition DEFAULT_BATCH_LIMIT : Z := 25.
Definition AUTORECHARGE_PURPOSE : string := "platform-credit-autorecharge".

Record AttemptRow := {
  id : string;
  org_id : string;
  amount_usd : number;
  status : string;
  stripe_payment_intent_id : option string;
  updated_at : string;
}.

Record SettingsRow := {
  settings_org_id : string;
  stripe_customer_id : option string;
  stripe_payment_method_id : option string;
}.

Record AutoRechargeRunSummary := {
  claimed : Z;
  charged : Z;
  declined : Z;
  retryable : Z;
  skipped : Z;
}.

(** ** Commands *)

(** The columns an [update] of [auto_recharge_attempts] sets. *)
Record attempt_patch := {
  set_status : option string;
  set_payment_intent : option string;
  set_error_message : option string;
  set_updated_at : string;
}.

Record intent_params := {
  amount : option Z;
  currency : string;
  customer : option string;
  payment_method : option string;
  off_session : bool;
  confirm : bool;
  purpose : string;
  meta_org_id : string;
  meta_attempt_id : string;
  requested_by : string;
}.

Record PaymentIntent := { intent_id : string; intent_status : string }.

Inductive recharge_cmd :=
| Now
| SelectAttempts (or_filter : string) (limit : Z)
| SelectSettings (orgs : list string)
(** [update(patch).eq("id", id).eq("updated_at", u).in("status", l).select("id")] *)
| ClaimUpdate (patch : attempt_patch) (id_eq : string) (updated_eq : string) (status_in : list string)
(** [update(patch).eq("id", id)] *)
| UpdateAttempt (patch : attempt_patch) (id_eq : string)
| CreateIntent (params : intent_params) (idempotencyKey : string)
| RpcRecordFailure (in_org in_payment_intent_id in_message : string).

Definition recharge_ans (c : recharge_cmd) : Type :=
  match c with
  | Now => Z
  | SelectAttempts _ _ => db_result (list AttemptRow)
  | SelectSettings _ => db_result (list SettingsRow)
  | ClaimUpdate _ _ _ _ => db_result (list string)
  | UpdateAttempt _ _ => db_result unit
  | CreateIntent _ _ => Thrown + PaymentIntent
  | RpcRecordFailure _ _ _ => db_result unit
  end.

Definition recharge_effects : effects := Effects recharge_cmd recharge_ans.

Abbreviation M := (prog recharge_effects Thrown).
Abbreviation perform c := (@call recharge_effects Thrown c).

Inductive charge_outcome := Charged | Declined | Retryable.

(** ** Operations *)

Definition now_iso : M string := t ← perform Now; mret (iso_string t).

Definition candidates_filter (cutoff : string) : string :=
  "status.eq.pending,and(status.eq.processing,stripe_payment_intent_id.is.null,updated_at.lt."
    +:+ cutoff +:+ ")".

Definition loadSettings (orgIds : list string) : M (list (string * SettingsRow)) :=
  result ← perform (SelectSettings (js_set orgIds));
  mret (foldl (fun m row => mset m (settings_org_id row) row) [] (default [] (data result))).

Definition claimAttempt (attempt : AttemptRow) : M bool :=
  t ← now_iso;
  claim ← perform (ClaimUpdate
    {| set_status := Some "processing"; set_payment_intent := None; set_error_message := None;
       set_updated_at := t |} (id attempt) (updated_at attempt) ["pending"; "processing"]);
  match error claim with
  | Some m =>
      Throw (new_Error ("auto-recharge: claiming attempt " +:+ id attempt +:+ " failed: " +:+ error_message m))
  | None => mret (bool_decide (length (default [] (data claim)) = 1%nat))
  end.

Definition recordFailure (orgId paymentIntentId message : string) : M unit :=
  result ← perform (RpcRecordFailure orgId paymentIntentId message);
  match error result with
  | Some m => Throw (new_Error ("auto-recharge: recording failure failed: " +:+ error_message m))
  | None => mret tt
  end.

Definition failAttemptById (attemptId message : string) : M unit :=
  t ← now_iso;
  _ ← perform (UpdateAttempt
    {| set_status := Some "failed"; set_payment_intent := None;
       set_error_message := Some message; set_updated_at := t |} attemptId);
  mret tt.

Definition asStripeCardError (e : Thrown) : option Thrown :=
  if bool_decide (thrown_type e = Some "StripeCardError") then Some e else None.

(** [stripe.paymentIntents.create], which throws on every failure. *)
Definition create_intent (params : intent_params) (key : string) : M PaymentIntent :=
  r ← perform (CreateIntent params key);
  match r with inl e => Throw e | inr intent => mret intent end.

Definition charge_params (attempt : AttemptRow) (settings : SettingsRow) : intent_params :=
  {| amount := math_round (amount_usd attempt * 100)%float; currency := "usd";
     customer := stripe_customer_id settings; payment_method := stripe_payment_method_id settings;
     off_session := true; confirm := true; purpose := AUTORECHARGE_PURPOSE;
     meta_org_id := org_id attempt; meta_attempt_id := id attempt;
     requested_by := "auto-recharge" |}.

Definition link_intent (attemptId intentId : string) : M unit :=
  t ← now_iso;
  _ ← perform (UpdateAttempt
    {| set_status := None; set_payment_intent := Some intentId; set_error_message := None;
       set_updated_at := t |} attemptId);
  mret tt.

(** The [catch] block of [chargeAttempt]. *)
Definition charge_failed (attempt : AttemptRow) (e : Thrown) : M charge_outcome :=
  match asStripeCardError e with
  | Some cardError =>
      let intentId := default None (thrown_payment_intent cardError) in
      _ ← match present intentId with
          | Some pi =>
              _ ← link_intent (id attempt) pi;
              recordFailure (org_id attempt) pi (thrown_message cardError)
          | None => failAttemptById (id attempt) (thrown_message cardError)
          end;
      mret Declined
  | None =>
      t ← now_iso;
      _ ← perform (UpdateAttempt
        {| set_status := Some "pending"; set_payment_intent := None;
           set_error_message := Some (error_text e); set_updated_at := t |} (id attempt));
      mret Retryable
  end.

Definition needs_customer (s : string) : bool :=
  bool_decide (s = "requires_action") || bool_decide (s = "requires_payment_method").

Definition chargeAttempt (attempt : AttemptRow) (settings : SettingsRow) : M charge_outcome :=
  try_catch
    (intent ← create_intent (charge_params attempt settings) (id attempt);
     _ ← link_intent (id attempt) (intent_id intent);
     if needs_customer (intent_status intent) then
       _ ← recordFailure (org_id attempt) (intent_id intent) "The card needs authentication.";
       mret Declined
     else mret Charged)
    (charge_failed attempt).

Definition bump_skipped (s : AutoRechargeRunSummary) : AutoRechargeRunSummary :=
  {| claimed := claimed s; charged := charged s; declined := declined s;
     retryable := retryable s; skipped := skipped s + 1 |}.

Definition bump_claimed (s : AutoRechargeRunSummary) : AutoRechargeRunSummary :=
  {| claimed := claimed s + 1; charged := charged s; declined := declined s;
     retryable := retryable s; skipped := skipped s |}.

Definition bump_outcome (s : AutoRechargeRunSummary) (o : charge_outcome) :
    AutoRechargeRunSummary :=
  {| claimed := claimed s;
     charged := charged s + match o with Charged => 1 | _ => 0 end;
     declined := declined s + match o with Declined => 1 | _ => 0 end;
     retryable := retryable s + match o with Retryable => 1 | _ => 0 end;
     skipped := skipped s |}.

(** [settings?.stripe_customer_id && settings?.stripe_payment_method_id], negated in the source. *)
Definition chargeable (settings : option SettingsRow) : option SettingsRow :=
  match settings with
  | Some s =>
      match present (stripe_customer_id s), present (stripe_payment_method_id s) with
      | Some _, Some _ => Some s
      | _, _ => None
      end
  | None => None
  end.

(** The body of the worker's loop. *)
Definition process_attempt (settingsByOrg : list (string * SettingsRow))
    (summary : AutoRechargeRunSummary) (attempt : AttemptRow) : M AutoRechargeRunSummary :=
  won ← claimAttempt attempt;
  if won : bool then
    match chargeable (mget settingsByOrg (org_id attempt)) with
    | None =>
        _ ← failAttemptById (id attempt) "No saved payment method.";
        mret (bump_skipped (bump_claimed summary))
    | Some settings =>
        outcome ← chargeAttempt attempt settings;
        mret (bump_outcome (bump_claimed summary) outcome)
    end
  else mret (bump_skipped summary).

Definition empty_summary : AutoRechargeRunSummary :=
  {| claimed := 0; charged := 0; declined := 0; retryable := 0; skipped := 0 |}.

Definition processPendingAutoRecharges (limit : option Z) : M AutoRechargeRunSummary :=
  t ← perform Now;
  let cutoff := iso_string (t - LEASE_MS) in
  candidates ← perform (SelectAttempts (candidates_filter cutoff)
                          (default DEFAULT_BATCH_LIMIT limit));
  match error candidates with
  | Some m => Throw (new_Error ("auto-recharge: loading attempts failed: " +:+ error_message m))
  | None =>
      let rows := default [] (data candidates) in
      match rows with
      | [] => mret empty_summary
      | _ =>
          settingsByOrg ← loadSettings (map org_id rows);
          for_of (process_attempt settingsByOrg) rows empty_summary
      end
  end.

(** ** What a run did *)

(** The event is a claim of attempt [k] that this worker won. *)
Definition wins_claim (k : string) (ev : event recharge_effects) : bool :=
  match ev with
  | Ev (ClaimUpdate _ i _ _) r =>
      bool_decide (i = k) &&
      match error r with
      | None => bool_decide (length (default [] (data r)) = 1%nat)
      | Some _ => false
      end
  | _ => false
  end.

(** The event asks Stripe for a charge under idempotency key [k]. *)
Definition asks_charge (k : string) (ev : event recharge_effects) : bool :=
  match ev with Ev (CreateIntent _ key) _ => bool_decide (key = k) | _ => false end.

Definition is_win (ev : event recharge_effects) : bool :=
  match ev with Ev (ClaimUpdate _ i _ _) _ => wins_claim i ev | _ => false end.

Definition is_charge (ev : event recharge_effects) : bool :=
  match ev with Ev (CreateIntent _ _) _ => true | _ => false end.

(** Stripe accepted the charge and it needs nothing from the customer. *)
Definition is_settled (ev : event recharge_effects) : bool :=
  match ev with
  | Ev (CreateIntent _ _) (inr intent) => negb (needs_customer (intent_status intent))
  | _ => false
  end.

Definition count (f : event recharge_effects -> bool) (tr : list (event recharge_effects)) : Z :=
  sumZ (map (fun ev => if f ev then 1 else 0) tr).

Definition read_attempt (tr : list (event recharge_effects)) (a : AttemptRow) : Prop :=
  exists f n r, Ev (E := recharge_effects) (SelectAttempts f n) r ∈ tr /\ a ∈ default [] (data r).

Definition read_settings (tr : list (event recharge_effects)) (s : SettingsRow) : Prop :=
  exists l r, Ev (E := recharge_effects) (SelectSettings l) r ∈ tr /\ s ∈ default [] (data r).

(** When Stripe may be asked for a charge: for an attempt the queue returned, with the card of the
    attempt's own organization, keyed on the attempt, and never more often than the attempt was
    won. *)
Definition licensed (tr : list (event recharge_effects)) (c : cmd recharge_effects) : Prop :=
  match c with
  | CreateIntent p key =>
      exists a s, read_attempt tr a /\ read_settings tr s /\ settings_org_id s = org_id a /\
        p = charge_params a s /\ key = id a /\
        is_Some (present (customer p)) /\ is_Some (present (payment_method p)) /\
        count (asks_charge key) tr < count (wins_claim key) tr
  | _ => True
  end.

(** Bookkeeping events neither claim, charge nor read the queue. *)
Definition quiet (ev : event recharge_effects) : bool :=
  match ev with
  | Ev Now _ | Ev (UpdateAttempt _ _) _ | Ev (RpcRecordFailure _ _ _) _ => true
  | _ => false
  end.

Lemma count_app f tr1 tr2 : count f (tr1 ++ tr2) = count f tr1 + count f tr2.
Proof. unfold count. by rewrite map_app, sumZ_app. Qed.

Lemma count_cons f ev tr : count f (ev :: tr) = (if f ev then 1 else 0) + count f tr.
Proof. done. Qed.

Lemma count_nil f : count f [] = 0.
Proof. done. Qed.

Lemma count_quiet f tr :
  (forall ev, quiet ev = true -> f ev = false) -> forallb quiet tr = true -> count f tr = 0.
Proof.
  intros Hf. induction tr as [|ev tr IH]; simpl; intros Hq; [done|]. bool_simpl.
  rewrite count_cons, IH by done. by rewrite Hf.
Qed.

Lemma charge_failed_spec a e tr :
  spec licensed (fun tr' o => exists q, tr' = tr ++ q /\ forallb quiet q = true /\
    match o with Done Charged => False | Raised _ => asStripeCardError e <> None | _ => True end)
    tr (charge_failed a e).
Proof.
  unfold charge_failed, link_intent, failAttemptById, recordFailure, now_iso. exec.
  all: try (rewrite <- !app_assoc; eexists; split; [reflexivity|]; by split).
Qed.

Definition charge_event (a : AttemptRow) (s : SettingsRow) (r : Thrown + PaymentIntent) :
    event recharge_effects :=
  Ev (E := recharge_effects) (CreateIntent (charge_params a s) (id a)) r.

(** Which outcomes Stripe's answer allows. *)
Definition outcome_allowed (r : Thrown + PaymentIntent) (o : outcome Thrown charge_outcome) : Prop :=
  match r, o with
  | inr i, Done Charged => needs_customer (intent_status i) = false
  | inr i, Done _ => needs_customer (intent_status i) = true
  | inr _, Raised _ => False
  | inl _, Done Charged => False
  | inl e, Done Retryable => asStripeCardError e = None
  | inl e, _ => asStripeCardError e <> None
  end.

Lemma chargeAttempt_spec a s tr :
  licensed tr (CreateIntent (charge_params a s) (id a)) ->
  spec licensed (fun tr' o => exists r q, tr' = tr ++ charge_event a s r :: q /\
      forallb quiet q = true /\ outcome_allowed r o)
    tr (chargeAttempt a s).
Proof.
  intros Hlic.
  unfold chargeAttempt, create_intent, charge_failed, link_intent, failAttemptById, recordFailure,
    now_iso.
  exec; [exact Hlic|..].
  all: rewrite <- ?app_assoc; eexists _, _; split; [reflexivity|].
  all: split; [done|]; simpl; unfold asStripeCardError, new_Error in *; simpl in *; congruence.
Qed.

(** ** The worker *)

Lemma quiet_not_win k ev : quiet ev = true -> wins_claim k ev = false.
Proof. destruct ev as [[] ?]; done. Qed.
Lemma quiet_not_ask k ev : quiet ev = true -> asks_charge k ev = false.
Proof. destruct ev as [[] ?]; done. Qed.
Lemma quiet_not_is_win ev : quiet ev = true -> is_win ev = false.
Proof. destruct ev as [[] ?]; done. Qed.
Lemma quiet_not_is_charge ev : quiet ev = true -> is_charge ev = false.
Proof. destruct ev as [[] ?]; done. Qed.
Lemma quiet_not_settled ev : quiet ev = true -> is_settled ev = false.
Proof. destruct ev as [[] ?]; done. Qed.

#[local] Hint Resolve quiet_not_win quiet_not_ask quiet_not_is_win quiet_not_is_charge
  quiet_not_settled : core.

(** What holds between two attempts of the loop. *)
Record worker_inv (rows : list AttemptRow) (m : list (string * SettingsRow))
    (done : list AttemptRow) (tr : list (event recharge_effects))
    (s : AutoRechargeRunSummary) : Prop := {
  inv_rows : forall a, a ∈ rows -> read_attempt tr a;
  inv_settings : forall o st, mget m o = Some st -> read_settings tr st /\ settings_org_id st = o;
  inv_paid : forall k, count (asks_charge k) tr <= count (wins_claim k) tr;
  inv_total : charged s + declined s + retryable s + skipped s = Z.of_nat (length done);
  inv_claimed : claimed s = count is_win tr;
  inv_charges : charged s + declined s + retryable s = count is_charge tr;
  inv_charged : charged s = count is_settled tr;
}.

Lemma read_attempt_app tr tr' a : read_attempt tr a -> read_attempt (tr ++ tr') a.
Proof. intros (f & n & r & H & Ha). exists f, n, r. set_solver. Qed.

Lemma read_settings_app tr tr' a : read_settings tr a -> read_settings (tr ++ tr') a.
Proof. intros (f & r & H & Ha). exists f, r. set_solver. Qed.

(** The events of one turn of the loop: a claim, then perhaps a charge, then bookkeeping. *)
Lemma worker_inv_step rows m pre a tr q s s' :
  worker_inv rows m pre tr s ->
  (forall k, count (asks_charge k) q <= count (wins_claim k) q) ->
  charged s' + declined s' + retryable s' + skipped s' =
    charged s + declined s + retryable s + skipped s + 1 ->
  claimed s' = claimed s + count is_win q ->
  charged s' + declined s' + retryable s' =
    charged s + declined s + retryable s + count is_charge q ->
  charged s' = charged s + count is_settled q ->
  worker_inv rows m (pre ++ [a]) (tr ++ q) s'.
Proof.
  intros [Hr Hs Hp Ht Hc Hch Hset] H1 H2 H3 H4 H5. constructor.
  - intros x Hx. by apply read_attempt_app, Hr.
  - intros o st Ho. destruct (Hs o st Ho). split; [by apply read_settings_app|done].
  - intros k. rewrite !count_app. specialize (Hp k). specialize (H1 k). lia.
  - rewrite length_app. simpl. lia.
  - rewrite count_app. lia.
  - rewrite count_app. lia.
  - rewrite count_app. lia.
Qed.

Definition claim_patch (t : string) : attempt_patch :=
  {| set_status := Some "processing"; set_payment_intent := None; set_error_message := None;
     set_updated_at := t |}.

Definition claim_event (a : AttemptRow) (t : string) (r : db_result (list string)) :
    event recharge_effects :=
  Ev (E := recharge_effects) (ClaimUpdate (claim_patch t) (id a) (updated_at a)
    ["pending"; "processing"]) r.

Lemma claimAttempt_spec a tr :
  spec licensed (fun tr' o => exists t t' r,
      tr' = tr ++ [Ev (E := recharge_effects) Now t; claim_event a t' r] /\
      match o with
      | Done won => wins_claim (id a) (claim_event a t' r) = won
      | Raised _ => True
      end) tr (claimAttempt a).
Proof.
  unfold claimAttempt, now_iso. exec.
  all: rewrite <- ?app_assoc; eexists _, _, _; split; [reflexivity|]; try done.
  all: simpl; rewrite bool_decide_true by done; by simplify_option_eq.
Qed.

Lemma chargeable_Some o s :
  chargeable o = Some s ->
  o = Some s /\ is_Some (present (stripe_customer_id s)) /\
  is_Some (present (stripe_payment_method_id s)).
Proof. unfold chargeable. intros H. crush_branches. Qed.

(** One turn of the loop keeps the invariant. *)
Lemma process_attempt_spec rows m pre a tr s :
  a ∈ rows -> worker_inv rows m pre tr s ->
  spec licensed (fun tr' o => match o with
      | Done s' => worker_inv rows m (pre ++ [a]) tr' s'
      | Raised _ => True
      end) tr (process_attempt m s a).
Proof.
  intros Ha Hinv. unfold process_attempt. apply spec_bind.
  eapply spec_post; [apply claimAttempt_spec|].
  intros tr1 o (t & t' & r & -> & Hwin). destruct o as [won|]; [|done].
  assert (forall k, wins_claim k (claim_event a t' r) = bool_decide (id a = k) && won) as Hwin'.
  { intros k. rewrite <- Hwin. simpl. rewrite (bool_decide_true (id a = id a)) by done. done. }
  destruct won.
  - destruct (chargeable _) as [st|] eqn:Hch.
    + apply chargeable_Some in Hch as (Hm & Hc & Hpm).
      destruct (inv_settings _ _ _ _ _ Hinv _ _ Hm) as [Hst Horg].
      apply spec_bind. eapply spec_post; [apply chargeAttempt_spec|].
      * exists a, st. split; [by apply read_attempt_app, (inv_rows _ _ _ _ _ Hinv)|].
        split; [by apply read_settings_app|]. do 5 (split; [done|]).
        rewrite !count_app, !count_cons, Hwin', bool_decide_true, !count_nil by done.
        pose proof (inv_paid _ _ _ _ _ Hinv (id a)). simpl. lia.
      * intros tr2 o (r' & q & -> & Hq & Ho). destruct o as [o|]; [|done].
        simpl. rewrite <- app_assoc. eapply worker_inv_step; [done|..].
        -- intros k. simpl. rewrite !count_cons, !(count_quiet _ q), Hwin' by auto. simpl.
           case_bool_decide; simpl; lia.
        -- destruct o; simpl; lia.
        -- simpl. rewrite !count_cons, (count_quiet _ q) by auto. change (is_win (claim_event a t' r)) with (wins_claim (id a) (claim_event a t' r)).
           rewrite Hwin. simpl. lia.
        -- simpl. rewrite !count_cons, (count_quiet _ q) by auto. destruct o; simpl; lia.
        -- simpl. rewrite !count_cons, (count_quiet _ q) by auto.
           destruct o, r' as [e|i]; simpl in *; rewrite ?Ho; simpl; try done; lia.
    + unfold failAttemptById, now_iso. exec. rewrite <- !app_assoc.
      eapply worker_inv_step; [done|..]; simpl; rewrite ?count_cons; 
        change (is_win (claim_event a t' r)) with (wins_claim (id a) (claim_event a t' r));
        rewrite ?Hwin; try (unfold count; simpl; lia).
      intros k. rewrite !count_cons, Hwin'. unfold count; simpl. case_bool_decide; simpl; lia.
  - simpl. eapply worker_inv_step; [done|..]; simpl; rewrite ?count_cons; 
      change (is_win (claim_event a t' r)) with (wins_claim (id a) (claim_event a t' r));
      rewrite ?Hwin; try (unfold count; simpl; lia).
    intros k. rewrite !count_cons, Hwin', andb_false_r. unfold count; simpl. lia.
Qed.

Lemma loadSettings_spec orgs tr :
  spec licensed (fun tr' o => exists l r,
      tr' = tr ++ [Ev (E := recharge_effects) (SelectSettings l) r] /\
      match o with
      | Done m => forall o st, mget m o = Some st ->
          st ∈ default [] (data r) /\ settings_org_id st = o
      | Raised _ => False
      end) tr (loadSettings orgs).
Proof.
  unfold loadSettings. exec. eexists _, _. split; [done|]. intros o st Hst.
  by apply mget_foldl_by_key in Hst as [?|?].
Qed.

(** The queue read a run starts with. *)
Definition queue_read (limit : option Z) (t : Z) (r : db_result (list AttemptRow)) :
    list (event recharge_effects) :=
  [Ev (E := recharge_effects) Now t;
   Ev (E := recharge_effects) (SelectAttempts (candidates_filter (iso_string (t - LEASE_MS)))
     (default DEFAULT_BATCH_LIMIT limit)) r].

Lemma process_spec limit :
  spec licensed (fun tr o => match o with
      | Done s => exists t r rest, tr = queue_read limit t r ++ rest /\
          claimed s = count is_win tr /\
          charged s + declined s + retryable s = count is_charge tr /\
          charged s = count is_settled tr /\
          charged s + declined s + retryable s + skipped s =
            Z.of_nat (length (default [] (data r)))
      | Raised _ => True
      end) [] (processPendingAutoRecharges limit).
Proof.
  unfold processPendingAutoRecharges. cbn [mbind prog_bind call spec].
  split; [done|]. intros t. split; [done|]. intros r. destruct (error r); [done|]. cbv zeta.
  destruct (default [] (data r)) as [|a0 rows0] eqn:Hrows.
  { exists t, r, []. rewrite Hrows. done. }
  set (rows := a0 :: rows0) in *. apply spec_bind.
  eapply spec_post; [apply loadSettings_spec|]. intros tr [m|] (l & rs & -> & Hm); [|done].
  set (tr0 := queue_read limit t r).
  eapply spec_post.
  - apply (spec_for_of licensed (fun _ _ => True)
      (fun pre tr s => (exists rest, tr = tr0 ++ rest) /\ worker_inv rows m pre tr s)).
    + split; [by eexists|]. constructor; try done.
      * intros a Ha. exists (candidates_filter (iso_string (t - LEASE_MS))),
          (default DEFAULT_BATCH_LIMIT limit), r. rewrite Hrows. split; [set_solver|done].
      * intros o st Hst. destruct (Hm o st Hst). split; [|done]. exists l, rs. set_solver.
    + intros pre a post tr s Hsplit [[rest ->] Hinv].
      assert (a ∈ rows) as Ha by (rewrite Hsplit; set_solver).
      eapply spec_post; [by eapply spec_prefix, process_attempt_spec|].
      intros tr' [s'|e] [[q ->] Hs]; [|done]. split; [|done].
      exists (rest ++ q). by rewrite app_assoc.
  - intros tr [s|e]; [|done]. intros [[rest ->] Hinv]. exists t, r, rest.
    destruct Hinv as [_ _ _ Ht Hc Hch Hset]. rewrite Hrows. done.
Qed.

(** ** The claim as a compare-and-swap

    What the worker relies on of the database: an [update] with [eq] and [in] filters writes its
    columns on exactly the row that satisfies them and returns it, atomically, and otherwise
    changes nothing and returns no row; an error answer says nothing about whether the write
    happened. [same_instant] is equality of [timestamptz] values. *)
Class AttemptTable (W : Type) (h : handler recharge_effects W) := {
  attempt_row : W -> string -> option (string * string);
  same_instant : string -> string -> bool;
  now_reads : forall w i, attempt_row (h w Now).1 i = attempt_row w i;
  update_hit : forall w p i u l st u',
    attempt_row w i = Some (st, u') -> same_instant u' u = true -> st ∈ l ->
    let '(w', r) := h w (ClaimUpdate p i u l) in
    (error r = None -> data r = Some [i]) /\
    (attempt_row w' i = Some (default st (set_status p), set_updated_at p) \/
     is_Some (error r) /\ attempt_row w' i = attempt_row w i);
  update_miss : forall w p i u l,
    (forall st u', attempt_row w i = Some (st, u') -> ~ (same_instant u' u = true /\ st ∈ l)) ->
    let '(w', r) := h w (ClaimUpdate p i u l) in
    (error r = None -> data r = Some []) /\ attempt_row w' i = attempt_row w i;
}.

Section exclusive.
Context {W : Type} (h : handler recharge_effects W) `{!AttemptTable W h}.
Variable a : AttemptRow.
Hypothesis clock_moved : forall w, same_instant (iso_string (h w Now).2) (updated_at a) = false.

(** The row still is as the workers read it. *)
Definition claimable (w : W) : Prop :=
  exists st u, attempt_row w (id a) = Some (st, u) /\ same_instant u (updated_at a) = true /\
    st ∈ ["pending"; "processing"].

(** A worker has read the clock and is about to swap. *)
Definition claiming (t : string) : M bool :=
  Vis (E := recharge_effects) (ClaimUpdate (claim_patch t) (id a) (updated_at a)
    ["pending"; "processing"])
    (fun claim => match error claim with
     | Some m =>
         Throw (new_Error ("auto-recharge: claiming attempt " +:+ id a +:+ " failed: " +:+ error_message m))
     | None => mret (bool_decide (length (default [] (data claim)) = 1%nat))
     end).

Definition worker_state (p : M bool) : Prop :=
  p = claimAttempt a \/
  (exists t, same_instant t (updated_at a) = false /\ p = claiming t) \/
  (exists b, p = Ret b) \/ (exists e, p = Throw e).

Definition one_winner (st : W * list (M bool)) : Prop :=
  (forall i p, st.2 !! i = Some p -> worker_state p) /\
  (forall i, st.2 !! i = Some (Ret true) -> ~ claimable st.1) /\
  (forall i j, st.2 !! i = Some (Ret true) -> st.2 !! j = Some (Ret true) -> i = j).

(** Writing a thread's new state keeps the invariant when the thread does not win and the row does
    not become claimable again. *)
Lemma one_winner_lose w w' ts i p :
  one_winner (w, ts) -> worker_state p -> p <> Ret true -> (claimable w' -> claimable w) ->
  one_winner (w', <[i := p]> ts).
Proof.
  intros (Hw & Hc & Hu) Hp Hne Hcl. split; [|split]; simpl in *.
  - intros j q. rewrite list_lookup_insert_Some. naive_solver.
  - intros j Hj Hcw. apply list_lookup_insert_Some in Hj. naive_solver.
  - intros j k Hj Hk. apply list_lookup_insert_Some in Hj, Hk. naive_solver.
Qed.

Lemma one_winner_win w w' ts i :
  one_winner (w, ts) -> claimable w -> ~ claimable w' ->
  one_winner (w', <[i := Ret true]> ts).
Proof.
  intros (Hw & Hc & Hu) Hcl Hcl'. split; [|split]; simpl in *.
  - intros j q. rewrite list_lookup_insert_Some.
    intros [(<- & <- & _)|[_ Hq]]; [right; right; left; by eexists|by eapply Hw].
  - done.
  - intros j k Hj Hk. apply list_lookup_insert_Some in Hj, Hk. naive_solver.
Qed.

Lemma claimable_dec w : claimable w \/ ~ claimable w.
Proof.
  unfold claimable. destruct (attempt_row w (id a)) as [[st u]|] eqn:Hr;
    [|right; intros (? & ? & ? & ? & ?); congruence].
  destruct (same_instant u (updated_at a)) eqn:Hu;
    [|right; intros (? & ? & ? & ? & ?); congruence].
  destruct (decide (st ∈ ["pending"; "processing"])); [left; by exists st, u|].
  right. intros (? & ? & ? & ? & ?). congruence.
Qed.

Lemma claiming_step w ts i t :
  one_winner (w, ts) -> ts !! i = Some (claiming t) -> same_instant t (updated_at a) = false ->
  one_winner ((thread_step h w (claiming t)).1, <[i := (thread_step h w (claiming t)).2]> ts).
Proof.
  intros Hinv Hi Ht. unfold claiming. cbn [thread_step].
  destruct (claimable_dec w) as [Hcl|Hmiss].
  - pose proof Hcl as (st & u & Hr & Hu & Hst).
    pose proof (update_hit w (claim_patch t) (id a) (updated_at a) _ st u Hr Hu Hst) as Hhit.
    destruct (h w _) as [w1 r]. destruct Hhit as [Hok Hrow]. simpl.
    destruct (error r) as [m|] eqn:He.
    + eapply one_winner_lose; [done|right; right; right; by eexists|done|].
      intros _. by exists st, u.
    + rewrite Hok by done. simpl. eapply one_winner_win; [done|by exists st, u|].
      intros (st' & u' & Hr' & Hu' & _). destruct Hrow as [Hrow|[[? ?] _]]; [|done].
      simpl in Hrow. congruence.
  - pose proof (update_miss w (claim_patch t) (id a) (updated_at a) ["pending"; "processing"])
      as Hlaw.
    destruct (h w _) as [w1 r]. simpl. destruct Hlaw as [Hok Hrow].
    { intros st u Hr [Hu Hst]. apply Hmiss. by exists st, u. }
    assert (claimable w1 -> claimable w) as Hback.
    { intros (st & u & Hr & ?). exists st, u. by rewrite <- Hrow. }
    destruct (error r) as [m|] eqn:He.
    + eapply one_winner_lose; [done|right; right; right; by eexists|done|done].
    + rewrite Hok by done. simpl.
      eapply one_winner_lose; [done|right; right; left; by eexists|done|done].
Qed.

Lemma one_winner_step w ts i p :
  one_winner (w, ts) -> ts !! i = Some p ->
  one_winner ((thread_step h w p).1, <[i := (thread_step h w p).2]> ts).
Proof.
  intros Hinv Hi. assert (worker_state p) as Hp by (by eapply (proj1 Hinv)).
  destruct Hp as [->|[(t & Ht & ->)|[(b & ->)|(e & ->)]]]; simpl.
  - pose proof (now_reads w (id a)) as Hrow. pose proof (clock_moved w) as Hclock.
    destruct (h w Now) as [w1 t]. simpl in *. eapply one_winner_lose; [done| |done|].
    + right; left. by exists (iso_string t).
    + intros (st & u & Hr & ?). exists st, u. by rewrite <- Hrow.
  - by apply claiming_step.
  - rewrite list_insert_id by done. done.
  - rewrite list_insert_id by done. done.
Qed.

End exclusive.

(** C6. Claims are exclusive. However the steps of any number of workers that read the same queue row
    interleave, and whatever else the database answers, at most one of them wins the attempt, provided
    that the workers' clocks never read the instant the row was last updated at: the swap compares and
    writes that instant ([same_instant_claims_twice] shows what happens otherwise). *)
Theorem claim_exclusive {W} (h : handler recharge_effects W) `{!AttemptTable W h} (a : AttemptRow) n w sched i j
    (clock_moved : forall w, same_instant (iso_string (h w Now).2) (updated_at a) = false) :
  let st := pool h (w, repeat (claimAttempt a) n) sched in
  st.2 !! i = Some (Ret true) -> st.2 !! j = Some (Ret true) -> i = j.
Proof.
  cbv zeta. apply (pool_invariant h (one_winner h a)).
  - split; [|split].
    + intros k p Hp. apply list_elem_of_lookup_2, list_elem_of_In, repeat_spec in Hp. by left.
    + intros k Hk. apply list_elem_of_lookup_2, list_elem_of_In, repeat_spec in Hk. done.
    + intros k k' Hk. apply list_elem_of_lookup_2, list_elem_of_In, repeat_spec in Hk. done.
  - intros w' ts k p. by apply one_winner_step.
Qed.
(** A small database and a stopped clock on which the compare-and-swap laws hold. *)
Module Demo.

Definition table := gmap string (string * string).

Definition handle : handler recharge_effects table := fun w c =>
  match c return table * recharge_ans c with
  | Now => (w, 1767225600000)
  | ClaimUpdate p i u l =>
      match w !! i with
      | Some (st, u') =>
          if bool_decide (u' = u) && bool_decide (st ∈ l)
          then (<[i := (default st (set_status p), set_updated_at p)]> w,
                DbResult (Some [i]) None)
          else (w, DbResult (Some []) None)
      | None => (w, DbResult (Some []) None)
      end
  | SelectAttempts _ _ => (w, DbResult (Some []) None)
  | SelectSettings _ => (w, DbResult (Some []) None)
  | UpdateAttempt _ _ => (w, DbResult None None)
  | CreateIntent _ key => (w, inr {| intent_id := key; intent_status := "succeeded" |})
  | RpcRecordFailure _ _ _ => (w, DbResult None None)
  end.

#[refine, global] Instance table_laws : AttemptTable table handle := {|
  attempt_row := fun w i => w !! i;
  same_instant := fun u v => bool_decide (u = v);
|}.
Proof.
  - done.
  - intros w p i u l st u' Hr Hu Hst. simpl. bool_simpl. subst. rewrite Hr.
    rewrite !bool_decide_true by done. simpl. split; [done|left]. apply lookup_insert_eq.
  - intros w p i u l Hmiss. simpl. destruct (w !! i) as [[st u']|] eqn:Hr; [|done].
    destruct (bool_decide (u' = u) && bool_decide (st ∈ l)) eqn:Hb; [|done].
    apply andb_prop in Hb as [Hu Hst]. bool_simpl. exfalso. apply (Hmiss st u'); [done|].
    by rewrite bool_decide_true.
Defined.

Definition row : AttemptRow :=
  {| id := "a1"; org_id := "o1"; amount_usd := 5; status := "pending";
     stripe_payment_intent_id := None; updated_at := "2026-01-01T00:00:00.5+00:00" |}.

Definition start : table := {[ "a1" := ("pending", updated_at row) ]}.

(** Two workers, interleaved: the second one loses. *)
Example race :
  (pool handle (start, repeat (claimAttempt row) 2) [0; 1; 1; 0]%nat).2 =
    [Ret false; Ret true].
Proof. vm_compute. reflexivity. Qed.
End Demo.

Lemma claim_exclusive_witness :
  let st := pool Demo.handle (Demo.start, repeat (claimAttempt Demo.row) 2) [0; 1; 1; 0]%nat in
  st.2 !! 1%nat = Some (Ret true) /\
  forall j, st.2 !! j = Some (Ret true) -> 1%nat = j.
Proof.
  cbv zeta. assert ((pool Demo.handle (Demo.start, repeat (claimAttempt Demo.row) 2)
    [0; 1; 1; 0]%nat).2 !! 1%nat = Some (Ret true)) as H by (by rewrite Demo.race).
  split; [exact H|]. intros j Hj.
  refine (claim_exclusive Demo.handle Demo.row 2 Demo.start [0; 1; 1; 0]%nat 1 j _ H Hj).
  intros w. vm_compute. reflexivity.
Defined.

(** ** Properties *)

(** C5. Auto-recharge never charges without a licence. Whatever the database and Stripe answer, and
    at every moment of a run, a PaymentIntent is requested only for an attempt the queue returned,
    with the exact parameters of the code (the attempt's amount in cents, its organization's own
    saved customer and card, both non-empty, off-session), under the attempt's id as idempotency
    key, and only after strictly more claims of that attempt were won than charges requested for
    it. *)
Theorem charges_licensed limit :
  spec licensed (fun _ _ => True) [] (processPendingAutoRecharges limit).
Proof. eapply spec_post; [apply process_spec|]. done. Qed.

(** The tally a run returns is exact: it equals the events of the run (claims won, charges
    requested, charges that settled), and charged, declined, retryable and skipped together count
    every row the queue read returned. The run always ends. *)
Theorem summary_exact limit :
  spec (fun _ _ => True) (fun tr o => match o with
      | Done s => exists t r rest, tr = queue_read limit t r ++ rest /\
          claimed s = count is_win tr /\
          charged s + declined s + retryable s = count is_charge tr /\
          charged s = count is_settled tr /\
          charged s + declined s + retryable s + skipped s =
            Z.of_nat (length (default [] (data r)))
      | Raised _ => True
      end) [] (processPendingAutoRecharges limit).
Proof. eapply spec_impl; [| |apply process_spec]; done. Qed.

Definition any_cmd (_ : list (event recharge_effects)) (_ : cmd recharge_effects) : Prop := True.

(** The writes among the events. *)
Definition is_write (ev : event recharge_effects) : bool :=
  match ev with Ev (UpdateAttempt _ _) _ | Ev (RpcRecordFailure _ _ _) _ => true | _ => false end.

Definition writes_of (tr : list (event recharge_effects)) : list (event recharge_effects) := List.filter is_write tr.

(** One write of attempt [a] at [t], answered [x]. *)
Definition update_event (a : AttemptRow) (st pi m : option string) (t : Z) (x : db_result unit) : event recharge_effects :=
  Ev (E := recharge_effects) (UpdateAttempt
    {| set_status := st; set_payment_intent := pi; set_error_message := m; set_updated_at := iso_string t |} (id a)) x.

Definition linked (a : AttemptRow) (pi : string) := update_event a None (Some pi) None.
Definition closed (a : AttemptRow) (m : string) := update_event a (Some "failed") None (Some m).
Definition put_back (a : AttemptRow) (m : string) := update_event a (Some "pending") None (Some m).

Definition failure_event (a : AttemptRow) (pi m : string) (x : db_result unit) : event recharge_effects :=
  Ev (E := recharge_effects) (RpcRecordFailure (org_id a) pi m) x.

Definition unrecorded (e : db_error) : Thrown := new_Error ("auto-recharge: recording failure failed: " +:+ error_message e).

(** What a charge writes and answers, by what Stripe answered and by whether the failure procedure took
    the failure: a PaymentIntent is linked before anything else; a decline that has one is recorded, which
    bumps the anti-loop counter, and one that has none closes the attempt; anything else puts the attempt
    back. *)
Inductive bookkept (a : AttemptRow) :
    Thrown + PaymentIntent -> list (event recharge_effects) -> outcome Thrown charge_outcome -> Prop :=
| kept_charged intent t x : needs_customer (intent_status intent) = false ->
    bookkept a (inr intent) [linked a (intent_id intent) t x] (Done Charged)
| kept_needs_customer intent t x y : needs_customer (intent_status intent) = true -> error y = None ->
    bookkept a (inr intent)
      [linked a (intent_id intent) t x; failure_event a (intent_id intent) "The card needs authentication." y] (Done Declined)
| kept_needs_customer_unrecorded intent t x y e t' x' : needs_customer (intent_status intent) = true -> error y = Some e ->
    bookkept a (inr intent)
      [linked a (intent_id intent) t x; failure_event a (intent_id intent) "The card needs authentication." y;
       put_back a (error_text (unrecorded e)) t' x'] (Done Retryable)
| kept_declined e card pi t x y : asStripeCardError e = Some card ->
    present (default None (thrown_payment_intent card)) = Some pi -> error y = None ->
    bookkept a (inl e) [linked a pi t x; failure_event a pi (thrown_message card) y] (Done Declined)
| kept_declined_unrecorded e card pi t x y e' : asStripeCardError e = Some card ->
    present (default None (thrown_payment_intent card)) = Some pi -> error y = Some e' ->
    bookkept a (inl e) [linked a pi t x; failure_event a pi (thrown_message card) y] (Raised (unrecorded e'))
| kept_never_reached e card t x : asStripeCardError e = Some card ->
    present (default None (thrown_payment_intent card)) = None ->
    bookkept a (inl e) [closed a (thrown_message card) t x] (Done Declined)
| kept_transient e t x : asStripeCardError e = None ->
    bookkept a (inl e) [put_back a (error_text e) t x] (Done Retryable).

(** C8. One charge, on every branch: the charge is requested exactly once, first; and what it writes, in
    order, and how it ends are exactly what Stripe's answer calls for ([bookkept]): the PaymentIntent linked
    whenever there is one, a decline of it recorded through the failure procedure, an attempt without one
    closed, a transient failure put back to pending; the only exception that leaves is a decline the
    failure procedure refused to record. *)
Theorem chargeAttempt_bookkeeping a s :
  spec any_cmd (fun tr o => exists r,
      head tr = Some (charge_event a s r) /\ forallb quiet (tail tr) = true /\ bookkept a r (writes_of tr) o)
    [] (chargeAttempt a s).
Proof.
  unfold chargeAttempt, create_intent, charge_failed, link_intent, failAttemptById, recordFailure, now_iso.
  exec; cbn [mbind prog_bind mret prog_ret spec app].
  all: try (unfold asStripeCardError, new_Error in *; simpl in *; congruence).
  all: eexists; do 2 (split; [reflexivity|]).
  all: first [by econstructor|by eapply kept_needs_customer_unrecorded|by eapply kept_declined_unrecorded].
Qed.

(** The exclusiveness of claims needs the clock to have moved: two workers that read it at the very
    instant the row carries both swap, since the first swap leaves the row as it was. *)
Theorem same_instant_claims_twice :
  let a := {| id := "a1"; org_id := "o1"; amount_usd := 5; status := "pending"; stripe_payment_intent_id := None;
              updated_at := "2026-01-01T00:00:00.000Z" |} in
  (pool Demo.handle ({[ "a1" := ("pending", updated_at a) ]}, repeat (claimAttempt a) 2) [0; 0; 1; 1]%nat).2 =
    [Ret true; Ret true].
Proof. vm_compute. reflexivity. Qed.
