(* ===== verification/StripeWebhook.v ===== *)
(** * The Stripe webhook (app/api/stripe/webhook/route.ts, lib/auth/spend-unlock.ts)

    Turns verified Stripe events into credit: a paid checkout session becomes one [credit_ledger]
    row, an off-session recharge one [record_auto_recharge_success] call. Signature verification,
    the database, Stripe and the mailer are commands with unconstrained answers. [console.error]
    lines are not modelled. *)

From S2P Require Import Prelude JsMap JsString JsDate JsNumber Json Effects Services AutoRecharge.

#[local] Open Scope Z_scope.

Definition UNIQUE_VIOLATION : string := "23505".
Definition TOPUP_PURPOSE : string := "platform-credit-topup".

(** ** Stripe's objects, as far as the handlers read them *)

(** An expandable reference: an id, the expanded object (with its id), or null. *)
Inductive expandable := RefId (i : string) | RefObject (i : option string) | RefNull.

Definition metadata := option (list (string * string)).

(** [object.metadata?.k]. *)
Definition meta (m : metadata) (k : string) : option string := m ≫= fun l => mget l k.

Record Session := {
  session_id : string;
  payment_status : string;
  session_metadata : metadata;
  session_currency : option string;
  amount_subtotal : option Z;
  amount_total : option Z;
  client_reference_id : option string;
  session_payment_intent : expandable;
  session_customer : expandable;
  customer_email : option string;
}.

Record Intent := {
  pi_id : string;
  pi_metadata : metadata;
  pi_currency : string;
  pi_amount_received : option Z;
  pi_amount : option Z;
  last_payment_error_message : option string;
}.

Inductive event_object :=
| CheckoutCompleted (s : Session)
| IntentSucceeded (i : Intent)
| IntentPaymentFailed (i : Intent)
| OtherEvent.

Record StripeEvent := { livemode : bool; event_data : event_object }.

(** What the handlers read of the environment and of the request. *)
Record env := {
  STRIPE_SECRET_KEY : option string;
  STRIPE_WEBHOOK_SECRET : option string;
  EXPLABS_WEBAPP_URL : option string;
}.

(** ** Commands *)
Record LedgerRow := {
  ledger_org_id : string;
  entry_type : string;
  ledger_amount_usd : number;
  reason : string;
  source : string;
  source_ref : string;
  created_by : option string;
}.

Record SettingsUpsert := {
  up_org_id : string;
  up_enabled : bool;
  up_threshold_usd : option number;
  up_amount_usd : option number;
  up_customer_id : string;
  up_payment_method_id : string;
  up_notify_email : option string;
  up_consecutive_failures : Z;
  up_last_failure_at : option string;
  up_last_failure_message : option string;
  up_updated_at : string;
}.

Record OrgBalanceRow := {
  org_name : option string;
  credit_granted_usd : json;
  billable_spend_usd : json;
}.

Record RechargeEmail := {
  email_to : string;
  email_org : string;
  email_amount : number;
  email_balance : number;
  email_credits_url : string;
}.

Inductive hook_cmd :=
| ReadBody
| ConstructEvent (payload signature secret : string)
| OpenAdmin
| Clock
| SelectOrgId (org : string)
| InsertLedger (row : LedgerRow)
| RetrieveIntent (pi : string)
| UpsertSettings (row : SettingsUpsert)
| SelectSpendUnlock
| RpcUnlockOrg (org : string)
| RpcUnlockFounder (user : string)
| RpcRecordSuccess (org pi : string) (amount : number) (by_ : string)
| RpcHookFailure (org pi message : string)
| SelectNotifyEmail (org : string)
| SelectOrgBalance (org : string)
| SendRechargeEmail (email : RechargeEmail).

(** The Supabase client answers errors as values; where the code still guards a call with
    [try]/[catch] the answer may also be a thrown value. *)
Definition hook_ans (c : hook_cmd) : Type :=
  match c with
  | ReadBody => Thrown + string
  | ConstructEvent _ _ _ => Thrown + StripeEvent
  | OpenAdmin => Thrown + unit
  | Clock => Z
  | SelectOrgId _ => db_result string
  | InsertLedger _ => db_result unit
  | RetrieveIntent _ => Thrown + expandable
  | UpsertSettings _ => Thrown + db_result unit
  | SelectSpendUnlock => Thrown + db_result string
  | RpcUnlockOrg _ | RpcUnlockFounder _ => Thrown + db_result unit
  | RpcRecordSuccess _ _ _ _ => db_result string
  | RpcHookFailure _ _ _ => db_result unit
  | SelectNotifyEmail _ => db_result (option string)
  | SelectOrgBalance _ => db_result OrgBalanceRow
  | SendRechargeEmail _ => bool
  end.

Definition hook_effects : effects := Effects hook_cmd hook_ans.

(** What a route can throw: the billing-not-configured error, or anything else. *)
Inductive RouteError := StripeNotConfigured | RouteThrown (e : Thrown).

Abbreviation H := (prog hook_effects RouteError).
Abbreviation ask c := (@call hook_effects RouteError c).

Definition or_throw {A} (r : Thrown + A) : H A :=
  match r with inl e => Throw (RouteThrown e) | inr x => mret x end.

(** ** lib/auth/spend-unlock.ts *)
Inductive SpendUnlockRequirement := ByEmail | ByCard.

Definition spendUnlockRequirement : H SpendUnlockRequirement :=
  try_catch
    (r ← ask SelectSpendUnlock;
     r ← or_throw r;
     match error r, data r with
     | Some _, _ | None, None => mret ByEmail
     | None, Some value =>
         if bool_decide (value = "email") then mret ByEmail
         else if bool_decide (value = "card") then mret ByCard
         else mret ByEmail
     end)
    (fun _ => mret ByEmail).

Definition unlockSpendForUser (userId : string) : H unit :=
  try_catch (r ← ask (RpcUnlockFounder userId); _ ← or_throw r; mret tt) (fun _ => mret tt).

Definition unlockSpendForOrg (orgId : string) : H unit :=
  try_catch (r ← ask (RpcUnlockOrg orgId); _ ← or_throw r; mret tt) (fun _ => mret tt).

Definition unlockSpendOnInboxProof (userId : string) : H unit :=
  r ← spendUnlockRequirement;
  match r with ByEmail => unlockSpendForUser userId | ByCard => mret tt end.

Definition unlockSpendOnCardSaved (orgId : string) : H unit :=
  r ← spendUnlockRequirement;
  match r with ByCard => unlockSpendForOrg orgId | ByEmail => mret tt end.

(** ** The responses *)
Definition acknowledged (handled : bool) : response :=
  json_response (JObj [("received", JBool true); ("handled", JBool handled)]).
Definition replayed : response :=
  json_response (JObj [("received", JBool true); ("handled", JBool true); ("replay", JBool true)]).
Definition ledger_failed : response := json_error "Ledger write failed." 500.

(** ** persistAutoRecharge *)

(** [Number(metadata?.k)], kept when finite. *)
Definition finite_meta (m : metadata) (k : string) : option number :=
  meta m k ≫= fun s => let x := to_number s in if is_finite x then Some x else None.

Definition ref_string (r : expandable) : option string :=
  match r with RefId i => Some i | _ => None end.

Definition ref_id (r : expandable) : option string :=
  match r with RefId i => Some i | RefObject i => i | RefNull => None end.

(** [stripeClient()]: throws when the secret key is missing. *)
Definition stripeClient (e : env) : H string :=
  match present (STRIPE_SECRET_KEY e) with Some k => mret k | None => Throw StripeNotConfigured end.

Definition stripeWebhookSecret (e : env) : H string :=
  match present (STRIPE_WEBHOOK_SECRET e) with
  | Some k => mret k
  | None => Throw StripeNotConfigured
  end.

Definition persistAutoRecharge (e : env) (session : Session) (orgId : string) : H unit :=
  try_catch
    (match present (ref_string (session_payment_intent session)),
           present (ref_string (session_customer session)) with
     | Some paymentIntentId, Some customerId =>
         _ ← stripeClient e;
         r ← ask (RetrieveIntent paymentIntentId);
         payment_method ← or_throw r;
         match present (ref_id payment_method) with
         | None => mret tt
         | Some paymentMethodId =>
             t ← ask Clock;
             r ← ask (UpsertSettings {|
               up_org_id := orgId; up_enabled := true;
               up_threshold_usd :=
                 finite_meta (session_metadata session) "autorecharge_threshold_usd";
               up_amount_usd := finite_meta (session_metadata session) "autorecharge_amount_usd";
               up_customer_id := customerId; up_payment_method_id := paymentMethodId;
               up_notify_email := customer_email session;
               up_consecutive_failures := 0; up_last_failure_at := None;
               up_last_failure_message := None; up_updated_at := iso_string t |});
             upsert ← or_throw r;
             match error upsert with
             | Some _ => mret tt
             | None => unlockSpendOnCardSaved orgId
             end
         end
     | _, _ => mret tt
     end)
    (fun _ => mret tt).

(** ** handleCheckoutCompleted *)

(** [a ?? b]. *)
Definition coalesce {A} (a b : option A) : option A :=
  match a with Some x => Some x | None => b end.

Definition usd_of_cents (cents : Z) : number := (number_of_Z cents / 100)%float.

Definition topup_row (session : Session) (orgId : string) (amountCents : Z) : LedgerRow :=
  {| ledger_org_id := orgId; entry_type := "topup"; ledger_amount_usd := usd_of_cents amountCents;
     reason := "Credit top-up"; source := "stripe"; source_ref := session_id session;
     created_by := meta (session_metadata session) "requested_by" |}.

(** [typeof amount_subtotal === "number" && amount_subtotal !== amount_total]. *)
Definition subtotal_differs (session : Session) : bool :=
  match amount_subtotal session with
  | Some sub => negb (bool_decide (amount_total session = Some sub))
  | None => false
  end.

Definition session_org (session : Session) : option string :=
  coalesce (client_reference_id session) (meta (session_metadata session) "org_id").

Definition our_topup (session : Session) : bool :=
  bool_decide (meta (session_metadata session) "purpose" = Some TOPUP_PURPOSE) &&
  bool_decide (session_currency session = Some "usd").

Definition positive_amount (a : option Z) : option Z :=
  a ≫= fun c => if decide (c <= 0) then None else Some c.

Definition handleCheckoutCompleted (e : env) (session : Session) : H response :=
  if negb (bool_decide (payment_status session = "paid")) then mret (acknowledged false)
  else if negb (our_topup session) then mret (acknowledged false)
  else if subtotal_differs session then mret (json_error "Unhandled pricing configuration." 500)
  else
    match present (session_org session), positive_amount (amount_total session) with
    | Some orgId, Some amountCents =>
        org ← ask (SelectOrgId orgId);
        match error org, data org with
        | Some _, _ => mret ledger_failed
        | None, None => mret (acknowledged false)
        | None, Some _ =>
            insert ← ask (InsertLedger (topup_row session orgId amountCents));
            let failed := match error insert with
                          | Some err => negb (bool_decide (error_code err = UNIQUE_VIOLATION))
                          | None => false
                          end in
            if failed then mret ledger_failed
            else
              let replay := match error insert with Some _ => true | None => false end in
              _ ← (if bool_decide (meta (session_metadata session) "autorecharge" = Some "on")
                   then persistAutoRecharge e session orgId
                   else mret tt);
              mret (if replay then replayed else acknowledged true)
        end
    | _, _ => mret (acknowledged false)
    end.

(** ** The auto-recharge events *)
Definition creditsPath : string := "/credits".
Definition DEFAULT_ORIGIN : string := "https://platform.experientiallabs.ai".

Definition notifyRecharge (e : env) (orgId : string) (amountUsd : number) : H unit :=
  settings ← ask (SelectNotifyEmail orgId);
  match present (default None (data settings)) with
  | None => mret tt
  | Some email =>
      org ← ask (SelectOrgBalance orgId);
      match data org with
      | None => mret tt
      | Some row =>
          let balance :=
            (json_number (credit_granted_usd row) - json_number (billable_spend_usd row))%float in
          let origin := default DEFAULT_ORIGIN (EXPLABS_WEBAPP_URL e) in
          _ ← ask (SendRechargeEmail {|
            email_to := email; email_org := default "your organization" (org_name row);
            email_amount := amountUsd; email_balance := balance;
            email_credits_url := origin +:+ creditsPath |});
          mret tt
      end
  end.

(** [intent.amount_received || intent.amount]. *)
Definition received_or_asked (i : Intent) : option Z :=
  match pi_amount_received i with
  | Some c => if decide (c = 0) then pi_amount i else Some c
  | None => pi_amount i
  end.

Definition our_recharge (i : Intent) : bool :=
  bool_decide (meta (pi_metadata i) "purpose" = Some AUTORECHARGE_PURPOSE).

Definition handleAutoRechargeSucceeded (e : env) (i : Intent) : H response :=
  if negb (our_recharge i && bool_decide (pi_currency i = "usd")) then mret (acknowledged false)
  else
    match present (meta (pi_metadata i) "org_id"), positive_amount (received_or_asked i) with
    | Some orgId, Some amountCents =>
        result ← ask (RpcRecordSuccess orgId (pi_id i) (usd_of_cents amountCents) "auto-recharge");
        match error result with
        | Some _ => mret ledger_failed
        | None =>
            if bool_decide (data result = Some "replay") then mret replayed
            else
              _ ← notifyRecharge e orgId (usd_of_cents amountCents);
              mret (acknowledged true)
        end
    | _, _ => mret (acknowledged false)
    end.

Definition handleAutoRechargeFailed (i : Intent) : H response :=
  if negb (our_recharge i) then mret (acknowledged false)
  else
    match present (meta (pi_metadata i) "org_id") with
    | None => mret (acknowledged false)
    | Some orgId =>
        result ← ask (RpcHookFailure orgId (pi_id i)
          (default "The card was declined." (last_payment_error_message i)));
        match error result with
        | Some _ => mret ledger_failed
        | None => mret (acknowledged true)
        end
    end.

(** ** POST *)

(** [(process.env.STRIPE_SECRET_KEY ?? "").startsWith("sk_live_")]. *)
Definition live_deployment (e : env) : bool :=
  starts_with "sk_live_" (default "" (STRIPE_SECRET_KEY e)).

(** The first [try] block: the verified event, or the response that refuses the request. *)
Definition verified_event (e : env) (signature : option string) : H (response + StripeEvent) :=
  try_catch
    (match present signature with
     | None => mret (inl (json_error "Missing stripe-signature header." 400))
     | Some sig =>
         body ← ask ReadBody;
         payload ← or_throw body;
         _ ← stripeClient e;
         secret ← stripeWebhookSecret e;
         ev ← ask (ConstructEvent payload sig secret);
         ev ← or_throw ev;
         mret (inr ev)
     end)
    (fun err => mret (inl
       match err with
       | StripeNotConfigured => json_error "Billing is not configured on this deployment." 503
       | RouteThrown _ => json_error "Invalid webhook signature." 400
       end)).

Definition dispatch (e : env) (o : event_object) : H response :=
  match o with
  | CheckoutCompleted s => handleCheckoutCompleted e s
  | IntentSucceeded i => handleAutoRechargeSucceeded e i
  | IntentPaymentFailed i => handleAutoRechargeFailed i
  | OtherEvent => mret (acknowledged false)
  end.

Definition POST (e : env) (signature : option string) : H response :=
  ev ← verified_event e signature;
  match ev with
  | inl r => mret r
  | inr ev =>
      if negb (Bool.eqb (livemode ev) (live_deployment e)) then
        mret (json_error "Event livemode does not match this deployment's Stripe mode." 400)
      else
        admin ← ask OpenAdmin;
        _ ← or_throw admin;
        dispatch e (event_data ev)
  end.

(** ** What the webhook may do *)

(** A verified event of this deployment's mode was received. *)
Definition received (e : env) (tr : list (event hook_effects)) (o : event_object) : Prop :=
  exists p s k, Ev (E := hook_effects) (ConstructEvent p s k)
    (inr {| livemode := live_deployment e; event_data := o |}) ∈ tr.

Definition is_credit (ev : event hook_effects) : bool :=
  match ev with
  | Ev (InsertLedger _) _ | Ev (RpcRecordSuccess _ _ _ _) _ => true
  | _ => false
  end.

Fixpoint credits (tr : list (event hook_effects)) : nat :=
  match tr with
  | [] => 0
  | ev :: tr' => (if is_credit ev then 1 else 0) + credits tr'
  end.

(** When a command that moves money or opens the spend gate is allowed. *)
Definition allowed (e : env) (tr : list (event hook_effects)) (c : cmd hook_effects) : Prop :=
  match c with
  | InsertLedger row =>
      exists s org cents r, received e tr (CheckoutCompleted s) /\
        payment_status s = "paid" /\ our_topup s = true /\
        amount_total s = Some cents /\ 0 < cents /\
        (forall sub, amount_subtotal s = Some sub -> sub = cents) /\
        session_org s = Some org /\ org <> EmptyString /\
        Ev (E := hook_effects) (SelectOrgId org) r ∈ tr /\ error r = None /\ is_Some (data r) /\
        row = topup_row s org cents /\ credits tr = 0%nat
  | RpcRecordSuccess org pi amount _ =>
      exists i cents, received e tr (IntentSucceeded i) /\ our_recharge i = true /\
        pi_currency i = "usd" /\ pi = pi_id i /\
        meta (pi_metadata i) "org_id" = Some org /\ org <> EmptyString /\
        received_or_asked i = Some cents /\ 0 < cents /\ amount = usd_of_cents cents /\
        credits tr = 0%nat
  | RpcHookFailure org pi _ =>
      exists i, received e tr (IntentPaymentFailed i) /\ our_recharge i = true /\
        pi = pi_id i /\ meta (pi_metadata i) "org_id" = Some org /\ org <> EmptyString
  | UpsertSettings up =>
      exists s ins r, received e tr (CheckoutCompleted s) /\ payment_status s = "paid" /\
        meta (session_metadata s) "autorecharge" = Some "on" /\
        Ev (E := hook_effects) (InsertLedger ins) r ∈ tr /\ source_ref ins = session_id s /\
        ledger_org_id ins = up_org_id up /\
        up_customer_id up <> EmptyString /\ up_payment_method_id up <> EmptyString
  | RpcUnlockOrg org =>
      exists r up u, Ev (E := hook_effects) SelectSpendUnlock (inr r) ∈ tr /\
        error r = None /\ data r = Some "card" /\
        Ev (E := hook_effects) (UpsertSettings up) (inr u) ∈ tr /\ error u = None /\
        up_org_id up = org
  | RpcUnlockFounder _ => False
  | _ => True
  end.

Lemma received_app e tr tr' o : received e tr o -> received e (tr ++ tr') o.
Proof. intros (p & s & k & H). exists p, s, k. set_solver. Qed.

Lemma credits_app tr tr' : credits (tr ++ tr') = (credits tr + credits tr')%nat.
Proof. induction tr as [|ev tr IH]; simpl; lia. Qed.

#[local] Hint Resolve received_app : core.

Lemma positive_amount_Some a c : positive_amount a = Some c <-> a = Some c /\ 0 < c.
Proof.
  unfold positive_amount. destruct a as [x|]; simpl; [|naive_solver].
  case_decide; split; intros; destruct_and?; simplify_eq; try lia.
  all: by auto with lia.
Qed.

Lemma negb_differs s sub :
  subtotal_differs s = false -> amount_subtotal s = Some sub -> amount_total s = Some sub.
Proof. unfold subtotal_differs. intros H Hs. rewrite Hs in H. by bool_simpl. Qed.

(** How a checkout delivery ended: with one ledger insert whose answer the response reports, or
    with none. *)
Definition checkout_outcome (s : Session) (o : outcome RouteError response)
    (tr : list (event hook_effects)) : Prop :=
  match o with
  | Raised _ => False
  | Done r =>
      (exists row ins, Ev (E := hook_effects) (InsertLedger row) ins ∈ tr /\
        source_ref row = session_id s /\ source row = "stripe" /\ credits tr = 1%nat /\
        match error ins with
        | None => r = acknowledged true
        | Some err =>
            r = if bool_decide (error_code err = UNIQUE_VIOLATION) then replayed else ledger_failed
        end) \/
      (credits tr = 0%nat /\ r <> acknowledged true /\ r <> replayed)
  end.

Ltac reduce_credits := rewrite ?credits_app; cbn [credits is_credit app]; lia.

(** What the code answers after its ledger insert. *)
Definition insert_response (ins : db_result unit) : response :=
  match error ins with
  | None => acknowledged true
  | Some err => if bool_decide (error_code err = UNIQUE_VIOLATION) then replayed else ledger_failed
  end.

Lemma insert_outcome s row ins tr :
  Ev (E := hook_effects) (InsertLedger row) ins ∈ tr -> source_ref row = session_id s ->
  source row = "stripe" -> credits tr = 1%nat ->
  checkout_outcome s (Done (insert_response ins)) tr.
Proof.
  intros Hin Href Hsrc Hc. left. exists row, ins. do 4 (split; [done|]).
  unfold insert_response. by destruct (error ins).
Qed.

(** Clean up the tests a symbolic execution went through. *)
Ltac read_tests :=
  rewrite ?negb_true_iff, ?negb_false_iff in *; bool_simpl;
  repeat match goal with
  | H : present _ = Some _ |- _ => apply present_Some in H as [? ?]
  | H : positive_amount _ = Some _ |- _ => apply positive_amount_Some in H as [? ?]
  end.

(** Saving the card never throws, never credits, and issues nothing it has no licence for. *)
Lemma persist_allowed e s org tr ins r :
  received e tr (CheckoutCompleted s) -> payment_status s = "paid" ->
  meta (session_metadata s) "autorecharge" = Some "on" ->
  Ev (E := hook_effects) (InsertLedger ins) r ∈ tr ->
  source_ref ins = session_id s -> ledger_org_id ins = org ->
  spec (allowed e) (fun tr' o => o = Done tt /\ exists q, tr' = tr ++ q /\ credits q = 0%nat)
    tr (persistAutoRecharge e s org).
Proof.
  intros Hr Hp Hon Hin Href Horg.
  unfold persistAutoRecharge, unlockSpendOnCardSaved, spendUnlockRequirement, unlockSpendForOrg,
    stripeClient, or_throw.
  exec; read_tests; cbn [up_org_id].
  all: lazymatch goal with
    | |- allowed _ _ (UpsertSettings _) =>
        exists s, ins, r; split; [by repeat apply received_app|]; do 2 (split; [done|]);
        split; [in_trace|done]
    | |- allowed _ _ (RpcUnlockOrg _) =>
        eexists _, _, _; split; [in_trace|]; split; [eassumption|]; split; [congruence|];
        split; [in_trace|by split]
    | |- _ => split; [done|]; rewrite <- ?app_assoc;
        first [exists []; by rewrite app_nil_r|eexists; split; [reflexivity|done]]
    end.
Qed.

Lemma checkout_allowed e s tr :
  received e tr (CheckoutCompleted s) -> credits tr = 0%nat ->
  spec (allowed e) (fun tr' o => checkout_outcome s o tr') tr (handleCheckoutCompleted e s).
Proof.
  intros Hr Hc. unfold handleCheckoutCompleted.
  destruct (negb (bool_decide _)) eqn:?; [by right; split|].
  destruct (negb (our_topup s)) eqn:?; [by right; split|].
  destruct (subtotal_differs s) eqn:Hsub; [by right; split|].
  destruct (present (session_org s)) as [org|] eqn:?; [|by right; split].
  destruct (positive_amount (amount_total s)) as [cents|] eqn:?; [|by right; split].
  read_tests. exec_cbn. split; [done|]. intros x.
  assert (credits (tr ++ [Ev (E := hook_effects) (SelectOrgId org) x]) = 0%nat) as Hc1
    by reduce_credits.
  destruct (error x) eqn:?; [by right; split|].
  destruct (data x) eqn:?; [|by right; split].
  exec_cbn. split.
  { exists s, org, cents, x. do 5 (split; [by auto|]).
    split; [intros sub Hs; eapply negb_differs in Hs; [congruence|done]|].
    do 2 (split; [done|]). split; [in_trace|]. repeat (split; [by eauto|]). done. }
  intros ins. set (row := topup_row s org cents) in *.
  set (tr1 := (tr ++ _) ++ [_]).
  assert (Ev (E := hook_effects) (InsertLedger row) ins ∈ tr1) as Hin by (unfold tr1; in_trace).
  assert (credits tr1 = 1%nat) as Hc2 by (unfold tr1; reduce_credits).
  destruct (match error ins with Some err => _ | None => false end) eqn:Hfail.
  { replace ledger_failed with (insert_response ins); [by eapply insert_outcome|].
    unfold insert_response. destruct (error ins); [|done]. by bool_simpl; case_bool_decide. }
  replace (if match error ins with Some _ => true | None => false end then replayed
    else acknowledged true) with (insert_response ins).
  2: { unfold insert_response. destruct (error ins); [|done].
       by bool_simpl; case_bool_decide. }
  destruct (bool_decide (_ = Some "on")) eqn:Hon.
  - apply spec_bind. eapply spec_post.
    + eapply persist_allowed with (ins := row) (r := ins); [by do 2 apply received_app|..];
        by read_tests.
    + intros tr' o [-> (q & -> & Hq)]. simpl. eapply insert_outcome; [set_solver|done..|].
      rewrite credits_app. lia.
  - by eapply insert_outcome.
Qed.

Definition is_insert (ev : event hook_effects) : bool :=
  match ev with Ev (InsertLedger _) _ => true | _ => false end.

Lemma insert_app tr tr' : existsb is_insert (tr ++ tr') = existsb is_insert tr || existsb is_insert tr'.
Proof. apply existsb_app. Qed.

Lemma insert_credits tr : credits tr = 0%nat -> existsb is_insert tr = false.
Proof.
  induction tr as [|[c x] tr IH]; simpl; [done|]. destruct c; simpl; intros H; try lia; auto.
Qed.

(** How a delivery ended, by the event it carried. *)
Definition dispatch_outcome (obj : event_object) (o : outcome RouteError response)
    (tr : list (event hook_effects)) : Prop :=
  match obj with
  | CheckoutCompleted s => checkout_outcome s o tr
  | IntentSucceeded _ => (credits tr <= 1)%nat /\ existsb is_insert tr = false /\ exists r, o = Done r
  | IntentPaymentFailed _ | OtherEvent => credits tr = 0%nat /\ exists r, o = Done r
  end.

Lemma notify_allowed e org amount tr :
  spec (allowed e) (fun tr' o => o = Done tt /\ exists q, tr' = tr ++ q /\ credits q = 0%nat)
    tr (notifyRecharge e org amount).
Proof.
  unfold notifyRecharge. exec.
  all: split; [done|]; rewrite <- ?app_assoc; eexists; split; [reflexivity|done].
Qed.

Lemma succeeded_allowed e i tr :
  received e tr (IntentSucceeded i) -> credits tr = 0%nat ->
  spec (allowed e) (fun tr' o => dispatch_outcome (IntentSucceeded i) o tr') tr
    (handleAutoRechargeSucceeded e i).
Proof.
  intros Hr Hc. pose proof (insert_credits tr Hc) as Hi. unfold handleAutoRechargeSucceeded.
  destruct (negb _) eqn:?; [by simpl; eauto with lia|].
  destruct (present _) as [org|] eqn:?; [|by simpl; eauto with lia].
  destruct (positive_amount _) as [cents|] eqn:?; [|by simpl; eauto with lia].
  read_tests. exec_cbn. split; [by exists i, cents; repeat split|]. intros x.
  assert (dispatch_outcome (IntentSucceeded i) (Done ledger_failed) (tr ++ [Ev (E := hook_effects)
    (RpcRecordSuccess org (pi_id i) (usd_of_cents cents) "auto-recharge") x])) as (Hle & Hno & _).
  { split; [reduce_credits|]. split; [by rewrite insert_app, Hi|eauto]. }
  destruct (error x); [by simpl; eauto|].
  case_bool_decide; [by simpl; eauto|]. apply spec_bind.
  eapply spec_post; [apply notify_allowed|]. intros tr' o [-> (q & -> & Hq)]. simpl.
  rewrite credits_app, insert_app, (insert_credits q), orb_false_r by done.
  split; [lia|eauto].
Qed.

Lemma failed_allowed e i tr :
  received e tr (IntentPaymentFailed i) -> credits tr = 0%nat ->
  spec (allowed e) (fun tr' o => dispatch_outcome (IntentPaymentFailed i) o tr') tr
    (handleAutoRechargeFailed i).
Proof.
  intros Hr Hc. unfold handleAutoRechargeFailed. exec; read_tests.
  all: lazymatch goal with
    | |- allowed _ _ _ => exists i; by repeat split
    | |- _ => split; [by try reduce_credits|eauto]
    end.
Qed.

(** How a request ended: refused before any event was dispatched, or dispatched. *)
Definition post_outcome (e : env) (o : outcome RouteError response)
    (tr : list (event hook_effects)) : Prop :=
  (exists obj, received e tr obj /\ dispatch_outcome obj o tr) \/
  (credits tr = 0%nat /\ forall r, o = Done r -> resp_status r <> 200).

Lemma dispatch_allowed e obj tr :
  received e tr obj -> credits tr = 0%nat ->
  spec (allowed e) (fun tr' o => dispatch_outcome obj o tr') tr (dispatch e obj).
Proof.
  intros Hr Hc. destruct obj; simpl dispatch.
  - by apply checkout_allowed.
  - by apply succeeded_allowed.
  - by apply failed_allowed.
  - by simpl; eauto.
Qed.

Lemma post_allowed e sig :
  spec (allowed e) (fun tr o => post_outcome e o tr) [] (POST e sig).
Proof.
  unfold POST, verified_event, stripeClient, stripeWebhookSecret, or_throw. exec.
  all: lazymatch goal with
    | |- post_outcome _ _ _ => right; split; [done|]; intros; by simplify_eq
    | |- spec _ _ ?tr (dispatch _ (event_data ?ev)) =>
        destruct ev as [live obj]; simpl in *; bool_simpl
    end.
  assert (live = live_deployment e) as -> by (by apply Bool.eqb_prop).
  match goal with |- spec _ _ ?tr0 _ => assert (received e tr0 obj) as Hrec end.
  { eexists _, _, _. cbn. right; left. }
  eapply spec_post; [by apply spec_prefix, dispatch_allowed|].
  intros tr o [[q ->] Ho]. left. exists obj. split; [by apply received_app|done].
Qed.

(** ** Redelivery

    What crediting relies on of the database: [credit_ledger] is unique on
    [(source, source_ref)], an insert that collides answers an error and changes nothing, a refused
    insert that does not collide answers another code than the unique violation (whether or not
    the row was written), and the other commands of a checkout delivery leave the ledger alone. *)
Definition same_ref (a b : LedgerRow) : bool :=
  bool_decide (source a = source b) && bool_decide (source_ref a = source_ref b).

Class Ledger (W : Type) (h : handler hook_effects W) := {
  ledger : W -> list LedgerRow;
  ledger_insert : forall w row,
    let '(w', r) := h w (InsertLedger row) in
    if existsb (same_ref row) (ledger w) then ledger w' = ledger w /\ is_Some (error r)
    else match error r with
         | None => ledger w' = ledger w ++ [row]
         | Some err => error_code err <> UNIQUE_VIOLATION /\
             (ledger w' = ledger w \/ ledger w' = ledger w ++ [row])
         end;
  ledger_other : forall w c,
    match c with
    | InsertLedger _ | RpcRecordSuccess _ _ _ _ => True
    | _ => ledger (h w c).1 = ledger w
    end;
}.

Section redelivery.
Context {W : Type} (h : handler hook_effects W) `{!Ledger W h}.
Variables (e : env) (s : Session).
(** Every verified event these requests carry is the completion of session [s]. *)
Hypothesis same_event : forall w p sig k ev,
  (h w (ConstructEvent p sig k)).2 = inr ev -> event_data ev = CheckoutCompleted s.

(** The ledger rows of the session. *)
Definition session_row (row : LedgerRow) : bool :=
  bool_decide (source row = "stripe") && bool_decide (source_ref row = session_id s).

Definition session_rows (w : W) : nat :=
  length (List.filter session_row (ledger w)).

(** Deliver the requests one after the other. *)
Fixpoint deliver (sigs : list (option string)) (w : W) :
    list (outcome RouteError response) * W :=
  match sigs with
  | [] => ([], w)
  | sig :: sigs' =>
      let '(o, _, w1) := run h (POST e sig) w in
      let '(os, w2) := deliver sigs' w1 in
      (o :: os, w2)
  end.

Lemma follows_no_credit w tr w' : follows h w tr w' -> credits tr = 0%nat -> ledger w' = ledger w.
Proof.
  revert w. induction tr as [|[c x] tr IH]; intros w; simpl; [by intros ->|].
  intros [Hx Hf] Hc. pose proof (ledger_other w c) as Hw.
  rewrite (IH _ Hf) by (destruct c; simpl in *; lia).
  destruct c; simpl in *; done || lia.
Qed.

(** One insert of a session row. *)
Lemma insert_rows w row :
  session_row row = true -> (session_rows w <= 1)%nat ->
  let '(w', ins) := h w (InsertLedger row) in
  (session_rows w <= session_rows w' <= 1)%nat /\
  (insert_response ins <> ledger_failed -> session_rows w' = 1%nat).
Proof.
  intros Hrow Hw. pose proof (ledger_insert w row) as Hlaw.
  assert (existsb (same_ref row) (ledger w) = negb (session_rows w =? 0)%nat) as Hex.
  { unfold session_rows. clear -Hrow. induction (ledger w) as [|r l IH]; simpl; [done|].
    rewrite IH. unfold same_ref, session_row in *. bool_simpl. rewrite H, H0.
    rewrite !(bool_decide_ext (_ = source r) (source r = _)), !(bool_decide_ext (_ = source_ref r) (source_ref r = _)) by done.
    destruct (_ && _); simpl; done. }
  destruct (h w (InsertLedger row)) as [w' ins].
  assert (ledger w' = ledger w ++ [row] -> session_rows w' = S (session_rows w)) as Happ.
  { unfold session_rows. intros ->. rewrite List.filter_app, length_app. simpl. rewrite Hrow.
    simpl. lia. }
  assert (ledger w' = ledger w -> session_rows w' = session_rows w) as Hsame
    by (by unfold session_rows; intros ->).
  rewrite Hex in Hlaw. unfold insert_response.
  destruct (session_rows w) as [|n] eqn:Hn; simpl in Hlaw.
  - destruct (error ins) as [err|]; [|rewrite Happ by done; split; [lia|done]].
    rewrite bool_decide_false by tauto. split; [|done].
    destruct Hlaw as [_ [Hl|Hl]]; [rewrite Hsame by done|rewrite Happ by done]; lia.
  - destruct Hlaw as [Hl _]. rewrite Hsame by done. split; [lia|]. intros _. lia.
Qed.

Lemma credits_insert tr row ins :
  Ev (E := hook_effects) (InsertLedger row) ins ∈ tr -> credits tr = 1%nat ->
  exists tr1 tr2, tr = tr1 ++ Ev (E := hook_effects) (InsertLedger row) ins :: tr2 /\
    credits tr1 = 0%nat /\ credits tr2 = 0%nat.
Proof.
  intros Hin Hc. apply list_elem_of_split in Hin as (tr1 & tr2 & ->). exists tr1, tr2.
  rewrite credits_app in Hc. simpl in Hc. repeat split; lia.
Qed.

Definition handled (o : outcome RouteError response) : Prop :=
  o = Done (acknowledged true) \/ o = Done replayed.

Lemma deliver_one sig w :
  (session_rows w <= 1)%nat ->
  let '(o, _, w1) := run h (POST e sig) w in
  (session_rows w <= session_rows w1 <= 1)%nat /\ (handled o -> session_rows w1 = 1%nat).
Proof.
  intros Hw. pose proof (spec_run h _ _ _ _ w (post_allowed e sig)) as Hpost.
  pose proof (run_follows h (POST e sig) w) as Hf.
  destruct (run h (POST e sig) w) as [[o tr] w1]. simpl in Hpost, Hf.
  assert (credits tr = 0%nat -> session_rows w1 = session_rows w) as Hsame.
  { intros Hc. unfold session_rows. by rewrite (follows_no_credit w tr w1). }
  destruct Hpost as [(obj & (p & sg & k & Hev) & Ho)|[Hc Hbad]].
  2: { rewrite Hsame by done. split; [lia|]. intros [->| ->]; by destruct (Hbad _ eq_refl). }
  apply (follows_answer _ _ _ _ _ _ Hf) in Hev as [w2 Hev].
  apply same_event in Hev as Hobj. simpl in Hobj. subst obj. simpl in Ho.
  destruct o as [r|]; [|done].
  destruct Ho as [(row & ins & Hin & Href & Hsrc & Hc & Hr)|(Hc & Hne1 & Hne2)].
  2: { rewrite Hsame by done. split; [lia|]. intros [[=]|[=]]; congruence. }
  apply credits_insert in Hin as (tr1 & tr2 & -> & Hc1 & Hc2); [|done].
  apply follows_app in Hf as (w3 & Hf1 & Hf2). simpl in Hf2. destruct Hf2 as [Hins Hf2].
  assert (session_rows w3 = session_rows w) as Hw3.
  { unfold session_rows. by rewrite (follows_no_credit w tr1 w3). }
  pose proof (insert_rows w3 row) as Hlaw.
  destruct (h w3 (InsertLedger row)) as [w4 x]. simpl in Hins, Hf2. subst x.
  assert (session_rows w1 = session_rows w4) as Hw1.
  { unfold session_rows. by rewrite (follows_no_credit w4 tr2 w1). }
  rewrite Hw1, <- Hw3. destruct Hlaw as [Hle Hone]; [|lia|].
  { unfold session_row. by rewrite !bool_decide_true. }
  split; [done|]. intros Hh. apply Hone. assert (r = insert_response ins) as <-.
  { unfold insert_response. by destruct (error ins). }
  by destruct Hh as [[=->]|[=->]].
Qed.

(** C2. Redelivery never double-credits. However often Stripe delivers the completion of a session,
    whatever the other answers are, the ledger holds at most one row for the session; and once any
    delivery is acknowledged as handled, it holds exactly one. *)
Theorem redelivery_credits_once sigs w :
  session_rows w = 0%nat ->
  let '(os, w') := deliver sigs w in
  (session_rows w' <= 1)%nat /\ (Exists handled os -> session_rows w' = 1%nat).
Proof.
  intros H0. assert (session_rows w <= 1)%nat as Hw by lia. clear H0.
  assert (let '(os, w') := deliver sigs w in (session_rows w <= session_rows w' <= 1)%nat /\
    (Exists handled os -> session_rows w' = 1%nat)) as Hgen.
  { revert w Hw. induction sigs as [|sig sigs IH]; intros w Hw; simpl.
    - split; [lia|]. intros Hex. inversion Hex.
    - pose proof (deliver_one sig w Hw) as H1.
      destruct (run h (POST e sig) w) as [[o tr] w1]. destruct H1 as [Hle Hone].
      specialize (IH w1 ltac:(lia)). destruct (deliver sigs w1) as [os w2].
      destruct IH as [Hle2 Hone2]. split; [lia|].
      rewrite Exists_cons. intros [Hh|Hh]; [apply Hone in Hh; lia|by apply Hone2]. }
  destruct (deliver sigs w) as [os w']. destruct Hgen. split; [lia|done].
Qed.
End redelivery.

(** A ledger table, a stub Stripe that redelivers one paid session, and a silent mailer. *)
Module Demo.

Definition session : Session :=
  {| session_id := "cs_1"; payment_status := "paid";
     session_metadata := Some [("purpose", TOPUP_PURPOSE); ("org_id", "o1"); ("autorecharge", "on")];
     session_currency := Some "usd"; amount_subtotal := Some 2500; amount_total := Some 2500;
     client_reference_id := None; session_payment_intent := RefId "pi_1";
     session_customer := RefId "cus_1"; customer_email := None |}.

Definition environment : env :=
  {| STRIPE_SECRET_KEY := Some "sk_live_x"; STRIPE_WEBHOOK_SECRET := Some "whsec";
     EXPLABS_WEBAPP_URL := None |}.

Definition ok {A} (x : A) : db_result A := db_ok x.

Definition handle : handler hook_effects (list LedgerRow) := fun w c =>
  match c return list LedgerRow * hook_ans c with
  | ReadBody => (w, inr "{}")
  | ConstructEvent _ _ _ =>
      (w, inr {| livemode := true; event_data := CheckoutCompleted session |})
  | OpenAdmin => (w, inr tt)
  | Clock => (w, 1767225600000)
  | SelectOrgId org => (w, ok org)
  | InsertLedger row =>
      if existsb (same_ref row) w
      then (w, DbResult None (Some (DbError "duplicate key" UNIQUE_VIOLATION)))
      else (w ++ [row], ok tt)
  | RetrieveIntent _ => (w, inr (RefId "pm_1"))
  | UpsertSettings _ => (w, inr (ok tt))
  | SelectSpendUnlock => (w, inr (ok "card"))
  | RpcUnlockOrg _ => (w, inr (ok tt))
  | RpcUnlockFounder _ => (w, inr (ok tt))
  | RpcRecordSuccess _ _ _ _ => (w, ok "ok")
  | RpcHookFailure _ _ _ => (w, ok tt)
  | SelectNotifyEmail _ => (w, ok None)
  | SelectOrgBalance _ => (w, DbResult None None)
  | SendRechargeEmail _ => (w, true)
  end.

#[refine, global] Instance ledger_laws : Ledger (list LedgerRow) handle := {| ledger := fun w => w |}.
Proof.
  - intros w row. simpl. by destruct (existsb (same_ref row) w); simpl.
  - intros w c. by destruct c.
Defined.

Definition requests : list (option string) := [None; Some "t=1,v1=a"; Some "t=2,v1=b"].

(** The unsigned request is refused, the first delivery credits $25, the second is a replay. *)
Example deliveries :
  (deliver handle environment requests []).1 =
    [Done (json_error "Missing stripe-signature header." 400); Done (acknowledged true);
     Done replayed].
Proof. vm_compute. reflexivity. Qed.

Example amount : map ledger_amount_usd (deliver handle environment requests []).2 = [25%float].
Proof. vm_compute. reflexivity. Qed.
End Demo.

Lemma redelivery_credits_once_witness :
  session_rows Demo.handle Demo.session (deliver Demo.handle Demo.environment Demo.requests []).2
    = 1%nat.
Proof.
  pose proof (redelivery_credits_once Demo.handle Demo.environment Demo.session) as H.
  specialize (H ltac:(intros w p sig k ev [=<-]; reflexivity) Demo.requests [] eq_refl).
  pose proof Demo.deliveries as Hd.
  destruct (deliver Demo.handle Demo.environment Demo.requests []) as [os w'].
  apply H. simpl in Hd. rewrite Hd. right. left. by left.
Defined.

(** ** Properties *)

(** C1. Only paid money becomes credit. Whatever Stripe, the database and the request say, at every
    moment of a delivery: a ledger row is inserted only for the verified, live-mode-matching
    completion of a paid US-dollar session with this app's top-up marker, an undiscounted positive
    total and an organization the database knows, for exactly the paid cents and under the session
    id; an off-session credit only for a verified intent with the auto-recharge marker, so the
    top-up's own payment intent never credits; a failure is recorded, a card saved and the spend gate
    opened only in the circumstances [allowed] lists; and one delivery requests at most one
    credit. *)
Theorem webhook_credits_only_paid e sig :
  spec (allowed e) (fun tr _ => (credits tr <= 1)%nat) [] (POST e sig).
Proof.
  eapply spec_post; [apply post_allowed|]. intros tr o [(obj & _ & Ho)|[Hc _]]; [|lia].
  destruct obj; simpl in Ho; destruct_and?; try lia. destruct o as [r|]; [|done].
  destruct Ho as [(? & ? & _ & _ & _ & Hc & _)|[Hc _]]; lia.
Qed.

(** Until a verified event of the deployment's mode is at hand, only the body is read and its
    signature checked. *)
Definition gated (e : env) (tr : list (event hook_effects)) (c : cmd hook_effects) : Prop :=
  match c with ReadBody | ConstructEvent _ _ _ => True | _ => exists obj, received e tr obj end.

Lemma gated_after {A} e obj tr (p : H A) :
  received e tr obj -> spec (gated e) (fun _ _ => True) tr p.
Proof.
  revert tr. induction p as [a|err|c k IH]; intros tr Hr; simpl; [done..|].
  split; [by destruct c; simpl; eauto|]. intros x. by apply IH, received_app.
Qed.

Lemma verified_event_gated e sig :
  spec (gated e) (fun tr o => match o with
      | Done (inl r) => resp_status r = 400 \/ resp_status r = 503
      | Done (inr ev) => exists p s k, Ev (E := hook_effects) (ConstructEvent p s k) (inr ev) ∈ tr
      | Raised _ => False
      end) [] (verified_event e sig).
Proof.
  unfold verified_event, stripeClient, stripeWebhookSecret, or_throw. exec; try (by auto).
  all: eexists _, _, _; in_trace.
Qed.

(** Unverified requests have no effect. Without a verified event whose livemode matches the
    deployment, the route reads the body and verifies the signature and does nothing else, and every
    such request is answered 400, or 503 when Stripe is not configured. *)
Theorem webhook_refuses_unverified e sig :
  spec (gated e) (fun tr o => (exists obj, received e tr obj) \/
      exists r, o = Done r /\ (resp_status r = 400 \/ resp_status r = 503)) [] (POST e sig).
Proof.
  unfold POST. apply spec_bind. eapply spec_post; [apply verified_event_gated|].
  intros tr [[r|[live obj]]|err] Hv; [by right; eauto| |done]. simpl.
  destruct (Bool.eqb live (live_deployment e)) eqn:Hlive; simpl; [|by right; eauto].
  apply Bool.eqb_prop in Hlive as ->.
  assert (received e tr obj) as Hr by exact Hv.
  split; [by exists obj|]. intros x. eapply spec_post.
  - apply spec_prefix. eapply gated_after, received_app, Hr.
  - intros tr' o [[q ->] _]. left. exists obj. by do 2 apply received_app.
Qed.

(** The platform's flag was read, and says exactly 'card'. *)
Definition reads_card (r : Thrown + db_result string) : bool :=
  match r with
  | inr d => match error d with None => bool_decide (data d = Some "card") | Some _ => false end
  | inl _ => false
  end.

Definition any_hook (_ : list (event hook_effects)) (_ : cmd hook_effects) : Prop := True.

(** The spend gate has one key at a time, and losing the flag never changes the lock. Whatever the
    services answer or throw, neither trigger fails; proof of the inbox unlocks the founder's orgs
    exactly when the flag is not readably 'card', and a saved card unlocks its org exactly when it
    is, so of the two triggers one and the same flag value always enables exactly one. *)
Theorem spend_unlock_routing user org :
  spec any_hook (fun tr o => o = Done tt /\ exists r,
      head tr = Some (Ev (E := hook_effects) SelectSpendUnlock r) /\
      if reads_card r then tail tr = []
      else exists x, tail tr = [Ev (E := hook_effects) (RpcUnlockFounder user) x])
    [] (unlockSpendOnInboxProof user) /\
  spec any_hook (fun tr o => o = Done tt /\ exists r,
      head tr = Some (Ev (E := hook_effects) SelectSpendUnlock r) /\
      if reads_card r then exists x, tail tr = [Ev (E := hook_effects) (RpcUnlockOrg org) x]
      else tail tr = [])
    [] (unlockSpendOnCardSaved org).
Proof.
  unfold unlockSpendOnInboxProof, unlockSpendOnCardSaved, unlockSpendForUser, unlockSpendForOrg,
    spendUnlockRequirement, or_throw.
  split; exec; (split; [done|]); eexists; (split; [reflexivity|]); simpl;
    repeat match goal with H : error _ = _ |- _ => rewrite H | H : data _ = _ |- _ => rewrite H end;
    simpl; bool_simpl; subst; repeat case_bool_decide; simplify_eq; eauto.
Qed.
