(* ===== verification/Billing.v ===== *)
(** * The billing routes
    (app/api/orgs/[orgId]/billing/checkout, app/api/orgs/[orgId]/auto-recharge,
    app/api/internal/auto-recharge, app/api/internal/spend-alerts)

    Where money enters: the Checkout session a manager starts and [StripeWebhook] later credits, the
    recharge settings [AutoRecharge] charges by, and the two cron ticks; with lib/billing/stripe.ts,
    lib/billing/constants.ts, lib/billing/launch-grant.ts and lib/billing/spend-alert-email.ts. [console.error] lines are not
    modelled. *)

From S2P Require Import Prelude JsMap JsString JsSort JsDate JsNumber JsFloat Effects Url QueryStrings Json.
From S2P Require Import Services Routes Access OrgAccess TenantServices ApiKeys Invites Members AutoRecharge StripeWebhook.

#[local] Open Scope Z_scope.
#[local] Set Warnings "-inexact-float".

(** ** lib/billing/constants.ts *)
Definition MIN_TOPUP_USD : Z := 5.
Definition MAX_TOPUP_USD : Z := 10000.
Definition DEFAULT_AUTORECHARGE_AMOUNT_USD : Z := 5.
Definition DEFAULT_AUTORECHARGE_THRESHOLD_USD : Z := 10.
Definition MIN_AUTORECHARGE_THRESHOLD_USD : Z := 0.
Definition MAX_AUTORECHARGE_THRESHOLD_USD : Z := 10000.

(** ** lib/billing/stripe.ts *)

(** [Math.round(x)] as a number; the two zeros are one. *)
Definition rounded (x : number) : number :=
  match math_round x with
  | Some (Z.pos p) => number_of_integer false p
  | Some (Z.neg p) => number_of_integer true p
  | Some Z0 => PrimFloat.zero
  | None => x
  end.

(** A dollar figure of whole cents within bounds, or the refusal; [field] begins its message and
    [range] ends the one about the bounds. *)
Definition parse_usd (field range : string) (lo hi : Z) (value : option json) : string + number :=
  match value ≫= jnum with
  | None => inl (field +:+ " must be a number.")
  | Some value =>
      if negb (is_finite value) then inl (field +:+ " must be a number.")
      else
        let cents := rounded (value * 100)%float in
        if PrimFloat.ltb 0.000001 (PrimFloat.abs (cents - value * 100)) then inl (field +:+ " must be a whole number of cents.")
        else if PrimFloat.ltb value (number_of_Z lo) || PrimFloat.ltb (number_of_Z hi) value
        then inl (field +:+ " must be between " +:+ range)
        else inr (cents / 100)%float
  end.

Definition parseTopupAmountUsd (value : option json) : string + number :=
  parse_usd "amount_usd" "$5 and $10,000." MIN_TOPUP_USD MAX_TOPUP_USD value.

Definition parseAutoRechargeThresholdUsd (value : option json) : string + number :=
  parse_usd "threshold_usd" "$0 and $10,000." MIN_AUTORECHARGE_THRESHOLD_USD MAX_AUTORECHARGE_THRESHOLD_USD value.

(** ** Services *)

(** A request for a Checkout session, with what the code always sets. *)
Record CheckoutParams := {
  mode : string;
  payment_method_types : list string;
  customer_creation : option string;
  setup_future_usage : option string;
  quantity : Z;
  price_currency : string;
  unit_amount : option Z;
  product_name : string;
  product_description : string;
  checkout_client_reference : string;
  checkout_metadata : list (string * string);
  success_url : string;
  cancel_url : string;
}.

(** What the Stripe client throws: [Stripe.errors.StripeError], or something else. *)
Inductive StripeThrow := StripeError (e : Thrown) | StripeOther (e : Thrown).

(** A row of [org_auto_recharge_settings], as the settings route selects it. *)
Record RechargeRow := {
  row_enabled : bool;
  row_threshold_usd : number;
  row_amount_usd : number;
  row_payment_method : option string;
  row_last_recharge_at : option string;
  row_consecutive_failures : Z;
  row_last_failure_message : option string;
}.

(** The upsert of the settings route: an absent member keeps the column. *)
Record RechargeUpdate := {
  set_org_id : string;
  set_enabled : option bool;
  set_amount_usd : option number;
  set_threshold_usd : option number;
  set_failures : Z;
  set_last_failure_at : option string;
  set_last_failure_message : option string;
  set_settings_updated_at : string;
}.

(** A row of [gateway_spend_alerts_due()], and the row as it is passed on. *)
Record AlertRow := {
  alert_id : string;
  alert_period : string;
  alert_kind : string;
  alert_org_name : string;
  notify_email : string;
  budget_scope_kind : option string;
  measured_micro_usd : Z;
  threshold_micro_usd : Z;
  limit_micro_usd : option Z;
  alert_row : json;
}.

Inductive billing_cmd :=
| Tenant (c : tenant_cmd)
| Worker (c : recharge_cmd)
| CreateCheckoutSession (key : string) (params : CheckoutParams)
| SelectRechargeSettings (org : string)
| UpsertRechargeSettings (update : RechargeUpdate)
| AlertsDue
| MarkAlert (id period : string) (failure : option string).

#[export] Instance attempt_patch_eq_dec : EqDecision attempt_patch.
Proof. solve_decision. Defined.
#[export] Instance intent_params_eq_dec : EqDecision intent_params.
Proof. solve_decision. Defined.
#[export] Instance recharge_cmd_eq_dec : EqDecision recharge_cmd.
Proof. solve_decision. Defined.
#[export] Instance CheckoutParams_eq_dec : EqDecision CheckoutParams.
Proof. solve_decision. Defined.
#[export] Instance RechargeUpdate_eq_dec : EqDecision RechargeUpdate.
Proof. solve_decision. Defined.
#[export] Instance billing_cmd_eq_dec : EqDecision billing_cmd.
Proof. solve_decision. Defined.

Definition billing_ans (c : billing_cmd) : Type :=
  match c with
  | Tenant c => tenant_ans c
  | Worker c => recharge_ans c
  | CreateCheckoutSession _ _ => StripeThrow + option string
  | SelectRechargeSettings _ | UpsertRechargeSettings _ => db_result RechargeRow
  | AlertsDue => db_result (list AlertRow)
  | MarkAlert _ _ _ => db_result unit
  end.

Definition billing_effects : effects := Effects billing_cmd billing_ans.

#[export] Instance billing_effects_eq_dec : EqDecision (cmd billing_effects) := billing_cmd_eq_dec.

(** What React's [cache] covers. *)
Definition billing_reads (c : cmd billing_effects) : bool := match c with Tenant c => tenant_reads c | _ => false end.

Inductive billing_error := NotConfigured | ProviderRefused (e : Thrown) | AppFailed (e : app_error).

Abbreviation B := (prog billing_effects billing_error).
Abbreviation ask c := (@call billing_effects billing_error c).

Definition on_tenant {X} (p : prog tenant_effects app_error X) : B X :=
  embed (E := tenant_effects) (F := billing_effects) Tenant (fun c x => x) AppFailed p.

Definition on_worker {X} (p : prog recharge_effects Thrown X) : B X :=
  embed (E := recharge_effects) (F := billing_effects) Worker (fun c x => x)
    (fun e => AppFailed (DataSourceError (OtherError e))) p.

Definition service_role : B unit := on_tenant TenantServices.createServiceRoleSupabaseClient.

(** A body that does not parse is [null]. *)
Definition request_body : B json :=
  r ← ask (Tenant RequestBody); mret match r with inr b => b | inl _ => JNull end.

Definition not_configured_message : string := "Billing is not configured on this deployment.".

Section environment.
Variables STRIPE_SECRET_KEY EXPLABS_WEBAPP_URL CRON_SECRET : option string.

Definition stripeClient : B string :=
  match present STRIPE_SECRET_KEY with Some key => mret key | None => Throw NotConfigured end.

(** ** Who may manage an organization's billing *)
Record BillingManager := { billing_org : string * string; billing_user : string; billing_operator : bool }.

Definition authorize (orgId : string) : T (option BillingManager) :=
  user ← gate requireAuthenticatedUser;
  org ← Members.requireOrg orgId;
  platformAdmin ← gate isPlatformAdmin;
  canManage ← (if platformAdmin : bool then mret true else gate (isOrgAdmin (user_id user) org.1));
  mret (if canManage : bool
        then Some {| billing_org := org; billing_user := user_id user; billing_operator := platformAdmin |}
        else None).

Definition not_found : response := json_error "Not found" 404.

(** ** app/api/orgs/[orgId]/billing/checkout *)

(** The consented threshold and amount, when the payer opts in. *)
Record Purchase := { purchase_usd : number; consent : option (number * number) }.

(** A member of the consent, checked when present, else its default. *)
Definition consented (parse : option json -> string + number) (member : option json) (fallback : Z) : string + number :=
  match member with None => inr (number_of_Z fallback) | Some v => parse (Some v) end.

Definition parse_purchase (body : json) : string + Purchase :=
  match parseTopupAmountUsd (jget body "amount_usd") with
  | inl e => inl e
  | inr amount =>
      let consent := default JNull (jget body "auto_recharge") in
      if negb (bool_decide (jget consent "enabled" = Some (JBool true)))
      then inr {| purchase_usd := amount; consent := None |}
      else
        match consented parseTopupAmountUsd (jget consent "amount_usd") DEFAULT_AUTORECHARGE_AMOUNT_USD with
        | inl e => inl e
        | inr recharge =>
            match consented parseAutoRechargeThresholdUsd (jget consent "threshold_usd") DEFAULT_AUTORECHARGE_THRESHOLD_USD with
            | inl e => inl e
            | inr threshold => inr {| purchase_usd := amount; consent := Some (threshold, recharge) |}
            end
        end
  end.

Definition checkout_params (m : BillingManager) (p : Purchase) (origin : string) : CheckoutParams :=
  {| mode := "payment"; payment_method_types := ["card"];
     customer_creation := (fun _ => "always") <$> consent p;
     setup_future_usage := (fun _ => "off_session") <$> consent p;
     quantity := 1; price_currency := "usd"; unit_amount := math_round (purchase_usd p * 100)%float;
     product_name := "Platform credits";
     product_description := "$" +:+ to_fixed 2 (purchase_usd p) +:+
       " of prepaid serving and optimization credit for " +:+ (billing_org m).2;
     checkout_client_reference := (billing_org m).1;
     checkout_metadata :=
       [("purpose", TOPUP_PURPOSE); ("org_id", (billing_org m).1); ("requested_by", billing_user m);
        ("autorecharge", if consent p is Some _ then "on" else "off")] ++
       match consent p with
       | Some (threshold, recharge) =>
           [("autorecharge_threshold_usd", number_text threshold); ("autorecharge_amount_usd", number_text recharge)]
       | None => []
       end;
     success_url := origin +:+ creditsPath +:+ "?topup=success";
     cancel_url := origin +:+ creditsPath +:+ "?topup=cancelled" |}.

(** What the route's [catch] answers. *)
Definition checkout_failed (e : billing_error) : response :=
  match e with
  | NotConfigured => json_error not_configured_message 503
  | ProviderRefused _ => json_error "The payment provider refused the request." 502
  | AppFailed e => jsonError e
  end.

Definition create_session (params : CheckoutParams) : B (option string) :=
  key ← stripeClient;
  r ← ask (CreateCheckoutSession key params);
  match r with
  | inl (StripeError e) => Throw (ProviderRefused e)
  | inl (StripeOther e) => Throw (AppFailed (DataSourceError (OtherError e)))
  | inr url => mret url
  end.

(** [url_origin] is the request URL's own origin. *)
Definition checkout_POST (orgId url_origin : string) : B response :=
  try_catch
    (m ← on_tenant (authorize orgId);
     match m with
     | None => mret not_found
     | Some m =>
         body ← request_body;
         match parse_purchase body with
         | inl e => mret (json_error e 400)
         | inr p =>
             url ← create_session (checkout_params m p (default url_origin EXPLABS_WEBAPP_URL));
             mret match present url with
                  | Some url => json_response (JObj [("url", JStr url)])
                  | None => json_error "Stripe did not return a checkout URL." 502
                  end
         end
     end)
    (fun e => mret (checkout_failed e)).

(** ** app/api/orgs/[orgId]/auto-recharge *)
Definition dto (enabled : bool) (threshold amount : number) (card : bool) (last_at : option string) (failures : Z)
    (last_failure : option string) : json :=
  JObj [("enabled", JBool enabled); ("thresholdUsd", JNum threshold); ("amountUsd", JNum amount);
        ("hasPaymentMethod", JBool card); ("lastRechargeAt", of_nullable last_at);
        ("consecutiveFailures", JNum (number_of_Z failures)); ("lastFailureMessage", of_nullable last_failure)].

Definition toDto (row : option RechargeRow) : json :=
  match row with
  | None =>
      dto true (number_of_Z DEFAULT_AUTORECHARGE_THRESHOLD_USD) (number_of_Z DEFAULT_AUTORECHARGE_AMOUNT_USD)
        false None 0 None
  | Some r =>
      dto (row_enabled r) (row_threshold_usd r) (row_amount_usd r) (bool_decide (row_payment_method r <> None))
        (row_last_recharge_at r) (row_consecutive_failures r) (row_last_failure_message r)
  end.

(** A route whose [catch] is [jsonError]; no Stripe call is made in one. *)
Definition app_failure (e : billing_error) : response :=
  match e with AppFailed e => jsonError e | e => checkout_failed e end.

Definition settings_GET (orgId : string) : B response :=
  try_catch
    (m ← on_tenant (authorize orgId);
     match m with
     | None => mret not_found
     | Some m =>
         _ ← service_role;
         r ← ask (SelectRechargeSettings (billing_org m).1);
         mret match error r with
              | Some _ => json_error "Unable to read auto-recharge settings." 500
              | None => json_response (toDto (data r))
              end
     end)
    (fun e => mret (app_failure e)).

(** A member of the body, checked when present. *)
Definition optional_usd (parse : option json -> string + number) (member : option json) : string + option number :=
  match member with
  | None => inr None
  | Some v => match parse (Some v) with inl e => inl e | inr x => inr (Some x) end
  end.

Definition optional_bool (member : option json) : string + option bool :=
  match member with
  | None => inr None
  | Some (JBool b) => inr (Some b)
  | Some _ => inl "enabled must be a boolean."
  end.

(** The columns a save writes: what was asked for, and a cleared back-off. *)
Definition parse_update (org now : string) (body : json) : string + RechargeUpdate :=
  match optional_bool (jget body "enabled") with
  | inl e => inl e
  | inr enabled =>
      match optional_usd parseTopupAmountUsd (jget body "amount_usd") with
      | inl e => inl e
      | inr amount =>
          match optional_usd parseAutoRechargeThresholdUsd (jget body "threshold_usd") with
          | inl e => inl e
          | inr threshold =>
              inr {| set_org_id := org; set_enabled := enabled; set_amount_usd := amount;
                     set_threshold_usd := threshold; set_failures := 0; set_last_failure_at := None;
                     set_last_failure_message := None; set_settings_updated_at := now |}
          end
      end
  end.

(** The settings as the audit trail records them. *)
Definition settings_after (d : json) : json :=
  JObj [("enabled", default JNull (jget d "enabled")); ("thresholdUsd", default JNull (jget d "thresholdUsd"));
        ("amountUsd", default JNull (jget d "amountUsd"))].

Definition save_settings (m : BillingManager) (update : RechargeUpdate) : B response :=
  _ ← service_role;
  r ← ask (UpsertRechargeSettings update);
  match error r with
  | Some _ => mret (json_error "Unable to save auto-recharge settings." 500)
  | None =>
      let d := toDto (data r) in
      _ ← on_tenant (recordAuditEvent
        {| audit_org := Some (billing_org m).1;
           actorKind := if billing_operator m then "platform_admin" else "user";
           audit_actor := Some (billing_user m); audit_action := "billing.auto_recharge_set";
           objectType := "organization"; objectId := (billing_org m).1;
           audit_before := None; audit_after := Some (settings_after d) |});
      mret (json_response d)
  end.

Definition settings_PATCH (orgId : string) : B response :=
  try_catch
    (m ← on_tenant (authorize orgId);
     match m with
     | None => mret not_found
     | Some m =>
         body ← request_body;
         now ← ask (Tenant TenantClock);
         match parse_update (billing_org m).1 (iso_string now) body with
         | inl e => mret (json_error e 400)
         | inr update => save_settings m update
         end
     end)
    (fun e => mret (app_failure e)).

(** ** app/api/internal/auto-recharge *)
Definition summary_json (s : AutoRechargeRunSummary) : json :=
  JObj [("claimed", JNum (number_of_Z (claimed s))); ("charged", JNum (number_of_Z (charged s)));
        ("declined", JNum (number_of_Z (declined s))); ("retryable", JNum (number_of_Z (retryable s)));
        ("skipped", JNum (number_of_Z (skipped s)))].

Definition poller_failed (e : billing_error) : response :=
  match e with
  | NotConfigured => json_error not_configured_message 503
  | _ => json_error "Auto-recharge run failed." 500
  end.

Definition poller_POST (authorization : option string) : B response :=
  match present CRON_SECRET with
  | None => mret (json_error "Auto-recharge poller is not configured." 503)
  | Some secret =>
      if negb (bool_decide (authorization = Some ("Bearer " +:+ secret)))
      then mret (json_error "Unauthorized." 401)
      else
        try_catch
          (_ ← stripeClient;
           _ ← service_role;
           summary ← on_worker (processPendingAutoRecharges None);
           mret (json_response (JObj [("ok", JBool true); ("summary", summary_json summary)])))
          (fun e => mret (poller_failed e))
  end.
End environment.

(** ** lib/billing/spend-alert-email.ts *)
Definition straightLineMonthProjection (measuredMicroUsd now : Z) : number :=
  let today := civil_of_day (now / 86400000) in
  let daysInMonth := days_in_month (leap_day (cy today)) (cm today) in
  rounded (number_of_Z measuredMicroUsd / number_of_Z (cd today) * number_of_Z daysInMonth)%float.

Record SpendAlertEmailInput := {
  alert_to : string;
  alert_org : string;
  alert_input_kind : string;
  alert_month : string;
  measuredMicroUsd : Z;
  thresholdMicroUsd : Z;
  limitMicroUsd : option Z;
  budgetScopeKind : option string;
  projectedMicroUsd : number;
  alert_credits_url : string;
}.

(** [toLocaleString("en-US")] with two fraction digits is the runtime's. *)
Section locale.
Variable en_US : number -> string.

Definition formatUsd (microUsd : number) : string := "$" +:+ en_US (microUsd / 1000000)%float.

(** The subject's and the body's line. *)
Definition crossingLine (input : SpendAlertEmailInput) : string * string :=
  let measured := formatUsd (number_of_Z (measuredMicroUsd input)) in
  let threshold := formatUsd (number_of_Z (thresholdMicroUsd input)) in
  if bool_decide (alert_input_kind input = "org_monthly_spend") then
    ("monthly spend crossed " +:+ threshold,
     "Monthly spend reached " +:+ measured +:+ ", crossing the " +:+ threshold +:+ " threshold you set.")
  else
    let limit := default 0 (limitMicroUsd input) in
    let percent := if decide (0 < limit)
                   then rounded (number_of_Z (measuredMicroUsd input) / number_of_Z limit * 100)%float
                   else number_of_Z 100 in
    let scope := match budgetScopeKind input with None => "budget" | Some kind => kind +:+ " budget" end in
    ("a budget is " +:+ number_text percent +:+ "% consumed",
     "A " +:+ scope +:+ " is " +:+ number_text percent +:+ "% consumed: " +:+ measured +:+ " of its " +:+
       formatUsd (number_of_Z limit) +:+ " limit.").

Definition spendAlertEmailHtml (orgName crossing period projection creditsUrl : string) : string :=
  join (String LF EmptyString)
  ["<div" +:+ attr "style" "font-family: -apple-system, 'Segoe UI', Helvetica, Arial, sans-serif; max-width: 480px; margin: 0 auto; color: #171717;" +:+ ">";
   "<h2" +:+ attr "style" "font-size: 18px; font-weight: 600;" +:+ ">Spend alert for " +:+ orgName +:+ "</h2>";
   "<p" +:+ attr "style" "font-size: 14px; line-height: 1.6;" +:+ ">" +:+ crossing +:+ "</p>";
   "<p" +:+ attr "style" "font-size: 14px; line-height: 1.6;" +:+ ">Month: <strong>" +:+ period +:+
     "</strong> (UTC). At the current pace, a straight-line projection puts this figure near <strong>" +:+ projection +:+
     "</strong> by month end.</p>";
   "<p" +:+ attr "style" "margin: 24px 0;" +:+ "><a" +:+ attr "href" creditsUrl +:+ attr "style" "background: #171717; color: #ffffff; text-decoration: none; padding: 10px 20px; border-radius: 9999px; font-size: 14px; font-weight: 600;" +:+ ">View spend &amp; alerts</a></p>";
   "<p" +:+ attr "style" "font-size: 12px; color: #737373; line-height: 1.6;" +:+ ">This is a notification you set up on the credits page, hard budget caps keep enforcing on their own. You'll get at most one email per rule per calendar month.</p>";
   "</div>"].

Definition alert_email (from : string) (input : SpendAlertEmailInput) : Email :=
  let crossing := crossingLine input in
  {| mail_from := from; mail_to := alert_to input;
     mail_subject := "Spend alert for " +:+ alert_org input +:+ ": " +:+ crossing.1;
     mail_html := spendAlertEmailHtml (escapeHtml (alert_org input)) (escapeHtml crossing.2)
       (escapeHtml (alert_month input)) (formatUsd (projectedMicroUsd input)) (escapeHtml (alert_credits_url input)) |}.

(** What the mail service's reply means: [None] is sent. *)
Definition mail_failure (r : Thrown + MailReply) : option string :=
  match r with
  | inl e => Some ("Resend request failed: " +:+ error_text e)
  | inr reply =>
      if mail_ok reply then None
      else Some ("Resend rejected the email: " +:+
        default ("HTTP " +:+ string_of_Z (mail_status reply)) (mail_payload reply ≫= fun p => jget_str p "message"))
  end.

Definition sendSpendAlertEmail (input : SpendAlertEmailInput) : B (option string) :=
  env ← ask (Tenant MailSettings);
  match present env.1 with
  | None => mret (Some "RESEND_API_KEY is not configured")
  | Some apiKey =>
      r ← ask (Tenant (PostEmail apiKey (alert_email (default RESEND_DEFAULT_FROM env.2) input)));
      mret (mail_failure r)
  end.

(** ** app/api/internal/spend-alerts *)
Section tick.
Context {Digest : Type} `{EqDecision Digest}.
Variable sha256 : string -> Digest.
Variables CRON_SECRET EXPLABS_WEBAPP_URL : option string.

Definition release (row : AlertRow) : B unit :=
  _ ← ask (MarkAlert (alert_id row) (alert_period row) (Some "dry run")); mret tt.

Definition alert_input (row : AlertRow) (now : Z) : SpendAlertEmailInput :=
  {| alert_to := notify_email row; alert_org := alert_org_name row; alert_input_kind := alert_kind row;
     alert_month := alert_period row; measuredMicroUsd := measured_micro_usd row;
     thresholdMicroUsd := threshold_micro_usd row; limitMicroUsd := limit_micro_usd row;
     budgetScopeKind := budget_scope_kind row;
     projectedMicroUsd := straightLineMonthProjection (measured_micro_usd row) now;
     alert_credits_url := default "https://platform.experientiallabs.ai" EXPLABS_WEBAPP_URL +:+ creditsPath |}.

(** One claim: send, then report the outcome. [counts] are delivered and failed. *)
Definition deliver (counts : Z * Z) (row : AlertRow) : B (Z * Z) :=
  now ← ask (Tenant TenantClock);
  failure ← sendSpendAlertEmail (alert_input row now);
  _ ← ask (MarkAlert (alert_id row) (alert_period row) failure);
  mret (if failure is Some _ then (counts.1, counts.2 + 1) else (counts.1 + 1, counts.2)).

Definition processed (rows : list AlertRow) (more : list (string * json)) : response :=
  json_response (JObj (("processed", JNum (number_of_Z (Z.of_nat (length rows)))) :: more)).

Definition run_tick (dryRun : bool) (rows : list AlertRow) : B response :=
  if dryRun then
    _ ← for_of (fun (_ : unit) row => release row) rows tt;
    mret (processed rows [("rows", JArr (map alert_row rows))])
  else
    counts ← for_of deliver rows (0, 0);
    mret (processed rows [("delivered", JNum (number_of_Z counts.1)); ("failed", JNum (number_of_Z counts.2))]).

Definition alerts_POST (authorization : option string) (query : params) : B response :=
  if negb (bearerMatchesCronSecret sha256 CRON_SECRET authorization) then mret not_found
  else
    _ ← service_role;
    due ← ask AlertsDue;
    match error due with
    | Some _ => mret (json_error "Reading due alerts failed." 500)
    | None => run_tick (bool_decide (params_get query "dryRun" = Some "1")) (default [] (data due))
    end.
End tick.
End locale.

(** ** lib/billing/launch-grant.ts: readLaunchGrantUsd

    A row of [credit_ledger]: its columns as they come. *)
Record GrantRow := { grant_entry_type : json; grant_amount : json; grant_source_ref : json }.

Definition counted (row : GrantRow) : option number :=
  amount ← jnum (grant_amount row);
  if negb (is_finite amount) then None
  else if bool_decide (grant_entry_type row = JStr "grant") then Some amount
  else if bool_decide (grant_entry_type row = JStr "adjustment") &&
    default false (starts_with "promo-reversal:" <$> jstr (grant_source_ref row)) then Some amount
  else None.

Definition readLaunchGrantUsd (r : db_result (list GrantRow)) : option number :=
  match error r, data r with
  | None, Some rows =>
      Some (foldl (fun total row => match counted row with Some x => (total + x)%float | None => total end) 0%float rows)
  | _, _ => None
  end.

(** ** Amounts *)
Lemma rounded_Z x c : math_round x = Some c -> 0 < c < 2 ^ 53 -> rounded x = number_of_Z c.
Proof.
  intros Hx Hc. unfold rounded. rewrite Hx. destruct c as [|c|c]; [lia| |lia].
  destruct (number_of_Z_round (Z.pos c)) as (m & e & _ & _ & _ & ->); [lia|]. by rewrite bool_decide_eq_false_2 by lia.
Qed.

Lemma parse_usd_value field range lo hi value a :
  parse_usd field range lo hi value = inr a -> 0 < lo -> lo <= hi -> hi < 2 ^ 40 ->
  exists c, 100 * lo <= c <= 100 * hi /\ a = usd_of_cents c.
Proof.
  intros H Hlo Hlh Hhi. unfold parse_usd in H. destruct (value ≫= jnum) as [x|]; [|done].
  destruct (is_finite x) eqn:Hfin; [|done]. simpl in H. destruct (PrimFloat.ltb 0.000001 _); [done|].
  destruct (PrimFloat.ltb x _) eqn:H1; [done|]. destruct (PrimFloat.ltb _ x) eqn:H2; [done|]. simpl in H.
  apply not_ltb_leb in H1; [|done|apply number_of_Z_finite; lia].
  apply not_ltb_leb in H2; [|apply number_of_Z_finite; lia|done].
  destruct (cents_of_dollars x lo hi Hlo Hlh Hhi H1 H2) as (c & Hc & Hr).
  exists c. split; [done|]. unfold usd_of_cents. simplify_eq. by rewrite (rounded_Z _ c) by (done || lia).
Qed.

Lemma parse_usd_cents field range lo hi c :
  0 <= lo -> 100 * lo < c < 100 * hi -> hi <= 10000 -> lo = 0 \/ 0 < lo ->
  parse_usd field range lo hi (Some (JNum (usd_of_cents c))) = inr (usd_of_cents c).
Proof.
  intros Hlo Hc Hhi Hz. unfold parse_usd. simpl. unfold usd_of_cents.
  destruct (dollars_value c) as (m & e & _ & _ & [Hd _] & _); [lia|].
  assert (is_finite (number_of_Z c / 100) = true) as -> by (unfold is_finite; by rewrite Hd). simpl.
  rewrite (rounded_Z _ c) by (apply cents_survive || idtac; lia). rewrite whole_cents by lia.
  rewrite (leb_not_ltb (number_of_Z lo)), (leb_not_ltb _ (number_of_Z hi)); [done|apply at_most_dollars; lia|].
  destruct Hz as [->|Hpos]; [|apply at_least_dollars; lia].
  rewrite FloatAxioms.leb_spec, Hd. by vm_compute.
Qed.

Lemma parse_purchase_amount body p : parse_purchase body = inr p ->
  exists c, 500 <= c <= 1000000 /\ purchase_usd p = usd_of_cents c.
Proof.
  unfold parse_purchase. destruct (parseTopupAmountUsd _) as [|a] eqn:Ha; [done|]. intros H.
  assert (purchase_usd p = a) as -> by (repeat case_match; by simplify_eq).
  eapply (parse_usd_value _ _ 5 10000); [exact Ha|lia..].
Qed.

(** The routes a manager calls. *)
Inductive billing_route := Checkout | ReadSettings | SaveSettings.

Definition serve (STRIPE_SECRET_KEY EXPLABS_WEBAPP_URL : option string) (route : billing_route)
    (orgId url_origin : string) : B response :=
  cached billing_reads
    match route with
    | Checkout => checkout_POST STRIPE_SECRET_KEY EXPLABS_WEBAPP_URL orgId url_origin
    | ReadSettings => settings_GET orgId
    | SaveSettings => settings_PATCH orgId
    end.

(** ** What the events say *)
Abbreviation events := (list (event billing_effects)).
Notation "c ↪ x ∈ tr" := (@Ev billing_effects c x ∈ tr) (at level 70, x at level 50).

Implicit Types (tr : events) (t : list (event tenant_effects)).

Definition tenant_event (e : event billing_effects) : option (event tenant_effects) :=
  match e with Ev (Tenant c) x => Some (@Ev tenant_effects c x) | _ => None end.

Definition tenant_events tr : list (event tenant_effects) := omap tenant_event tr.

(** Someone signed in who manages the organization [ident] addresses. *)
Definition billing_manager t (ident : string) (m : BillingManager) : Prop :=
  exists id u, granted (gate_events t) ident RoleUser id /\ @Ev tenant_effects (GetOrg id) (inr (billing_org m)) ∈ t /\
    signed_in t u /\ user_id u = billing_user m /\ manages t u (billing_org m).1.

Definition is_billing_write (e : event billing_effects) : bool :=
  match e with Ev (CreateCheckoutSession _ _) _ | Ev (UpsertRechargeSettings _) _ => true | _ => false end.

Definition untouched tr : Prop := Forall (fun e => is_billing_write e = false) tr.

(** The body the request carried; one that does not parse is [null]. *)
Definition body_sent tr (body : json) : Prop :=
  exists r, Tenant RequestBody ↪ r ∈ tr /\ body = match r with inr b => b | inl _ => JNull end.

(** A session for what the body asks: a whole number of cents between $5 and $10,000, for the
    organization, the card kept only when the body consents to recharging. *)
Record session_asked (m : BillingManager) (body : json) (params : CheckoutParams) : Prop := {
  session_payment : mode params = "payment" /\ price_currency params = "usd" /\ quantity params = 1;
  session_amount : exists c, 500 <= c <= 1000000 /\
    parseTopupAmountUsd (jget body "amount_usd") = inr (usd_of_cents c) /\ unit_amount params = Some c;
  session_for : checkout_client_reference params = (billing_org m).1;
  session_keeps_card : setup_future_usage params <> None ->
    jget (default JNull (jget body "auto_recharge")) "enabled" = Some (JBool true);
}.

(** A save of what the body asks: a member that is absent keeps its column, one that is present is what
    its parser accepts, and the back-off is cleared. *)
Record save_asked (org now : string) (body : json) (u : RechargeUpdate) : Prop := {
  save_for : set_org_id u = org /\ set_settings_updated_at u = now;
  save_enabled : match jget body "enabled" with
                 | None => set_enabled u = None
                 | Some v => exists b, v = JBool b /\ set_enabled u = Some b
                 end;
  save_amount : match jget body "amount_usd" with
                | None => set_amount_usd u = None
                | Some v => exists c, 500 <= c <= 1000000 /\ parseTopupAmountUsd (Some v) = inr (usd_of_cents c) /\
                    set_amount_usd u = Some (usd_of_cents c)
                end;
  save_threshold : match jget body "threshold_usd" with
                   | None => set_threshold_usd u = None
                   | Some v => exists x, parseAutoRechargeThresholdUsd (Some v) = inr x /\ set_threshold_usd u = Some x
                   end;
  save_clears_back_off : set_failures u = 0 /\ set_last_failure_at u = None /\ set_last_failure_message u = None;
}.

Section licence.
Variables (STRIPE_SECRET_KEY : option string) (ident origin : string).

(** What a command of a manager's route needs of the events before it. *)
Definition billing_licensed tr (c : cmd billing_effects) : Prop :=
  match c with
  | Tenant (Gate c) => cache_licensed (gate_events (tenant_events tr)) c
  | CreateCheckoutSession key params => untouched tr /\ STRIPE_SECRET_KEY = Some key /\
      exists m body p, billing_manager (tenant_events tr) ident m /\ body_sent tr body /\
        parse_purchase body = inr p /\ params = checkout_params m p origin /\ session_asked m body params
  | SelectRechargeSettings org =>
      exists m, billing_manager (tenant_events tr) ident m /\ org = (billing_org m).1
  | UpsertRechargeSettings update => untouched tr /\
      exists m body now, billing_manager (tenant_events tr) ident m /\ body_sent tr body /\
        Tenant TenantClock ↪ now ∈ tr /\ save_asked (billing_org m).1 (iso_string now) body update
  | Tenant (RpcRecordAudit e) =>
      exists update r, UpsertRechargeSettings update ↪ r ∈ tr /\ error r = None /\ audit_org e = Some (set_org_id update)
  | Tenant c => writes c = false
  | Worker _ | AlertsDue | MarkAlert _ _ _ => False
  end.
End licence.

(** *** What the parsers made of the body is what it asks *)
Lemma topup_cents v x : parseTopupAmountUsd v = inr x -> exists c, 500 <= c <= 1000000 /\ x = usd_of_cents c.
Proof. intros H. eapply (parse_usd_value _ _ 5 10000); [exact H|lia..]. Qed.

Lemma parsed_session m body p origin : parse_purchase body = inr p -> session_asked m body (checkout_params m p origin).
Proof.
  intros Hp. assert (parseTopupAmountUsd (jget body "amount_usd") = inr (purchase_usd p)) as Ha.
  { unfold parse_purchase in Hp. destruct (parseTopupAmountUsd _) as [|a]; [done|]. f_equal.
    repeat case_match; by simplify_eq. }
  split; [done| |done|].
  - destruct (topup_cents _ _ Ha) as (c & Hc & Hx). exists c. rewrite Ha, Hx. split; [done|]. split; [done|].
    simpl. rewrite Hx. apply cents_survive. lia.
  - simpl. destruct (consent p) as [q|] eqn:Hq; [intros _|done]. unfold parse_purchase in Hp.
    destruct (parseTopupAmountUsd _) as [|a]; [done|]. case_bool_decide as He; [done|]. simpl in Hp.
    injection Hp as <-. done.
Qed.

Lemma optional_usd_inr parse v x : optional_usd parse v = inr x ->
  match v with None => x = None | Some v => exists y, parse (Some v) = inr y /\ x = Some y end.
Proof.
  unfold optional_usd. destruct v as [v|]; [|by intros [= <-]]. destruct (parse (Some v)) as [|y]; [done|].
  intros [= <-]. by exists y.
Qed.

Lemma parsed_save org now body u : parse_update org now body = inr u -> save_asked org now body u.
Proof.
  unfold parse_update. destruct (optional_bool _) as [|enabled] eqn:He; [done|].
  destruct (optional_usd parseTopupAmountUsd _) as [|amount] eqn:Ha; [done|].
  destruct (optional_usd parseAutoRechargeThresholdUsd _) as [|threshold] eqn:Ht; [done|]. intros [= <-].
  apply optional_usd_inr in Ha, Ht. split; simpl; [done| | |done|done].
  - unfold optional_bool in He. destruct (jget body "enabled") as [[]|]; try done; injection He as <-; eauto.
  - destruct (jget body "amount_usd") as [v|]; [|done]. destruct Ha as (y & Hy & ->).
    destruct (topup_cents _ _ Hy) as (c & Hc & ->). by exists c.
Qed.

(** ** The gate *)
Section gate.
Context (I : list (event tenant_effects) -> cmd tenant_effects -> Prop).
Hypothesis I_gate : forall t c, cache_licensed (gate_events t) c -> I t (Gate c).
Hypothesis I_org : forall t id, I t (GetOrg id).

Lemma authorize_spec ident t0 :
  spec I (fun t o => grown t0 t /\ match o with
      | Done (Some m) => coherent tenant_reads t -> billing_manager t ident m
      | _ => True end) t0 (authorize ident).
Proof.
  unfold authorize, Members.requireOrg. apply spec_bind. eapply spec_post; [apply user_step, I_gate|].
  intros t1 [u|e] [Hg1 Hu]; [|done]. apply spec_bind, spec_bind. eapply spec_post; [apply org_id_step, I_gate|].
  intros t2 [id|e] [Hg2 Hid]; [|split; [by eapply grown_trans|done]].
  exec_cbn. split; [apply I_org|]. intros [e|org]; exec_cbn.
  { split; [|done]. apply grown_snoc; [by eapply grown_trans|done]. }
  set (t3 := t2 ++ _). assert (grown t2 t3) as Hg3 by (apply grown_snoc; [apply grown_refl|done]).
  assert (@Ev tenant_effects (GetOrg id) (inr org) ∈ t3) as Horg by (unfold t3; in_trace). clearbody t3.
  apply spec_bind. eapply spec_post; [apply platform_step, I_gate|].
  assert (forall t, grown t3 t -> grown t0 t) as Hup by (intros t ?; do 2 (eapply grown_trans; [eassumption|]); by eapply grown_trans).
  intros t4 [platformAdmin|e] [Hg4 Hadmin]; [|split; [auto|done]].
  apply spec_bind. eapply (spec_post _ (fun t o => grown t4 t /\ match o with
      | Done true => platformAdmin = true \/
          (coherent tenant_reads t -> exists id, granted (gate_events t) org.1 RoleAdmin id)
      | _ => True end)).
  { destruct platformAdmin; [exec_cbn; split; [apply grown_refl|by left]|].
    eapply spec_post; [apply org_admin_step, I_gate|]. intros t [[|]|e] [Hg H]; auto. }
  intros t5 [[|]|e] [Hg5 H5]; exec_cbn; (split; [apply Hup; by eapply grown_trans|]); [|done..].
  intros Hco. assert (t1 ⊆ t5) as Hs1 by (apply grown_subset; do 3 (eapply grown_trans; [eassumption|]); done).
  assert (t3 ⊆ t5) as Hs3 by (apply grown_subset; by eapply grown_trans).
  assert (t2 ⊆ t5) as Hs2 by (apply grown_subset; do 2 (eapply grown_trans; [eassumption|]); done).
  assert (signed_in t5 u) as Hu5 by (by apply (signed_in_mono t1)).
  exists id, u. split; [apply (granted_mono t2); [done|]; by apply Hid, (coherent_mono _ t5)|].
  split; [by apply Hs3|]. split; [done|]. split; [done|]. simpl.
  apply (managed t4 t5 _ _ _ platformAdmin); try done; [intros ->; by apply Hadmin|by apply grown_subset].
Qed.
End gate.

(** ** The routes *)
Lemma tenant_events_app tr tr' : tenant_events (tr ++ tr') = tenant_events tr ++ tenant_events tr'.
Proof. apply omap_app. Qed.

Lemma tenant_events_mono tr tr' : tr ⊆ tr' -> tenant_events tr ⊆ tenant_events tr'.
Proof. intros Hg e (x & Hx & He)%list_elem_of_omap. apply list_elem_of_omap. exists x. auto. Qed.

Lemma tenant_event_Some e (c : tenant_cmd) (x : tenant_ans c) :
  tenant_event e = Some (@Ev tenant_effects c x) -> e = @Ev billing_effects (Tenant c) x.
Proof.
  intros H. destruct e as [c0 y]. destruct c0; try discriminate H. simpl in H.
  apply (inj Some) in H. pose proof (Ev_cmd _ _ _ _ H) as Hc. simpl in Hc. subst. by apply Ev_inj in H as ->.
Qed.

Lemma coherent_tenant tr : coherent billing_reads tr -> coherent tenant_reads (tenant_events tr).
Proof.
  intros Hco c x y Hc (e & He & Hx)%list_elem_of_omap (e' & He' & Hy)%list_elem_of_omap.
  apply tenant_event_Some in Hx as ->. apply tenant_event_Some in Hy as ->. by eapply (Hco (Tenant c)).
Qed.

Lemma billing_coherent_mono tr tr' : tr ⊆ tr' -> coherent billing_reads tr' -> coherent billing_reads tr.
Proof. intros Hg Hco c x y Hc Hx Hy. eapply Hco; eauto. Qed.

Lemma billing_manager_mono t t' ident m : t ⊆ t' -> billing_manager t ident m -> billing_manager t' ident m.
Proof.
  intros Hg (id & u & H1 & H2 & H3 & H4 & H5). exists id, u. split; [by eapply granted_mono|]. split; [auto|].
  split; [by eapply signed_in_mono|]. split; [done|by eapply manages_mono].
Qed.

Section managed_routes.
Variables (STRIPE_SECRET_KEY EXPLABS_WEBAPP_URL : option string) (ident url_origin : string).

Abbreviation L := (billing_licensed STRIPE_SECRET_KEY ident (default url_origin EXPLABS_WEBAPP_URL)).
#[local] Abbreviation I := (fun tr c => coherent billing_reads tr -> L tr c).
#[local] Abbreviation anyhow := (fun (_ : events) (_ : outcome billing_error response) => True).

(** After the gate: nothing written, and a manager when one is named. *)
Definition gated tr (m : BillingManager) : Prop :=
  untouched tr /\ (coherent billing_reads tr -> billing_manager (tenant_events tr) ident m).

Lemma authorize_step :
  spec I (fun tr o => match o with Done (Some m) => gated tr m | _ => True end) [] (on_tenant (authorize ident)).
Proof.
  eapply spec_post.
  - eapply (spec_embed (E := tenant_effects) (F := billing_effects) Tenant (fun c x => x) AppFailed tenant_events
      ltac:(intros; by rewrite tenant_events_app)
      (fun t c => coherent tenant_reads t -> match c with Gate c => cache_licensed (gate_events t) c | GetOrg _ => True | _ => False end)).
    + intros tr c H Hco. specialize (H (coherent_tenant _ Hco)). by destruct c.
    + apply authorize_spec; [by intros t c H _|done].
  - intros tr [[m|]|e] [(q & -> & Hq) H]; [|done..]. destruct H as [_ H]. split.
    + eapply Forall_impl; [exact Hq|]. by intros e (c & x & ->).
    + intros Hco. by apply H, coherent_tenant.
Qed.

Lemma gated_app tr q m : gated tr m -> untouched q -> gated (tr ++ q) m.
Proof.
  intros [Hun Hm] Hq. split; [by apply Forall_app|]. intros Hco.
  assert (tr ⊆ tr ++ q) as Hs by (intros e He; apply elem_of_app; by left).
  eapply billing_manager_mono; [by apply tenant_events_mono|]. apply Hm. by eapply billing_coherent_mono.
Qed.

Lemma create_licensed tr m body p :
  gated tr m -> body_sent tr body -> parse_purchase body = inr p ->
  spec I (fun _ _ => True) tr
    (create_session STRIPE_SECRET_KEY (checkout_params m p (default url_origin EXPLABS_WEBAPP_URL))).
Proof.
  intros [Hun Hm] Hbody Hp. unfold create_session, stripeClient. exec; try done.
  intros Hco. split; [done|]. split; [by apply present_Some|]. exists m, body, p.
  split; [by apply Hm|]. split; [done|]. split; [done|]. split; [done|by apply parsed_session].
Qed.

Lemma checkout_route : spec I anyhow [] (checkout_POST STRIPE_SECRET_KEY EXPLABS_WEBAPP_URL ident url_origin).
Proof.
  unfold checkout_POST. apply spec_try, spec_bind. eapply spec_post; [apply authorize_step|].
  intros tr [[m|]|e] Hm; [|exec; done..]. unfold request_body. exec_cbn. split; [by intros _|]. intros r.
  set (body := match r with inr b => b | inl _ => JNull end).
  destruct (parse_purchase body) as [e|p] eqn:Hp; [done|]. apply spec_bind. eapply spec_post.
  - apply (create_licensed _ m body p); [by apply gated_app; [|repeat constructor]|by exists r; split; [in_trace|]|done].
  - intros tr' [url|e] _; exec; done.
Qed.

Lemma read_route : spec I anyhow [] (settings_GET ident).
Proof.
  unfold settings_GET. apply spec_try, spec_bind. eapply spec_post; [apply authorize_step|].
  intros tr [[m|]|e] Hm; [|exec; done..].
  unfold service_role, on_tenant, TenantServices.createServiceRoleSupabaseClient, answered, raise_thrown. exec; try done.
  intros Hco. exists m. split; [|done]. apply (gated_app tr); [done|by repeat constructor|done].
Qed.

Lemma upsert_licensed tr m r now update u :
  gated tr m -> Tenant RequestBody ↪ r ∈ tr -> Tenant TenantClock ↪ now ∈ tr ->
  parse_update (billing_org m).1 (iso_string now) (match r with inr b => b | inl _ => JNull end) = inr update ->
  I (tr ++ [@Ev billing_effects (Tenant OpenServiceRole) u]) (UpsertRechargeSettings update).
Proof.
  intros Hm Hr Hnow Hu Hco. apply (gated_app _ [@Ev billing_effects (Tenant OpenServiceRole) u]) in Hm as [Hun Hm]; [|by repeat constructor].
  split; [exact Hun|]. eexists m, _, now. split; [by apply Hm|]. split; [exists r; split; [in_trace|done]|].
  split; [in_trace|by apply parsed_save].
Qed.

Lemma save_licensed tr m r now update :
  gated tr m -> Tenant RequestBody ↪ r ∈ tr -> Tenant TenantClock ↪ now ∈ tr ->
  parse_update (billing_org m).1 (iso_string now) (match r with inr b => b | inl _ => JNull end) = inr update ->
  spec I anyhow tr (save_settings m update).
Proof.
  intros Hm Hr Hnow Hu. assert (set_org_id update = (billing_org m).1) as Horg.
  { unfold parse_update in Hu. repeat case_match; by simplify_eq. }
  unfold save_settings, service_role, on_tenant, TenantServices.createServiceRoleSupabaseClient, recordAuditEvent,
    answered, raise_thrown. exec; try done; try by eapply upsert_licensed.
  all: intros Hco; eexists update, _; split; [in_trace|]; split; [eassumption|]; simpl; by rewrite Horg.
Qed.

Lemma save_route : spec I anyhow [] (settings_PATCH ident).
Proof.
  unfold settings_PATCH. apply spec_try, spec_bind. eapply spec_post; [apply authorize_step|].
  intros tr [[m|]|e] Hm; [|exec; done..]. unfold request_body. exec_cbn. split; [by intros _|]. intros r.
  exec_cbn. split; [by intros _|]. intros now.
  destruct (parse_update _ _ _) as [e|u] eqn:Hu; [done|]. eapply spec_post.
  - eapply save_licensed; [|in_trace|in_trace|exact Hu].
    rewrite <- app_assoc. apply gated_app; [done|by repeat constructor].
  - intros tr' [resp|e] _; exec; done.
Qed.
Lemma tenant_events_same tr tr' :
  (forall e, e ∈ tr <-> e ∈ tr') -> forall e, e ∈ tenant_events tr <-> e ∈ tenant_events tr'.
Proof. intros H e. split; apply tenant_events_mono; intros x; apply H. Qed.

Lemma billing_licensed_same tr tr' c : (forall e, e ∈ tr <-> e ∈ tr') -> L tr c -> L tr' c.
Proof.
  intros Hsame. assert (tenant_events tr ⊆ tenant_events tr') as Ht by (intros e; by apply tenant_events_same).
  assert (untouched tr -> untouched tr') as Hun.
  { unfold untouched. rewrite !Forall_forall. intros H e He. by apply H, Hsame. }
  assert (forall b, body_sent tr b -> body_sent tr' b) as Hb by (intros b (r & Hr & ?); exists r; by rewrite <- Hsame).
  destruct c as [c| | | | | |]; simpl; auto.
  - destruct c; simpl; auto.
    + apply cache_licensed_same, gate_events_same. by apply tenant_events_same.
    + intros (u & r & Hr & ?). exists u, r. by rewrite <- Hsame.
  - intros (? & ? & m & b & p & Hm & Hbody & ?). split; [auto|]. split; [done|]. exists m, b, p.
    split; [by eapply billing_manager_mono|auto].
  - intros (m & Hm & ?). exists m. split; [by eapply billing_manager_mono|done].
  - intros (? & m & b & now & Hm & Hbody & Hnow & ?). split; [auto|]. exists m, b, now.
    split; [by eapply billing_manager_mono|]. split; [auto|]. by rewrite <- Hsame.
Qed.
End managed_routes.

(** ** Properties *)

(** C4. Only a manager spends or arms spending: for every answer of the services, the checkout and
    recharge-settings routes ask Stripe for a session, or write the settings, at most once per request,
    for the organization the identifier addresses, at the hands of a signed-in platform admin or admin
    of that organization. The session is the one the parsed body describes, for a whole number of cents
    from $5 to $10,000, and keeps the card only when the body consents to recharging. A save writes the
    members the body has, as their parsers accept them, keeps the columns of those it has not, clears the
    back-off and names no card. The audit entry follows an accepted write of the same organization. *)
Theorem money_licensed STRIPE_SECRET_KEY EXPLABS_WEBAPP_URL route ident url_origin :
  spec (billing_licensed STRIPE_SECRET_KEY ident (default url_origin EXPLABS_WEBAPP_URL)) (fun _ _ => True) []
    (serve STRIPE_SECRET_KEY EXPLABS_WEBAPP_URL route ident url_origin).
Proof.
  apply spec_cached; [intros tr tr' c; apply billing_licensed_same|done|].
  eapply spec_post; [|by intros tr o _ _].
  destruct route; [apply checkout_route|apply read_route|apply save_route].
Qed.

(** C10. A top-up amount is a whole number of cents between $5 and $10,000, exactly: the amounts a body
    can have accepted are those, each is accepted again unchanged, and what Stripe is asked to charge
    for one, [Math.round(amount * 100)], is its number of cents. *)
Theorem topup_exact a :
  ((exists v, parseTopupAmountUsd v = inr a) <-> exists c, 500 <= c <= 1000000 /\ a = usd_of_cents c) /\
  forall c, 500 <= c <= 1000000 ->
    parseTopupAmountUsd (Some (JNum (usd_of_cents c))) = inr (usd_of_cents c) /\
    math_round (usd_of_cents c * 100)%float = Some c.
Proof.
  assert (forall c, 500 <= c <= 1000000 -> parseTopupAmountUsd (Some (JNum (usd_of_cents c))) = inr (usd_of_cents c)) as Hin.
  { intros c Hc. unfold parseTopupAmountUsd, MIN_TOPUP_USD, MAX_TOPUP_USD.
    destruct (decide (c = 500)) as [->|]; [by vm_compute|]. destruct (decide (c = 1000000)) as [->|]; [by vm_compute|].
    apply parse_usd_cents; lia. }
  split; [split|].
  - intros [v Hv]. eapply (parse_usd_value _ _ 5 10000); [exact Hv|lia..].
  - intros (c & Hc & ->). eexists. by apply Hin.
  - intros c Hc. split; [by apply Hin|]. apply cents_survive. lia.
Qed.

(** Stripe's report of a session that was paid as it was asked for. *)
Record paid_as_asked (params : CheckoutParams) (s : Session) : Prop := {
  asked_paid : payment_status s = "paid";
  asked_metadata : session_metadata s = Some (checkout_metadata params);
  asked_currency : session_currency s = Some (price_currency params);
  asked_total : amount_total s = unit_amount params;
  asked_subtotal : amount_subtotal s = unit_amount params;
  asked_reference : client_reference_id s = Some (checkout_client_reference params);
}.

Definition whole_dollars (x : number) : Prop := exists n, x = number_of_Z n /\ Z.abs n < 2 ^ 53.

(** The ledger row the purchase is owed. *)
Definition owed (m : BillingManager) (p : Purchase) (session : string) : LedgerRow :=
  {| ledger_org_id := (billing_org m).1; entry_type := "topup"; ledger_amount_usd := purchase_usd p;
     reason := "Credit top-up"; source := "stripe"; source_ref := session; created_by := Some (billing_user m) |}.

(** The settings row the consent asks for. *)
Definition consented_row (m : BillingManager) (p : Purchase) (row : SettingsUpsert) : Prop :=
  exists threshold recharge, consent p = Some (threshold, recharge) /\ up_org_id row = (billing_org m).1 /\
    up_enabled row = true /\ (whole_dollars threshold -> up_threshold_usd row = Some threshold) /\
    (whole_dollars recharge -> up_amount_usd row = Some recharge).

Lemma number_text_read x : whole_dollars x ->
  (let y := to_number (number_text x) in if is_finite y then Some y else None) = Some x.
Proof.
  intros (n & -> & Hn). simpl. by rewrite number_text_of_Z, to_number_string, number_of_Z_finite.
Qed.
(** What the webhook may write for the purchase. *)
Definition as_asked (m : BillingManager) (p : Purchase) (session : string) (c : cmd hook_effects) : Prop :=
  match c with
  | SelectOrgId org => org = (billing_org m).1
  | InsertLedger row => row = owed m p session
  | UpsertSettings row => consented_row m p row
  | RpcUnlockOrg org => consent p <> None /\ org = (billing_org m).1
  | _ => True
  end.

Section credited.
Variables (e : env) (m : BillingManager) (p : Purchase) (origin : string) (s : Session) (c : Z).
Hypothesis Horg : (billing_org m).1 <> EmptyString.
Hypothesis Hamount : purchase_usd p = usd_of_cents c.
Hypothesis Hcents : 500 <= c <= 1000000.
Hypothesis Hpaid : paid_as_asked (checkout_params m p origin) s.
#[local] Abbreviation I := (fun (_ : list (event hook_effects)) c => as_asked m p (session_id s) c).

Lemma asked_amount : unit_amount (checkout_params m p origin) = Some c.
Proof. simpl. rewrite Hamount. apply cents_survive. lia. Qed.

Lemma asked_meta k : meta (session_metadata s) k = mget (checkout_metadata (checkout_params m p origin)) k.
Proof. by rewrite (asked_metadata _ _ Hpaid). Qed.

Lemma asked_row : topup_row s (billing_org m).1 c = owed m p (session_id s).
Proof. unfold topup_row, owed. rewrite asked_meta, Hamount. by destruct (consent p). Qed.

Lemma asked_settings (tr : list (event hook_effects)) :
  spec I (fun _ _ => True) tr (if bool_decide (meta (session_metadata s) "autorecharge" = Some "on")
      then persistAutoRecharge e s (billing_org m).1 else mret tt).
Proof.
  rewrite asked_meta. simpl checkout_metadata. destruct (consent p) as [[threshold recharge]|] eqn:Hc; [|done].
  change (mget _ "autorecharge") with (Some "on"). rewrite bool_decide_eq_true_2 by done.
  unfold persistAutoRecharge, unlockSpendOnCardSaved, spendUnlockRequirement, unlockSpendForOrg, StripeWebhook.or_throw,
    StripeWebhook.stripeClient.
  exec; try done; try (split; [congruence|done]).
  all: exists threshold, recharge; do 3 (split; [done|]); simpl; unfold finite_meta; rewrite !asked_meta;
    simpl checkout_metadata; rewrite Hc; split; intros; by apply number_text_read.
Qed.

Lemma credited :
  spec I (fun (tr : list (event hook_effects)) _ => exists r, @Ev hook_effects (SelectOrgId (billing_org m).1) r ∈ tr /\
      (error r = None -> data r <> None ->
       exists x, @Ev hook_effects (InsertLedger (owed m p (session_id s))) x ∈ tr)) [] (handleCheckoutCompleted e s).
Proof.
  unfold handleCheckoutCompleted. rewrite (asked_paid _ _ Hpaid), bool_decide_eq_true_2 by done. simpl negb.
  assert (our_topup s = true) as ->.
  { unfold our_topup. rewrite asked_meta, (asked_currency _ _ Hpaid). by destruct (consent p). }
  assert (subtotal_differs s = false) as ->.
  { unfold subtotal_differs. rewrite (asked_subtotal _ _ Hpaid), (asked_total _ _ Hpaid).
    destruct (unit_amount _); [|done]. by rewrite bool_decide_eq_true_2. }
  assert (session_org s = Some (billing_org m).1) as -> by (unfold session_org; by rewrite (asked_reference _ _ Hpaid)).
  rewrite (asked_total _ _ Hpaid), asked_amount. simpl positive_amount. rewrite decide_False by lia.
  assert (present (Some (billing_org m).1) = Some (billing_org m).1) as -> by (by apply present_Some).
  cbn [negb]. exec_cbn. split; [done|]. intros r.
  assert (forall tr : list (event hook_effects), @Ev hook_effects (SelectOrgId (billing_org m).1) r ∈ tr ->
    error r <> None \/ data r = None -> exists r, @Ev hook_effects (SelectOrgId (billing_org m).1) r ∈ tr /\
      (error r = None -> data r <> None ->
       exists x, @Ev hook_effects (InsertLedger (owed m p (session_id s))) x ∈ tr)) as Hno.
  { intros tr Hin Hr. exists r. split; [done|]. intros; tauto. }
  destruct (error r) eqn:He; [apply Hno; [in_trace|by left]|]. destruct (data r) eqn:Hd; [|apply Hno; [in_trace|by right]].
  rewrite asked_row. exec_cbn. split; [done|]. intros ins.
  set (tr := _ ++ [Ev _ ins]).
  assert (forall q, exists r, @Ev hook_effects (SelectOrgId (billing_org m).1) r ∈ tr ++ q /\
      (error r = None -> data r <> None ->
       exists x, @Ev hook_effects (InsertLedger (owed m p (session_id s))) x ∈ tr ++ q)) as Hyes.
  { intros q. exists r. split; [unfold tr|intros _ _; exists ins; unfold tr];
      (apply elem_of_app; left; in_trace). }
  clearbody tr. pose proof (Hyes []) as Hyes0. rewrite app_nil_r in Hyes0. destruct (match error ins with Some _ => _ | None => _ end); [done|].
  apply spec_bind. eapply spec_post; [apply spec_prefix, asked_settings|].
  intros tr' [[]|err] [[q ->] _]; [|apply Hyes]. destruct (match error ins with Some _ => true | None => false end); apply Hyes.
Qed.
End credited.

(** C3. What checkout asks for is what the webhook credits: a session that Stripe reports paid as it was
    asked for makes the webhook read exactly the purchase's organization and, when it exists, append
    one ledger row for it, of exactly the parsed dollar amount, in the name of the manager who started
    it; recharge settings are written, and spend is unlocked on the card, only for a purchase that
    opted in, for the same organization, enabled, and with the consented whole-dollar figures. *)
Theorem checkout_credited (e : env) m body p origin (s : Session) :
  (billing_org m).1 <> EmptyString -> parse_purchase body = inr p -> paid_as_asked (checkout_params m p origin) s ->
  spec (fun (_ : list (event hook_effects)) c => as_asked m p (session_id s) c)
    (fun (tr : list (event hook_effects)) _ => exists r, @Ev hook_effects (SelectOrgId (billing_org m).1) r ∈ tr /\
      (error r = None -> data r <> None ->
       exists x, @Ev hook_effects (InsertLedger (owed m p (session_id s))) x ∈ tr)) [] (handleCheckoutCompleted e s).
Proof.
  intros Horg Hp Hpaid. destruct (parse_purchase_amount _ _ Hp) as (c & Hc & Ha).
  by apply (credited e m p origin s c).
Qed.

(** ** The spend-alert tick *)
Section alerts.
Variable en_US : number -> string.
Variables (dryRun : bool) (EXPLABS_WEBAPP_URL : option string).

Definition due_rows tr (rows : list AlertRow) : Prop :=
  exists r, AlertsDue ↪ r ∈ tr /\ error r = None /\ rows = default [] (data r).

(** The email a claim asks for. *)
Definition claim_email (row : AlertRow) (m : Email) : Prop :=
  exists from now, m = alert_email en_US from (alert_input EXPLABS_WEBAPP_URL row now).

(** The mail service took the claim's email. *)
Definition accepted tr (row : AlertRow) : Prop :=
  exists key m r, Tenant (PostEmail key m) ↪ r ∈ tr /\ claim_email row m /\ mail_failure r = None.

Definition alert_licensed (trusted : bool) tr (c : cmd billing_effects) : Prop :=
  match c with
  | Tenant OpenServiceRole | AlertsDue => trusted = true
  | Tenant TenantClock | Tenant MailSettings => dryRun = false
  | Tenant (PostEmail _ m) => dryRun = false /\ exists rows row, due_rows tr rows /\ row ∈ rows /\ claim_email row m
  | MarkAlert id period failure =>
      exists rows row, due_rows tr rows /\ row ∈ rows /\ id = alert_id row /\ period = alert_period row /\
        if dryRun then failure = Some "dry run" else failure = None -> accepted tr row
  | _ => False
  end.

Definition mark_of (e : event billing_effects) : option (string * string * option string) :=
  match e with Ev (MarkAlert id period failure) _ => Some (id, period, failure) | _ => None end.

Definition marks tr : list (string * string * option string) := omap mark_of tr.

Definition sent (m : string * string * option string) : bool := bool_decide (m.2 = None).

(** How the tick ends: one mark per claim, in order, and the counts of the marks. *)
Definition settled tr (rows : list AlertRow) (resp : response) : Prop :=
  map fst (marks tr) = map (fun row => (alert_id row, alert_period row)) rows /\
  resp = processed rows
    (if dryRun then [("rows", JArr (map alert_row rows))]
     else [("delivered", JNum (number_of_Z (Z.of_nat (length (List.filter sent (marks tr))))));
           ("failed", JNum (number_of_Z (Z.of_nat (length (List.filter (fun m => negb (sent m)) (marks tr))))))]).

Lemma marks_app tr tr' : marks (tr ++ tr') = marks tr ++ marks tr'.
Proof. apply omap_app. Qed.

Lemma due_rows_app tr q rows : due_rows tr rows -> due_rows (tr ++ q) rows.
Proof. intros (r & Hr & ?). exists r. split; [apply elem_of_app; by left|done]. Qed.

(** The marks so far are those of the rows so far. *)
Definition marked (rows pre : list AlertRow) tr : Prop :=
  due_rows tr rows /\ map fst (marks tr) = map (fun row => (alert_id row, alert_period row)) pre.

Lemma marked_snoc rows pre row tr q failure x :
  marked rows pre tr -> marks q = [] ->
  marked rows (pre ++ [row]) ((tr ++ q) ++ [@Ev billing_effects (MarkAlert (alert_id row) (alert_period row) failure) x]).
Proof.
  intros [Hdue Hm] Hq. split; [by do 2 apply due_rows_app|].
  by rewrite !marks_app, Hq, app_nil_r, !map_app, Hm.
Qed.

Definition counted_marks tr (counts : Z * Z) : Prop :=
  counts = (Z.of_nat (length (List.filter sent (marks tr))), Z.of_nat (length (List.filter (fun m => negb (sent m)) (marks tr)))).

Lemma counted_snoc tr q counts id period failure x :
  counted_marks tr counts -> marks q = [] ->
  counted_marks ((tr ++ q) ++ [@Ev billing_effects (MarkAlert id period failure) x])
    (if failure is Some _ then (counts.1, counts.2 + 1) else (counts.1 + 1, counts.2)).
Proof.
  intros -> Hq. unfold counted_marks. rewrite !marks_app, Hq, app_nil_r, !List.filter_app, !length_app, !Nat2Z.inj_add.
  destruct failure; simpl; f_equal; lia.
Qed.

#[local] Abbreviation I := (alert_licensed true).

Lemma release_loop rows tr :
  dryRun = true -> due_rows tr rows -> marks tr = [] ->
  spec I (fun tr' o => match o with
      | Done _ => map fst (marks tr') = map (fun row => (alert_id row, alert_period row)) rows
      | Raised _ => False end) tr (for_of (fun (_ : unit) row => release row) rows tt).
Proof.
  intros Hdry Hdue Hnil. eapply spec_post.
  - apply (spec_for_of I (fun _ _ => False) (fun pre tr' (_ : unit) => marked rows pre tr')).
    + split; [done|]. by rewrite Hnil.
    + intros pre row post tr' s -> Hm. unfold release. exec_cbn. split.
      * destruct Hm as [Hd _]. exists (pre ++ row :: post), row. split; [done|]. split; [apply elem_of_app; right; left|].
        rewrite Hdry. done.
      * intros x. rewrite <- (app_nil_r tr'). by apply marked_snoc.
  - intros tr' [[]|e]; [|done]. by intros [_ H].
Qed.

Lemma deliver_step rows pre row post tr counts :
  dryRun = false -> rows = pre ++ row :: post -> marked rows pre tr -> counted_marks tr counts ->
  spec I (fun tr' o => match o with
      | Done counts' => marked rows (pre ++ [row]) tr' /\ counted_marks tr' counts'
      | Raised _ => False end) tr (deliver en_US EXPLABS_WEBAPP_URL counts row).
Proof.
  intros Hdry -> Hm Hc. set (rows := pre ++ row :: post) in *.
  assert (row ∈ rows) as Hin by (apply elem_of_app; right; left).
  assert (forall q, due_rows (tr ++ q) rows) as Hdue by (intros q; apply due_rows_app, Hm).
  unfold deliver, sendSpendAlertEmail. exec_cbn. split; [exact Hdry|]. intros now. exec_cbn. split; [exact Hdry|]. intros env.
  rewrite <- app_assoc. destruct (present env.1) as [key|] eqn:Hkey; exec_cbn.
  - split.
    { split; [done|]. exists rows, row. split; [apply Hdue|]. split; [done|]. by eexists _, now. }
    intros r. rewrite <- app_assoc. split.
    + exists rows, row. split; [apply Hdue|]. do 3 (split; [done|]). rewrite Hdry. intros Hr.
      eexists key, _, r. split; [apply elem_of_app; right; in_trace|]. split; [by eexists _, now|done].
    + intros x. split; [by apply marked_snoc|]. by apply counted_snoc.
  - split.
    + exists rows, row. split; [apply Hdue|]. do 3 (split; [done|]). by rewrite Hdry.
    + intros x. split; [by apply marked_snoc|]. by apply (counted_snoc _ _ _ _ _ (Some _)).
Qed.

Lemma tick_licensed rows tr :
  due_rows tr rows -> marks tr = [] ->
  spec I (fun tr' o => match o with Done resp => settled tr' rows resp | Raised _ => False end) tr
    (run_tick en_US EXPLABS_WEBAPP_URL dryRun rows).
Proof.
  intros Hdue Hnil. unfold run_tick. destruct dryRun eqn:Hdry.
  - apply spec_bind. eapply spec_post; [by apply release_loop|]. intros tr' [[]|e] H; [|done]. exec_cbn. split; [done|].
    by rewrite Hdry.
  - apply spec_bind. eapply spec_post.
    + apply (spec_for_of I (fun _ _ => False) (fun pre tr' counts => marked rows pre tr' /\ counted_marks tr' counts)).
      * split; [split; [done|by rewrite Hnil]|]. unfold counted_marks. by rewrite Hnil.
      * intros pre row post tr' counts Hrows [Hm Hc]. by eapply deliver_step.
    + intros tr' [counts|e] H; [|done]. destruct H as [[_ Hm] ->]. exec_cbn. split; [done|]. by rewrite Hdry.
Qed.
End alerts.

Definition reads_claims (e : event billing_effects) : bool := match e with Ev AlertsDue _ => true | _ => false end.

Definition dry_run (query : params) : bool := bool_decide (params_get query "dryRun" = Some "1").

(** C9. Every claim the spend-alert tick reads is reported exactly once: only the cron bearer makes it
    read; a real run mails each claim's own alert and nothing else, and marks each claim once, in
    order, as delivered only when the mail service took that claim's email; its answer counts the
    marks. A dry run mails nothing and gives every lease back. A run that raises has read no claim. *)
Theorem alerts_settled {Digest} `{EqDecision Digest} (sha256 : string -> Digest) en_US CRON_SECRET EXPLABS_WEBAPP_URL
    authorization query :
  let trusted := bearerMatchesCronSecret sha256 CRON_SECRET authorization in
  spec (alert_licensed en_US (dry_run query) EXPLABS_WEBAPP_URL trusted)
    (fun tr o => match o with
      | Done resp =>
          (trusted = false /\ resp = not_found) \/
          (exists r, AlertsDue ↪ r ∈ tr /\ error r <> None /\ resp = json_error "Reading due alerts failed." 500) \/
          (exists rows, due_rows tr rows /\ settled (dry_run query) tr rows resp)
      | Raised _ => marks tr = [] /\ Forall (fun e => reads_claims e = false) tr
      end) []
    (alerts_POST en_US sha256 CRON_SECRET EXPLABS_WEBAPP_URL authorization query).
Proof.
  intros trusted. unfold alerts_POST. fold trusted. clearbody trusted. destruct trusted; [|by left]. simpl negb. cbn iota.
  unfold service_role, on_tenant, TenantServices.createServiceRoleSupabaseClient, answered, raise_thrown.
  exec_cbn. split; [done|]. intros [e|[]]; exec_cbn.
  { split; [done|by repeat constructor]. }
  split; [done|]. intros due. destruct (error due) eqn:He.
  { right; left. exists due. split; [in_trace|]. split; [congruence|done]. }
  assert (forall q, due_rows (([] ++ [@Ev billing_effects (Tenant OpenServiceRole) (inr tt)]) ++ [@Ev billing_effects AlertsDue due] ++ q) (default [] (data due))) as Hdue.
  { intros q. rewrite app_assoc. apply due_rows_app. exists due. split; [in_trace|done]. }
  eapply spec_post; [apply spec_prefix, (tick_licensed en_US (dry_run query) EXPLABS_WEBAPP_URL (default [] (data due)))|].
  - pose proof (Hdue []) as H0. by rewrite app_nil_r in H0.
  - done.
  - intros tr' [resp|e] [[q ->] Hs]; [|done]. right; right. exists (default [] (data due)). split; [|done].
    rewrite <- app_assoc. apply Hdue.
Qed.

(** ** The recharge poller *)
Definition worker_event (e : event billing_effects) : option (event recharge_effects) :=
  match e with Ev (Worker c) x => Some (@Ev recharge_effects c x) | _ => None end.

Definition worker_events tr : list (event recharge_effects) := omap worker_event tr.

Definition poller_trusted (CRON_SECRET authorization : option string) : Prop :=
  exists secret, present CRON_SECRET = Some secret /\ authorization = Some ("Bearer " +:+ secret).

Definition poller_licensed (STRIPE_SECRET_KEY CRON_SECRET authorization : option string) tr (c : cmd billing_effects) : Prop :=
  poller_trusted CRON_SECRET authorization /\ present STRIPE_SECRET_KEY <> None /\
  match c with
  | Worker c => Tenant OpenServiceRole ↪ inr tt ∈ tr /\ licensed (worker_events tr) c
  | Tenant OpenServiceRole => True
  | _ => False
  end.

(** What a run's answer tells: the tally of the run's own events. *)
Definition run_answer tr (resp : response) : Prop :=
  resp_status resp <> 200 \/
  exists s, resp = json_response (JObj [("ok", JBool true); ("summary", summary_json s)]) /\
    claimed s = count is_win (worker_events tr) /\ charged s = count is_settled (worker_events tr) /\
    charged s + declined s + retryable s = count is_charge (worker_events tr).

(** A licence may rely on what already happened. *)
Lemma spec_since {A} (I : events -> cmd billing_effects -> Prop) Q tr0 tr (p : B A) :
  tr0 ⊆ tr -> spec (fun (t : events) c => tr0 ⊆ t -> I t c) Q tr p -> spec I Q tr p.
Proof.
  revert tr. induction p as [a|e|c k IH]; intros tr Hs H; simpl in *; [done..|].
  destruct H as [Hc Hk]. split; [auto|]. intros x. apply IH; [|apply Hk].
  intros e He. apply elem_of_app. left. auto.
Qed.

(** C7. The poller charges for nobody else: only the exact cron bearer, on a deployment with a Stripe key,
    starts a run; every charge of the run obeys the worker's licence; and the request is always
    answered, with 200 only for a completed run and the exact tally of that run's claims, charges
    and settlements. *)
Theorem poller_reports STRIPE_SECRET_KEY CRON_SECRET authorization :
  spec (poller_licensed STRIPE_SECRET_KEY CRON_SECRET authorization)
    (fun tr o => exists resp, o = Done resp /\ run_answer tr resp) []
    (poller_POST STRIPE_SECRET_KEY CRON_SECRET authorization).
Proof.
  assert (forall tr c message, c <> 200 -> exists resp : response, @Done billing_error _ (json_error message c) = Done resp /\ run_answer tr resp) as Hno
    by (intros tr c message Hc; eexists; split; [done|by left]).
  unfold poller_POST. destruct (present CRON_SECRET) as [secret|] eqn:Hs; [|by apply Hno].
  case_bool_decide as Ha; [|by apply Hno]. cbn [negb].
  assert (poller_trusted CRON_SECRET authorization) as Ht by (by exists secret).
  unfold stripeClient. destruct (present STRIPE_SECRET_KEY) as [key|] eqn:Hk; [|by apply Hno].
  unfold service_role, on_tenant, TenantServices.createServiceRoleSupabaseClient, answered, raise_thrown.
  exec_cbn. split; [by unfold poller_licensed; rewrite Hk|]. intros [e|[]]; exec_cbn; [by apply Hno|].
  apply spec_try, spec_bind. eapply spec_post.
  - eapply (spec_since _ _ [@Ev billing_effects (Tenant OpenServiceRole) (inr tt)]); [done|].
    eapply (spec_embed (E := recharge_effects) (F := billing_effects) Worker (fun c x => x)
      (fun e => AppFailed (DataSourceError (OtherError e))) worker_events
      ltac:(intros; unfold worker_events; by rewrite omap_app) licensed); [|apply process_spec].
    intros tr c Hc Hs'. split; [done|]. split; [congruence|]. split; [|done]. apply Hs'. left.
  - intros tr [s|e] [_ H]; exec_cbn.
    + destruct H as (_ & _ & _ & _ & H1 & H2 & H3 & _). eexists. split; [done|]. right. exists s. done.
    + destruct e; by apply Hno.
Qed.

(** ** Concrete runs *)
Module Demo.
Definition manager : BillingManager :=
  {| billing_org := ("o1", "Acme"); billing_user := "u1"; billing_operator := false |}.

Definition body : json :=
  JObj [("amount_usd", JNum 25.5); ("auto_recharge", JObj [("enabled", JBool true); ("threshold_usd", JNum 20)])].

Definition purchase : Purchase := {| purchase_usd := 25.5; consent := Some (20%float, 5%float) |}.

Definition params : CheckoutParams := checkout_params manager purchase "https://x.test".

Definition session : Session :=
  {| session_id := "cs_1"; payment_status := "paid"; session_metadata := Some (checkout_metadata params);
     session_currency := Some "usd"; amount_subtotal := Some 2550; amount_total := Some 2550;
     client_reference_id := Some "o1"; session_payment_intent := RefId "pi_1"; session_customer := RefId "cus_1";
     customer_email := None |}.

Definition environment : env :=
  {| STRIPE_SECRET_KEY := Some "sk"; STRIPE_WEBHOOK_SECRET := Some "wh"; StripeWebhook.EXPLABS_WEBAPP_URL := None |}.

Example parsed_amounts :
  map parseTopupAmountUsd [None; Some (JStr "5"); Some (JNum 4.99); Some (JNum 5); Some (JNum 19.999); Some (JNum 10000.01); Some (JNum 0.1)] =
  [inl "amount_usd must be a number."; inl "amount_usd must be a number."; inl "amount_usd must be between $5 and $10,000.";
   inr 5%float; inl "amount_usd must be a whole number of cents."; inl "amount_usd must be between $5 and $10,000.";
   inl "amount_usd must be between $5 and $10,000."] /\
  parseAutoRechargeThresholdUsd (Some (JNum 0)) = inr 0%float.
Proof. by vm_compute. Qed.

Example asked : unit_amount params = Some 2550 /\
  product_description params = "$25.50 of prepaid serving and optimization credit for Acme" /\
  straightLineMonthProjection 1000000 1772323200000 = 31000000%float.
Proof. by vm_compute. Qed.
End Demo.

Lemma checkout_credited_witness :
  spec (fun (_ : list (event hook_effects)) c => as_asked Demo.manager Demo.purchase "cs_1" c)
    (fun (tr : list (event hook_effects)) _ => exists r, @Ev hook_effects (SelectOrgId "o1") r ∈ tr /\
      (error r = None -> data r <> None ->
       exists x, @Ev hook_effects (InsertLedger (owed Demo.manager Demo.purchase "cs_1")) x ∈ tr)) []
    (handleCheckoutCompleted Demo.environment Demo.session).
Proof.
  apply (checkout_credited Demo.environment Demo.manager Demo.body Demo.purchase "https://x.test" Demo.session).
  - done.
  - vm_compute. reflexivity.
  - split; vm_compute; reflexivity.
Defined.

Lemma topup_exact_witness :
  parseTopupAmountUsd (Some (JNum (usd_of_cents 1999))) = inr (usd_of_cents 1999) /\
  math_round (usd_of_cents 1999 * 100)%float = Some 1999.
Proof. apply (topup_exact 0%float). lia. Defined.
