(* ===== verification/AuthCallback.v ===== *)
(** * Completing a sign-in (app/auth/callback/route.ts)

    The browser-bound end of the OAuth and email-link flows: establish a session, refuse it when it
    would seat a duplicate or unprovisioned account, unlock spending once the inbox is proved, and
    hand a recovery flow its ticket. With the helpers the route calls: lib/auth/admin.ts
    (deleteUnprovisionedUser), lib/auth/signin-methods.ts, lib/auth/password-recovery.ts. *)

From S2P Require Import Prelude JsMap JsString JsSort JsDate JsNumber Effects Url QueryStrings Json.
From S2P Require Import Services Routes Access StripeWebhook.

#[local] Open Scope Z_scope.

(** ** lib/auth/password-recovery.ts

    [sign] is the keyed digest (HMAC-SHA-256 of the service-role key, in base64url), [bytes] the
    decoding of a base64url text, [claims_of] the JSON value of a token's middle part, [None] where
    parsing throws. *)
Definition PASSWORD_RECOVERY_TTL_SECONDS : Z := 60 * 60.

Record RecoverySessionIdentity := { recovery_user : string; recovery_session : string }.

Definition recoverySessionIdentity (claims : json) : option RecoverySessionIdentity :=
  match jget_str claims "sub", jget_str claims "session_id" with
  | Some sub, Some sessionId => Some {| recovery_user := sub; recovery_session := sessionId |}
  | _, _ => None
  end.

Definition recovery_message (identity : RecoverySessionIdentity) (expiresAt : Z) : string :=
  "password-recovery:" +:+ recovery_user identity +:+ ":" +:+ recovery_session identity +:+ ":"
    +:+ string_of_Z expiresAt.

(** [Number(s)] where it is a safe integer. *)
Definition safe_integer (s : string) : option Z :=
  n ← match decimal_Z (trim s) with
      | Some n => Some n
      | None => match Prim2SF (to_number s) with
                | SpecFloat.S754_zero _ => Some 0
                | SpecFloat.S754_finite neg m e =>
                    let z := if neg then - Z.pos m else Z.pos m in
                    if decide (0 <= e) then Some (z * 2 ^ e)
                    else if decide (z mod 2 ^ (- e) = 0) then Some (z / 2 ^ (- e)) else None
                | _ => None
                end
      end;
  if decide (Z.abs n <= 2 ^ 53 - 1) then Some n else None.

Section recovery.
Context {Bytes : Type} `{EqDecision Bytes}.
Variables (sign : string -> string) (bytes : string -> Bytes) (claims_of : string -> option json).

Definition sessionIdFromAccessToken (accessToken : option string) : option string :=
  token ← accessToken;
  payload ← present (split_on "." token !! 1%nat);
  claims ← claims_of payload;
  recovery_session <$> recoverySessionIdentity claims.

Definition createPasswordRecoveryTicket (identity : RecoverySessionIdentity) (now : Z) : string :=
  let expiresAt := now / 1000 + PASSWORD_RECOVERY_TTL_SECONDS in
  string_of_Z expiresAt +:+ "." +:+ sign (recovery_message identity expiresAt).

(** Buffers are compared by length first, then in constant time: equality. *)
Definition verifyPasswordRecoveryTicket (ticket : option string)
    (identity : RecoverySessionIdentity) (now : Z) : bool :=
  match ticket with
  | None => false
  | Some t =>
      match split_on "." t with
      | rawExpiresAt :: rest =>
          match rest !! 1%nat, safe_integer rawExpiresAt with
          | None, Some expiresAt =>
              if decide (expiresAt <= now / 1000) then false
              else bool_decide (bytes (sign (recovery_message identity expiresAt)) =
                                bytes (default EmptyString (rest !! 0%nat)))
          | _, _ => false
          end
      | [] => false
      end
  end.
End recovery.

(** ** The services the route calls *)
Record auth_user := {
  user_id : string;
  email : option string;
  created_at : option string;
  identity_providers : list (option string);
}.

(** [{ data: { user, session }, error }]. *)
Record auth_result := {
  auth_error : option Thrown;
  auth_user_of : option auth_user;
  access_token : option string;
}.

Inductive callback_cmd :=
| Hook (c : hook_cmd)
| OpenRoute
| ExchangeCode (code : string)
| VerifyOtp (token_hash type : string)
| SignOut
| CountOwnMemberships (user : string)
| CountMemberships (user : string)
| DeleteUser (user : string)
| RpcSigninMethods (check_email : string).

Definition callback_ans (c : callback_cmd) : Type :=
  match c with
  | Hook c => hook_ans c
  | OpenRoute => Thrown + unit
  | ExchangeCode _ | VerifyOtp _ _ => Thrown + auth_result
  | SignOut => Thrown + option Thrown
  | CountOwnMemberships _ | CountMemberships _ => Thrown + db_result Z
  | DeleteUser _ => Thrown + unit
  | RpcSigninMethods _ => Thrown + db_result json
  end.

Definition callback_effects : effects := Effects callback_cmd callback_ans.

Abbreviation C := (prog callback_effects RouteError).
Abbreviation ask c := (@call callback_effects RouteError c).

Definition or_throw {A} (r : Thrown + A) : C A :=
  match r with inl e => Throw (RouteThrown e) | inr x => mret x end.

(** The helpers written over the webhook's services. *)
Definition on_hook {A} (p : prog hook_effects RouteError A) : C A :=
  embed (E := hook_effects) (F := callback_effects) Hook (fun c x => x) (fun e => e) p.

Definition createServiceRoleSupabaseClient : C unit :=
  r ← ask (Hook OpenAdmin); or_throw r.

(** ** lib/auth/admin.ts and lib/auth/signin-methods.ts *)
Definition deleteUnprovisionedUser (userId : string) : C unit :=
  try_catch
    (_ ← createServiceRoleSupabaseClient;
     r ← ask (CountMemberships userId);
     r ← or_throw r;
     if bool_decide (error r <> None) || bool_decide (0 < default 0 (data r)) then mret tt
     else d ← ask (DeleteUser userId); or_throw d)
    (fun _ => mret tt).

Definition typed_strings (l : list json) : list string := omap jstr l.

Definition signinMethodsForEmail (check_email : string) : C (option (list string)) :=
  try_catch
    (r ← ask (RpcSigninMethods check_email);
     r ← or_throw r;
     match error r, data r ≫= jarr with
     | None, Some methods => mret (Some (typed_strings methods))
     | _, _ => mret None
     end)
    (fun _ => mret None).

(** ** The route *)
Definition FRESH_SIGNUP_WINDOW_MS : Z := 10 * 60 * 1000.

(** [now - new Date(created).getTime() < FRESH_SIGNUP_WINDOW_MS]; [NaN] compares false. *)
Definition is_fresh (now : Z) (created : string) : bool :=
  match parse_timestamp created with
  | Some t => bool_decide (now - t < FRESH_SIGNUP_WINDOW_MS)
  | None => false
  end.

Inductive OAuthUserClassification := Safe | Duplicate | Unverifiable.

Definition own_providers (user : auth_user) : list string := omap id (identity_providers user).

Definition classifyOAuthUser (user : option auth_user) : C OAuthUserClassification :=
  match user with
  | None => mret Safe
  | Some u =>
      match email u, created_at u with
      | Some email, Some createdAt =>
          now ← ask (Hook Clock);
          if negb (is_fresh now createdAt) then mret Safe
          else
            methods ← try_catch (_ ← createServiceRoleSupabaseClient; signinMethodsForEmail email)
                        (fun _ => mret None);
            match methods with
            | None => mret Unverifiable
            | Some methods =>
                if existsb (fun m => bool_decide (m ∉ own_providers u)) methods
                then mret Duplicate else mret Safe
            end
      | _, _ => mret Safe
      end
  end.

Inductive login_error := AccountExists | OauthFailed | InviteInvalid | SignupDisabled.

Definition login_error_code (e : login_error) : string :=
  match e with
  | AccountExists => "account_exists"
  | OauthFailed => "oauth_failed"
  | InviteInvalid => "invite_invalid"
  | SignupDisabled => "signup_disabled"
  end.

Definition conflictCodes : list string :=
  ["email_exists"; "user_already_exists"; "identity_already_exists"; "manual_linking_disabled"].

Definition classifyProviderError (err : string) (errorCode errorDescription : option string) :
    login_error :=
  let haystack := to_lower (err +:+ " " +:+ default EmptyString errorDescription) in
  if existsb (fun c => bool_decide (errorCode = Some c)) conflictCodes then AccountExists
  else if includes "already registered" haystack || includes "already exists" haystack
          || includes "already been registered" haystack
          || includes "identity is already linked" haystack
  then AccountExists else OauthFailed.

(** The redirect the browser gets: where to, and the recovery ticket cookie if one is set. *)
Inductive callback_location := ToApp (next : string) | ToSignin (e : login_error).

Record callback_response := { location : callback_location; recovery_cookie : option string }.

(** [redirectToLoginError]: the location the browser is sent to. *)
Definition location_reference (l : callback_location) : string :=
  match l with
  | ToApp next => next
  | ToSignin e => signinPath +:+ "?" +:+ params_string [("error", login_error_code e)]
  end.

Definition redirectToLoginError (e : login_error) : C callback_response :=
  mret {| location := ToSignin e; recovery_cookie := None |}.

Definition refused {A} (e : login_error) : C (callback_response + A) :=
  r ← redirectToLoginError e; mret (inl r).

(** What establishing the session yields: an early redirect, or who signed in. *)
Record established := {
  est_user : option string;
  est_created_at : option string;
  est_recovery : option string;
}.

Section route.
Context {Bytes : Type} (sign : string -> string) (claims_of : string -> option json).
Variable SUPABASE_SERVICE_ROLE_KEY : option string.

(** [await supabase.auth.signOut()]: its [{ error }] is not looked at. *)
Definition signOut : C unit := r ← ask SignOut; _ ← or_throw r; mret tt.

(** The code and email-link branches. *)
Definition establish (code tokenHash otpType : option string) : C (callback_response + established) :=
  match present code, present tokenHash, present otpType with
  | Some code, _, _ =>
      r ← ask (ExchangeCode code);
      r ← or_throw r;
      if bool_decide (auth_error r <> None) then refused OauthFailed
      else
        let user := auth_user_of r in
        let userId := user_id <$> user in
        c ← classifyOAuthUser user;
        match c with
        | Duplicate =>
            _ ← signOut;
            _ ← match userId with Some id => deleteUnprovisionedUser id | None => mret tt end;
            refused AccountExists
        | Unverifiable => _ ← signOut; refused OauthFailed
        | Safe => mret (inr {| est_user := userId; est_created_at := user ≫= created_at;
                               est_recovery := None |})
        end
  | None, Some tokenHash, Some otpType =>
      r ← ask (VerifyOtp tokenHash otpType);
      r ← or_throw r;
      if bool_decide (auth_error r <> None) then refused InviteInvalid
      else
        let user := auth_user_of r in
        let who recovery := {| est_user := user_id <$> user; est_created_at := user ≫= created_at;
                               est_recovery := recovery |} in
        if bool_decide (otpType = "recovery") then
          match sessionIdFromAccessToken claims_of (access_token r) with
          | None => _ ← signOut; refused InviteInvalid
          | Some sessionId => mret (inr (who (Some sessionId)))
          end
        else mret (inr (who None))
  | _, _, _ => mret (inr {| est_user := None; est_created_at := None; est_recovery := None |})
  end.

(** [createPasswordRecoveryTicket] with its clock and its required key. *)
Definition issue_ticket (identity : RecoverySessionIdentity) : C string :=
  now ← ask (Hook Clock);
  match present SUPABASE_SERVICE_ROLE_KEY with
  | None => Throw (RouteThrown (new_Error "SUPABASE_SERVICE_ROLE_KEY must be set for password recovery."))
  | Some _ => mret (createPasswordRecoveryTicket sign identity now)
  end.

(** From the provisioning gate on. *)
Definition admit_user (next userId : string) (createdAt recovery : option string) :
    C callback_response :=
  r ← ask (CountOwnMemberships userId);
  r ← or_throw r;
  if bool_decide (error r <> None) then _ ← signOut; redirectToLoginError OauthFailed
  else
    isFreshSignup ←
      (if bool_decide (default 0 (data r) = 0) then
         match createdAt with
         | Some c => now ← ask (Hook Clock); mret (is_fresh now c)
         | None => mret false
         end
       else mret false);
    if (isFreshSignup : bool) then
      _ ← signOut; _ ← deleteUnprovisionedUser userId; redirectToLoginError SignupDisabled
    else
      _ ← createServiceRoleSupabaseClient;
      _ ← on_hook (unlockSpendOnInboxProof userId);
      match recovery with
      | Some sessionId =>
          ticket ← issue_ticket {| recovery_user := userId; recovery_session := sessionId |};
          mret {| location := ToApp next; recovery_cookie := Some ticket |}
      | None => mret {| location := ToApp next; recovery_cookie := None |}
      end.

Definition GET (q : params) : C callback_response :=
  let next := safeNextPath (params_get q "next") in
  r ← ask OpenRoute;
  _ ← or_throw r;
  match params_get q "error" with
  | Some providerError =>
      redirectToLoginError
        (classifyProviderError providerError (params_get q "error_code")
          (params_get q "error_description"))
  | None =>
      e ← establish (params_get q "code") (params_get q "token_hash") (params_get q "type");
      match e with
      | inl resp => mret resp
      | inr who =>
          match present (est_user who) with
          | None => redirectToLoginError OauthFailed
          | Some userId => admit_user next userId (est_created_at who) (est_recovery who)
          end
      end
  end.
End route.

(** ** What the events say *)
Abbreviation events := (list (event callback_effects)).
Notation "c ↦ x ∈ tr" := (@Ev callback_effects c x ∈ tr) (at level 70, x at level 50).

Implicit Types (tr : events) (u : auth_user).

(** The account an event established a session for. *)
Definition seated_by (e : event callback_effects) : option auth_user :=
  match e with
  | Ev (ExchangeCode _) (inr r) | Ev (VerifyOtp _ _) (inr r) =>
      match auth_error r with None => auth_user_of r | Some _ => None end
  | _ => None
  end.

Definition session_of tr u : Prop := exists e, e ∈ tr /\ seated_by e = Some u.

(** Were it exchanged for a code, the account is not a fresh duplicate of another: it is not fresh by
    the clock, or every provider registered for its address is its own. *)
Definition undisputed tr u : Prop :=
  forall address created, email u = Some address -> created_at u = Some created ->
    (exists now, Hook Clock ↦ now ∈ tr /\ is_fresh now created = false) \/
    (exists r l, RpcSigninMethods address ↦ inr r ∈ tr /\ error r = None /\
      data r ≫= jarr = Some l /\ forall m, m ∈ typed_strings l -> m ∈ own_providers u).

(** The account is a member somewhere, or is not a fresh signup. *)
Definition provisioned tr u : Prop :=
  exists r, CountOwnMemberships (user_id u) ↦ inr r ∈ tr /\ error r = None /\
    (default 0 (data r) <> 0 \/
     forall created, created_at u = Some created ->
       exists now, Hook Clock ↦ now ∈ tr /\ is_fresh now created = false).

Definition is_exchange (e : event callback_effects) : bool :=
  match e with Ev (ExchangeCode _) _ => true | _ => false end.

Definition is_sign_out (e : event callback_effects) : bool :=
  match e with Ev SignOut _ => true | _ => false end.

Definition exchanged tr : Prop := exists e, e ∈ tr /\ is_exchange e = true.

Definition kept tr : Prop := Forall (fun e => is_sign_out e = false) tr.

Definition admitted tr u : Prop :=
  session_of tr u /\ (exchanged tr -> undisputed tr u) /\ provisioned tr u /\ user_id u <> "" /\ kept tr.

(** What a command needs of the events before it. *)
Definition licensed tr (c : cmd callback_effects) : Prop :=
  match c with
  | Hook (RpcUnlockFounder id) => exists u, user_id u = id /\ admitted tr u
  | DeleteUser id =>
      (exists x, SignOut ↦ inr x ∈ tr) /\
      exists tr0 r, tr = tr0 ++ [@Ev callback_effects (CountMemberships id) (inr r)] /\
        error r = None /\ default 0 (data r) <= 0
  | _ => True
  end.

(** Events that neither seat nor end a session. *)
Definition quiet (e : event callback_effects) : Prop :=
  match e with Ev (Hook _) _ | Ev (RpcSigninMethods _) _ => True | _ => False end.

Definition quietly tr tr' : Prop := exists q, tr' = tr ++ q /\ Forall quiet q.

(** ** Lemmas *)
Lemma quietly_refl tr : quietly tr tr.
Proof. exists []. by rewrite app_nil_r. Qed.

Lemma quietly_snoc tr tr' e : quietly tr tr' -> quiet e -> quietly tr (tr' ++ [e]).
Proof.
  intros (q & -> & Hq) He. exists (q ++ [e]). rewrite app_assoc. split; [done|].
  by apply Forall_snoc.
Qed.

Lemma quietly_trans tr1 tr2 tr3 : quietly tr1 tr2 -> quietly tr2 tr3 -> quietly tr1 tr3.
Proof.
  intros (q & -> & ?) (q' & -> & ?). exists (q ++ q'). rewrite app_assoc.
  split; [done|by apply Forall_app].
Qed.

Ltac quietly := repeat (apply quietly_snoc; [|exact Logic.I]); apply quietly_refl.

Lemma quietly_elem tr tr' e : quietly tr tr' -> e ∈ tr -> e ∈ tr'.
Proof. intros (q & -> & _) ?. apply elem_of_app; by left. Qed.

Lemma quietly_elem_inv tr tr' e : quietly tr tr' -> ~ quiet e -> e ∈ tr' -> e ∈ tr.
Proof.
  intros (q & -> & Hq) He [?|Hin]%elem_of_app; [done|]. rewrite Forall_forall in Hq.
  by apply Hq in Hin.
Qed.

Lemma session_quietly tr tr' u : quietly tr tr' -> session_of tr u <-> session_of tr' u.
Proof.
  intros Hq. split; intros (e & He & Hs); exists e; (split; [|done]).
  - by eapply quietly_elem.
  - eapply quietly_elem_inv; [done| |done]. intros Hc. destruct e as [[] ?]; simpl in *; done.
Qed.

Lemma exchanged_quietly tr tr' : quietly tr tr' -> exchanged tr' -> exchanged tr.
Proof.
  intros Hq (e & He & Hs). exists e. split; [|done]. eapply quietly_elem_inv; [done| |done].
  intros Hc. destruct e as [[] ?]; simpl in *; done.
Qed.

Lemma kept_quietly tr tr' : quietly tr tr' -> kept tr -> kept tr'.
Proof.
  intros (q & -> & Hq) Hk. apply Forall_app. split; [done|]. eapply Forall_impl; [exact Hq|].
  intros [[] ?] Hc; simpl in Hc; done.
Qed.

Lemma undisputed_quietly tr tr' u : quietly tr tr' -> undisputed tr u -> undisputed tr' u.
Proof.
  intros Hq Hd a c Ha Hc. destruct (Hd a c Ha Hc) as [(now & Hn & ?)|(r & l & Hr & ?)].
  - left. exists now. split; [by eapply quietly_elem|done].
  - right. exists r, l. split; [by eapply quietly_elem|done].
Qed.

Lemma admitted_quietly tr tr' u : quietly tr tr' -> admitted tr u -> admitted tr' u.
Proof.
  intros Hq (Hs & Hd & Hp & Hid & Ho). unfold admitted. rewrite <- session_quietly by done.
  split; [done|]. split; [|split; [|split]]; [| |done|by eapply kept_quietly].
  - intros Hex. eapply undisputed_quietly; [done|]. eapply Hd, exchanged_quietly; eauto.
  - destruct Hp as (r & Hr & He & Hc). exists r. split; [by eapply quietly_elem|].
    split; [done|]. destruct Hc as [?|Hc]; [by left|right]. intros c Hcr.
    destruct (Hc c Hcr) as (now & Hn & ?). exists now. split; [by eapply quietly_elem|done].
Qed.

Lemma no_foreign_provider u methods :
  existsb (fun m => bool_decide (m ∉ own_providers u)) methods = false ->
  forall m, m ∈ methods -> m ∈ own_providers u.
Proof.
  intros H m Hm. apply not_true_iff_false in H. rewrite existsb_bool_decide in H.
  destruct (decide (m ∈ own_providers u)); [done|]. destruct H. by exists m.
Qed.

(** Classifying asks only quiet services, and calls safe only an undisputed account. *)
Lemma classify_spec tr user :
  spec licensed (fun tr' o => exists c, o = Done c /\ quietly tr tr' /\
    (c = Safe -> forall u, user = Some u -> undisputed tr' u)) tr (classifyOAuthUser user).
Proof.
  unfold classifyOAuthUser. destruct user as [u|]; [|exec; eexists; repeat split; [quietly|done]].
  destruct (email u) as [a|] eqn:Ha; [|exec; eexists; repeat split; [quietly|]; intros _ ? [=<-] ???; congruence].
  destruct (created_at u) as [c|] eqn:Hc;
    [|exec; eexists; repeat split; [quietly|]; intros _ ? [=<-] ???; congruence].
  exec_cbn. split; [done|]. intros now. destruct (is_fresh now c) eqn:Hf; exec_cbn.
  2: { eexists; repeat split; [quietly|]. intros _ ? [=<-] a' c' ??. left. exists now.
       split; [in_trace|congruence]. }
  unfold signinMethodsForEmail, createServiceRoleSupabaseClient, or_throw. exec.
  all: eexists; repeat split; [quietly|]; intros [=] ? [=<-] a' c' ??; try done.
  right. eexists _, _. repeat split; [|by eauto..|by apply no_foreign_provider].
  assert (a' = a) as -> by congruence. in_trace.
Qed.

(** Deleting an account first sees, as the service role, that it has no membership. *)
Lemma delete_spec tr id x :
  SignOut ↦ inr x ∈ tr ->
  spec licensed (fun tr' o => o = Done tt /\ exists q, tr' = tr ++ q) tr (deleteUnprovisionedUser id).
Proof.
  intros Hx. unfold deleteUnprovisionedUser, createServiceRoleSupabaseClient, or_throw. exec.
  all: try (match goal with |- Done ?v = _ /\ _ => try destruct v end;
    split; [done|]; eexists; rewrite <- ?app_assoc; reflexivity).
  bool_simpl. split; [exists x; do 2 (apply elem_of_app; left); done|].
  eexists _, d. split; [reflexivity|]. split; [by apply dec_stable|lia].
Qed.

(** Unlocking is quiet, needs an admitted account, and cannot fail. *)
Lemma unlock_spec tr u :
  admitted tr u ->
  spec licensed (fun tr' o => o = Done tt /\ quietly tr tr') tr
    (on_hook (unlockSpendOnInboxProof (user_id u))).
Proof.
  intros Hu. unfold on_hook, unlockSpendOnInboxProof, spendUnlockRequirement, unlockSpendForUser,
    StripeWebhook.or_throw. exec.
  all: try (split; [done|quietly]).
  all: try (exists u; split; [done|]; eapply admitted_quietly; [quietly|done]).
Qed.

(** No session stands: it was signed out, or none was established for a named account. *)
Definition unseated tr : Prop :=
  SignOut ↦ inr None ∈ tr \/ forall u, session_of tr u -> user_id u = "".

(** The sign-out itself answered an error, which leaves the session it was to end. *)
Definition sign_out_failed tr : Prop := exists e, SignOut ↦ inr (Some e) ∈ tr.

Lemma signed_out tr (x : option Thrown) : SignOut ↦ inr x ∈ tr -> unseated tr \/ sign_out_failed tr.
Proof. destruct x as [e|]; intros H; [right; by exists e|by left; left]. Qed.

Section route_lemmas.
Context (sign : string -> string) (claims_of : string -> option json) (key : option string).

(** A recovery flow's session: from a recovery link, with the session its token names. *)
Definition recovers tr (sessionId : string) : Prop :=
  exists h r, VerifyOtp h "recovery" ↦ inr r ∈ tr /\
    sessionIdFromAccessToken claims_of (access_token r) = Some sessionId.

Definition establish_post tr (o : outcome RouteError (callback_response + established)) : Prop :=
  match o with
  | Done (inl resp) =>
      (exists e, location resp = ToSignin e) /\ recovery_cookie resp = None /\
      (unseated tr \/ sign_out_failed tr)
  | Done (inr who) =>
      kept tr /\ (forall s, est_recovery who = Some s -> recovers tr s) /\
      (forall u, session_of tr u ->
        est_user who = Some (user_id u) /\ est_created_at who = created_at u /\
        (exchanged tr -> undisputed tr u)) /\
      (forall id, est_user who = Some id -> exists u, session_of tr u)
  | Raised _ => True
  end.

Definition opened : events := [@Ev callback_effects OpenRoute (inr tt)].

Lemma session_of_first e u : session_of (opened ++ [e]) u <-> seated_by e = Some u.
Proof.
  unfold session_of, opened. split.
  - intros (e' & Hin & Hu). apply elem_of_cons in Hin as [->|Hin]; [done|].
    apply elem_of_cons in Hin as [->|Hin]; [done|]. by apply elem_of_nil in Hin.
  - intros Hu. exists e. split; [right; left|done].
Qed.

Lemma kept_first e : is_sign_out e = false -> kept (opened ++ [e]).
Proof. intros He. unfold kept, opened. by repeat constructor. Qed.

(** The code branch: a session is kept only for an undisputed account. *)
Lemma establish_code c r :
  let tr := opened ++ [@Ev callback_effects (ExchangeCode c) (inr r)] in
  auth_error r = None ->
  spec licensed establish_post tr
    (cl ← classifyOAuthUser (auth_user_of r);
     match cl with
     | Duplicate =>
         _ ← signOut;
         _ ← match user_id <$> auth_user_of r with
             | Some id => deleteUnprovisionedUser id
             | None => mret tt
             end;
         refused AccountExists
     | Unverifiable => _ ← signOut; refused OauthFailed
     | Safe => mret (inr {| est_user := user_id <$> auth_user_of r;
                            est_created_at := auth_user_of r ≫= created_at;
                            est_recovery := None |})
     end).
Proof.
  intros tr He. apply spec_bind. eapply spec_post; [apply classify_spec|].
  intros tr' o (cl & -> & Hq & Hsafe). unfold signOut, refused, redirectToLoginError, or_throw.
  destruct cl; exec_cbn.
  - split; [by apply (kept_quietly _ _ Hq), kept_first|]. split; [done|]. split.
    + intros u Hu. apply (session_quietly _ _ _ Hq), session_of_first in Hu. simpl in Hu.
      rewrite He in Hu. rewrite Hu. split; [done|]. split; [done|]. intros _. by apply Hsafe.
    + intros id Hid. destruct (auth_user_of r) as [u|] eqn:Hu; [|done]. exists u.
      apply (session_quietly _ _ _ Hq), session_of_first. simpl. by rewrite He.
  - split; [done|]. intros [e|x]; exec_cbn; [done|]. apply spec_bind.
    assert (SignOut ↦ inr x ∈ tr' ++ [@Ev callback_effects SignOut (inr x)]) as Hx by in_trace.
    destruct (user_id <$> auth_user_of r); exec_cbn.
    + eapply spec_post; [by eapply delete_spec|]. intros tr2 o (-> & q & ->). exec_cbn.
      split; [by eexists|]. split; [done|]. apply (signed_out _ x). apply elem_of_app. by left.
    + split; [by eexists|]. split; [done|]. by apply (signed_out _ x).
  - split; [done|]. intros [e|x]; exec_cbn; [done|].
    split; [by eexists|]. split; [done|]. apply (signed_out _ x). in_trace.
Qed.

(** The email-link branch: a recovery link keeps its session only with the session named. *)
Lemma establish_link h t r :
  auth_error r = None ->
  spec licensed establish_post (opened ++ [@Ev callback_effects (VerifyOtp h t) (inr r)])
    (let who recovery := {| est_user := user_id <$> auth_user_of r;
                            est_created_at := auth_user_of r ≫= created_at;
                            est_recovery := recovery |} in
     if bool_decide (t = "recovery") then
       match sessionIdFromAccessToken claims_of (access_token r) with
       | None => _ ← signOut; refused InviteInvalid
       | Some sessionId => mret (inr (who (Some sessionId)))
       end
     else mret (inr (who None))).
Proof.
  intros He. cbv zeta.
  assert (forall recovery,
    (forall s, recovery = Some s ->
      recovers (opened ++ [@Ev callback_effects (VerifyOtp h t) (inr r)]) s) ->
    establish_post (opened ++ [@Ev callback_effects (VerifyOtp h t) (inr r)])
      (Done (inr {| est_user := user_id <$> auth_user_of r;
                    est_created_at := auth_user_of r ≫= created_at; est_recovery := recovery |})))
    as Hkeep.
  { intros recovery Hr. split; [by apply kept_first|]. split; [done|]. split.
    - intros u Hu%session_of_first. simpl in Hu. rewrite He in Hu. rewrite Hu.
      split; [done|]. split; [done|]. intros (e & Hin & Hx).
      apply elem_of_cons in Hin as [->|Hin]; [done|].
      apply elem_of_cons in Hin as [->|Hin]; [done|]. by apply elem_of_nil in Hin.
    - intros id Hid. destruct (auth_user_of r) as [u|] eqn:Hu; [|done]. exists u.
      apply session_of_first. simpl. by rewrite He. }
  case_bool_decide as Ht; [|by apply Hkeep]. subst t.
  destruct (sessionIdFromAccessToken claims_of (access_token r)) as [s|] eqn:Hs.
  - apply Hkeep. intros ? [=<-]. exists h, r. split; [in_trace|done].
  - unfold signOut, refused, redirectToLoginError, or_throw. exec_cbn. split; [done|].
    intros [e|x]; exec_cbn; [done|]. split; [by eexists|]. split; [done|]. apply (signed_out _ x). in_trace.
Qed.

Lemma establish_none :
  spec licensed establish_post opened
    (mret (inr {| est_user := None; est_created_at := None; est_recovery := None |})).
Proof.
  split; [by repeat constructor|]. split; [done|]. split; [|done].
  intros u (e & Hin & Hu). apply elem_of_cons in Hin as [->|Hin]; [done|].
  by apply elem_of_nil in Hin.
Qed.

Lemma refused_post e tr :
  (forall u, ~ session_of tr u) -> spec licensed establish_post tr (refused e).
Proof.
  intros H. split; [by eexists|]. split; [done|]. left. right. intros u Hu. by destruct (H u).
Qed.

Lemma establish_spec code tokenHash otpType :
  spec licensed establish_post opened (establish claims_of code tokenHash otpType).
Proof.
  unfold establish, or_throw. destruct (present code) as [c|]; [|destruct (present tokenHash) as [h|]].
  - exec_cbn. split; [done|]. intros [e|r]; exec_cbn; [done|].
    destruct (bool_decide (auth_error r <> None)) eqn:He; bool_simpl.
    + apply refused_post. intros u Hu%session_of_first. simpl in Hu. by destruct (auth_error r).
    + apply establish_code, dec_stable, He.
  - destruct (present otpType) as [t|]; [|apply establish_none].
    exec_cbn. split; [done|]. intros [e|r]; exec_cbn; [done|].
    destruct (bool_decide (auth_error r <> None)) eqn:He; bool_simpl.
    + apply refused_post. intros u Hu%session_of_first. simpl in Hu. by destruct (auth_error r).
    + apply establish_link, dec_stable, He.
  - apply establish_none.
Qed.

(** How the callback may end. *)
Definition callback_post (next : string) tr (o : outcome RouteError callback_response) : Prop :=
  match o with
  | Done resp =>
      match location resp with
      | ToApp target =>
          target = next /\ exists u, admitted tr u /\
            forall ticket, recovery_cookie resp = Some ticket -> exists s now, recovers tr s /\
              ticket = createPasswordRecoveryTicket sign
                {| recovery_user := user_id u; recovery_session := s |} now
      | ToSignin _ => recovery_cookie resp = None /\ (unseated tr \/ sign_out_failed tr)
      end
  | Raised _ => True
  end.

Lemma recovers_quietly tr tr' s : quietly tr tr' -> recovers tr s -> recovers tr' s.
Proof. intros Hq (h & r & H & ?). exists h, r. split; [by eapply quietly_elem|done]. Qed.

Lemma refusal_post next e tr x :
  SignOut ↦ inr x ∈ tr -> spec licensed (callback_post next) tr (redirectToLoginError e).
Proof. intros Hx. split; [done|]. by apply (signed_out _ x). Qed.

(** Once the account is admitted: unlock, then answer with the recovery ticket if one is due. *)
Lemma welcome_spec next tr u recovery :
  admitted tr u -> (forall s, recovery = Some s -> recovers tr s) ->
  spec licensed (callback_post next) tr
    (_ ← createServiceRoleSupabaseClient;
     _ ← on_hook (unlockSpendOnInboxProof (user_id u));
     match recovery with
     | Some sessionId =>
         ticket ← issue_ticket sign key {| recovery_user := user_id u; recovery_session := sessionId |};
         mret {| location := ToApp next; recovery_cookie := Some ticket |}
     | None => mret {| location := ToApp next; recovery_cookie := None |}
     end).
Proof.
  intros Hu Hr. unfold createServiceRoleSupabaseClient, or_throw. exec_cbn. split; [done|].
  intros [e|[]]; exec_cbn; [done|]. apply spec_bind.
  assert (quietly tr (tr ++ [@Ev callback_effects (Hook OpenAdmin) (inr tt)])) as Hq by quietly.
  eapply spec_post; [eapply unlock_spec, (admitted_quietly _ _ _ Hq Hu)|].
  intros tr' o [-> Hq']. pose proof (quietly_trans _ _ _ Hq Hq') as Hq2. clear Hq Hq'. destruct recovery as [s|]; exec_cbn.
  - unfold issue_ticket. exec_cbn. split; [done|]. intros now. destruct (present key); exec_cbn; [|done].
    split; [done|]. exists u. assert (quietly tr (tr' ++ [@Ev callback_effects (Hook Clock) now])) as Hq3
      by (by apply quietly_snoc).
    split; [by eapply admitted_quietly|]. intros ? [=<-]. exists s, now. split; [|done].
    eapply recovers_quietly; [done|by apply Hr].
  - split; [done|]. exists u. split; [by eapply admitted_quietly|done].
Qed.

(** The freshness test of the gate asks only the clock. *)
Lemma freshness_spec tr1 u count :
  spec licensed (fun tr' o => exists b, o = Done b /\ quietly tr1 tr' /\
    (b = false -> count <> 0 \/ forall created, created_at u = Some created ->
       exists now, Hook Clock ↦ now ∈ tr' /\ is_fresh now created = false)) tr1
    (if bool_decide (count = 0) then
       match created_at u with
       | Some c => now ← ask (Hook Clock); mret (is_fresh now c)
       | None => mret false
       end
     else mret false).
Proof.
  case_bool_decide as Hn; [|exec_cbn; eexists; repeat split; [quietly|by left]].
  destruct (created_at u) as [c|]; exec_cbn.
  - split; [done|]. intros now. eexists. repeat split; [quietly|]. intros Hf. right.
    intros ? [=<-]. exists now. split; [in_trace|done].
  - eexists. repeat split; [quietly|]. by right.
Qed.

(** The provisioning gate: whoever passes it is admitted. *)
Lemma admit_spec next tr u createdAt recovery :
  session_of tr u -> kept tr -> (exchanged tr -> undisputed tr u) -> user_id u <> "" ->
  createdAt = created_at u -> (forall s, recovery = Some s -> recovers tr s) ->
  spec licensed (callback_post next) tr
    (admit_user sign key next (user_id u) createdAt recovery).
Proof.
  intros Hs Hk Hd Hid -> Hr. unfold admit_user, signOut, or_throw. exec_cbn. split; [done|].
  intros [e|r]; exec_cbn; [done|].
  set (tr1 := tr ++ [@Ev callback_effects (CountOwnMemberships (user_id u)) (inr r)]).
  assert (forall tr', quietly tr1 tr' -> error r = None ->
    (default 0 (data r) <> 0 \/ forall created, created_at u = Some created ->
       exists now, Hook Clock ↦ now ∈ tr' /\ is_fresh now created = false) ->
    admitted tr' u /\ forall s, recovery = Some s -> recovers tr' s) as Hadmit.
  { intros tr' Hq He Hp. assert (forall e, e ∈ tr -> e ∈ tr') as Hin.
    { intros e Hin. eapply quietly_elem; [done|]. apply elem_of_app. by left. }
    split; [|intros s Hrs; destruct (Hr s Hrs) as (h & r' & H & ?); exists h, r'; auto].
    assert (quietly tr1 tr') as Hq' by done.
    split; [|split; [|split; [|split; [done|]]]].
    - destruct Hs as (e & ? & ?). exists e. auto.
    - intros (e & Hin' & Hex)%(exchanged_quietly _ _ Hq). apply elem_of_app in Hin' as [Hin'|Hin'].
      2: { apply elem_of_cons in Hin' as [->|Hin']; [done|by apply elem_of_nil in Hin']. }
      intros a c Ha Hc. assert (exchanged tr) as Hx by (by exists e).
      destruct (Hd Hx a c Ha Hc) as [(now & ? & ?)|(r' & l & ? & ?)]; [left|right]; eauto 6.
    - exists r. split; [|done]. eapply quietly_elem; [done|]. in_trace.
    - eapply kept_quietly; [done|]. apply Forall_snoc. done. }
  destruct (bool_decide (error r <> None)) eqn:He; bool_simpl.
  { exec_cbn. split; [done|]. intros [e|x]; exec_cbn; [done|]. eapply refusal_post. in_trace. }
  apply dec_stable in He. apply spec_bind. eapply spec_post; [apply freshness_spec|].
  intros tr' o (fresh & -> & Hq & Hf). destruct fresh; exec_cbn.
  - split; [done|]. intros [e|x]; exec_cbn; [done|]. apply spec_bind.
    assert (SignOut ↦ inr x ∈ tr' ++ [@Ev callback_effects SignOut (inr x)]) as Hx by in_trace.
    eapply spec_post; [by eapply delete_spec|]. intros tr2 o (-> & q & ->).
    apply (refusal_post _ _ _ x). apply elem_of_app. by left.
  - destruct (Hadmit tr' Hq He (Hf eq_refl)) as [Hu Hr']. by apply welcome_spec.
Qed.
End route_lemmas.

(** The fields of a recovery message are read back from it. *)
Lemma recovery_message_inj i i' e :
  Forall (fun s => includes_char ":" s = false)
    [recovery_user i; recovery_session i; recovery_user i'; recovery_session i'] ->
  recovery_message i' e = recovery_message i e -> i' = i.
Proof.
  intros (H1 & (H2 & (H3 & (H4 & _)%Forall_cons)%Forall_cons)%Forall_cons)%Forall_cons H.
  destruct i as [u s], i' as [u' s']; cbn [recovery_user recovery_session] in *.
  apply append_inj_l in H. assert (forall x y z, x +:+ ":" +:+ y +:+ ":" +:+ z =
    x +:+ String ":" (y +:+ String ":" z)) as Hshape by done.
  cbn [recovery_user recovery_session] in H. rewrite !Hshape in H.
  apply (f_equal (cut ":")) in H. rewrite !cut_app in H by done. injection H as -> H.
  apply (f_equal (cut ":")) in H. rewrite !cut_app in H by done. by injection H as ->.
Qed.

(** ** Properties *)

(** C13. The callback seats a session only where it should. For every query and every environment: the
    app redirect goes to the sanitized target, and happens only for an account whose session was
    established by this request and not signed out, that is not a fresh duplicate of another
    account, and that is provisioned or not fresh; a recovery ticket is handed out only on a
    recovery link, bound to that account and the session its token names; any other answer sets no
    ticket and leaves no session standing, unless the sign-out it asked for itself answered an error.
    Spending is unlocked only for an account so admitted, and an account is deleted only after a
    sign-out was answered and the service role counted no membership. *)
Theorem callback_seats_only_admitted sign claims_of key q :
  spec licensed (callback_post sign claims_of (safeNextPath (params_get q "next"))) []
    (GET sign claims_of key q).
Proof.
  unfold GET, or_throw. exec_cbn. split; [done|]. intros [e|[]]; exec_cbn; [done|].
  change ([] ++ [_]) with opened. destruct (params_get q "error") as [err|]; exec_cbn.
  { split; [done|]. left. right. intros u (e & Hin & Hu). apply elem_of_cons in Hin as [->|Hin]; [done|].
    by apply elem_of_nil in Hin. }
  apply spec_bind. eapply spec_post; [apply establish_spec|].
  intros tr [[resp|who]|e]; exec_cbn; [| |done].
  { intros ([e Hl] & Hc & Hu). cbn. by rewrite Hl. }
  intros (Hk & Hr & Hu & Hex). destruct (present (est_user who)) as [id|] eqn:Hid.
  - apply present_Some in Hid as [Hid Hne]. destruct (Hex id Hid) as [u Hs].
    destruct (Hu u Hs) as (Hid' & Hc & Hd). assert (id = user_id u) as -> by congruence.
    by apply admit_spec.
  - split; [done|]. left. right. intros u Hs. destruct (Hu u Hs) as (Hid' & _).
    destruct (user_id u) eqn:Hn; [done|]. rewrite Hid' in Hid. done.
Qed.

(** A recovery ticket opens exactly its own flow. With a keyed digest that does not collide and
    whose text has no dot, and ids without colons (they are UUIDs), a ticket made for one user and
    session verifies for exactly that user and session, until exactly one hour after it was made. *)
Theorem recovery_ticket_exact {Bytes} `{EqDecision Bytes} (sign : string -> string)
    (bytes : string -> Bytes) identity identity' made now :
  (forall m m', bytes (sign m) = bytes (sign m') -> m = m') ->
  includes_char "." (sign (recovery_message identity (made / 1000 + 3600))) = false ->
  Forall (fun s => includes_char ":" s = false)
    [recovery_user identity; recovery_session identity;
     recovery_user identity'; recovery_session identity'] ->
  0 <= made -> made / 1000 + 3600 <= 2 ^ 53 - 1 ->
  verifyPasswordRecoveryTicket sign bytes (Some (createPasswordRecoveryTicket sign identity made))
    identity' now = true <->
  identity' = identity /\ now / 1000 < made / 1000 + 3600.
Proof.
  intros Hinj Hdot Hids Hmade Hsafe. unfold createPasswordRecoveryTicket, PASSWORD_RECOVERY_TTL_SECONDS.
  set (e := made / 1000 + 60 * 60). assert (0 <= e) as He by (unfold e; pose proof (Z.div_pos made 1000); lia).
  pose proof (decimal_string e He) as Hdec. unfold verifyPasswordRecoveryTicket.
  set (digest := sign (recovery_message identity e)).
  change ("." +:+ digest) with (String "." digest).
  rewrite split_on_char by (by eapply decimal_free). rewrite split_on_free by apply Hdot.
  cbn [lookup list_lookup]. unfold safe_integer. rewrite (trim_decimal _ _ Hdec), Hdec. cbn.
  rewrite decide_True by lia. case_decide as Hlt.
  { split; [done|]. intros [_ H]. unfold e in Hlt. lia. }
  rewrite bool_decide_eq_true. split.
  - intros H. apply Hinj in H. split; [exact (recovery_message_inj _ _ e Hids H)|]. unfold e in Hlt. lia.
  - by intros [-> _].
Qed.

(** An unavailable service-role client, which the unlock only needs on a best-effort basis, fails an
    otherwise good sign-in: the client is opened outside the unlock's own guard. *)
Definition no_service_role (u : auth_user) : handler callback_effects unit :=
  fun w c => (w, match c return callback_ans c with
                 | OpenRoute | DeleteUser _ => inr tt
                 | SignOut => inr None
                 | ExchangeCode _ | VerifyOtp _ _ =>
                     inr {| auth_error := None; auth_user_of := Some u; access_token := None |}
                 | CountOwnMemberships _ | CountMemberships _ => inr (db_ok 1)
                 | RpcSigninMethods _ => inr (db_ok (JArr []))
                 | Hook OpenAdmin => inl (new_Error "SUPABASE_SERVICE_ROLE_KEY must be set for admin operations.")
                 | Hook Clock => 0
                 | Hook ReadBody => inr ""
                 | Hook (ConstructEvent _ _ _) => inl (new_Error "")
                 | Hook (SelectOrgId _) => DbResult None None
                 | Hook (InsertLedger _) | Hook (RpcHookFailure _ _ _) => db_ok tt
                 | Hook (RetrieveIntent _) => inl (new_Error "")
                 | Hook (UpsertSettings _) | Hook (RpcUnlockOrg _) | Hook (RpcUnlockFounder _) =>
                     inr (db_ok tt)
                 | Hook SelectSpendUnlock => inr (DbResult None None)
                 | Hook (RpcRecordSuccess _ _ _ _) => DbResult None None
                 | Hook (SelectNotifyEmail _) => DbResult None None
                 | Hook (SelectOrgBalance _) => DbResult None None
                 | Hook (SendRechargeEmail _) => false
                 end).

Theorem unlock_client_fails_signin :
  let u := {| user_id := "u"; email := Some "a@b.co"; created_at := None; identity_providers := [] |} in
  exists e, (run (no_service_role u)
    (GET (fun s => s) (fun _ => None) None [("token_hash", "h"); ("type", "magiclink")]) tt).1.1 = Raised e.
Proof. eexists. vm_compute. reflexivity. Qed.

(** A sign-out that answers an error is taken for done: the fresh, uninvited account is deleted and its
    browser told so, while the session the exchange established still stands. *)
Definition sign_out_refused (u : auth_user) : handler callback_effects unit :=
  fun w c => match c return unit * callback_ans c with
             | SignOut => (w, inr (Some (new_Error "Database error")))
             | CountOwnMemberships _ | CountMemberships _ => (w, inr (db_ok 0))
             | Hook OpenAdmin => (w, inr tt)
             | c => no_service_role u w c
             end.

Theorem sign_out_error_ignored :
  let u := {| user_id := "u"; email := Some "a@b.co"; created_at := Some "1970-01-01T00:00:00.000Z";
              identity_providers := [] |} in
  let '(o, tr, _) := run (sign_out_refused u) (GET (fun s => s) (fun _ => None) None [("code", "c")]) tt in
  o = Done {| location := ToSignin SignupDisabled; recovery_cookie := None |} /\
  session_of tr u /\ DeleteUser "u" ↦ inr tt ∈ tr /\ ~ (SignOut ↦ inr None ∈ tr).
Proof.
  vm_compute. split; [done|]. split; [|split; [set_solver|]].
  - eexists. split; [right; left|done].
  - pose (signed := fun e : event callback_effects => match e with Ev SignOut (inr None) => true | _ => false end).
    intros H. repeat (apply elem_of_cons in H as [H|H]; [by apply (f_equal signed) in H|]). by apply elem_of_nil in H.
Qed.

(** ** Witnesses *)
Lemma recovery_ticket_exact_witness :
  let i := {| recovery_user := "u1"; recovery_session := "s1" |} in
  verifyPasswordRecoveryTicket (fun s => s) (fun s => s)
    (Some (createPasswordRecoveryTicket (fun s => s) i 1700000000000)) i 1700003599999 = true <->
  i = i /\ 1700003599999 / 1000 < 1700000000000 / 1000 + 3600.
Proof.
  apply recovery_ticket_exact.
  - intros m m' H. exact H.
  - vm_compute. reflexivity.
  - repeat constructor.
  - lia.
  - vm_compute. discriminate.
Defined.
