(* ===== verification/Accounts.v ===== *)
(** * The public account routes
    (app/auth/otp, app/auth/otp/verify, app/auth/resend-verification, app/auth/password and below,
    app/signup, app/api/signup/instant)

    Everything by which a visitor comes to a session without an organization's invitation page: codes
    and links by mail, passwords, and the coding agents' instant account; with lib/auth/signup-gate.ts,
    lib/auth/verification.ts, lib/auth/instant-signup.ts, lib/email/resend.ts and the email lookup of
    lib/auth/password.ts. The limits are a service of the process: [SignupLimits] is what answers them. *)

From S2P Require Import Prelude JsMap JsString JsSort JsDate JsNumber Effects Url QueryStrings Json.
From S2P Require Import Services SignupLimits Routes Access OrgAccess TenantServices ApiKeys Passwords Invites StripeWebhook AuthCallback.

#[local] Open Scope Z_scope.

(** ** Services *)

(** A GoTrue error. *)
Record AuthFailure := { fail_status : option Z; fail_code : option string; fail_message : option string }.

Inductive account_cmd :=
| Back (c : callback_cmd)
| Tenant (c : tenant_cmd)
| Limit (op : limit_op)
| SelectSignupsEnabled
| CountLiveInvites (token now : string)
| SignInWithOtp (address : string) (create : bool) (redirect : string) (invite : option string)
| VerifyEmailCode (address token : string)
| RpcEmailHasPassword (address : string)
| SignInWithPassword (address password : string)
| UpdateUserPassword (current : option string) (password : string)
| SignOutHere
| RouteClaims
| RouteUser
| CreateUser (address password : string) (invite : option string)
| SelectFounderOrg (user : string)
| SelectCreditGranted (org : string)
| GenerateLink (kind address : string)
| RandomUuid.

Definition account_ans (c : account_cmd) : Type :=
  match c with
  | Back c => callback_ans c
  | Tenant c => tenant_ans c
  | Limit _ => bool
  | SelectSignupsEnabled => db_result bool
  | CountLiveInvites _ _ => db_result Z
  | SignInWithOtp _ _ _ _ => Thrown + option AuthFailure
  | VerifyEmailCode _ _ | SignInWithPassword _ _ => Thrown + auth_result
  | RpcEmailHasPassword _ => Thrown + db_result json
  | UpdateUserPassword _ _ => Thrown + option AuthFailure
  | SignOutHere => Thrown + option Thrown
  | RouteClaims | RouteUser => Thrown + db_result json
  | CreateUser _ _ _ => Thrown + (AuthFailure + option string)
  | SelectFounderOrg _ => db_result string
  | SelectCreditGranted _ => db_result json
  | GenerateLink _ _ => Thrown + db_result json
  | RandomUuid => string
  end.

Definition account_effects : effects := Effects account_cmd account_ans.

Abbreviation A := (prog account_effects app_error).
Abbreviation ask c := (@call account_effects app_error c).

Definition on_tenant {X} (p : prog tenant_effects app_error X) : A X :=
  embed (E := tenant_effects) (F := account_effects) Tenant (fun c x => x) (fun e => e) p.

Definition route_error (e : RouteError) : app_error :=
  DataSourceError (OtherError match e with
    | RouteThrown t => t
    | StripeNotConfigured => new_Error "Stripe is not configured."
    end).

Definition on_callback {X} (p : prog callback_effects RouteError X) : A X :=
  embed (E := callback_effects) (F := account_effects) Back (fun c x => x) route_error p.

(** ** Requests and responses *)

(** What the routes read of a request: its headers, and the URL's own origin and protocol. *)
Record account_request := {
  x_real_ip : option string;
  x_forwarded_for : option string;
  x_forwarded_host : option string;
  x_forwarded_proto : option string;
  host_header : option string;
  url_origin : string;
  url_protocol : string;
  query : params;
  recovery_ticket : option string;
}.

(** [session_cookies]: the response carries what the route's Supabase client wrote. *)
Record account_response := {
  status : Z;
  content : json + string;
  session_cookies : bool;
  ticket_cleared : bool;
}.

Definition answer_json (code : Z) (b : json) (cookies : bool) : account_response :=
  {| status := code; content := inl b; session_cookies := cookies; ticket_cleared := false |}.

Definition ok_body : json := JObj [("ok", JBool true)].

Definition coded (code message : string) (http : Z) : account_response :=
  answer_json http (JObj [("code", JStr code); ("error", JStr message)]) false.

Definition refusal (message : string) (http : Z) : account_response :=
  answer_json http (JObj [("error", JStr message)]) false.

Definition of_response (r : response) : account_response := answer_json (resp_status r) (resp_body r) false.

(** [error instanceof Error ? error.message : fallback]. *)
Definition message_or (fallback : string) (e : Thrown) : string :=
  if thrown_is_error e then thrown_message e else fallback.

(** The parsed body, or the 400 the caller answers. *)
Definition parsed {P} (parse : json -> Thrown + P) : A (Thrown + P) :=
  r ← ask (Tenant RequestBody);
  mret match r with inl e => inl e | inr value => parse value end.

Definition open_route : A unit := r ← ask (Back OpenRoute); answered r.
Definition service_role : A unit := on_callback AuthCallback.createServiceRoleSupabaseClient.
Definition clock : A Z := ask (Tenant TenantClock).

(** *** lib/auth/redirects.ts: requestOrigin

    [parse_url] is the URL parser: a URL's protocol and origin. *)
Section origin.
Variable parse_url : string -> option (string * string).
Variable EXPLABS_WEBAPP_URL : option string.

Definition web_protocol (p : string) : bool := bool_decide (p = "http:") || bool_decide (p = "https:").

Definition configured_origin : option string :=
  u ← present (trim <$> EXPLABS_WEBAPP_URL);
  p ← parse_url u;
  if web_protocol p.1 then Some p.2 else None.

(** The first of a comma-separated header's values. *)
Definition first_value (h : option string) : option string := v ← h; trim <$> head (split_on "," v).

(** [p.replace(":", "")]. *)
Definition without_colon (p : string) : string := match cut ":" p with Some (x, y) => x +:+ y | None => p end.

Definition requestOrigin (r : account_request) : string :=
  match configured_origin with
  | Some o => o
  | None =>
      match present match present (first_value (x_forwarded_host r)) with
                    | Some h => Some h
                    | None => trim <$> host_header r
                    end with
      | None => url_origin r
      | Some host =>
          let proto := match first_value (x_forwarded_proto r) with
                       | Some p => if bool_decide (p ∈ ["https"; "http"]) then p else without_colon (url_protocol r)
                       | None => without_colon (url_protocol r)
                       end in
          match parse_url (proto +:+ "://" +:+ host) with Some p => p.2 | None => url_origin r end
      end
  end.
End origin.

(** ** lib/auth/signup-gate.ts *)
Definition SIGNUP_DISABLED_MESSAGE : string :=
  "Account creation is currently disabled. Ask an administrator for an invite.".

Definition isSignupAllowed (inviteToken : option string) : A bool :=
  r ← ask SelectSignupsEnabled;
  match error r with
  | Some e => raise_error ("Unable to read signup settings: " +:+ error_message e)
  | None =>
      if bool_decide (data r = Some true) then mret true
      else match present inviteToken with
           | None => mret false
           | Some token =>
               now ← clock;
               r ← ask (CountLiveInvites token (iso_string now));
               match error r with
               | Some e => raise_error ("Unable to check invites: " +:+ error_message e)
               | None => mret (bool_decide (0 < default 0 (data r)))
               end
           end
  end.

(** The routes' guarded calls: closed when the gate cannot be read. *)
Definition signupAllowed (inviteToken : option string) : A bool :=
  try_catch (_ ← service_role; isSignupAllowed inviteToken) (fun _ => mret false).

(** ** lib/email/resend.ts and lib/auth/verification.ts *)
Definition sendResendEmail (to subject html : string) : A (option string) :=
  env ← ask (Tenant MailSettings);
  match present env.1 with
  | None => mret (Some "RESEND_API_KEY is not configured")
  | Some apiKey =>
      r ← ask (Tenant (PostEmail apiKey
        {| mail_from := default RESEND_DEFAULT_FROM env.2; mail_to := to; mail_subject := subject; mail_html := html |}));
      mret match r with
           | inl e => Some ("Resend request failed: " +:+ error_text e)
           | inr reply =>
               if mail_ok reply then None
               else Some ("Resend rejected the email: " +:+
                 default ("HTTP " +:+ string_of_Z (mail_status reply))
                   (mail_payload reply ≫= fun p => jget_str p "message"))
           end
  end.

Record LinkMail := { link_subject : string; link_heading : string; link_text : string; link_button : string; link_footer : string }.

Definition verification_mail : LinkMail :=
  {| link_subject := "Verify your email to unlock your Experiential Labs credits";
     link_heading := "Verify your email";
     link_text := "Confirm your email to unlock your free platform credits. Everything else, your dashboard, trace uploads, and your own provider keys (BYOK), already works.";
     link_button := "Verify email";
     link_footer := "If you didn't create an Experiential Labs account, you can ignore this email." |}.

Definition reset_mail : LinkMail :=
  {| link_subject := "Reset your Experiential Labs password";
     link_heading := "Reset your password";
     link_text := "Click below to set a new password for your Experiential Labs account. You can always sign in with an emailed code instead, a password is optional.";
     link_button := "Set a new password";
     link_footer := "If you didn't request this, you can ignore this email, your password won't change." |}.

Definition link_html (m : LinkMail) (link : string) : string :=
  let safeLink := escapeHtml link in
  join (String LF EmptyString)
  ["<div" +:+ attr "style" "font-family: -apple-system, 'Segoe UI', Helvetica, Arial, sans-serif; max-width: 480px; margin: 0 auto; color: #171717;" +:+ ">";
   "<h2" +:+ attr "style" "font-size: 18px; font-weight: 600;" +:+ ">" +:+ link_heading m +:+ "</h2>";
   "<p" +:+ attr "style" "font-size: 14px; line-height: 1.6;" +:+ ">" +:+ link_text m +:+ "</p>";
   "<p" +:+ attr "style" "margin: 24px 0;" +:+ "><a" +:+ attr "href" safeLink +:+ attr "style" "background: #171717; color: #ffffff; text-decoration: none; padding: 10px 20px; border-radius: 9999px; font-size: 14px; font-weight: 600;" +:+ ">" +:+ link_button m +:+ "</a></p>";
   "<p" +:+ attr "style" "font-size: 12px; color: #737373; line-height: 1.6;" +:+ ">Or paste this link into your browser:<br /><a" +:+ attr "href" safeLink +:+ attr "style" "color: #737373;" +:+ ">" +:+ safeLink +:+ "</a></p>";
   "<p" +:+ attr "style" "font-size: 12px; color: #737373;" +:+ ">" +:+ link_footer m +:+ "</p>";
   "</div>"].

(** Why no link was made, or its hashed token. *)
Definition hashed_token (r : Thrown + db_result json) : string + string :=
  match r with
  | inl e => inl ("generateLink failed: " +:+ error_text e)
  | inr r =>
      let token := data r ≫= fun d => jget d "properties" ≫= fun p => jget_str p "hashed_token" in
      match error r, present token with
      | None, Some t => inr t
      | Some e, _ => inl (error_message e)
      | None, None => inl "generateLink returned no token"
      end
  end.

(** An admin link of [kind], mailed. [origin] is an origin, so the link's text is this. *)
Definition send_link (kind next : string) (m : LinkMail) (email origin : string) : A (option string) :=
  r ← ask (GenerateLink kind email);
  match hashed_token r with
  | inl reason => mret (Some reason)
  | inr token =>
      sendResendEmail email (link_subject m)
        (link_html m (origin +:+ "/auth/callback?" +:+
          params_string [("token_hash", token); ("type", kind); ("next", next)]))
  end.

Definition sendVerificationEmail (email origin : string) : A (option string) :=
  send_link "magiclink" overviewPath verification_mail email origin.

Definition sendPasswordResetEmail (email origin : string) : A (option string) :=
  send_link "recovery" resetPasswordPath reset_mail email origin.

Definition callback_url (origin : string) : string := origin +:+ "/auth/callback".

(** A client of its own ([OpenRoute]): a failure to make one counts as a failed send. *)
Definition sendEmailCode (email origin : string) (shouldCreateUser : bool) : A bool :=
  try_catch
    (_ ← open_route;
     r ← ask (SignInWithOtp email shouldCreateUser (callback_url origin) None);
     r ← answered r;
     mret (bool_decide (r = None)))
    (fun _ => mret false).

Definition sendSigninCode (email origin : string) : A bool := sendEmailCode email origin false.
Definition sendSignupCode (email origin : string) : A bool := sendEmailCode email origin true.

(** ** lib/auth/password.ts: emailHasPassword, guarded as its route guards it *)
Definition checkEmailHasPassword (email : string) : A (option bool) :=
  try_catch
    (_ ← service_role;
     r ← ask (RpcEmailHasPassword email);
     r ← answered r;
     mret match error r with None => data r ≫= jbool | Some _ => None end)
    (fun _ => mret None).

(** ** Request bodies *)
Definition with_object {P} (value : json) (message : string) (k : Thrown + P) : Thrown + P :=
  match value with JObj _ => k | _ => invalid message end.

Definition required_email (value : json) : option string := jget_str value "email" ≫= fun e => safePrefillEmail (Some e).

Record OtpPayload := { otp_email : string; inviteToken : option string }.

Definition parseOtpPayload (value : json) : Thrown + OtpPayload :=
  with_object value "Request must be an object."
    match required_email value with
    | None => invalid "A valid email is required."
    | Some email =>
        let token := nullish value "inviteToken" in
        if bool_decide (token <> None /\ token ≫= jstr = None) then invalid "Invite token must be a string."
        else inr {| otp_email := email; inviteToken := present (trim <$> (token ≫= jstr)) |}
    end.

Definition digits6 (s : string) : bool := bool_decide (String.length s = 6)%nat && all_chars is_digit s.

Definition parseVerifyPayload (value : json) : Thrown + (string * string) :=
  with_object value "Request must be an object."
    match required_email value with
    | None => invalid "A valid email is required."
    | Some email =>
        let token := default EmptyString (trim <$> jget_str value "token") in
        if digits6 token then inr (email, token) else invalid "The sign-in code is 6 digits."
    end.

Definition parseSigninPayload (value : json) : Thrown + (string * string) :=
  with_object value "Request must be an object."
    match required_email value with
    | None => invalid "A valid email is required."
    | Some email =>
        match present (jget_str value "password") with
        | None => invalid "A password is required."
        | Some password => inr (email, password)
        end
    end.

Definition parseResetPayload (value : json) : Thrown + string :=
  with_object value "Request must be an object."
    match required_email value with None => invalid "A valid email is required." | Some email => inr email end.

Definition parseEmail (value : json) : Thrown + string :=
  with_object value "Signup request must be a JSON object."
    match nonblank (jget value "email") with
    | None => invalid "Signup request must include an email."
    | Some raw =>
        match safePrefillEmail (Some raw) with
        | None => invalid "That email address is not valid."
        | Some email => inr email
        end
    end.

(** ** lib/auth/instant-signup.ts *)
Inductive InstantProvisionResult :=
| Created (userId org : string) (apiKeySecret : option string) (creditsGranted : option number) (sessionPassword : string)
| AlreadyExists
| SignupFailed (message : string).

Definition isAlreadyRegistered (f : AuthFailure) : bool :=
  bool_decide (fail_code f = Some "email_exists") || bool_decide (fail_code f = Some "user_already_exists") ||
  includes "already registered" (to_lower (default EmptyString (fail_message f))).

(** [crypto.randomUUID().replaceAll("-", "")]. *)
Definition bare_uuid : A string := u ← ask RandomUuid; mret (replace_all "-" EmptyString u).

Section instant.
Variable sha256_hex : string -> string.

(** The founder's key, in the organization just provisioned. *)
Definition mint_founder_key (userId org keyName : string) : A (string + string) :=
  minted ← on_tenant (mintApiKeySecret sha256_hex);
  r ← ask (Tenant (InsertApiKey (key_row org keyName minted userId None None)));
  match error r, data r with
  | None, Some k =>
      _ ← on_tenant (recordAuditEvent
        {| audit_org := Some org; actorKind := "user"; audit_actor := Some userId; audit_action := "keys.mint";
           objectType := "api_key"; objectId := ins_id k; audit_before := None; audit_after := None |});
      mret (inr (secret minted))
  | Some e, _ => mret (inl (error_message e))
  | None, None => mret (inl "Could not mint an API key.")
  end.

Definition provisionInstantAccount (email : string) (inviteToken keyName : option string) : A InstantProvisionResult :=
  u1 ← bare_uuid;
  u2 ← bare_uuid;
  let sessionPassword := "xpl-" +:+ u1 +:+ u2 in
  created ← ask (CreateUser email sessionPassword (present inviteToken));
  created ← answered created;
  match created with
  | inl f =>
      mret (if isAlreadyRegistered f then AlreadyExists
            else SignupFailed (default "Could not create the account." (fail_message f)))
  | inr None => mret (SignupFailed "Could not create the account.")
  | inr (Some userId) =>
      r ← ask (SelectFounderOrg userId);
      match error r, data r with
      | None, Some org =>
          c ← ask (SelectCreditGranted org);
          let creditsGranted := data c ≫= jnum in
          match keyName with
          | None => mret (Created userId org None creditsGranted sessionPassword)
          | Some keyName =>
              k ← mint_founder_key userId org keyName;
              mret match k with
                   | inl message => SignupFailed message
                   | inr key => Created userId org (Some key) creditsGranted sessionPassword
                   end
          end
      | _, _ =>
          _ ← ask (Back (DeleteUser userId));
          mret (SignupFailed "Account provisioning did not complete; try again.")
      end
  end.
End instant.

(** ** The routes *)
Section routes.
Context {Bytes : Type} `{EqDecision Bytes}.
Variables (sign : string -> string) (bytes : string -> Bytes) (sha256_hex : string -> string).
Variable parse_url : string -> option (string * string).
Variables EXPLABS_WEBAPP_URL SUPABASE_SERVICE_ROLE_KEY : option string.

Abbreviation origin_of := (requestOrigin parse_url EXPLABS_WEBAPP_URL).

Definition recently : account_response :=
  coded "rate_limited" "A code was sent recently. Check your inbox, or wait a minute and try again." 429.
Definition send_failed : account_response :=
  coded "otp_send_failed" "Couldn't send the code. Try again, or use a password." 502.

(** app/auth/otp *)
Definition otp_POST (r : account_request) : A account_response :=
  _ ← open_route;
  p ← parsed parseOtpPayload;
  match p with
  | inl e => mret (coded "invalid_request" (message_or "Invalid request." e) 400)
  | inr p =>
      allowSignup ← signupAllowed (inviteToken p);
      ok ← ask (Limit (SendEmail (otp_email p)));
      if negb ok then mret recently
      else
        sent ← ask (SignInWithOtp (otp_email p) allowSignup (callback_url (origin_of r)) (inviteToken p));
        match sent with
        | inr None => mret (answer_json 200 ok_body true)
        | inl _ => _ ← ask (Limit (ReleaseEmail (otp_email p))); mret send_failed
        | inr (Some f) =>
            _ ← ask (Limit (ReleaseEmail (otp_email p)));
            mret (if bool_decide (fail_status f = Some 429) then recently
                  else if bool_decide (fail_code f = Some "otp_disabled") || bool_decide (fail_status f = Some 422)
                  then answer_json 200 ok_body true
                  else send_failed)
        end
  end.

(** app/auth/otp/verify *)
Definition CREATED_WINDOW_MS : Z := 30 * 60 * 1000.

Definition signed_in_body (created : bool) : json := JObj [("ok", JBool true); ("created", JBool created)].

Definition recently_created (created_at : option string) : A bool :=
  match created_at ≫= parse_timestamp with
  | Some t => now ← clock; mret (bool_decide (now - t < CREATED_WINDOW_MS))
  | None => mret false
  end.

Definition verify_POST : A account_response :=
  _ ← open_route;
  p ← parsed parseVerifyPayload;
  match p with
  | inl e => mret (coded "invalid_request" (message_or "Invalid request." e) 400)
  | inr (email, token) =>
      v ← ask (VerifyEmailCode email token);
      v ← answered v;
      match auth_error v, auth_user_of v with
      | None, Some u =>
          _ ← service_role;
          _ ← on_callback (on_hook (unlockSpendOnInboxProof (AuthCallback.user_id u)));
          created ← recently_created (created_at u);
          mret (answer_json 200 (signed_in_body created) true)
      | _, _ => mret (coded "otp_invalid" "That code is invalid or has expired. Request a new one." 400)
      end
  end.

(** app/auth/resend-verification *)
Definition resend_POST (r : account_request) : A account_response :=
  user ← on_tenant (gate getAuthenticatedUser);
  match user ≫= user_email with
  | None => mret (refusal "Authentication required." 401)
  | Some email =>
      ok ← ask (Limit (SendEmail email));
      _ ← (if (ok : bool) then
             try_catch (_ ← service_role; _ ← sendVerificationEmail email (origin_of r); mret tt) (fun _ => mret tt)
           else mret tt);
      mret (answer_json 200 ok_body false)
  end.

(** app/auth/password/signin *)
Definition rejected_signin (email : string) : A account_response :=
  methods ← try_catch (_ ← service_role; on_callback (signinMethodsForEmail email)) (fun _ => mret None);
  mret (if bool_decide (methods = Some []) then coded "no_account" "No account found for that email." 401
        else coded "wrong_password" "Wrong password." 401).

Definition signin_POST (r : account_request) : A account_response :=
  _ ← open_route;
  p ← parsed parseSigninPayload;
  match p with
  | inl e => mret (coded "invalid_request" (message_or "Invalid request." e) 400)
  | inr (email, password) =>
      ok ← ask (Limit (Signin (clientIp (x_real_ip r) (x_forwarded_for r)) email));
      if negb ok then mret (coded "rate_limited" "Too many sign-in attempts; try again shortly." 429)
      else
        v ← ask (SignInWithPassword email password);
        v ← answered v;
        match auth_error v, auth_user_of v with
        | None, Some _ => mret (answer_json 200 (signed_in_body false) true)
        | _, _ => rejected_signin email
        end
  end.

(** app/auth/password/reset *)
Definition reset_POST (r : account_request) : A account_response :=
  p ← parsed parseResetPayload;
  match p with
  | inl e => mret (coded "invalid_request" (message_or "Invalid request." e) 400)
  | inr email =>
      ok ← ask (Limit (SendEmail email));
      _ ← (if (ok : bool) then
             try_catch (_ ← service_role; _ ← sendPasswordResetEmail email (origin_of r); mret tt) (fun _ => mret tt)
           else mret tt);
      mret (answer_json 200 ok_body false)
  end.

(** app/auth/password/reset/confirm *)

(** The ticket's expiry and signature, if it has the two parts and is not expired. *)
Definition presented_ticket (ticket : option string) (now : Z) : option (Z * string) :=
  t ← ticket;
  match split_on "." t with
  | rawExpiresAt :: rest =>
      match rest !! 1%nat, safe_integer rawExpiresAt with
      | None, Some expiresAt =>
          if decide (expiresAt <= now / 1000) then None else Some (expiresAt, default EmptyString (rest !! 0%nat))
      | _, _ => None
      end
  | [] => None
  end.

(** [verifyPasswordRecoveryTicket] with its clock, and its key, required once a signature is computed. *)
Definition check_ticket (ticket : option string) (identity : RecoverySessionIdentity) : A bool :=
  now ← clock;
  match presented_ticket ticket now with
  | None => mret false
  | Some (expiresAt, signature) =>
      match present SUPABASE_SERVICE_ROLE_KEY with
      | None => raise_error "SUPABASE_SERVICE_ROLE_KEY must be set for password recovery."
      | Some _ => mret (bool_decide (bytes (sign (recovery_message identity expiresAt)) = bytes signature))
      end
  end.

Definition recovering (r : account_request) (claims : option json) : A bool :=
  match claims ≫= recoverySessionIdentity with
  | None => mret false
  | Some identity =>
      if hasRecoveryAuthMethod claims then check_ticket (recovery_ticket r) identity else mret false
  end.

Definition confirm_POST (r : account_request) : A account_response :=
  _ ← open_route;
  p ← parsed parseResetPassword;
  match p with
  | inl e =>
      let message := message_or "Invalid request." e in
      mret (coded (if includes "at least" (to_lower message) then "weak_password" else "invalid_request") message 400)
  | inr password =>
      c ← ask RouteClaims;
      c ← answered c;
      ok ← (match error c with Some _ => mret false | None => recovering r (data c) end);
      if negb ok then mret (coded "no_recovery" "This reset link has expired. Request a new one." 401)
      else
        u ← ask (UpdateUserPassword None password);
        u ← answered u;
        mret match u with
             | Some _ => refusal "Unable to set the password. Please try again." 422
             | None => {| status := 200; content := inl ok_body; session_cookies := true; ticket_cleared := true |}
             end
  end.

(** app/auth/password *)
Definition required_authentication : account_response := refusal "Authentication required." 401.
Definition no_password_signin : account_response :=
  refusal "This account does not have an email/password sign-in to change." 422.

(** Whether a password sign-in was answered with this user. *)
Definition signed_in_as (user : string) (v : auth_result) : bool :=
  bool_decide (auth_error v = None) && bool_decide (AuthCallback.user_id <$> auth_user_of v = Some user).

Definition sign_out_here : A unit := _ ← ask SignOutHere; mret tt.

Definition set_first_password (p : ChangePasswordPayload) : A account_response :=
  u ← ask (UpdateUserPassword None (newPassword p));
  u ← answered u;
  mret match u with
       | Some _ => refusal "Unable to set the password. Please try again." 422
       | None => answer_json 200 ok_body true
       end.

(** From the current password on. *)
Definition replace_password (user email current : string) (p : ChangePasswordPayload) : A account_response :=
  v ← ask (SignInWithPassword email current);
  v ← answered v;
  if negb (signed_in_as user v) then mret (refusal "Current password is incorrect." 401)
  else
    u ← ask (UpdateUserPassword (Some current) (newPassword p));
    u ← answered u;
    match u with
    | Some _ => _ ← sign_out_here; mret (refusal "Unable to update password. Please try again." 422)
    | None =>
        _ ← sign_out_here;
        v ← ask (SignInWithPassword email (newPassword p));
        v ← answered v;
        mret (if signed_in_as user v then answer_json 200 ok_body true
              else answer_json 500 (JObj [("error", JStr
                "Password updated, but your session could not be refreshed. Please sign in again.")]) true)
    end.

Definition change_password (p : ChangePasswordPayload) : A account_response :=
  c ← ask RouteClaims;
  c ← answered c;
  match error c, data c ≫= authenticatedUserFromClaims with
  | None, Some user =>
      match user_email user with
      | None => mret no_password_signin
      | Some email =>
          g ← ask RouteUser;
          g ← answered g;
          if bool_decide (error g <> None) || negb (bool_decide (data g ≫= (fun u => jget_str u "id") = Some (OrgAccess.user_id user)))
          then mret required_authentication
          else
            has ← (if hasPasswordIdentity (data g) then checkEmailHasPassword email else mret None);
            if bool_decide (has = Some false) then set_first_password p
            else if negb (canChangePasswordForSession (data g) (data c)) then mret no_password_signin
            else match currentPassword p with
                 | None => mret (refusal "Current password is required." 400)
                 | Some current => replace_password (OrgAccess.user_id user) email current p
                 end
      end
  | _, _ => mret required_authentication
  end.

Definition change_error (e : app_error) : account_response :=
  refusal (match e with
           | DataSourceError (OtherError t) => message_or "Invalid password change request." t
           | e => app_error_text e
           end) 400.

Definition change_POST : A account_response :=
  _ ← open_route;
  try_catch
    (p ← parsed parseChangePasswordPayload;
     p ← answered p;
     change_password p)
    (fun e => mret (change_error e)).

(** app/signup *)
Definition redirect_to (location : string) : account_response :=
  {| status := 303; content := inr location; session_cookies := false; ticket_cleared := false |}.

Definition bounceToSignin (origin email : string) (ps : params) : account_response :=
  redirect_to (origin +:+ signinPath +:+ "?" +:+ params_string (("email", email) :: ps)).

Definition emailHasAccount (email : string) : A (option bool) :=
  try_catch
    (_ ← service_role;
     r ← ask (Back (RpcSigninMethods email));
     r ← answered r;
     mret match error r, data r ≫= jarr with
          | None, Some l => Some (negb (bool_decide (l = [])))
          | _, _ => None
          end)
    (fun _ => mret None).

(** Send a code, giving the reservation back when it was not sent. *)
Definition send_code (send : A bool) (email : string) : A params :=
  sent ← send;
  if (sent : bool) then mret [("sent", "1")]
  else _ ← ask (Limit (ReleaseEmail email)); mret [("error", "otp_send_failed")].

Definition signup_GET (r : account_request) : A account_response :=
  let origin := origin_of r in
  match safePrefillEmail (params_get (query r) "email") with
  | None => mret (redirect_to (origin +:+ signinPath))
  | Some email =>
      ok ← ask (Limit (Start (clientIp (x_real_ip r) (x_forwarded_for r))));
      if negb ok then mret (bounceToSignin origin email [("error", "rate_limited")])
      else
        exists_ ← emailHasAccount email;
        if bool_decide (exists_ = Some false) then
          allowed ← signupAllowed None;
          if negb allowed then mret (bounceToSignin origin email [("error", "signup_disabled")])
          else
            ok ← ask (Limit (SendEmail email));
            if negb ok then mret (bounceToSignin origin email [("error", "rate_limited"); ("signup", "1")])
            else
              ps ← send_code (sendSignupCode email origin) email;
              mret (bounceToSignin origin email (ps ++ [("signup", "1")]))
        else
          ok ← ask (Limit (SendEmail email));
          if negb ok then mret (bounceToSignin origin email [("error", "rate_limited")])
          else
            ps ← send_code (sendSigninCode email origin) email;
            mret (bounceToSignin origin email ps)
  end.

(** app/api/signup/instant *)
Definition instant_answer (r : account_request) (email : string) (result : InstantProvisionResult) : A account_response :=
  match result with
  | AlreadyExists =>
      mret (coded "account_exists" "An account already exists for this email. Sign in to get an API key." 409)
  | SignupFailed message => mret (coded "signup_failed" message 500)
  | Created _ org apiKeySecret creditsGranted _ =>
      let origin := origin_of r in
      ok ← ask (Limit (SendEmail email));
      reason ← (if (ok : bool) then sendVerificationEmail email origin else mret (Some "email cooldown"));
      mret (answer_json 200
        (JObj [("api_key", of_nullable apiKeySecret); ("org_id", JStr org);
               ("credits_granted", match creditsGranted with Some x => JNum x | None => JNull end);
               ("verification_required", JBool true);
               ("verification_email_sent", JBool (bool_decide (reason = None)));
               ("overview_url", JStr (origin +:+ overviewPath))]) false)
  end.

Definition instant_signup (r : account_request) (email : string) : A account_response :=
  result ← provisionInstantAccount sha256_hex email None (Some "Coding agent (instant signup)");
  instant_answer r email result.

Definition instant_POST (r : account_request) : A account_response :=
  try_catch
    (p ← parsed parseEmail;
     match p with
     | inl e => mret (coded "invalid_request" (message_or "Invalid signup request." e) 400)
     | inr email =>
         ok ← ask (Limit (Start (clientIp (x_real_ip r) (x_forwarded_for r))));
         if negb ok then
           mret (coded "rate_limited" "Too many signups from this address; try again shortly." 429)
         else
           _ ← service_role;
           allowed ← try_catch (isSignupAllowed None) (fun _ => mret false);
           if negb allowed then mret (coded "signup_disabled" SIGNUP_DISABLED_MESSAGE 403)
           else instant_signup r email
     end)
    (fun e => mret (of_response (jsonError e))).

(** Every route, by its name. *)
Inductive account_route :=
| Otp | Verify | Resend | PasswordSignin | PasswordReset | PasswordConfirm | PasswordChange | Signup | InstantSignup.

Definition serve (route : account_route) (r : account_request) : A account_response :=
  match route with
  | Otp => otp_POST r
  | Verify => verify_POST
  | Resend => resend_POST r
  | PasswordSignin => signin_POST r
  | PasswordReset => reset_POST r
  | PasswordConfirm => confirm_POST r
  | PasswordChange => change_POST
  | Signup => signup_GET r
  | InstantSignup => instant_POST r
  end.
End routes.

(** ** What the events say *)
Abbreviation events := (list (event account_effects)).
Notation "c ↪ x ∈ tr" := (@Ev account_effects c x ∈ tr) (at level 70, x at level 50).

Implicit Types (tr : events).

(** Whom an event mails. *)
Definition mailed (e : event account_effects) : option string :=
  match e with Ev (SignInWithOtp a _ _ _) _ | Ev (GenerateLink _ a) _ => Some a | _ => None end.

(** The cooldown allowed a mail to the address, and none was sent yet. *)
Definition allowance tr (a : string) : Prop :=
  Limit (SendEmail a) ↪ true ∈ tr /\ Forall (fun e => mailed e = None) tr.

Definition signups_open tr : Prop := exists r, SelectSignupsEnabled ↪ r ∈ tr /\ error r = None /\ data r = Some true.

Definition invited tr (invite : option string) : Prop :=
  exists token now r, invite = Some token /\ CountLiveInvites token now ↪ r ∈ tr /\ error r = None /\ 0 < default 0 (data r).

(** The session the route's client has verified: its claims and the user they name. *)
Definition session_claims tr (claims : json) : Prop :=
  exists c, RouteClaims ↪ inr c ∈ tr /\ error c = None /\ data c = Some claims.

Definition session_owner tr (claims : json) (u a : string) : Prop :=
  session_claims tr claims /\ authenticatedUserFromClaims claims = Some {| OrgAccess.user_id := u; user_email := Some a |}.

(** The account GoTrue names for the session is the claims' own. *)
Definition session_account tr (u : string) (account : option json) : Prop :=
  exists g, RouteUser ↪ inr g ∈ tr /\ error g = None /\ data g = account /\
    account ≫= (fun x => jget_str x "id") = Some u.

Definition created_here tr (u : string) : Prop :=
  exists a pw invite, CreateUser a pw invite ↪ inr (inr (Some u)) ∈ tr.

Definition keyed (e : event account_effects) : bool := match e with Ev (Tenant (InsertApiKey _)) _ => true | _ => false end.

Definition unkeyed tr : Prop := Forall (fun e => keyed e = false) tr.

(** The posted new password. *)
Definition posted_password tr (pw : string) : Prop :=
  (6 <= String.length pw)%nat /\ exists body, Tenant RequestBody ↪ inr body ∈ tr /\
    (parseResetPassword body = inr pw \/ exists p, parseChangePasswordPayload body = inr p /\ newPassword p = pw).

Section licence.
Context {Bytes : Type} `{EqDecision Bytes}.
Variables (sign : string -> string) (bytes : string -> Bytes).
Variable r : account_request.

(** A recovery session, with the ticket of its own recovery flow, unexpired. *)
Definition recovery_proved tr : Prop :=
  exists claims identity now, session_claims tr claims /\ recoverySessionIdentity claims = Some identity /\
    hasRecoveryAuthMethod (Some claims) = true /\ Tenant TenantClock ↪ now ∈ tr /\
    verifyPasswordRecoveryTicket sign bytes (recovery_ticket r) identity now = true.

(** A session of an account that has no password yet, or that just proved its current one. *)
Definition change_proved tr (current : option string) : Prop :=
  exists claims u a account, session_owner tr claims u a /\ session_account tr u account /\
    match current with
    | None => hasPasswordIdentity account = true /\
        exists h, RpcEmailHasPassword a ↪ inr h ∈ tr /\ error h = None /\ data h = Some (JBool false)
    | Some pw => canChangePasswordForSession account (Some claims) = true /\
        exists v, SignInWithPassword a pw ↪ inr v ∈ tr /\ signed_in_as u v = true
    end.

(** What a command needs of the events before it. *)
Definition account_licensed tr (c : cmd account_effects) : Prop :=
  match c with
  | Limit (Start ip) | Limit (Signin ip _) => ip = clientIp (x_real_ip r) (x_forwarded_for r)
  | Limit (ReleaseEmail a) => Limit (SendEmail a) ↪ true ∈ tr
  | SignInWithOtp a create _ invite => allowance tr a /\ (create = true -> signups_open tr \/ invited tr invite)
  | GenerateLink _ a => allowance tr a
  | SignInWithPassword a _ =>
      (exists ip, Limit (Signin ip a) ↪ true ∈ tr) \/ (exists claims u, session_owner tr claims u a)
  | UpdateUserPassword current pw =>
      posted_password tr pw /\ (current = None /\ recovery_proved tr \/ change_proved tr current)
  | CreateUser _ _ invite => (exists ip, Limit (Start ip) ↪ true ∈ tr) /\ signups_open tr /\ invite = None
  | Tenant (InsertApiKey row) =>
      unkeyed tr /\ created_here tr (key_created_by row) /\
      exists m, SelectFounderOrg (key_created_by row) ↪ m ∈ tr /\ error m = None /\ data m = Some (key_org row)
  | Back (DeleteUser u) =>
      created_here tr u /\ exists m, SelectFounderOrg u ↪ m ∈ tr /\ (error m <> None \/ data m = None)
  | Back (Hook (RpcUnlockFounder u)) =>
      exists a code v account, VerifyEmailCode a code ↪ inr v ∈ tr /\ auth_error v = None /\
        auth_user_of v = Some account /\ AuthCallback.user_id account = u
  | _ => True
  end.
End licence.

(** What a response promises: a session cookie after a code or a password that was accepted; a key that is
    stored by its digest for the account just created. *)
Definition credential_accepted tr (v : Thrown + auth_result) : Prop :=
  exists a, v = inr a /\ auth_error a = None /\ auth_user_of a <> None.

Definition key_stored (sha256_hex : string -> string) tr (k : string) : Prop :=
  exists row ins, Tenant (InsertApiKey row) ↪ ins ∈ tr /\ error ins = None /\ data ins <> None /\ key_hash row = sha256_hex k.

Definition promised (sha256_hex : string -> string) (route : account_route) tr (o : outcome app_error account_response) : Prop :=
  match o with
  | Raised _ => True
  | Done resp =>
      match route with
      | Verify => session_cookies resp = true ->
          exists a code v, VerifyEmailCode a code ↪ v ∈ tr /\ credential_accepted tr v
      | PasswordSignin => session_cookies resp = true ->
          exists a pw v, SignInWithPassword a pw ↪ v ∈ tr /\ credential_accepted tr v
      | InstantSignup => forall body k, content resp = inl body -> jget_str body "api_key" = Some k -> key_stored sha256_hex tr k
      | _ => True
      end
  end.

(** Close a licence from the trace of a symbolic execution. *)
Ltac allowed :=
  repeat match goal with
  | H : negb ?x = false |- _ => apply negb_false_iff in H; first [subst x | progress rewrite H in * | idtac]
  | H : negb ?x = true |- _ => apply negb_true_iff in H; first [subst x | progress rewrite H in * | idtac]
  | H : bool_decide _ = true |- _ => apply bool_decide_eq_true in H
  | H : bool_decide _ = false |- _ => apply bool_decide_eq_false in H
  | H : present _ = Some _ |- _ => apply present_Some in H as [H _]
  end.

Ltac licence :=
  allowed; cbn [account_licensed]; unfold allowance;
  repeat match goal with
  | |- _ /\ _ => split
  | |- Forall _ _ => rewrite ?Forall_app; repeat split; by repeat constructor
  | |- _ ↪ _ ∈ _ => in_trace
  | |- true = true -> _ => intros _
  | |- false = true -> _ => discriminate
  | |- _ = true -> _ => intros ?; allowed
  | |- signups_open _ => eexists; split; [in_trace|done]
  | |- invited _ _ => eexists _, _, _; split; [eassumption|]; split; [in_trace|done]
  | |- signups_open _ \/ invited _ _ =>
      first [left; eexists; split; [in_trace|done]
            |right; eexists _, _, _; split; [eassumption|]; split; [in_trace|done]]
  | |- exists ip, Limit _ ↪ _ ∈ _ => eexists; in_trace
  end; try done.

Create HintDb account_programs.
#[local] Hint Unfold otp_POST verify_POST resend_POST signin_POST reset_POST confirm_POST change_POST signup_GET instant_POST
  open_route parsed signupAllowed service_role on_callback on_tenant gate on_hook isSignupAllowed clock
  AuthCallback.createServiceRoleSupabaseClient AuthCallback.or_throw StripeWebhook.or_throw answered raise_error raise_thrown
  sendResendEmail send_link sendVerificationEmail sendPasswordResetEmail sendEmailCode sendSigninCode sendSignupCode
  checkEmailHasPassword bare_uuid mint_founder_key provisionInstantAccount recently_created rejected_signin
  signinMethodsForEmail unlockSpendOnInboxProof spendUnlockRequirement unlockSpendForUser unlockSpendForOrg
  getAuthenticatedUser OrgAccess.createServerSupabaseClient getClaims check_ticket recovering sign_out_here
  set_first_password replace_password change_password emailHasAccount send_code instant_answer recordAuditEvent
  mintApiKeySecret mintKeySecret : account_programs.

Ltac account_exec := autounfold with account_programs; exec.

Section facts.
Context {Bytes : Type} `{EqDecision Bytes}.
Variables (sign : string -> string) (bytes : string -> Bytes) (sha256_hex : string -> string).
Variable parse_url : string -> option (string * string).
Variables EXPLABS_WEBAPP_URL SUPABASE_SERVICE_ROLE_KEY : option string.
Variable r : account_request.

Abbreviation L := (account_licensed sign bytes r).
Abbreviation Q := (promised sha256_hex).

Lemma otp_licensed : spec L (Q Otp) [] (otp_POST parse_url EXPLABS_WEBAPP_URL r).
Proof. account_exec; licence. Qed.

Lemma reset_licensed : spec L (Q PasswordReset) [] (reset_POST parse_url EXPLABS_WEBAPP_URL r).
Proof. account_exec; licence. Qed.

Lemma resend_licensed : spec L (Q Resend) [] (resend_POST parse_url EXPLABS_WEBAPP_URL r).
Proof. account_exec; licence. Qed.

Lemma signup_licensed : spec L (Q Signup) [] (signup_GET parse_url EXPLABS_WEBAPP_URL r).
Proof. account_exec; licence. Qed.

(** Close what [licence] leaves of a route that seats a session. *)
Ltac credential :=
  cbn [promised answer_json coded session_cookies]; repeat case_bool_decide; try discriminate;
  first
  [ left; eexists; in_trace
  | intros _; eexists _, _, _; split; [in_trace|]; eexists; split; [reflexivity|]; split; [done|congruence]
  | eexists _, _, _, _; split; [in_trace|]; split; [eassumption|]; split; [eassumption|reflexivity] ].

Lemma verify_licensed : spec L (Q Verify) [] verify_POST.
Proof. account_exec; licence; credential. Qed.

Lemma signin_licensed : spec L (Q PasswordSignin) [] (signin_POST r).
Proof. account_exec; licence; credential. Qed.

Lemma presented_verifies ticket identity now expiresAt signature :
  presented_ticket ticket now = Some (expiresAt, signature) ->
  verifyPasswordRecoveryTicket sign bytes ticket identity now =
    bool_decide (bytes (sign (recovery_message identity expiresAt)) = bytes signature).
Proof.
  unfold presented_ticket, verifyPasswordRecoveryTicket. destruct ticket as [t|]; [|done]. simpl.
  destruct (split_on "." t) as [|x rest]; [done|]. destruct (rest !! 1%nat); [done|].
  destruct (safe_integer x) as [z|]; [|done]. case_decide; [done|]. by intros [= <- <-].
Qed.

Lemma posted_by (x : Thrown + json) body tr pw :
  x = inr body -> Tenant RequestBody ↪ x ∈ tr ->
  (parseResetPassword body = inr pw \/ exists p, parseChangePasswordPayload body = inr p /\ newPassword p = pw) ->
  posted_password tr pw.
Proof.
  intros -> Hin Hp. split; [|by exists body]. destruct Hp as [Hp|(p & Hp & <-)].
  - unfold parseResetPassword, too_short, invalid in Hp. destruct body; try done.
    destruct (long_enough _) eqn:Hl; [|done]. simplify_eq. by apply long_enough_Some in Hl as [_ ?].
  - by apply change_payload_exact in Hp as (_ & _ & ? & _).
Qed.

Lemma confirm_licensed :
  spec L (Q PasswordConfirm) [] (confirm_POST sign bytes SUPABASE_SERVICE_ROLE_KEY r).
Proof.
  account_exec; licence.
  - destruct x0 as [e|body]; [done|]. eapply posted_by; [reflexivity|in_trace|]. by left.
  - left. split; [done|].
    match goal with H : ?d ≫= recoverySessionIdentity = Some ?i |- _ => destruct d as [claims|] eqn:Hclaims; [|done] end.
    eexists claims, _, _. split; [eexists; split; [in_trace|done]|]. split; [eassumption|]. split; [done|].
    split; [in_trace|]. erewrite presented_verifies by eassumption. by apply bool_decide_eq_true.
Qed.

(** What the change route has read, as facts of its trace. *)
Lemma owner_of (d : db_result json) u a tr :
  RouteClaims ↪ inr d ∈ tr -> error d = None -> data d ≫= authenticatedUserFromClaims = Some u -> user_email u = Some a ->
  exists claims, data d = Some claims /\ session_owner tr claims (OrgAccess.user_id u) a.
Proof.
  intros Hin He Hu Ha. destruct (data d) as [claims|] eqn:Hd; [|done]. exists claims. split; [done|].
  split; [by exists d|]. simpl in Hu. rewrite Hu. destruct u. by simplify_eq/=.
Qed.

Lemma account_of (g : db_result json) u tr :
  RouteUser ↪ inr g ∈ tr ->
  bool_decide (error g <> None) || negb (bool_decide (data g ≫= (fun x => jget_str x "id") = Some u)) = false ->
  session_account tr u (data g).
Proof. intros Hin [He Hu]%orb_false_iff. allowed. exists g. split_and!; try done. by apply dec_stable. Qed.

Lemma first_proved d g u a h tr :
  RouteClaims ↪ inr d ∈ tr -> error d = None -> data d ≫= authenticatedUserFromClaims = Some u -> user_email u = Some a ->
  RouteUser ↪ inr g ∈ tr ->
  bool_decide (error g <> None) || negb (bool_decide (data g ≫= (fun x => jget_str x "id") = Some (OrgAccess.user_id u))) = false ->
  hasPasswordIdentity (data g) = true -> RpcEmailHasPassword a ↪ inr h ∈ tr ->
  match error h with None => data h ≫= jbool | Some _ => None end = Some false ->
  change_proved tr None.
Proof.
  intros H1 H2 H3 H4 H5 H6 H7 H8 H9. destruct (owner_of _ _ _ _ H1 H2 H3 H4) as (claims & _ & Hown).
  exists claims, (OrgAccess.user_id u), a, (data g). split; [done|]. split; [by apply account_of|]. split; [done|].
  exists h. split; [done|]. destruct (error h); [done|]. split; [done|].
  destruct (data h) as [[]|]; try done. by simplify_eq/=.
Qed.

Lemma current_proved d g u a v pw tr :
  RouteClaims ↪ inr d ∈ tr -> error d = None -> data d ≫= authenticatedUserFromClaims = Some u -> user_email u = Some a ->
  RouteUser ↪ inr g ∈ tr ->
  bool_decide (error g <> None) || negb (bool_decide (data g ≫= (fun x => jget_str x "id") = Some (OrgAccess.user_id u))) = false ->
  canChangePasswordForSession (data g) (data d) = true -> SignInWithPassword a pw ↪ inr v ∈ tr ->
  signed_in_as (OrgAccess.user_id u) v = true -> change_proved tr (Some pw).
Proof.
  intros H1 H2 H3 H4 H5 H6 H7 H8 H9. destruct (owner_of _ _ _ _ H1 H2 H3 H4) as (claims & Hd & Hown).
  exists claims, (OrgAccess.user_id u), a, (data g). split; [done|]. split; [by apply account_of|].
  rewrite Hd in H7. split; [done|]. by exists v.
Qed.

Lemma password_change_licensed : spec L (Q PasswordChange) [] change_POST.
Proof.
  account_exec; licence.
  all: try (destruct x0; [done|]; eapply posted_by; [reflexivity|in_trace|right; by eexists]).
  all: lazymatch goal with
  | |- _ \/ change_proved _ None => right; eapply first_proved
  | |- _ \/ change_proved _ (Some _) => right; eapply current_proved
  | |- (exists ip, _) \/ _ => right; edestruct owner_of as (claims & _ & Hown); [..|exists claims; eexists; exact Hown]
  end; try eassumption; in_trace.
Qed.
(** Ready for a mail or a key: none was sent or stored yet. *)
Definition fresh_request tr : Prop := Forall (fun e => mailed e = None) tr /\ unkeyed tr.

Lemma fresh_snoc tr e : fresh_request tr -> mailed e = None -> keyed e = false -> fresh_request (tr ++ [e]).
Proof. intros [H1 H2] He Hk. split; apply Forall_app; by split; [|constructor]. Qed.

Definition provision_post tr (o : outcome app_error InstantProvisionResult) : Prop :=
  match o with
  | Done result => Forall (fun e => mailed e = None) tr /\
      forall u org k credit pw, result = Created u org (Some k) credit pw -> key_stored sha256_hex tr k
  | Raised _ => True
  end.

Ltac unmailed := rewrite ?Forall_app; repeat split; try done; by repeat constructor.

Lemma founder_key_licensed tr user org nm :
  fresh_request tr -> created_here tr user ->
  (exists m, SelectFounderOrg user ↪ m ∈ tr /\ error m = None /\ data m = Some org) ->
  spec L (fun tr' o => Forall (fun e => mailed e = None) tr' /\
      match o with Done (inr k) => key_stored sha256_hex tr' k | _ => True end)
    tr (mint_founder_key sha256_hex user org nm).
Proof.
  intros [Hm Hk] Hc Hf. account_exec; try (split; [unmailed|done]); try done.
  all: try (split; [unmailed|]; eexists _, _; split; [in_trace|]; split; [eassumption|]; split; [congruence|reflexivity]).
  cbn [account_licensed key_created_by key_org key_row]. split; [apply Forall_app; split; [done|by repeat constructor]|].
  split.
  - destruct Hc as (a & pw & i & Hc). exists a, pw, i. apply elem_of_app. by left.
  - destruct Hf as (m & Hm' & ?). exists m. split; [|done]. apply elem_of_app. by left.
Qed.

Lemma provision_licensed tr email nm :
  fresh_request tr -> (exists ip, Limit (Start ip) ↪ true ∈ tr) -> signups_open tr ->
  spec L provision_post tr (provisionInstantAccount sha256_hex email None (Some nm)).
Proof.
  intros Hf (ip & Hip) (st & Hst & Hst'). unfold provisionInstantAccount, bare_uuid, answered, raise_thrown.
  exec_cbn. split; [done|]. intros u1. exec_cbn. split; [done|]. intros u2. exec_cbn. split.
  { split; [exists ip; do 2 (apply elem_of_app; left); done|]. split; [|done].
    exists st. split; [do 2 (apply elem_of_app; left); done|done]. }
  assert (forall x, fresh_request (((tr ++ [@Ev account_effects RandomUuid u1]) ++ [@Ev account_effects RandomUuid u2]) ++
    [@Ev account_effects (CreateUser email ("xpl-" +:+ replace_all "-" "" u1 +:+ replace_all "-" "" u2) None) x])) as Hf'
    by (intros; by repeat (apply fresh_snoc; [|done..])).
  intros [e|[f|[user|]]]; exec_cbn; try done.
  1: { destruct (isAlreadyRegistered f); (split; [apply Hf'|done]). }
  2: { split; [apply Hf'|done]. }
  split; [done|]. intros m. destruct (error m) as [e|] eqn:He; [|destruct (data m) as [org|] eqn:Hm]; exec_cbn.
  - split; [|intros x; split; [|done]].
    + split; [eexists _, _, _; in_trace|]. exists m. split; [in_trace|]. left. congruence.
    + destruct (fresh_snoc _ (@Ev account_effects (SelectFounderOrg user) m) (Hf' (inr (inr (Some user)))) eq_refl eq_refl) as [H _].
      apply Forall_app. by split; [|repeat constructor].
  - split; [done|]. intros c. apply spec_bind. eapply spec_post; [apply founder_key_licensed|].
    + by repeat (apply fresh_snoc; [|done..]).
    + eexists _, _, _. in_trace.
    + exists m. split; [in_trace|done].
    + intros tr' [[message|k]|e] [Hun Hk]; [..|done]; exec_cbn; (split; [done|]); [done|].
      intros ? ? ? ? ? [= _ _ <- _ _]. done.
  - split; [|intros x; split; [|done]].
    + split; [eexists _, _, _; in_trace|]. exists m. split; [in_trace|]. by right.
    + destruct (fresh_snoc _ (@Ev account_effects (SelectFounderOrg user) m) (Hf' (inr (inr (Some user)))) eq_refl eq_refl) as [H _].
      apply Forall_app. by split; [|repeat constructor].
Qed.

Lemma key_stored_grows tr tr' k : tr ⊆ tr' -> key_stored sha256_hex tr k -> key_stored sha256_hex tr' k.
Proof. intros Hs (row & ins & Hin & ?). exists row, ins. split; [by apply Hs|done]. Qed.

(** An answer whose body computes to one without a key. *)
Ltac keyless := intros ? ? [= <-] Hkey0; cbn in Hkey0; discriminate.

(** No answer but the one that discloses a stored key carries one. *)
Lemma keyless_error e body k :
  content (of_response (jsonError e)) = inl body -> jget_str body "api_key" <> Some k.
Proof.
  intros [= <-]. destruct e as [m|o slug|[m|m st code action|t]]; try done.
  unfold jsonError, obj. cbn. destruct code, action; done.
Qed.

Lemma answer_licensed tr email result :
  provision_post tr (Done result) ->
  spec L (fun tr' o => match o with Done _ => Q InstantSignup tr' o | Raised _ => True end) tr
    (instant_answer parse_url EXPLABS_WEBAPP_URL r email result).
Proof.
  intros [Hun Hkey]. unfold instant_answer. destruct result as [u org key credit pw| |m]; [|exec_cbn; keyless..].
  assert (forall tr' b cr sent url, tr ⊆ tr' -> Q InstantSignup tr' (Done (answer_json 200
    (JObj [("api_key", of_nullable key); ("org_id", JStr org); ("credits_granted", cr); ("verification_required", JBool b);
           ("verification_email_sent", JBool sent); ("overview_url", url)]) false))) as Hans.
  { intros tr' b cr sent url Hs body k [= <-] Hk. destruct key as [key|]; [|done].
    change (Some key = Some k) in Hk. simplify_eq.
    eapply key_stored_grows; [exact Hs|]. by eapply Hkey. }
  assert (forall l : events, tr ⊆ tr ++ l) as Hgrow by (intros l e He; apply elem_of_app; by left).
  autounfold with account_programs. exec_cbn. split; [done|]. intros ok. destruct ok; exec_cbn.
  - split; [split; [in_trace|apply Forall_app; split; [done|by repeat constructor]]|].
    intros x. exec; try done; apply Hans; rewrite <- ?app_assoc; apply Hgrow.
  - apply Hans, Hgrow.
Qed.

Lemma instant_licensed : spec L (Q InstantSignup) [] (instant_POST sha256_hex parse_url EXPLABS_WEBAPP_URL r).
Proof.
  unfold instant_POST. apply spec_try.
  eapply spec_post with (Q := fun tr o => match o with Done _ => Q InstantSignup tr o | Raised _ => True end);
    [|by intros tr [resp|e] H; [|intros body k Hb Hk; destruct (keyless_error _ _ _ Hb Hk)]].
  assert (forall tr email, fresh_request tr -> (exists ip, Limit (Start ip) ↪ true ∈ tr) -> signups_open tr ->
    spec L (fun tr o => match o with Done _ => Q InstantSignup tr o | Raised _ => True end) tr
      (instant_signup sha256_hex parse_url EXPLABS_WEBAPP_URL r email)) as Htail.
  { intros tr email H1 H2 H3. apply spec_bind. eapply spec_post; [by apply provision_licensed|].
    intros tr' [result|e] Hp; [by apply answer_licensed|done]. }
  unfold parsed, service_role, on_callback, AuthCallback.createServiceRoleSupabaseClient, AuthCallback.or_throw,
    isSignupAllowed, clock, raise_error, raise_thrown.
  exec; try done; try keyless.
  all: apply Htail; allowed.
  all: try (repeat (apply fresh_snoc; [|done..]); by repeat constructor).
  all: try (eexists; in_trace).
  all: eexists; split; [in_trace|done].
Qed.

(** Every route, whatever is answered. *)
Lemma route_licensed route :
  spec L (Q route) [] (serve sign bytes sha256_hex parse_url EXPLABS_WEBAPP_URL SUPABASE_SERVICE_ROLE_KEY route r).
Proof.
  destruct route; [apply otp_licensed|apply verify_licensed|apply resend_licensed|apply signin_licensed|apply reset_licensed
    |apply confirm_licensed|apply password_change_licensed|apply signup_licensed|apply instant_licensed].
Qed.
End facts.

(** ** The code route does not tell accounts apart, its cooldown does *)

(** The code route's answer by the mailer's: a refusal to create an account reads as a send. *)
Definition otp_verdict (sent : Thrown + option AuthFailure) : account_response :=
  match sent with
  | inl _ => send_failed
  | inr None => answer_json 200 ok_body true
  | inr (Some f) =>
      if bool_decide (fail_status f = Some 429) then recently
      else if bool_decide (fail_code f = Some "otp_disabled") || bool_decide (fail_status f = Some 422)
      then answer_json 200 ok_body true
      else send_failed
  end.

Section oracle.
Let visitor : auth_user := {| AuthCallback.user_id := "u"; email := None; created_at := None; identity_providers := [] |}.

(** A deployment that takes no signups, at one moment of its clock; whether the address is registered. *)
Definition closed_deployment (registered : bool) : handler account_effects Limits := fun w c =>
  match c return Limits * account_ans c with
  | Limit op => let '(ok, w') := limit_step w 0 op in (w', ok)
  | SignInWithOtp _ create _ _ =>
      (w, inr (if registered || create then None
               else Some {| fail_status := Some 422; fail_code := Some "otp_disabled"; fail_message := None |}))
  | Tenant RequestBody => (w, inr (JObj [("email", JStr "a@b.co")]))
  | Tenant c => (w, quiet_answer c)
  | Back c => (w, (no_service_role visitor tt c).2)
  | SelectSignupsEnabled => (w, db_ok false)
  | CountLiveInvites _ _ => (w, db_ok 0)
  | VerifyEmailCode _ _ | SignInWithPassword _ _ =>
      (w, inr {| auth_error := Some (new_Error ""); auth_user_of := None; access_token := None |})
  | RpcEmailHasPassword _ | RouteClaims | RouteUser | GenerateLink _ _ => (w, inr (DbResult None None))
  | UpdateUserPassword _ _ => (w, inr None)
  | SignOutHere => (w, inr None)
  | CreateUser _ _ _ => (w, inr (inr None))
  | SelectFounderOrg _ | SelectCreditGranted _ => (w, DbResult None None)
  | RandomUuid => (w, EmptyString)
  end.

Definition visit : account_request :=
  {| x_real_ip := None; x_forwarded_for := None; x_forwarded_host := None; x_forwarded_proto := None;
     host_header := None; url_origin := "https://app.example"; url_protocol := "https:"; query := [];
     recovery_ticket := None |}.

(** The statuses of two requests for a code, one right after the other. *)
Definition two_codes (registered : bool) : list Z :=
  let h := closed_deployment registered in
  let '(o1, _, w1) := run h (otp_POST (fun _ => None) None visit) no_limits in
  let '(o2, _, _) := run h (otp_POST (fun _ => None) None visit) w1 in
  omap (fun o => match o with Done resp => Some (status resp) | Raised _ => None end) [o1; o2].
End oracle.

(** Where signups are off, the second of two requests tells whether the address is registered: a refusal
    gives the cooldown back, a sent code keeps it. *)
Theorem otp_cooldown_oracle : two_codes true = [200; 429] /\ two_codes false = [200; 200].
Proof. split; vm_compute; reflexivity. Qed.

(** A request's body is read once. *)
Definition body_of (e : event account_effects) : option (Thrown + json) :=
  match e with Ev (Tenant RequestBody) x => Some x | _ => None end.

Lemma body_read tr x body : omap body_of tr = [x] -> Tenant RequestBody ↪ inr body ∈ tr -> x = inr body.
Proof.
  intros Ho Hin. assert (inr body ∈ omap body_of tr) as H by (apply list_elem_of_omap; by eexists).
  rewrite Ho in H. by apply list_elem_of_singleton in H.
Qed.

(** ** Properties *)


(** C39. The code route answers alike for every account. Its answer to a well-formed request is a function of
    the address's cooldown and of the mailer's answer, in which a refusal to create an account reads as a
    sent code: neither the signup gate nor the invite changes it. *)
Theorem otp_answer_neutral (parse_url : string -> option (string * string)) (EXPLABS_WEBAPP_URL : option string)
    (r : account_request) :
  spec (fun _ _ => True)
    (fun tr o => forall resp body p, o = Done resp -> Tenant RequestBody ↪ inr body ∈ tr -> parseOtpPayload body = inr p ->
      (Limit (SendEmail (otp_email p)) ↪ false ∈ tr /\ Forall (fun e => mailed e = None) tr /\ resp = recently) \/
      (Limit (SendEmail (otp_email p)) ↪ true ∈ tr /\ exists create redirect sent,
        SignInWithOtp (otp_email p) create redirect (inviteToken p) ↪ sent ∈ tr /\ resp = otp_verdict sent))
    [] (otp_POST parse_url EXPLABS_WEBAPP_URL r).
Proof.
  account_exec; try done.
  all: intros resp body q [= <-] Hbody Hq; eapply body_read in Hbody; [|reflexivity]; subst; rewrite Hq in *; simplify_eq; allowed.
  all: first [ left; split; [in_trace|]; split; [unfold mailed; by rewrite ?Forall_app; repeat constructor|done]
             | right; split; [in_trace|]; eexists _, _, _; split; [in_trace|done] ].
Qed.
