(* ===== verification/Operators.v ===== *)
(** * Platform operators (app/api/admin/users, app/api/admin/orgs, app/api/admin/invitations,
    app/api/admin/superadmin-keys, lib/admin/superadmin-keys.ts)

    What the experiential admins do to accounts and tenants: grant and revoke operator status with its
    machine key, ban and unban, change and delete accounts, move memberships, invite tenants and
    create an organization with its founder. Every route answers not-found to anyone else. PostgREST
    and GoTrue are answered from outside; the cookies a route's client carries over and
    [console.error] lines are not modelled. *)

From S2P Require Import Prelude JsMap JsString JsSort JsDate JsNumber Effects Url QueryStrings Json.
From S2P Require Import Services SignupLimits Routes Access OrgAccess TenantServices ApiKeys Passwords Invites StripeWebhook AuthCallback Accounts.

#[local] Open Scope Z_scope.

(** ** Services *)

(** A row of [platform_admin_keys], as it is inserted. *)
Record OperatorKeyRow := {
  op_user : string;
  op_email : string;
  op_name : string;
  op_prefix : string;
  op_suffix : string;
  op_hash : string;
}.

(** A row of [admin_list_users()]. *)
Record RosterUser := { roster_id : string; roster_email : option string; roster_banned_until : option string }.

(** A change of a membership: its organization, its role, or both. *)
Record MembershipUpdate := { targetOrgId : option string; update_role : option string }.

(** An invitation the tenant route inserted, and the row it passes on. *)
Record TenantInvite := { tenant_email : string; tenant_token : string; tenant_row : json }.

(** An organization's id, and the row the route passes on. *)
Record NewOrg := { new_org : string; new_org_row : json }.

#[export] Instance OperatorKeyRow_eq_dec : EqDecision OperatorKeyRow.
Proof. solve_decision. Defined.
#[export] Instance MembershipUpdate_eq_dec : EqDecision MembershipUpdate.
Proof. solve_decision. Defined.

Inductive operator_cmd :=
| Account (c : account_cmd)
| GetUserById (user : string)
| SelectUserBan (user : string)
| UpsertOperator (user granted_by : string)
| SelectOperator (user : string)
| DeleteOperator (user : string)
| InsertOperatorKey (row : OperatorKeyRow)
| RevokeOperatorKeys (user revoked_at : string)
| RevokeOperatorKey (id revoked_at : string)
| SelectOperatorKey (id : string)
| RpcRecordUserBan (user banned_by reason : string)
| RpcClearUserBan (user : string)
| UpdateUserEmail (user email : string)
| DeleteAccount (user : string)
| SelectOrgName (org : string)
| RpcRecordOrgBan (org banned_by reason : string)
| RpcClearOrgBan (org : string)
| MoveMembership (org user : string) (update : MembershipUpdate)
| RemoveMembership (org user : string)
| RpcInviteeState (org : option string) (email : string)
| InsertTenantInvite (email org_name : string)
| RevokeTenantInvite (id revoked_at : string)
| RpcListUsers
| InsertOrg (org_name slug : string)
| RenameOrg (org org_name slug : string)
| InsertFounder (org user : string)
| DeleteOrg (org : string).

(** GoTrue's lookup answers the account's email, [None] for an error or an unknown account. *)
Definition operator_ans (c : operator_cmd) : Type :=
  match c with
  | Account c => account_ans c
  | GetUserById _ => option (option string)
  | SelectUserBan _ | SelectOperator _ | SelectOperatorKey _ | SelectOrgName _ => db_result string
  | UpsertOperator _ _ | RevokeOperatorKeys _ _ | RevokeOperatorKey _ _ | RevokeTenantInvite _ _ => db_result (list string)
  | InsertOperatorKey _ => db_result string
  | DeleteOperator _ | RpcRecordUserBan _ _ _ | RpcClearUserBan _ | RpcRecordOrgBan _ _ _ | RpcClearOrgBan _
  | InsertFounder _ _ | DeleteOrg _ => db_result unit
  | UpdateUserEmail _ _ => option AuthFailure
  | DeleteAccount _ => option string
  | MoveMembership _ _ _ | RemoveMembership _ _ => db_result (list json)
  | RpcInviteeState _ _ => db_result json
  | InsertTenantInvite _ _ => db_result TenantInvite
  | RpcListUsers => db_result (list RosterUser)
  | InsertOrg _ _ | RenameOrg _ _ _ => db_result NewOrg
  end.

Definition operator_effects : effects := Effects operator_cmd operator_ans.

#[export] Instance limit_op_eq_dec : EqDecision limit_op.
Proof. solve_decision. Defined.
#[export] Instance LedgerRow_eq_dec : EqDecision LedgerRow.
Proof. solve_decision. Defined.
#[export] Instance SettingsUpsert_eq_dec : EqDecision SettingsUpsert.
Proof. solve_decision. Defined.
#[export] Instance RechargeEmail_eq_dec : EqDecision RechargeEmail.
Proof. solve_decision. Defined.
#[export] Instance hook_cmd_eq_dec : EqDecision hook_cmd.
Proof. solve_decision. Defined.
#[export] Instance callback_cmd_eq_dec : EqDecision callback_cmd.
Proof. solve_decision. Defined.
#[export] Instance account_cmd_eq_dec : EqDecision account_cmd.
Proof. solve_decision. Defined.
#[export] Instance operator_cmd_eq_dec : EqDecision operator_cmd.
Proof. solve_decision. Defined.
#[export] Instance operator_effects_eq_dec : EqDecision (cmd operator_effects) := operator_cmd_eq_dec.

(** What React's [cache] covers. *)
Definition operator_reads (c : cmd operator_effects) : bool :=
  match c with Account (Tenant c) => tenant_reads c | _ => false end.

Abbreviation O := (prog operator_effects app_error).
Abbreviation ask c := (@call operator_effects app_error c).

Definition on_account {X} (p : prog account_effects app_error X) : O X :=
  embed (E := account_effects) (F := operator_effects) Account (fun c x => x) (fun e => e) p.

Definition on_tenant {X} (p : prog tenant_effects app_error X) : O X := on_account (Accounts.on_tenant p).

Definition service_role : O unit := on_tenant TenantServices.createServiceRoleSupabaseClient.
Definition clock : O string := t ← ask (Account (Tenant TenantClock)); mret (iso_string t).

(** A response, and whether it forbids caches to hold it. *)
Record answer := { reply : response; no_store : bool }.

Definition plain_reply (r : response) : answer := {| reply := r; no_store := false |}.
Definition refused (message : string) (http : Z) : O answer := mret (plain_reply (json_error message http)).
Definition accepted (body : json) : answer := plain_reply (json_response body).

(** ** The gate, and the actor *)
Definition operators_only (k : O answer) : O answer :=
  admin ← on_tenant (gate isPlatformAdmin);
  if negb admin then refused "Not found" 404 else k.

Definition actor : O string := u ← on_tenant (gate requireAuthenticatedUser); mret (OrgAccess.user_id u).

(** The account must exist; [k] gets its email. *)
Definition with_account (user : string) (k : option string -> O answer) : O answer :=
  u ← ask (GetUserById user);
  match u with None => refused ("User not found: " +:+ user) 404 | Some email => k email end.

(** ** lib/admin/superadmin-keys.ts *)
Definition SECRET_PREFIX : string := "xpladmin_".
Definition OPERATOR_KEY_PREFIX_LENGTH : nat := 17.

Section keys.
Variable sha256_hex : string -> string.

Record OperatorKey := { key_label : string; key_secret : string }.

(** The row comes back non-null or the caller's [minted.row.name] throws. *)
Definition mintSuperadminKey (keyName user ownerEmail : string) : O OperatorKey :=
  minted ← on_tenant (mintKeySecret sha256_hex SECRET_PREFIX OPERATOR_KEY_PREFIX_LENGTH);
  _ ← service_role;
  r ← ask (InsertOperatorKey
    {| op_user := user; op_email := ownerEmail; op_name := keyName; op_prefix := minted_prefix minted;
       op_suffix := minted_suffix minted; op_hash := minted_hash minted |});
  match error r, data r with
  | Some e, _ => raise_error ("Unable to mint the superadmin key: " +:+ error_message e)
  | None, None => raise_error "Cannot read properties of null (reading 'name')"
  | None, Some stored => mret {| key_label := stored; key_secret := secret minted |}
  end.

Definition revokeSuperadminKeysForUser (user : string) : O Z :=
  _ ← service_role;
  now ← clock;
  r ← ask (RevokeOperatorKeys user now);
  match error r with
  | Some e => raise_error ("Unable to revoke the user's superadmin keys: " +:+ error_message e)
  | None => mret (Z.of_nat (length (default [] (data r))))
  end.

Definition revokeSuperadminKey (id : string) : O bool :=
  _ ← service_role;
  now ← clock;
  r ← ask (RevokeOperatorKey id now);
  match error r with
  | Some e => raise_error ("Unable to revoke the superadmin key: " +:+ error_message e)
  | None =>
      if bool_decide (default [] (data r) <> []) then mret true
      else
        r ← ask (SelectOperatorKey id);
        match error r with
        | Some e => raise_error ("Unable to revoke the superadmin key: " +:+ error_message e)
        | None => mret (bool_decide (data r <> None))
        end
  end.

(** ** app/api/admin/users/[userId]/site-admin *)
Definition operator_event (who action user : string) : AuditEvent :=
  {| audit_org := None; actorKind := "platform_admin"; audit_actor := Some who; audit_action := action;
     objectType := "user"; objectId := user; audit_before := None; audit_after := None |}.

Definition granted_body (user : string) (more : list (string * json)) : json :=
  JObj ([("userId", JStr user); ("siteAdmin", JBool true)] ++ more).

Definition unstored (body : json) : answer := {| reply := json_response body; no_store := true |}.

(** The key of a fresh grant, or why there is none. *)
Definition mint_for_grant (user : string) (ownerEmail : option string) : O answer :=
  match ownerEmail with
  | None =>
      mret (unstored (granted_body user
        [("mintError", JStr "The account has no email, so no superadmin key was minted.")]))
  | Some email =>
      try_catch
        (now ← clock;
         minted ← mintSuperadminKey ("granted " +:+ str_take 10 now) user email;
         mret (unstored (granted_body user
           [("key", JObj [("name", JStr (key_label minted)); ("secret", JStr (key_secret minted))])])))
        (fun e => mret (unstored (granted_body user
           [("mintError", JStr ("The grant succeeded but no key was minted (" +:+ app_error_text e +:+
              "). Revoke and re-grant to mint one."))])))
  end.

Definition grant_PUT (user : string) : O answer :=
  operators_only
    (who ← actor;
     _ ← service_role;
     with_account user (fun email =>
       ban ← ask (SelectUserBan user);
       match error ban, data ban with
       | Some e, _ => refused (error_message e) 500
       | None, Some _ => refused "This account is banned. Unban it before granting experiential-admin status." 409
       | None, None =>
           granted ← ask (UpsertOperator user who);
           match error granted, default [] (data granted) with
           | Some e, _ => refused (error_message e) 500
           | None, [] => mret (accepted (granted_body user []))
           | None, _ :: _ =>
               _ ← on_tenant (recordAuditEvent (operator_event who "platform_admin.grant" user));
               mint_for_grant user email
           end
       end)).

(** Once the keys are dead. *)
Definition drop_operator (who user : string) : O answer :=
  r ← ask (DeleteOperator user);
  match error r with
  | Some e => refused ("The keys were revoked but the admin row remains (" +:+ error_message e +:+ "). Retry.") 500
  | None =>
      _ ← on_tenant (recordAuditEvent (operator_event who "platform_admin.revoke" user));
      mret (plain_reply no_content)
  end.

Definition grant_DELETE (user : string) : O answer :=
  operators_only
    (who ← actor;
     if bool_decide (who = user) then refused "You cannot revoke your own site-admin access." 409
     else
       _ ← service_role;
       grant ← ask (SelectOperator user);
       match error grant, data grant with
       | Some e, _ => refused (error_message e) 500
       | None, None => refused "That account is not a site admin." 404
       | None, Some _ =>
           revoked ← try_catch (_ ← revokeSuperadminKeysForUser user; mret None) (fun e => mret (Some (app_error_text e)));
           match revoked with
           | Some message => refused ("Nothing was revoked (" +:+ message +:+ "). The account is still an admin; retry.") 500
           | None => drop_operator who user
           end
       end).
End keys.

(** ** app/api/admin/superadmin-keys/[id] *)
Definition key_DELETE (id : string) : O answer :=
  try_catch
    (operators_only
       (if negb (is_uuid id) then refused "No such key." 404
        else
          found ← revokeSuperadminKey id;
          if found : bool then mret (accepted (JObj [("ok", JBool true)])) else refused "No such key." 404))
    (fun e => mret (plain_reply (jsonError e))).

(** ** app/api/admin/users/[userId]/ban and app/api/admin/orgs/[orgId]/ban *)
Definition MAX_REASON_LENGTH : nat := 500.

Definition request_json : O (Thrown + json) := ask (Account (Tenant RequestBody)).

Definition readReason : O (option string) :=
  r ← request_json;
  mret match r with
       | inl _ => None
       | inr payload =>
           raw ← jget_str payload "reason";
           let reason := trim raw in
           if bool_decide (String.length reason = 0)%nat || bool_decide (MAX_REASON_LENGTH < String.length reason)%nat
           then None else Some reason
       end.

Definition reason_required : O answer := refused "A ban reason is required (at most 500 characters)." 400.

(** Answer a write's error, or go on. *)
Definition unless_failed {X} (r : db_result X) (k : O answer) : O answer :=
  match error r with Some e => refused (error_message e) 500 | None => k end.

Definition ban_PUT (user : string) : O answer :=
  operators_only
    (who ← actor;
     if bool_decide (who = user) then refused "You cannot ban your own account." 409
     else
       reason ← readReason;
       match reason with
       | None => reason_required
       | Some reason =>
           _ ← service_role;
           with_account user (fun _ =>
             r ← ask (RpcRecordUserBan user who reason);
             unless_failed r (mret (accepted (JObj [("userId", JStr user); ("banned", JBool true)]))))
       end).

Definition ban_DELETE (user : string) : O answer :=
  operators_only
    (_ ← service_role;
     with_account user (fun _ =>
       r ← ask (RpcClearUserBan user);
       unless_failed r (mret (plain_reply no_content)))).

(** The organization must exist; [k] gets its name. *)
Definition with_org (org : string) (k : string -> O answer) : O answer :=
  r ← ask (SelectOrgName org);
  match error r, data r with
  | Some e, _ => refused (error_message e) 500
  | None, None => refused ("Organization not found: " +:+ org) 404
  | None, Some orgName => k orgName
  end.

Definition org_ban_PUT (org : string) : O answer :=
  operators_only
    (who ← actor;
     reason ← readReason;
     match reason with
     | None => reason_required
     | Some reason =>
         _ ← service_role;
         with_org org (fun _ =>
           r ← ask (RpcRecordOrgBan org who reason);
           unless_failed r (mret (accepted (JObj [("orgId", JStr org); ("banned", JBool true)]))))
     end).

Definition org_ban_DELETE (org : string) : O answer :=
  operators_only
    (_ ← service_role;
     with_org org (fun _ =>
       r ← ask (RpcClearOrgBan org);
       unless_failed r (mret (plain_reply no_content)))).

(** ** app/api/admin/users/[userId] *)
Definition MAX_EMAIL_LENGTH : nat := 320.

Definition normalizeEmail (raw : string) : option string :=
  let email := to_lower (trim raw) in
  if bool_decide (String.length email = 0)%nat || bool_decide (MAX_EMAIL_LENGTH < String.length email)%nat
     || negb (includes_char "@" email) || negb (all_chars (fun a => negb (is_space a)) email)
  then None else Some email.

Definition readEmail : O (option string) :=
  r ← request_json;
  mret match r with inl _ => None | inr payload => jget_str payload "email" ≫= normalizeEmail end.

Definition email_PATCH (user : string) : O answer :=
  operators_only
    (email ← readEmail;
     match email with
     | None => refused "A valid email address is required (at most 320 characters)." 400
     | Some email =>
         _ ← service_role;
         with_account user (fun _ =>
           r ← ask (UpdateUserEmail user email);
           match r with
           | None => mret (accepted (JObj [("userId", JStr user); ("email", JStr email)]))
           | Some f =>
               refused (default EmptyString (fail_message f))
                 (if bool_decide (fail_status f = Some 422) then 409
                  else if bool_decide (fail_status f = Some 400) then 400 else 500)
           end)
     end).

Definition account_DELETE (user : string) : O answer :=
  operators_only
    (who ← actor;
     if bool_decide (who = user) then refused "You cannot delete your own account from the admin panel." 409
     else
       _ ← service_role;
       with_account user (fun _ =>
         r ← ask (DeleteAccount user);
         match r with Some message => refused message 500 | None => mret (plain_reply no_content) end)).

(** ** app/api/admin/orgs/[orgId]/members/[userId] *)
Definition open_client : O unit := on_account Accounts.open_route.

Definition parseMembershipUpdate (value : json) : Thrown + MembershipUpdate :=
  with_object value "Membership request must be an object."
    (let target := nullish value "targetOrgId" in
     let role := nullish value "role" in
     if bool_decide (target <> None /\ target ≫= jstr = None) then invalid "targetOrgId must be an organization id."
     else if negb (match role with None => true | Some v => bool_decide (default EmptyString (jstr v) ∈ INVITE_ROLES) end)
     then invalid "role must be one of: admin, user."
     else inr {| targetOrgId := present (target ≫= jstr); update_role := role ≫= jstr |}).

Definition message_of (fallback : string) (e : app_error) : string :=
  match e with DataSourceError (OtherError t) => message_or fallback t | e => app_error_text e end.

Definition no_membership : O answer := refused "Membership not found." 404.

Definition UNIQUE_VIOLATION : string := "23505".

Definition membership_PATCH (org user : string) : O answer :=
  operators_only
    (_ ← open_client;
     try_catch
       (r ← request_json;
        r ← answered r;
        update ← answered (parseMembershipUpdate r);
        if bool_decide (targetOrgId update = None /\ update_role update = None) then refused "Nothing to update." 400
        else
          r ← ask (MoveMembership org user update);
          match error r, default [] (data r) with
          | Some e, _ =>
              if bool_decide (error_code e = UNIQUE_VIOLATION)
              then refused "That user is already a member of the target organization." 409
              else refused (error_message e) 500
          | None, [] => no_membership
          | None, row :: _ => mret (accepted (JObj [("membership", row)]))
          end)
       (fun e => refused (message_of "Invalid membership request." e) 400)).

Definition membership_DELETE (org user : string) : O answer :=
  operators_only
    (_ ← open_client;
     r ← ask (RemoveMembership org user);
     match error r, default [] (data r) with
     | Some e, _ => refused (error_message e) 500
     | None, [] => no_membership
     | None, _ :: _ => mret (plain_reply no_content)
     end).

(** ** app/api/admin/invitations *)
Definition parseCreateInvitationPayload (value : json) : Thrown + (string * string) :=
  with_object value "Invitation request must be an object."
    match jget_str value "email" with
    | None => invalid "Invitation request must include a valid email."
    | Some email =>
        if negb (includes_char "@" email) then invalid "Invitation request must include a valid email."
        else match jget_str value "orgName" with
             | None => invalid "Invitation request must include an organization name."
             | Some orgName =>
                 if bool_decide (String.length (trim orgName) = 0)%nat
                 then invalid "Invitation request must include an organization name."
                 else inr (to_lower (trim email), trim orgName)
             end
    end.

Definition sent_json (failure : option string) : json :=
  match failure with
  | None => JObj [("sent", JBool true)]
  | Some reason => JObj [("sent", JBool false); ("reason", JStr reason)]
  end.

(** [origin] is the request's, as [Accounts.requestOrigin] finds it. *)
Definition invite_tenant (email orgName origin : string) : O answer :=
  st ← ask (RpcInviteeState None email);
  unless_failed st
    (if negb (bool_decide (data st = Some (JStr "none")))
     then refused "That email already has an account. Add them from the site admin page instead." 422
     else
       r ← ask (InsertTenantInvite email orgName);
       match error r, data r with
       | Some e, _ =>
           if bool_decide (error_code e = UNIQUE_VIOLATION)
           then refused ("A live invitation for " +:+ email +:+ " already exists.") 409
           else refused (error_message e) 500
       | None, None => raise_error "Cannot read properties of null (reading 'email')"
       | None, Some invitation =>
           failure ← on_tenant (sendInvitationEmail (tenant_email invitation) orgName
                                  (invitationLink origin (tenant_token invitation)));
           mret (plain_reply (Response 201 (JObj [("invitation", tenant_row invitation); ("email", sent_json failure)])))
       end).

Definition invitation_POST (origin : string) : O answer :=
  operators_only
    (_ ← open_client;
     try_catch
       (r ← request_json;
        r ← answered r;
        p ← answered (parseCreateInvitationPayload r);
        invite_tenant p.1 p.2 origin)
       (fun e => refused (message_of "Invalid invitation request." e) 400)).

Definition invitation_DELETE (id : string) : O answer :=
  operators_only
    (_ ← open_client;
     now ← clock;
     r ← ask (RevokeTenantInvite id now);
     match error r, default [] (data r) with
     | Some e, _ => refused (error_message e) 500
     | None, [] => refused ("No revocable invitation found: " +:+ id) 404
     | None, _ :: _ => mret (plain_reply no_content)
     end).

(** ** app/api/admin/orgs: an organization with its founder *)

(** lib/format.ts, [slugify]: runs of other characters become one dash, but not at either end. *)
Fixpoint dashed (pending : bool) (s : string) : string :=
  match s with
  | EmptyString => if pending then "-" else EmptyString
  | String a s =>
      if alnum a then (if pending then String "-" (String a (dashed false s)) else String a (dashed false s))
      else dashed true s
  end.

Fixpoint without_last_dash (s : string) : string :=
  match s with
  | EmptyString => EmptyString
  | String a EmptyString => if bool_decide (a = "-"%char) then EmptyString else s
  | String a s => String a (without_last_dash s)
  end.

Definition slugify (value : string) : string :=
  let s := dashed false (to_lower (trim value)) in
  without_last_dash match s with String "-" s => s | s => s end.

Example slugify_examples : map slugify ["Acme, Inc."; "  --Big  Co--  "; "***"; "A1"; EmptyString] = ["acme-inc"; "big-co"; EmptyString; "a1"; EmptyString].
Proof. by vm_compute. Qed.

Definition orgSlugFor (orgName : string) : O string :=
  uuid ← ask (Account RandomUuid);
  mret (default "org" (present (Some (slugify orgName))) +:+ "-" +:+ str_take 8 uuid).

Definition parseCreateOrgPayload (value : json) : Thrown + (string * string) :=
  with_object value "Organization request must be an object."
    match jget_str value "name" with
    | None => invalid "Organization request must include a name."
    | Some orgName =>
        if bool_decide (String.length (trim orgName) = 0)%nat then invalid "Organization request must include a name."
        else match jget_str value "founder_email" with
             | None => invalid "Organization request must include the founder's email."
             | Some raw =>
                 if bool_decide (String.length (trim raw) = 0)%nat
                 then invalid "Organization request must include the founder's email."
                 else match safePrefillEmail (Some raw) with
                      | None => invalid "The founder email is not a valid address."
                      | Some email => inr (trim orgName, email)
                      end
             end
    end.

(** Whether the compensating delete succeeded. *)
Definition deleteOrgOrWarn (org : string) : O bool :=
  r ← ask (DeleteOrg org); mret (bool_decide (error r = None)).

Definition created_reply (organization : json) (email founder : string) (sent : bool) : answer :=
  plain_reply (Response 201 (JObj [("organization", organization);
    ("founder", JObj [("email", JStr email); ("status", JStr founder)]); ("verification_email_sent", JBool sent)])).

(** A fresh founder: the organization the provisioning trigger made is given the chosen name. *)
Definition settle_new (org orgName email origin : string) : O answer :=
  slug ← orgSlugFor orgName;
  r ← ask (RenameOrg org orgName slug);
  match error r with
  | Some _ =>
      cleaned ← deleteOrgOrWarn org;
      refused (if cleaned : bool
               then "The organization could not be set up; the partial organization was removed. Try again."
               else "The organization could not be set up and cleanup failed; delete organization " +:+ org +:+
                 " manually before retrying.") 500
  | None =>
      failure ← on_account (sendVerificationEmail email origin);
      mret (created_reply (default JNull (new_org_row <$> data r)) email "created" (bool_decide (failure = None)))
  end.

(** Whether a ban is still running. *)
Definition still_banned (until : option string) : O bool :=
  match until with
  | None => mret false
  | Some at_ =>
      now ← ask (Account (Tenant TenantClock));
      mret match parse_timestamp at_ with Some t => bool_decide (now < t) | None => false end
  end.

(** A new organization for an account that exists. *)
Definition found_org (founder orgName email origin : string) : O answer :=
  slug ← orgSlugFor orgName;
  r ← ask (InsertOrg orgName slug);
  unless_failed r
    match data r with
    | None => raise_error "Cannot read properties of null (reading 'id')"
    | Some org =>
        m ← ask (InsertFounder (new_org org) founder);
        match error m with
        | Some e =>
            cleaned ← deleteOrgOrWarn (new_org org);
            refused (if cleaned : bool then error_message e
                     else error_message e +:+ " (cleanup also failed; delete organization " +:+ new_org org +:+ " manually)") 500
        | None =>
            sent ← on_account (sendSigninCode email origin);
            mret (created_reply (new_org_row org) email "existing" sent)
        end
    end.

Definition settle_existing (orgName email origin : string) : O answer :=
  users ← ask RpcListUsers;
  unless_failed users
    match find_first (fun u => bool_decide (to_lower <$> roster_email u = Some (to_lower email))) (default [] (data users)) with
    | None => refused "The founder account exists but could not be resolved; try again." 500
    | Some founder =>
        banned ← still_banned (roster_banned_until founder);
        if banned : bool
        then refused "That founder's account is banned. Unban it first or use a different email." 422
        else found_org (roster_id founder) orgName email origin
    end.

Section provisioning.
Variable sha256_hex : string -> string.

Definition provision (orgName email origin : string) : O answer :=
  provisioned ← on_account (provisionInstantAccount sha256_hex email None None);
  match provisioned with
  | SignupFailed message => refused message 500
  | Created _ org _ _ _ => settle_new org orgName email origin
  | AlreadyExists => settle_existing orgName email origin
  end.

Definition org_POST (origin : string) : O answer :=
  operators_only
    (_ ← open_client;
     r ← request_json;
     match match r with inl e => inl e | inr body => parseCreateOrgPayload body end with
     | inl e => refused (message_or "Invalid organization request." e) 400
     | inr p =>
         try_catch (_ ← service_role; provision p.1 p.2 origin)
           (fun _ => refused "Organization creation failed." 500)
     end).

(** Every route, by its name. *)
Inductive operator_route :=
| GrantOperator (user : string) | RevokeOperator (user : string) | RevokeKey (id : string)
| BanUser (user : string) | UnbanUser (user : string) | BanOrg (org : string) | UnbanOrg (org : string)
| ChangeEmail (user : string) | DeleteUser (user : string)
| MoveMember (org user : string) | RemoveMember (org user : string)
| InviteTenant | RevokeInvitation (id : string) | CreateOrg.

Definition handle (route : operator_route) (origin : string) : O answer :=
  match route with
  | GrantOperator user => grant_PUT sha256_hex user
  | RevokeOperator user => grant_DELETE user
  | RevokeKey id => key_DELETE id
  | BanUser user => ban_PUT user
  | UnbanUser user => ban_DELETE user
  | BanOrg org => org_ban_PUT org
  | UnbanOrg org => org_ban_DELETE org
  | ChangeEmail user => email_PATCH user
  | DeleteUser user => account_DELETE user
  | MoveMember org user => membership_PATCH org user
  | RemoveMember org user => membership_DELETE org user
  | InviteTenant => invitation_POST origin
  | RevokeInvitation id => invitation_DELETE id
  | CreateOrg => org_POST origin
  end.

Definition serve (route : operator_route) (origin : string) : O answer := cached operator_reads (handle route origin).
End provisioning.

(** ** What the events say *)
Abbreviation events := (list (event operator_effects)).
Notation "c ↪ x ∈ tr" := (@Ev operator_effects c x ∈ tr) (at level 70, x at level 50).

Implicit Types (tr : events).

Definition account_event (e : event operator_effects) : option (event account_effects) :=
  match e with Ev (Account c) x => Some (@Ev account_effects c x) | _ => None end.

Definition tenant_event (e : event account_effects) : option (event tenant_effects) :=
  match e with Ev (Tenant c) x => Some (@Ev tenant_effects c x) | _ => None end.

Definition tenant_events tr : list (event tenant_effects) := omap tenant_event (omap account_event tr).

(** The signed-in caller is a platform operator. *)
Definition operator tr (u : AuthenticatedUser) : Prop :=
  signed_in (tenant_events tr) u /\ operates (tenant_events tr) u.

Definition operator_id tr (who : string) : Prop := exists u, operator tr u /\ OrgAccess.user_id u = who.

Definition is_gate (e : event operator_effects) : bool :=
  match e with Ev (Account (Tenant (Gate _))) _ => true | _ => false end.

(** What of an operator's demo_store a command changes. *)
Definition changes_operators (c : cmd operator_effects) : bool :=
  match c with
  | UpsertOperator _ _ | DeleteOperator _ | InsertOperatorKey _ | RpcRecordUserBan _ _ _ | RpcRecordOrgBan _ _ _ | DeleteAccount _
  | RevokeOperatorKeys _ _ | RevokeOperatorKey _ _ => true
  | _ => false
  end.

Definition unchanged tr : Prop := Forall (fun e => match e with Ev c _ => changes_operators c = false end) tr.

(** The grant this request just made: the row is new. *)
Definition newly_granted tr (user : string) : Prop :=
  exists who r, UpsertOperator user who ↪ r ∈ tr /\ error r = None /\ default [] (data r) <> [].

Definition keys_revoked tr (user : string) : Prop :=
  exists at_ r, RevokeOperatorKeys user at_ ↪ r ∈ tr /\ error r = None.

Definition unkeyed tr : Prop :=
  Forall (fun e : event operator_effects => match e with Ev (InsertOperatorKey _) _ => False | _ => True end) tr.

Definition standing tr : Prop :=
  Forall (fun e : event operator_effects => match e with Ev (DeleteOperator _) _ | Ev (DeleteAccount _) _ => False | _ => True end) tr.

(** Neither an organization nor an operator was made yet. *)
Definition unmade tr : Prop :=
  Forall (fun e : event operator_effects => match e with Ev (InsertOrg _ _) _ | Ev (UpsertOperator _ _) _ => False | _ => True end) tr.

Definition account_found tr (user : string) : Prop := exists email, GetUserById user ↪ Some email ∈ tr.

Definition reason_sent tr (reason : string) : Prop :=
  exists body raw, Account (Tenant RequestBody) ↪ inr body ∈ tr /\ jget_str body "reason" = Some raw /\
    reason = trim raw /\ (0 < String.length reason <= MAX_REASON_LENGTH)%nat.

(** An organization made in this request. *)
Definition org_made tr (org : string) : Prop :=
  (exists nm slug r o, InsertOrg nm slug ↪ r ∈ tr /\ error r = None /\ data r = Some o /\ new_org o = org) \/
  (exists user r, Account (SelectFounderOrg user) ↪ r ∈ tr /\ error r = None /\ data r = Some org).

Section licence.
Variables (sha256_hex : string -> string) (route : operator_route).

(** What a command needs of the events before it. *)
Definition needs tr (c : cmd operator_effects) : Prop :=
  match c with
  | Account (Tenant (Gate c)) => cache_licensed (gate_events (tenant_events tr)) c
  | Account (Back (AuthCallback.DeleteUser user)) => unmade tr /\
      exists email password invite, Account (CreateUser email password invite) ↪ inr (inr (Some user)) ∈ tr
  | GetUserById _ | SelectUserBan _ | SelectOperator _ | SelectOperatorKey _ | SelectOrgName _
  | RpcInviteeState _ _ | RpcListUsers | Account _ => True
  | UpsertOperator user who => route = GrantOperator user /\ operator_id tr who /\ account_found tr user /\ unchanged tr /\
      exists ban, SelectUserBan user ↪ ban ∈ tr /\ error ban = None /\ data ban = None
  | InsertOperatorKey row => route = GrantOperator (op_user row) /\ newly_granted tr (op_user row) /\ standing tr /\ unkeyed tr /\
      exists hex, Account (Tenant RandomHex) ↪ hex ∈ tr /\ op_hash row = sha256_hex (SECRET_PREFIX +:+ hex)
  | RevokeOperatorKeys user _ => route = RevokeOperator user /\ unchanged tr /\ exists who, operator_id tr who /\ who <> user
  | DeleteOperator user => route = RevokeOperator user /\ keys_revoked tr user /\ standing tr /\ unkeyed tr /\
      exists who, operator_id tr who /\ who <> user
  | RevokeOperatorKey id _ => route = RevokeKey id /\ is_uuid id = true
  | RpcRecordUserBan user who reason => route = BanUser user /\ operator_id tr who /\ who <> user /\ account_found tr user /\
      reason_sent tr reason
  | RpcClearUserBan user => route = UnbanUser user /\ account_found tr user
  | RpcRecordOrgBan org who reason => route = BanOrg org /\ operator_id tr who /\ reason_sent tr reason
  | RpcClearOrgBan org => route = UnbanOrg org
  | UpdateUserEmail user email => route = ChangeEmail user /\ account_found tr user /\ exists raw, normalizeEmail raw = Some email
  | DeleteAccount user => route = DeleteUser user /\ account_found tr user /\ standing tr /\
      exists who, operator_id tr who /\ who <> user
  | MoveMembership org user update => route = MoveMember org user /\
      (forall role, update_role update = Some role -> role ∈ INVITE_ROLES)
  | RemoveMembership org user => route = RemoveMember org user
  | InsertTenantInvite email _ => exists st, RpcInviteeState None email ↪ st ∈ tr /\ error st = None /\ data st = Some (JStr "none")
  | RevokeTenantInvite id _ => route = RevokeInvitation id
  | InsertOrg _ _ => route = CreateOrg
  | InsertFounder org user => org_made tr org /\
      exists users u, RpcListUsers ↪ users ∈ tr /\ u ∈ default [] (data users) /\ roster_id u = user
  | RenameOrg org _ _ => org_made tr org
  | DeleteOrg org => org_made tr org /\
      ((exists user r, InsertFounder org user ↪ r ∈ tr /\ error r <> None) \/
       (exists nm slug r, RenameOrg org nm slug ↪ r ∈ tr /\ error r <> None))
  end.

(** A plaintext key appears only in a response no cache may hold, and its digest is what was stored. *)
Definition disclosed tr (a : answer) : Prop :=
  forall key, jget (resp_body (reply a)) "key" = Some key -> no_store a = true /\
    exists row r s, InsertOperatorKey row ↪ r ∈ tr /\ error r = None /\ jget_str key "secret" = Some s /\ op_hash row = sha256_hex s.

(** No organization is left without its founder in silence. *)
Definition founded tr (a : answer) : Prop :=
  forall nm slug r o, InsertOrg nm slug ↪ r ∈ tr -> error r = None -> data r = Some o ->
    (exists user m, InsertFounder (new_org o) user ↪ m ∈ tr /\ error m = None) \/
    (exists d, DeleteOrg (new_org o) ↪ d ∈ tr /\ (error d = None \/
       exists message, reply a = json_error (message +:+ " (cleanup also failed; delete organization " +:+ new_org o +:+ " manually)") 500)).

Definition promised tr (o : outcome app_error answer) : Prop :=
  match o with
  | Raised _ => True
  | Done a =>
      match route with GrantOperator _ => disclosed tr a | CreateOrg => founded tr a | _ => True end
  end.

(** Nothing but the gate runs for anyone but an operator. *)
Definition operator_licensed tr (c : cmd operator_effects) : Prop :=
  needs tr c /\ (match c with Account (Tenant (Gate _)) => True | _ => exists u, operator tr u end).
End licence.

(** ** The gate's steps *)
Definition tenant_of (e : event operator_effects) : option (event tenant_effects) := account_event e ≫= tenant_event.

Lemma tenant_events_omap tr : tenant_events tr = omap tenant_of tr.
Proof.
  induction tr as [|e tr IH]; [done|]. unfold tenant_events, tenant_of in *. simpl.
  destruct (account_event e) as [a|]; simpl; [|exact IH]. destruct (tenant_event a); [f_equal|]; exact IH.
Qed.

Lemma operator_tenant_events_app tr tr' : tenant_events (tr ++ tr') = tenant_events tr ++ tenant_events tr'.
Proof. rewrite !tenant_events_omap. apply omap_app. Qed.

Lemma tenant_of_Some e (c : tenant_cmd) (x : tenant_ans c) :
  tenant_of e = Some (@Ev tenant_effects c x) -> e = @Ev operator_effects (Account (Tenant c)) x.
Proof.
  unfold tenant_of. intros H. destruct e as [c0 y]. destruct c0 as [a| | | | | | | | | | | | | | | | | | | | | | | | | |]; try discriminate H.
  simpl in H. destruct a; try discriminate H. simpl in H. apply (inj Some) in H.
  pose proof (Ev_cmd _ _ _ _ H) as Hc. simpl in Hc. subst. by apply Ev_inj in H as ->.
Qed.

Lemma operator_tenant_events_mono tr tr' : tr ⊆ tr' -> tenant_events tr ⊆ tenant_events tr'.
Proof.
  rewrite !tenant_events_omap. intros Hg e (x & Hx & He)%list_elem_of_omap. apply list_elem_of_omap. exists x. auto.
Qed.

Lemma operator_tenant_events_same tr tr' :
  (forall e, e ∈ tr <-> e ∈ tr') -> forall e, e ∈ tenant_events tr <-> e ∈ tenant_events tr'.
Proof. intros H e. split; apply operator_tenant_events_mono; intros x; apply H. Qed.

Lemma gate_read tr (c : access_cmd) (x : access_ans c) :
  @Ev access_effects c x ∈ gate_events (tenant_events tr) -> Account (Tenant (Gate c)) ↪ x ∈ tr.
Proof.
  rewrite tenant_events_omap. intros (e & (e' & He' & Ht)%list_elem_of_omap & Hg)%list_elem_of_omap.
  apply gate_event_Some in Hg as ->. by apply tenant_of_Some in Ht as ->.
Qed.

Lemma operator_coherent_tenant tr : coherent operator_reads tr -> coherent tenant_reads (tenant_events tr).
Proof.
  rewrite tenant_events_omap. intros Hco c x y Hc (e & He & Hx)%list_elem_of_omap (e' & He' & Hy)%list_elem_of_omap.
  apply tenant_of_Some in Hx as ->. apply tenant_of_Some in Hy as ->. by eapply (Hco (Account (Tenant c))).
Qed.

Lemma operator_coherent_mono tr tr' : tr ⊆ tr' -> coherent operator_reads tr' -> coherent operator_reads tr.
Proof. intros Hg Hco c x y Hc Hx Hy. eapply Hco; eauto. Qed.

Lemma operator_mono tr tr' u : tr ⊆ tr' -> operator tr u -> operator tr' u.
Proof.
  intros Hg%operator_tenant_events_mono [H1 H2]. split; [by eapply signed_in_mono|by eapply operates_mono].
Qed.

Section routes.
Variables (sha256_hex : string -> string) (route : operator_route).

Abbreviation L := (operator_licensed sha256_hex route).
#[local] Abbreviation I := (fun tr c => coherent operator_reads tr -> L tr c).

Lemma operator_gate_step {X} Q tr (p : prog access_effects app_error X) :
  spec cache_licensed Q (gate_events (tenant_events tr)) p ->
  spec I (fun tr' o => (exists q, tr' = tr ++ q /\ Forall (fun e => is_gate e = true) q) /\
      Q (gate_events (tenant_events tr')) o) tr (on_tenant (gate p)).
Proof.
  intros H.
  pose proof (spec_gate Q (fun t c => match c with Gate c => cache_licensed (gate_events t) c | _ => False end)
    (tenant_events tr) p (fun t c Hc => Hc) H) as H1.
  assert (spec (fun (t : list (event account_effects)) (c : cmd account_effects) => match c with Tenant c => match c with Gate c => cache_licensed (gate_events (omap tenant_event t)) c | _ => False end | _ => False end)
    (fun (t : list (event account_effects)) o => (exists q, omap tenant_event t = tenant_events tr ++ q /\
        Forall (embedded (E := access_effects) (F := tenant_effects) Gate) q) /\ (exists q, t = omap account_event tr ++ q /\ Forall (fun e => tenant_event e <> None) q) /\
      Q (gate_events (omap tenant_event t)) o) (omap account_event tr) (Accounts.on_tenant (gate p))) as H2.
  { eapply spec_post.
    - eapply (spec_embed (E := tenant_effects) (F := account_effects) Tenant (fun c x => x) (fun e => e) (omap tenant_event)
        ltac:(intros; by rewrite omap_app)); [|exact H1]. done.
    - intros t [a|e] [(q & -> & Hq) Ho]; [|destruct Ho as (e' & -> & Ho)]; destruct Ho as [Hg HQ]; (split; [done|]; split; [|done]);
        exists q; (split; [done|]); (eapply Forall_impl; [exact Hq|]); intros ev (c & x & ->); done. }
  eapply spec_post.
  - eapply (spec_embed (E := account_effects) (F := operator_effects) Account (fun c x => x) (fun e => e) (omap account_event)
      ltac:(intros; by rewrite omap_app)); [|exact H2].
    intros tr' c Hc Hco. destruct c as [|c| | | | | | | | | | | | | | | |]; try done. by destruct c.
  - intros tr' o [(q & -> & Hq) Ho].
    assert (Q (gate_events (tenant_events (tr ++ q))) o /\ exists q', tenant_events (tr ++ q) = tenant_events tr ++ q' /\
      Forall (embedded (E := access_effects) (F := tenant_effects) Gate) q' /\
      exists q2, omap account_event (tr ++ q) = omap account_event tr ++ q2 /\ Forall (fun e => tenant_event e <> None) q2) as (HQ & q' & Hq' & Hg & q2 & Hq2 & Ht).
    { destruct o as [a|e]; [|destruct Ho as (e' & -> & Ho)]; destruct Ho as ((q' & ? & ?) & (q2 & ? & ?) & ?); eauto 10. }
    split; [|done]. exists q. split; [done|]. rewrite operator_tenant_events_app in Hq'. apply app_inv_head in Hq'.
    rewrite omap_app in Hq2. apply app_inv_head in Hq2. clear - Hq Hq' Hg Hq2 Ht. subst q' q2.
    induction q as [|e q IH]; [done|]. apply Forall_cons in Hq as [(c & x & ->) Hq]. simpl in Ht.
    apply Forall_cons in Ht as [Hc Ht]. unfold tenant_events in Hg. simpl in Hg.
    destruct c as [|c| | | | | | | | | | | | | | | |]; try done. simpl in Hg. apply Forall_cons in Hg as [(gc & y & Hy) Hg].
    pose proof (Ev_cmd _ _ _ _ Hy) as Hcmd. simpl in Hcmd. subst c. constructor; [done|]. by apply IH.
Qed.

(** After the gate only gate events happened, and they name an operator. *)
Definition passed tr : Prop :=
  Forall (fun e => is_gate e = true) tr /\ (coherent operator_reads tr -> exists u, operator tr u).

Lemma operators_step Q k :
  (forall tr, passed tr -> spec I Q tr k) ->
  (forall tr e, Q tr (Raised e)) -> (forall tr, Forall (fun e => is_gate e = true) tr -> Q tr (Done (plain_reply (json_error "Not found" 404)))) ->
  spec I Q [] (operators_only k).
Proof.
  intros Hk He Hn. unfold operators_only. apply spec_bind. eapply spec_post; [apply operator_gate_step, admin_spec|].
  intros tr [[|]|e] [(q & -> & Hq) [_ H]]; exec_cbn; [|by apply Hn|apply He].
  apply Hk. split; [done|]. intros _. destruct H as (u & ? & ?). by exists u.
Qed.

Lemma actor_step tr :
  passed tr ->
  spec I (fun tr' o => passed tr' /\ match o with Done who => coherent operator_reads tr' -> operator_id tr' who | Raised _ => True end)
    tr actor.
Proof.
  intros [Hg Hop]. unfold actor. apply spec_bind. eapply spec_post; [apply operator_gate_step, require_user_spec|].
  assert (forall q, Forall (fun e => is_gate e = true) q -> passed (tr ++ q)) as Hpass.
  { intros q Hq. split; [by apply Forall_app|]. intros Hco. destruct Hop as [u Hu].
    - eapply operator_coherent_mono; [|exact Hco]. intros e He. apply elem_of_app. by left.
    - exists u. eapply operator_mono; [|exact Hu]. intros e He. apply elem_of_app. by left. }
  intros tr' [u|e] [(q & -> & Hq) [_ H]]; exec_cbn; (split; [by apply Hpass|]); [|done].
  intros Hco. destruct (Hpass q Hq) as [_ Hp]. destruct (Hp Hco) as [u' Hu']. exists u'. split; [done|].
  destruct Hu' as [Hs _]. f_equal. eapply signed_in_unique; [by apply operator_coherent_tenant|exact Hs|exact H].
Qed.
(** *** The licence of each route *)
(** An operator is known, for later events. *)
Definition known tr : Prop := coherent operator_reads tr -> exists u, operator tr u.

Lemma passed_known tr : passed tr -> known tr.
Proof. by intros [_ H]. Qed.

Lemma known_mono tr tr' : known tr -> tr ⊆ tr' -> known tr'.
Proof.
  intros H Hs Hco. destruct H as (u & Hu); [by eapply operator_coherent_mono|]. exists u. by eapply operator_mono.
Qed.

Lemma known_operator tr tr' : known tr -> tr ⊆ tr' -> coherent operator_reads tr' -> exists u, operator tr' u.
Proof. intros H Hs. by apply (known_mono tr). Qed.

(** The actor, for later events. *)
Definition acting tr (who : string) : Prop := coherent operator_reads tr -> operator_id tr who.

Lemma acting_sub tr tr' who : acting tr who -> tr ⊆ tr' -> coherent operator_reads tr' -> operator_id tr' who.
Proof.
  intros H Hs Hco. destruct H as (u & Hu & <-); [by eapply operator_coherent_mono|]. exists u. split; [|done].
  by eapply operator_mono.
Qed.

Lemma gates_quiet tr (P : event operator_effects -> Prop) :
  passed tr -> (forall e, is_gate e = true -> P e) -> Forall P tr.
Proof. intros [H _] HP. eapply Forall_impl; [exact H|]. exact HP. Qed.

Ltac subtrace := let H := fresh in intros ? H; repeat (apply elem_of_app; left); exact H.

(** A property of every event of a symbolic trace. *)
Ltac throughout :=
  unfold unchanged, standing, unkeyed; rewrite ?Forall_app; repeat split;
  try (eapply gates_quiet; [eassumption|intros [c ?]; by destruct c as [[]| | | | | | | | | | | | | | | | | | | | | | | | | |]]);
  by repeat constructor.

Lemma org_made_mono tr tr' org : org_made tr org -> tr ⊆ tr' -> org_made tr' org.
Proof. intros [(? & ? & ? & ? & ? & ?)|(? & ? & ? & ?)] Hs; [left|right]; eauto 10. Qed.

Ltac unmade_here := unfold unmade; rewrite ?Forall_app; repeat split; first [assumption|by repeat constructor].

Ltac licence :=
  let Hco := fresh "Hco" in
  intros Hco; split;
  [cbn [needs]
  |cbn; first [exact Logic.I | eapply known_operator; [first [eassumption|apply passed_known; eassumption]|subtrace|exact Hco]]];
  repeat match goal with
  | |- True => exact Logic.I
  | |- _ /\ _ => split
  | |- ?x = ?x => reflexivity
  | |- operator_id _ _ => eapply acting_sub; [eassumption|subtrace|exact Hco]
  | |- account_found _ _ => eexists; in_trace
  | |- org_made _ _ => eapply org_made_mono; [eassumption|subtrace]
  | |- unchanged _ => throughout
  | |- standing _ => throughout
  | |- unkeyed _ => throughout
  | |- unmade _ => unmade_here
  | |- exists who, operator_id _ who /\ who <> _ =>
      eexists; split; [eapply acting_sub; [eassumption|subtrace|exact Hco]|by eapply bool_decide_eq_false]
  | H : bool_decide (?x = ?y) = false |- ?x <> ?y => by apply bool_decide_eq_false in H
  | |- newly_granted _ _ => eexists _, _; split; [in_trace|]; split; [assumption|congruence]
  | |- keys_revoked _ _ => eexists _, _; split; [in_trace|assumption]
  | |- exists r, _ ↪ r ∈ _ /\ _ => eexists; split; [in_trace|]
  end; try done.

Create HintDb operator_programs.
#[local] Hint Unfold on_tenant on_account Accounts.on_tenant gate service_role clock refused TenantServices.createServiceRoleSupabaseClient
  answered raise_error raise_thrown with_account with_org mintSuperadminKey revokeSuperadminKeysForUser revokeSuperadminKey
  mintKeySecret mint_for_grant drop_operator recordAuditEvent unless_failed request_json readReason reason_required readEmail
  open_client Accounts.open_route no_membership invite_tenant sendInvitationEmail sendInviteEmail : operator_programs.

Ltac operator_exec := autounfold with operator_programs; exec.

Lemma grant_licensed user : route = GrantOperator user -> spec I (promised sha256_hex route) [] (grant_PUT sha256_hex user).
Proof.
  intros Hroute. unfold grant_PUT. apply operators_step; [|done|by rewrite Hroute; intros tr _ key [=]]. intros tr0 Hp0.
  apply spec_bind. eapply spec_post; [by apply actor_step|]. intros tr [who|e] [Hp Hwho]; [|done].
  change (acting tr who) in Hwho. clear Hp0 tr0.
  operator_exec.
  all: try done.
  all: try (licence; fail).
  all: rewrite Hroute; subst; intros key Hkey; cbn in Hkey; try discriminate Hkey.
  all: injection Hkey as <-; split; [done|].
  all: eexists _, _, _; split; [in_trace|]; done.
Qed.

(** The other routes promise nothing of the response. *)
Definition plain_route : bool := match route with GrantOperator _ | CreateOrg => false | _ => true end.

Lemma promised_plain tr o : plain_route = true -> promised sha256_hex route tr o.
Proof. unfold plain_route, promised. by destruct o, route. Qed.

(** Through the gate, and to the actor when the route names one. *)
Ltac past_gate :=
  apply operators_step; [|by intros; apply promised_plain; subst|by intros; apply promised_plain; subst];
  let tr := fresh "tr" in let Hp := fresh "Hp" in intros tr Hp.

Ltac past_actor :=
  apply spec_bind; eapply spec_post; [by apply actor_step|];
  let who := fresh "who" in let Hp' := fresh "Hp'" in let Hwho := fresh "Hwho" in
  let tr := fresh "tr" in
  intros tr [who|?] [Hp' Hwho]; [change (acting tr who) in Hwho|by apply promised_plain; subst].

Ltac route_done := operator_exec; try (by apply promised_plain; subst); try (licence; fail).

Ltac plain_from Hroute := assert (plain_route = true) by (by unfold plain_route; rewrite Hroute).

Lemma revoke_licensed user : route = RevokeOperator user -> spec I (promised sha256_hex route) [] (grant_DELETE user).
Proof. intros Hroute. plain_from Hroute. unfold grant_DELETE. past_gate. past_actor. route_done. Qed.

Lemma delete_licensed user : route = DeleteUser user -> spec I (promised sha256_hex route) [] (account_DELETE user).
Proof. intros Hroute. plain_from Hroute. unfold account_DELETE. past_gate. past_actor. route_done. Qed.

Lemma unban_licensed user : route = UnbanUser user -> spec I (promised sha256_hex route) [] (ban_DELETE user).
Proof. intros Hroute. plain_from Hroute. unfold ban_DELETE. past_gate. route_done. Qed.

Lemma org_unban_licensed org : route = UnbanOrg org -> spec I (promised sha256_hex route) [] (org_ban_DELETE org).
Proof. intros Hroute. plain_from Hroute. unfold org_ban_DELETE. past_gate. route_done. Qed.

Lemma remove_member_licensed org user :
  route = RemoveMember org user -> spec I (promised sha256_hex route) [] (membership_DELETE org user).
Proof. intros Hroute. plain_from Hroute. unfold membership_DELETE. past_gate. route_done. Qed.

Lemma revoke_invitation_licensed id :
  route = RevokeInvitation id -> spec I (promised sha256_hex route) [] (invitation_DELETE id).
Proof. intros Hroute. plain_from Hroute. unfold invitation_DELETE. past_gate. route_done. Qed.

Lemma reason_read tr (x : Thrown + json) reason :
  Account (Tenant RequestBody) ↪ x ∈ tr ->
  match x with
  | inl _ => None
  | inr payload =>
      raw ← jget_str payload "reason";
      if bool_decide (String.length (trim raw) = 0)%nat || bool_decide (MAX_REASON_LENGTH < String.length (trim raw))%nat
      then None else Some (trim raw)
  end = Some reason -> reason_sent tr reason.
Proof.
  intros Hx. destruct x as [|body]; [done|]. destruct (jget_str body "reason") as [raw|] eqn:Hr; simpl; [|done].
  case_bool_decide; simpl; [done|]. case_bool_decide; simpl; [done|]. intros [= <-]. exists body, raw.
  repeat split; [done|done|lia|lia].
Qed.

Lemma ban_licensed user : route = BanUser user -> spec I (promised sha256_hex route) [] (ban_PUT user).
Proof.
  intros Hroute. plain_from Hroute. unfold ban_PUT. past_gate. past_actor. route_done.
  licence. eapply reason_read; [in_trace|eassumption].
Qed.

Lemma org_ban_licensed org : route = BanOrg org -> spec I (promised sha256_hex route) [] (org_ban_PUT org).
Proof.
  intros Hroute. plain_from Hroute. unfold org_ban_PUT. past_gate. past_actor. route_done.
  licence. eapply reason_read; [in_trace|eassumption].
Qed.

Lemma email_licensed user : route = ChangeEmail user -> spec I (promised sha256_hex route) [] (email_PATCH user).
Proof.
  intros Hroute. plain_from Hroute. unfold email_PATCH. past_gate. route_done.
  licence. match goal with H : _ = Some ?s |- _ => destruct x as [|body]; [done|] end.
  destruct (jget_str body "email") as [raw|]; [|done]. by exists raw.
Qed.

Lemma move_role j m role : parseMembershipUpdate j = inr m -> update_role m = Some role -> role ∈ INVITE_ROLES.
Proof.
  unfold parseMembershipUpdate, with_object. destruct j; try discriminate. case_bool_decide as Ht; [discriminate|].
  destruct (nullish _ "role") as [v|]; simpl; [|by intros [= <-]].
  case_bool_decide as Hr; [|discriminate]. simpl. intros [= <-] Hv. simpl in Hv. by rewrite Hv in Hr.
Qed.

Lemma move_licensed org user : route = MoveMember org user -> spec I (promised sha256_hex route) [] (membership_PATCH org user).
Proof.
  intros Hroute. plain_from Hroute. unfold membership_PATCH. past_gate. route_done.
  licence. intros role. by eapply move_role.
Qed.

Lemma revoke_key_licensed id : route = RevokeKey id -> spec I (promised sha256_hex route) [] (key_DELETE id).
Proof.
  intros Hroute. plain_from Hroute. unfold key_DELETE. apply spec_try. past_gate. route_done.
  licence. by apply negb_false_iff.
Qed.

Lemma invite_licensed origin : route = InviteTenant -> spec I (promised sha256_hex route) [] (invitation_POST origin).
Proof.
  intros Hroute. plain_from Hroute. unfold invitation_POST. past_gate. route_done.
  licence. by apply negb_false_iff, bool_decide_eq_true in Heqb.
Qed.

#[local] Hint Unfold provisionInstantAccount sendVerificationEmail sendSigninCode sendEmailCode bare_uuid send_link sendResendEmail orgSlugFor deleteOrgOrWarn still_banned : operator_programs.

Lemma unmade_founded tr a : unmade tr -> founded tr a.
Proof. intros H nm slug r o Hin. by apply (proj1 (Forall_forall _ _) H) in Hin. Qed.

Lemma provision_step tr email :
  known tr -> unmade tr ->
  spec I (fun tr' o => known tr' /\ unmade tr' /\
      match o with
      | Done (Created _ org _ _ _) => exists user r, Account (SelectFounderOrg user) ↪ r ∈ tr' /\ error r = None /\ data r = Some org
      | _ => True
      end)
    tr (on_account (provisionInstantAccount sha256_hex email None None)).
Proof.
  intros Hk Ho. unfold provisionInstantAccount, bare_uuid. operator_exec.
  all: try (licence; fail).
  all: try (licence; eexists _, _, _; in_trace).
  all: split; [eapply known_mono; [eassumption|subtrace]|split; [unmade_here|try done]].
  - by destruct (isAlreadyRegistered _).
  - eexists _, _. split; [in_trace|done].
Qed.

(** The founder's email is sent, whatever comes of it. *)
Definition founded_by tr (o : outcome app_error answer) : Prop :=
  match o with Done a => founded tr a | Raised _ => forall a, founded tr a end.

Lemma settle_new_step tr org orgName email origin :
  known tr -> unmade tr ->
  org_made tr org -> spec I founded_by tr (settle_new org orgName email origin).
Proof.
  intros Hk Ho Hmade. unfold settle_new. operator_exec.
  all: try (licence; fail).
  all: try (intros; apply unmade_founded; unmade_here).
  licence. right. eexists _, _, _. split; [in_trace|]. congruence.
Qed.

(** Look an insertion up in a trace that makes one. *)
Ltac one_org :=
  let Hin := fresh "Hin" in let He := fresh "He" in let Hd := fresh "Hd" in let Hc := fresh "Hc" in
  intros ? ? ? ? Hin He Hd; repeat (apply elem_of_app in Hin as [Hin|Hin]);
  [by match goal with Ho : unmade _ |- _ => apply (proj1 (Forall_forall _ _) Ho) in Hin end|..];
  apply list_elem_of_singleton in Hin; pose proof (Ev_cmd _ _ _ _ Hin) as Hc; try discriminate Hc;
  injection Hc as -> ->; apply Ev_inj in Hin as ->; simplify_eq.

Definition listed tr (user : string) : Prop :=
  exists users u, RpcListUsers ↪ users ∈ tr /\ u ∈ default [] (data users) /\ roster_id u = user.

Lemma found_org_step tr founder orgName email origin :
  route = CreateOrg -> known tr -> unmade tr -> listed tr founder ->
  spec I founded_by tr (found_org founder orgName email origin).
Proof.
  intros Hroute Hk Ho (users & u & Hu & Hin & Hid). unfold found_org. operator_exec.
  all: try (licence; fail).
  all: try match goal with |- founded_by _ (Done _) => unfold founded_by; one_org | |- founded_by _ (Raised _) => intros ?; one_org end.
  all: try (left; eexists _, _; split; [in_trace|done]).
  - licence; [left; eexists _, _, _, _; split; [in_trace|done]|]. exists users, u. split; [in_trace|done].
  - licence; [left; eexists _, _, _, _; split; [in_trace|done]|]. left. eexists _, _. split; [in_trace|congruence].
  - right. eexists. split; [in_trace|]. case_bool_decide; [by left|right]. by eexists.
Qed.

Lemma settle_existing_step tr orgName email origin :
  route = CreateOrg -> known tr -> unmade tr -> spec I founded_by tr (settle_existing orgName email origin).
Proof.
  intros Hroute Hk Ho. unfold settle_existing. operator_exec.
  all: try (licence; fail).
  all: try match goal with |- founded_by _ (Done _) => apply unmade_founded; unmade_here end.
  all: apply found_org_step; [done|eapply known_mono; [eassumption|subtrace]|unmade_here|].
  all: eexists x, r; (split; [in_trace|]); (split; [|done]); by eapply find_first_elem.
Qed.

Lemma provision_licensed_step tr orgName email origin :
  route = CreateOrg -> known tr -> unmade tr -> spec I founded_by tr (provision sha256_hex orgName email origin).
Proof.
  intros Hroute Hk Ho. unfold provision. apply spec_bind. eapply spec_post; [by apply provision_step|].
  intros tr' [[who org k c p| |m]|e] (Hk' & Ho' & H).
  - apply settle_new_step; [done..|by right].
  - by apply settle_existing_step.
  - by apply unmade_founded.
  - intros a. by apply unmade_founded.
Qed.

Lemma operator_create_licensed origin : route = CreateOrg -> spec I (promised sha256_hex route) [] (org_POST sha256_hex origin).
Proof.
  intros Hroute. unfold org_POST.
  apply (spec_post I (fun tr o => match o with Done a => founded tr a | Raised _ => True end)); [|by rewrite Hroute; intros ? []].
  apply operators_step; [|done|].
  - intros tr Hp. assert (unmade tr) as Ho by throughout.
    operator_exec. all: try (licence; fail). all: try done. all: try by apply unmade_founded; unmade_here.
    apply spec_try.
    eapply spec_post; [apply provision_licensed_step; [done|by eapply known_mono; [by apply passed_known|subtrace]|unmade_here]|].
    intros tr' [a|e] H; [done|]. apply H.
  - intros tr Hg. apply unmade_founded. eapply Forall_impl; [exact Hg|]. intros [c ?]. by destruct c.
Qed.
End routes.

(** ** The licence sees only which events happened *)
Section same_events.
Variables (sha256_hex : string -> string) (route : operator_route).
Context tr tr' (Hsame : forall e, e ∈ tr <-> e ∈ tr').

Lemma same_sub : tr ⊆ tr'.
Proof. intros e. apply Hsame. Qed.

Lemma same_throughout (P : event operator_effects -> Prop) : Forall P tr -> Forall P tr'.
Proof. rewrite !Forall_forall. intros H e He. by apply H, Hsame. Qed.

Lemma operator_id_same who : operator_id tr who -> operator_id tr' who.
Proof. intros (u & Hu & Hid). exists u. split; [|done]. by eapply operator_mono; [exact same_sub|]. Qed.

Create HintDb same_events.
#[local] Hint Extern 1 (_ ∈ tr') => (apply same_sub; eassumption) : same_events.
#[local] Hint Extern 1 (unchanged tr') => (apply same_throughout; assumption) : same_events.
#[local] Hint Extern 1 (standing tr') => (apply same_throughout; assumption) : same_events.
#[local] Hint Extern 1 (unmade tr') => (apply same_throughout; assumption) : same_events.
#[local] Hint Extern 1 (unkeyed tr') => (apply same_throughout; assumption) : same_events.
#[local] Hint Extern 1 (operator_id tr' _) => (eapply operator_id_same; eassumption) : same_events.
#[local] Hint Extern 1 (org_made tr' _) => (eapply org_made_mono; [eassumption|exact same_sub]) : same_events.
#[local] Hint Unfold account_found reason_sent newly_granted keys_revoked : same_events.

Lemma needs_same c : needs sha256_hex route tr c -> needs sha256_hex route tr' c.
Proof.
  intros H. destruct c; try done; simpl in *; autounfold with same_events in *.
  { repeat case_match; try done; [destruct H as (? & ? & ? & ? & ?); split; eauto with same_events|].
    eapply cache_licensed_same, H. apply gate_events_same. by apply operator_tenant_events_same. }
  all: destruct_and?; repeat match goal with H : exists _, _ |- _ => destruct H | H : _ \/ _ |- _ => destruct H end; destruct_and?.
  all: split_and?; eauto 10 with same_events.
Qed.

Lemma operator_licensed_same c : operator_licensed sha256_hex route tr c -> operator_licensed sha256_hex route tr' c.
Proof.
  intros [Hn Hop]. split; [by apply needs_same|]. repeat case_match; try done.
  all: destruct Hop as [u Hu]; exists u; by eapply operator_mono; [exact same_sub|].
Qed.

Lemma disclosed_same a : disclosed sha256_hex tr a -> disclosed sha256_hex tr' a.
Proof.
  intros H key Hkey. destruct (H key Hkey) as (? & row & r & s & ? & ?). split; [done|]. exists row, r, s.
  by rewrite <- Hsame.
Qed.

Lemma founded_same a : founded tr a -> founded tr' a.
Proof.
  intros H nm slug r o Hin He Hd. apply Hsame in Hin.
  destruct (H nm slug r o Hin He Hd) as [(u & m & ? & ?)|(d & ? & ?)]; [left; exists u, m|right; exists d]; by rewrite <- Hsame.
Qed.

Lemma promised_same o : promised sha256_hex route tr o -> promised sha256_hex route tr' o.
Proof.
  unfold promised. destruct o as [a|e]; [|done]. destruct route; auto using disclosed_same, founded_same.
Qed.
End same_events.

Lemma operator_route_licensed sha256_hex route origin :
  spec (operator_licensed sha256_hex route) (promised sha256_hex route) [] (serve sha256_hex route origin).
Proof.
  apply spec_cached; [intros tr tr' c Hsame; by apply operator_licensed_same|intros tr tr' o Hsame; by apply promised_same|].
  apply (spec_post _ (promised sha256_hex route)); [|done].
  destruct route; [by apply grant_licensed|by apply revoke_licensed|by apply revoke_key_licensed|by apply ban_licensed
    |by apply unban_licensed|by apply org_ban_licensed|by apply org_unban_licensed|by apply email_licensed
    |by apply delete_licensed|by apply move_licensed|by apply remove_member_licensed|by eapply invite_licensed
    |by apply revoke_invitation_licensed|by apply operator_create_licensed].
Qed.

(** ** The operator demo_store

    A database as the routes see it: the gate reads the operators there are, a grant adds one, a
    revocation drops its own row only, deleting an account may take its operator row with it and its id
    is [gone] then, a key belongs to who it is inserted for, revoking a user's keys leaves none alive, and
    nothing else adds a live key or drops an operator. *)
Section demo_store.
Context {W : Type} (h : handler operator_effects W) (operators keyed gone : W -> list string).

Definition touches_operators (c : cmd operator_effects) : bool :=
  match c with
  | UpsertOperator _ _ | DeleteOperator _ | DeleteAccount _ | Account (Back (AuthCallback.DeleteUser _)) => true
  | _ => false
  end.

Abbreviation after w c := (h w c).1.
Abbreviation answer_of w c := (h w c).2.

Record operator_store : Prop := {
  gate_reads : forall w user r row,
    answer_of w (Account (Tenant (Gate (SelectPlatformAdmin user)))) = inr r -> error r = None -> data r = Some row ->
    user ∈ operators w;
  grant_adds : forall w user who,
    error (answer_of w (UpsertOperator user who)) = None -> user ∈ operators (after w (UpsertOperator user who));
  grant_keeps : forall w user who a, a ∈ operators w -> a ∈ operators (after w (UpsertOperator user who));
  drop_keeps : forall w user a, a ∈ operators w -> a <> user -> a ∈ operators (after w (DeleteOperator user));
  deletion_keeps : forall w user a, a ∈ operators w -> a <> user -> a ∈ operators (after w (DeleteAccount user));
  deletion_cascades : forall w user,
    user ∈ operators w -> user ∈ operators (after w (DeleteAccount user)) \/ user ∈ gone (after w (DeleteAccount user));
  gone_forever : forall w c a, a ∈ gone w -> a ∈ gone (after w c);
  undo_keeps : forall w user a, a ∈ operators w -> a <> user -> a ∈ operators (after w (Account (Back (AuthCallback.DeleteUser user))));
  created_fresh : forall w email password invite user,
    answer_of w (Account (CreateUser email password invite)) = inr (inr (Some user)) ->
    user ∉ operators (after w (Account (CreateUser email password invite)));
  others_keep : forall w c a, touches_operators c = false -> a ∈ operators w -> a ∈ operators (after w c);
  only_grants : forall w c a, a ∈ operators (after w c) -> a ∈ operators w \/ exists who, c = UpsertOperator a who;
  only_mints : forall w c a, a ∈ keyed (after w c) -> a ∈ keyed w \/ exists row, c = InsertOperatorKey row /\ op_user row = a;
  revoked_dead : forall w user at_,
    error (answer_of w (RevokeOperatorKeys user at_)) = None -> user ∉ keyed (after w (RevokeOperatorKeys user at_));
}.

Hypothesis Hstore : operator_store.

Lemma ungranted_stays tr w w' a :
  follows h w tr w' -> unmade tr -> a ∉ operators w -> a ∉ operators w'.
Proof.
  revert w. induction tr as [|[c x] tr IH]; intros w Hf Hs Ha; simpl in Hf; [by subst|].
  destruct Hf as [_ Hf]. apply Forall_cons in Hs as [Hs1 Hs]. eapply IH; [exact Hf|exact Hs|].
  intros [?|[who ->]]%(only_grants Hstore); done.
Qed.

Lemma unkeyed_stays tr w w' a :
  follows h w tr w' -> unkeyed tr -> a ∉ keyed w -> a ∉ keyed w'.
Proof.
  revert w. induction tr as [|[c x] tr IH]; intros w Hf Hs Ha; simpl in Hf; [by subst|].
  destruct Hf as [_ Hf]. apply Forall_cons in Hs as [Hs1 Hs]. eapply IH; [exact Hf|exact Hs|].
  intros [?|[row [-> _]]]%(only_mints Hstore); done.
Qed.

(** The account a compensation deletes never was an operator. *)
Lemma undone_not_operator pre w w1 user :
  follows h w pre w1 -> unmade pre ->
  (exists email password invite, Account (CreateUser email password invite) ↪ inr (inr (Some user)) ∈ pre) ->
  user ∉ operators w1.
Proof.
  intros Hf Hun (email & password & invite & (p1 & p2 & ->)%list_elem_of_split).
  apply follows_app in Hf as (wx & _ & Hx & Hf2). apply Forall_app in Hun as [_ [_ Hun]%Forall_cons].
  eapply ungranted_stays; [exact Hf2|exact Hun|]. by apply (created_fresh Hstore).
Qed.

(** A user whose keys were revoked has none while none is minted. *)
Lemma revoked_stays pre w w1 user :
  follows h w pre w1 -> unkeyed pre -> keys_revoked pre user -> user ∉ keyed w1.
Proof.
  intros Hf Hun (at_ & r & (p1 & p2 & ->)%list_elem_of_split & He).
  apply follows_app in Hf as (wx & _ & Hx & Hf2). apply Forall_app in Hun as [_ [_ Hun]%Forall_cons].
  eapply unkeyed_stays; [exact Hf2|exact Hun|]. apply (revoked_dead Hstore). by rewrite Hx.
Qed.

Section licensed_run.
Variables (sha256_hex : string -> string) (route : operator_route).

Definition licensed tr : Prop :=
  forall pre c x post, tr = pre ++ @Ev operator_effects c x :: post -> operator_licensed sha256_hex route pre c.

Lemma licensed_prefix tr q : licensed (tr ++ q) -> licensed tr.
Proof. intros H pre c x post ->. apply (H _ _ x (post ++ q)). by rewrite <- app_assoc. Qed.

Lemma licensed_last tr c x : licensed (tr ++ [@Ev operator_effects c x]) -> operator_licensed sha256_hex route tr c.
Proof. intros H. by apply (H _ _ x []). Qed.

(** Short of a revocation or a deletion, operators stay. *)
Lemma step_keeps tr w w' c a :
  follows h w tr w' -> operator_licensed sha256_hex route tr c ->
  match c with DeleteOperator _ | DeleteAccount _ => False | _ => True end ->
  a ∈ operators w' -> a ∈ operators (after w' c).
Proof.
  intros Hf [Hn _] Hc Ha. destruct (touches_operators c) eqn:Ht; [|by apply (others_keep Hstore)].
  destruct c as [[[]| | | | | | | | | | | | | | | | |]| | | | | | | | | | | | | | | | | | | | | | | | | |]; try done.
  - simpl in Hn. destruct Hn as [Hun Hc']. apply (undo_keeps Hstore); [done|]. intros ->. by eapply undone_not_operator.
  - by apply (grant_keeps Hstore).
Qed.

Lemma standing_keeps q tr w wx w' a :
  licensed (tr ++ q) -> follows h w tr wx -> follows h wx q w' -> standing q -> a ∈ operators wx -> a ∈ operators w'.
Proof.
  revert tr w wx. induction q as [|[c x] q IH]; intros tr w wx Hl Hf Hq Hs Ha; simpl in Hq; [by subst|].
  destruct Hq as [Hx Hq]. apply Forall_cons in Hs as [Hs1 Hs]. eapply (IH (tr ++ [Ev c x])); [|..|exact Hq|exact Hs|].
  - by rewrite <- app_assoc.
  - apply follows_app. exists wx. by split.
  - eapply step_keeps; [exact Hf|by eapply Hl| |exact Ha]. by destruct c.
Qed.

(** What a command of the run saw of the operators still holds. *)
Lemma seen_operator tr w w' c x a :
  licensed tr -> follows h w tr w' -> standing tr -> @Ev operator_effects c x ∈ tr ->
  (forall w1, answer_of w1 c = x -> a ∈ operators (after w1 c)) -> a ∈ operators w'.
Proof.
  intros Hl Hf Hs (p1 & p2 & ->)%list_elem_of_split Hseen.
  apply follows_app in Hf as (wx & Hf1 & Hx & Hf2). apply Forall_app in Hs as [_ [_ Hs]%Forall_cons].
  eapply (standing_keeps p2 (p1 ++ [Ev c x])); [by rewrite <- app_assoc|apply follows_app; by exists wx|exact Hf2|exact Hs|].
  by apply Hseen.
Qed.

Lemma acting_operator tr w w' who :
  licensed tr -> follows h w tr w' -> standing tr -> operator_id tr who -> who ∈ operators w'.
Proof.
  intros Hl Hf Hs (u & [_ (r & row & Hr & He & Hd)] & <-).
  eapply seen_operator; [done..|by apply gate_read|]. intros w1 Hw1.
  apply (others_keep Hstore); [done|]. by eapply (gate_reads Hstore w1).
Qed.

Lemma granted_operator tr w w' user :
  licensed tr -> follows h w tr w' -> standing tr -> newly_granted tr user -> user ∈ operators w'.
Proof.
  intros Hl Hf Hs (who & r & Hr & He & _). eapply seen_operator; [done..|exact Hr|]. intros w1 Hw1.
  apply (grant_adds Hstore). by rewrite Hw1.
Qed.

(** An operator remains, and whoever holds a live key is an operator or no account any more. *)
Definition well_kept (w : W) : Prop :=
  (exists a, a ∈ operators w) /\ forall a, a ∈ keyed w -> a ∈ operators w \/ a ∈ gone w.

Lemma step_well_kept tr w w' c x :
  licensed (tr ++ [@Ev operator_effects c x]) -> follows h w tr w' -> well_kept w' -> well_kept (after w' c).
Proof.
  intros Hl Hf [[a0 Ha0] Hk]. pose proof (licensed_last _ _ _ Hl) as Hc. apply licensed_prefix in Hl.
  destruct (match c with DeleteOperator _ | DeleteAccount _ => true | _ => false end) eqn:Hd.
  - destruct Hc as [Hn _]. assert (exists user who, (c = DeleteOperator user \/ c = DeleteAccount user) /\ standing tr /\
      operator_id tr who /\ who <> user) as (user & who & Hcu & Hs & Hwho & Hne)
      by (destruct c; try discriminate Hd; simpl in Hn; naive_solver).
    assert (forall a, a ∈ operators w' -> a <> user -> a ∈ operators (after w' c)) as Hkeep
      by (intros a; destruct Hcu as [-> | ->]; [apply (drop_keeps Hstore)|apply (deletion_keeps Hstore)]).
    split; [exists who; apply Hkeep; [by eapply acting_operator|done]|].
    intros a Ha. destruct (only_mints Hstore _ _ _ Ha) as [Ha'|(row & -> & _)]; [|by destruct Hcu].
    destruct (Hk a Ha') as [Ho|]; [|right; by apply (gone_forever Hstore)].
    destruct (decide (a = user)) as [->|]; [|left; by apply Hkeep].
    destruct Hcu as [-> | ->]; [|by apply (deletion_cascades Hstore)].
    exfalso. destruct Hn as (_ & Hrev & _ & Hun & _). exact (revoked_stays _ _ _ _ Hf Hun Hrev Ha').
  - assert (forall a, a ∈ operators w' -> a ∈ operators (after w' c)) as Hkeep
      by (intros a; eapply step_keeps; [exact Hf|exact Hc|by destruct c]).
    split; [exists a0; by apply Hkeep|]. intros a Ha. destruct (only_mints Hstore _ _ _ Ha) as [Ha'|(row & -> & <-)].
    + destruct (Hk a Ha'); [left; by apply Hkeep|right; by apply (gone_forever Hstore)].
    + left. apply Hkeep. destruct Hc as [(_ & Hg & Hs & _) _]. by eapply granted_operator.
Qed.

Lemma run_well_kept {A} Q (p : O A) w :
  spec (operator_licensed sha256_hex route) Q [] p -> well_kept w -> well_kept (run h p w).2.
Proof.
  intros Hp Hw. pose proof (run_follows h p w) as Hf.
  assert (licensed (run h p w).1.2) as Hl by (intros pre c x post Htr; by apply (spec_run_licensed h _ _ _ _ w pre c x post Hp)).
  revert Hl Hf. generalize (run h p w).1.2 (run h p w).2. intros tr. induction tr as [|[c x] tr IH] using rev_ind; intros w' Hl Hf.
  { simpl in Hf. by subst. }
  apply follows_app in Hf as (w1 & Hf1 & _ & Hf2). simpl in Hf2. subst w'.
  eapply step_well_kept; [exact Hl|exact Hf1|]. apply IH; [by eapply licensed_prefix|done].
Qed.
End licensed_run.

(** Requests served one after the other. *)
Definition serve_all sha256_hex (requests : list (operator_route * string)) (w : W) : W :=
  foldl (fun w q => (run h (serve sha256_hex q.1 q.2) w).2) w requests.
End demo_store.

(** ** Properties *)

(** C28. What the operators' routes may do, whatever the services answer and on every route: nothing but the
    gate runs for anyone who is not a signed-in platform operator; an operator is granted only to an
    existing account that is not banned, and one key is minted only for a grant this very request made; an
    operator row is dropped only once that user's keys are revoked; nobody revokes, bans or deletes
    themself; an organization is deleted only when this request made it and could not finish it. A
    key leaves only in a response no cache may hold, its digest stored; and a founded organization
    without its founder is deleted again, or the response says which one to delete. *)
Theorem operators_licensed sha256_hex route origin :
  spec (operator_licensed sha256_hex route) (promised sha256_hex route) [] (serve sha256_hex route origin).
Proof. apply operator_route_licensed. Qed.

(** C27. Served one after the other, the routes never leave the platform without an operator, and a live
    superadmin key always belongs to an operator or to an account that no longer exists: a later grant
    revives no key. *)
Theorem operator_remains {W} (h : handler operator_effects W) (operators keyed gone : W -> list string) sha256_hex requests w :
  operator_store h operators keyed gone -> well_kept operators keyed gone w ->
  well_kept operators keyed gone (serve_all h sha256_hex requests w).
Proof.
  intros Hstore. unfold serve_all. revert w. induction requests as [|[route origin] requests IH]; intros w Hw; simpl; [done|].
  apply IH. eapply run_well_kept; [done|apply operator_route_licensed|done].
Qed.

(** ** A concrete demo_store: its operators and who holds a live key; [caller] signs the requests *)
Module Demo.
Record world := World { operators : list string; keyed : list string; gone : list string }.

Definition without (user : string) (l : list string) : list string := filter (fun a => a <> user) l.

Definition handle (caller : string) : handler operator_effects world := fun w c =>
  (match c with
   | UpsertOperator user _ => World (user :: operators w) (keyed w) (gone w)
   | DeleteOperator user => World (without user (operators w)) (keyed w) (gone w)
   | DeleteAccount user => World (without user (operators w)) (keyed w) (user :: gone w)
   | InsertOperatorKey row => World (operators w) (op_user row :: keyed w) (gone w)
   | RevokeOperatorKeys user _ => World (operators w) (without user (keyed w)) (gone w)
   | _ => w
   end,
   match c return operator_ans c with
   | Account (Tenant (Gate SessionClaims)) => inr (db_ok (JObj [("sub", JStr caller)]))
   | Account (Tenant (Gate (SelectPlatformAdmin user))) =>
       inr (if bool_decide (user ∈ operators w) then db_ok "row" else DbResult None None)
   | Account (Tenant (Gate c)) => ApiKeys.Demo.access_answer c
   | Account (Tenant RandomHex) => "0123456789abcdef0123456789abcdef01234567"
   | Account c => (closed_deployment true no_limits c).2
   | GetUserById user => Some (Some (user +:+ "@b.co"))
   | SelectUserBan _ | SelectOrgName _ | SelectOperatorKey _ => DbResult None None
   | UpsertOperator user _ => db_ok (if bool_decide (user ∈ operators w) then [] else [user])
   | SelectOperator user => if bool_decide (user ∈ operators w) then db_ok user else DbResult None None
   | DeleteOperator _ | RpcRecordUserBan _ _ _ | RpcClearUserBan _ | RpcRecordOrgBan _ _ _ | RpcClearOrgBan _
   | InsertFounder _ _ | DeleteOrg _ => db_ok tt
   | InsertOperatorKey row => db_ok (op_name row)
   | RevokeOperatorKeys user _ => db_ok [user]
   | RevokeOperatorKey _ _ | RevokeTenantInvite _ _ => db_ok []
   | UpdateUserEmail _ _ | DeleteAccount _ => None
   | MoveMembership _ _ _ | RemoveMembership _ _ => db_ok []
   | RpcInviteeState _ _ => db_ok (JStr "none")
   | InsertTenantInvite _ _ | InsertOrg _ _ | RenameOrg _ _ _ => DbResult None None
   | RpcListUsers => db_ok []
   end).

Lemma without_elem a user l : a ∈ without user l <-> a <> user /\ a ∈ l.
Proof. unfold without. by rewrite list_elem_of_filter. Qed.

Lemma demo_store caller : operator_store (handle caller) operators keyed gone.
Proof.
  split.
  - intros w user r row. simpl. case_bool_decide; [done|]. by intros [= <-].
  - intros w user who _. simpl. left.
  - intros w user who a Ha. by right.
  - intros w user a Ha Hne. by apply without_elem.
  - intros w user a Ha Hne. by apply without_elem.
  - intros w user _. right. left.
  - intros w c a Ha. by destruct c; simpl; auto; right.
  - done.
  - done.
  - intros w c a Hc Ha. by destruct c.
  - intros w c a Ha. destruct c; simpl in Ha; eauto; [|by apply without_elem in Ha as [_ ?]; left..].
    apply elem_of_cons in Ha as [->|]; eauto.
  - intros w c a Ha. destruct c; simpl in Ha; eauto; [|by apply without_elem in Ha as [_ ?]; left].
    apply elem_of_cons in Ha as [->|]; eauto.
  - intros w user at_ _ [? _]%without_elem. done.
Qed.
End Demo.

(** A grant, its undoing and the caller's own: the second operator's key is dead, the caller stays. *)
Lemma operator_remains_witness :
  let w := serve_all (Demo.handle "u1") (fun s => s)
    [(GrantOperator "u2", EmptyString); (RevokeOperator "u2", EmptyString); (RevokeOperator "u1", EmptyString); (GrantOperator "u3", EmptyString); (DeleteUser "u3", EmptyString)]
    (Demo.World ["u1"] [] []) in
  w = Demo.World ["u1"] ["u3"] ["u3"] /\ well_kept Demo.operators Demo.keyed Demo.gone w.
Proof.
  split; [vm_compute; reflexivity|].
  apply (operator_remains (Demo.handle "u1") Demo.operators Demo.keyed Demo.gone (fun s => s)
    [(GrantOperator "u2", EmptyString); (RevokeOperator "u2", EmptyString); (RevokeOperator "u1", EmptyString); (GrantOperator "u3", EmptyString); (DeleteUser "u3", EmptyString)]
    (Demo.World ["u1"] [] [])).
  - exact (Demo.demo_store "u1").
  - split; [exists "u1"; simpl; left|]. intros a Ha. simpl in Ha. exfalso. exact (proj1 (elem_of_nil a) Ha).
Defined.

(** ** Requests served together

    Each request of a pool carries its caller. *)
Definition called_effects : effects := Effects (string * operator_cmd) (fun c => operator_ans c.2).

Definition called (caller : string) {X} (p : O X) : prog called_effects app_error X :=
  embed (E := operator_effects) (F := called_effects) (pair caller) (fun c x => x) (fun e => e) p.

Definition called_handle : handler called_effects Demo.world := fun w c => Demo.handle c.1 w c.2.

(** The demo_store after a schedule of requests, each with its caller. *)
Definition together (w : Demo.world) (requests : list (string * operator_route)) (schedule : list nat) : Demo.world :=
  (pool called_handle (w, map (fun q => called q.1 (serve (fun s => s) q.2 EmptyString)) requests) schedule).1.

(** Two operators that revoke each other at the same time, both past the gate before either row goes, leave no
    operator at all. *)
Theorem mutual_revocations_leave_none :
  Demo.operators (together (Demo.World ["u1"; "u2"] [] []) [("u1", RevokeOperator "u2"); ("u2", RevokeOperator "u1")]
    (repeat 0 6 ++ repeat 1 12 ++ repeat 0 12)%nat) = [].
Proof. vm_compute. reflexivity. Qed.

(** A revocation between a grant and its mint leaves a live key of a user who is no operator: a later grant
    revives it. *)
Theorem grant_under_revocation_leaves_key :
  let w := together (Demo.World ["u1"] [] []) [("u1", GrantOperator "u2"); ("u1", RevokeOperator "u2")]
    (repeat 0 9 ++ repeat 1 12 ++ repeat 0 12)%nat in
  Demo.operators w = ["u1"] /\ Demo.keyed w = ["u2"].
Proof. vm_compute. by split. Qed.
