(* ===== verification/ModelProviders.v ===== *)
(** * Model providers (lib/model-providers.ts, lib/provider-fields.ts)

    The inference accounts an organization connects: which there are, what each takes, the parsers
    the settings route stores by, and the form that submits to them. [URL] is a parameter: the
    protocol and host name of what parses, [None] for what it throws on. *)

From S2P Require Import Prelude JsMap JsString JsNumber Json JsonText Url Access.

Inductive ModelProvider := openai | anthropic | gemini | azure_openai | openrouter | bedrock | fireworks | modal.

#[export] Instance ModelProvider_eq_dec : EqDecision ModelProvider.
Proof. solve_decision. Defined.

Definition provider_name (p : ModelProvider) : string :=
  match p with
  | openai => "openai" | anthropic => "anthropic" | gemini => "gemini" | azure_openai => "azure_openai"
  | openrouter => "openrouter" | bedrock => "bedrock" | fireworks => "fireworks" | modal => "modal"
  end.

Definition MODEL_PROVIDERS : list ModelProvider :=
  [openai; anthropic; gemini; azure_openai; openrouter; bedrock; fireworks; modal].

Definition PROVIDER_LABELS (p : ModelProvider) : string :=
  match p with
  | openai => "OpenAI" | anthropic => "Anthropic" | gemini => "Google Gemini" | azure_openai => "Azure Foundry"
  | openrouter => "OpenRouter" | bedrock => "Amazon Bedrock" | fireworks => "Fireworks AI" | modal => "Modal"
  end.

(** The guard, with the provider it recognizes. *)
Definition isModelProvider (value : string) : option ModelProvider :=
  find_first (fun p => bool_decide (provider_name p = value)) MODEL_PROVIDERS.

Definition modelProviderLabel (provider : string) : string :=
  match isModelProvider provider with Some p => PROVIDER_LABELS p | None => provider end.

Definition PROVIDER_CONNECTION_STATUSES : list string :=
  ["unchecked"; "valid"; "invalid"; "rate_limited"; "quota_exhausted"; "provider_error"].

Definition isProviderConnectionStatus (value : string) : bool := bool_decide (value ∈ PROVIDER_CONNECTION_STATUSES).

(** The providers offered for a model; [deployments] are its catalog rows' providers. *)
Definition connectableProvidersForModel (deployments : list string) : list ModelProvider :=
  let scoped := foldl (fun acc d => match isModelProvider d with Some p => set_add acc p | None => acc end) [] deployments in
  if bool_decide (scoped = []) then MODEL_PROVIDERS else scoped.

Definition checkRemediation (status_detail : json) : option string := present (jget_str status_detail "remediation").

(** ** The parsers *)
Definition trimmed (value : option json) : string := trim (default EmptyString (value ≫= jstr)).

(** [isRecord(value) ? value : {}] *)
Definition record_or_empty (value : option json) : json :=
  match value with Some (JObj o) => JObj o | _ => JObj [] end.

Record AzureConfig := { endpoint : string; api_version : option string; deployments : list (string * string) }.
Record BedrockConfig := { region : string; access_key_id : string }.

Fixpoint strip_dots (s : string) : string :=
  match s with
  | EmptyString => EmptyString
  | String a s =>
      match strip_dots s with
      | EmptyString => if bool_decide (a = "."%char) then EmptyString else String a EmptyString
      | s => String a s
      end
  end.

(** [/^172\.(1[6-9]|2\d|3[01])\./] *)
Definition private_172 (host : string) : bool :=
  match host with
  | String "1" (String "7" (String "2" (String "." (String a (String b (String "." _)))))) =>
      (bool_decide (a = "1"%char) && is_digit b && bool_decide (54 <= nat_of_ascii b)%nat) ||
      (bool_decide (a = "2"%char) && is_digit b) ||
      (bool_decide (a = "3"%char) && (bool_decide (b = "0"%char) || bool_decide (b = "1"%char)))
  | _ => false
  end.

Definition private_host (host : string) : bool :=
  bool_decide (host = "localhost") || bool_decide (host = "host.docker.internal") || ends_with ".local" host ||
  starts_with "127." host || starts_with "10." host || starts_with "192.168." host || starts_with "169.254." host ||
  private_172 host || bool_decide (host = "[::1]") || bool_decide (host = "::1").

Section url.
Variable parse_url : string -> option (string * string).

Definition validatePublicHttps (endpoint : string) : option string :=
  match parse_url endpoint with
  | None => Some "The Azure endpoint must be a full https URL."
  | Some (protocol, hostname) =>
      if negb (bool_decide (protocol = "https:")) || bool_decide (hostname = EmptyString)
      then Some "The Azure endpoint must be a public https URL."
      else if private_host (strip_dots (to_lower hostname))
      then Some "The Azure endpoint must be a public https URL, not an internal host."
      else None
  end.

Fixpoint digits (n : nat) (s : string) : option string :=
  match n, s with
  | O, s => Some s
  | S n, String a s => if is_digit a then digits n s else None
  | S _, EmptyString => None
  end.

(** [/^(?:v1|\d{4}-\d{2}-\d{2}(?:-preview)?)$/] *)
Definition azure_version (s : string) : bool :=
  bool_decide (s = "v1") ||
  match digits 4 s with
  | Some (String "-" s) =>
      match digits 2 s with
      | Some (String "-" s) =>
          match digits 2 s with Some s => bool_decide (s = EmptyString) || bool_decide (s = "-preview") | None => false end
      | _ => false
      end
  | _ => false
  end.

(** The deployment rows in their order; assigning to [__proto__] stores nothing. *)
Fixpoint parse_deployments (acc : list (string * string)) (rows : list (string * json)) : string + list (string * string) :=
  match rows with
  | [] => inr acc
  | (modelType, deployment) :: rows =>
      if bool_decide (trimmed (Some deployment) = EmptyString)
      then inl ("Name the Azure deployment serving " +:+ modelType +:+ ".")
      else if bool_decide (trim modelType = EmptyString) then inl "Every deployment row needs the model it serves."
      else parse_deployments
             (if bool_decide (trim modelType = "__proto__") then acc else mset acc (trim modelType) (trimmed (Some deployment))) rows
  end.

Definition parseAzureConfig (value : option json) : string + AzureConfig :=
  let raw := record_or_empty value in
  let endpoint := trimmed (jget raw "endpoint") in
  if bool_decide (endpoint = EmptyString) then inl "An Azure Foundry resource endpoint is required."
  else match validatePublicHttps endpoint with
  | Some e => inl e
  | None =>
      let apiVersion := trimmed (jget raw "api_version") in
      if bool_decide (jget raw "api_version" <> None) && bool_decide (jget_str raw "api_version" = None)
      then inl "The API version must be text."
      else if negb (bool_decide (apiVersion = EmptyString)) && negb (azure_version apiVersion)
      then inl ("The API version must be " +:+ String quote ("v1" +:+ String quote " or a dated version like 2024-05-01-preview."))
      else match jget raw "deployments" with
      | Some (JObj _) | None =>
          match parse_deployments [] match jget raw "deployments" with Some (JObj o) => o | _ => [] end with
          | inl e => inl e
          | inr [] => inl "Add at least one deployment so requests have somewhere to go."
          | inr ds => inr {| endpoint := endpoint; api_version := present (Some apiVersion); deployments := ds |}
          end
      | Some _ => inl "Deployments must map each model to its Azure deployment name."
      end
  end.
End url.

(** [/^[a-z0-9](?:[a-z0-9-]*[a-z0-9])?$/] *)
Definition region_char (a : ascii) : bool :=
  let n := nat_of_ascii a in is_digit a || bool_decide (97 <= n <= 122)%nat.

Definition aws_region (s : string) : bool :=
  match list_ascii_of_string s with
  | [] => false
  | a :: l => region_char a && forallb (fun b => region_char b || bool_decide (b = "-"%char)) l && region_char (List.last l a)
  end.

Definition parseBedrockConfig (value : option json) : string + BedrockConfig :=
  let raw := record_or_empty value in
  let region := trimmed (jget raw "region") in
  if negb (aws_region region) then inl "Name the AWS region Bedrock requests should call (e.g. us-east-1)."
  else
    let accessKeyId := trimmed (jget raw "access_key_id") in
    if bool_decide (String.length accessKeyId < 16)%nat || bool_decide (128 < String.length accessKeyId)%nat
    then inl "The AWS access key id pairs with the secret and is required."
    else inr {| region := region; access_key_id := accessKeyId |}.

Definition parseFireworksConfig (value : option json) : string + string :=
  let accountId := trimmed (jget (record_or_empty value) "account_id") in
  if bool_decide (accountId = EmptyString) || bool_decide (128 < String.length accountId)%nat
  then inl "The Fireworks account id is required, it is the account slug on fireworks.ai."
  else inr accountId.

Definition parseModalSecret (value : option json) : string + string :=
  let raw := record_or_empty value in
  let tokenId := trimmed (jget raw "token_id") in
  let tokenSecret := trimmed (jget raw "token_secret") in
  if negb (starts_with "ak-" tokenId) || bool_decide (String.length tokenId < 4)%nat
  then inl "The Modal token id must start with ak- (from modal.com → Settings → API tokens)."
  else if negb (starts_with "as-" tokenSecret) || bool_decide (String.length tokenSecret < 4)%nat
  then inl "The Modal token secret must start with as- (shown once when the token is created)."
  else inr (stringify (JObj [("token_id", JStr tokenId); ("token_secret", JStr tokenSecret)])).

(** The prefix of a provider's admin keys; only these two take one. *)
Definition ADMIN_KEY_PREFIXES (p : ModelProvider) : option string :=
  match p with anthropic => Some "sk-ant-admin" | openai => Some "sk-admin-" | _ => None end.

Definition isSpendKeyProvider (p : ModelProvider) : bool := bool_decide (ADMIN_KEY_PREFIXES p <> None).

Definition parseSpendSecret (p : ModelProvider) (prefix : string) (value : option json) : string + string :=
  let secret := trimmed value in
  if bool_decide (secret = EmptyString) then inl "An admin key is required when one is provided."
  else if negb (starts_with prefix secret)
  then inl match p with
           | anthropic => "That looks like an Anthropic inference key (sk-ant-api…), but the admin slot needs an ADMIN key (sk-ant-admin…), the two key types are disjoint. The inference key belongs in the main API-key field."
           | _ => "That looks like an OpenAI project/inference key (sk-…), but the admin slot needs an ADMIN key (sk-admin-…, scope api.usage.read), the two key types are disjoint. The project key belongs in the main API-key field."
           end
  else inr secret.

Definition mainSlotAdminKeyError (p : ModelProvider) (secret : string) : option string :=
  match ADMIN_KEY_PREFIXES p with
  | Some prefix =>
      if starts_with prefix secret
      then Some match p with
                | anthropic => "That is an Anthropic ADMIN key (sk-ant-admin…), which cannot do inference, the two key types are disjoint. Paste an inference API key (sk-ant-api…) here; the admin key belongs in the optional admin-key field."
                | _ => "That is an OpenAI ADMIN key (sk-admin-…), which does not serve inference, the two key types are disjoint. Paste a project API key (sk-…) here; the admin key belongs in the optional admin-key field."
                end
      else None
  | None => None
  end.

(** ** Model deployment facts *)
Record ModelDeploymentFact := {
  fact_deployment : string;
  fact_deployed : bool;
  fact_checked_at : option string;
  fact_remediation : option string;
}.

Definition modelDeploymentFact (detail : json) (model : string) : option ModelDeploymentFact :=
  match jget detail "models" with
  | Some (JObj models) =>
      match mget models model with
      | Some (JObj fact) =>
          let fact := JObj fact in
          match jget_str fact "deployment", jget fact "deployed" ≫= jbool with
          | Some deployment, Some deployed =>
              Some {| fact_deployment := deployment; fact_deployed := deployed;
                      fact_checked_at := jget_str fact "checked_at"; fact_remediation := jget_str fact "remediation" |}
          | _, _ => None
          end
      | _ => None
      end
  | _ => None
  end.

(** ** lib/provider-fields.ts *)
Record ConfigField := { field_name : string; field_label : string; field_placeholder : string; is_url : bool; field_required : bool }.

Record SecretInput := { secret_label : string; secret_placeholder : string; rotatePlaceholder : string }.

Inductive SecretField := SingleSecret (input : SecretInput) | SecretPair (id secret : SecretInput).

Record FieldSchema := { schema_secret : SecretField; schema_config : list ConfigField; hasDeployments : bool; hasSpendKey : bool }.

Definition input (label placeholder rotate : string) : SecretInput :=
  {| secret_label := label; secret_placeholder := placeholder; rotatePlaceholder := rotate |}.

Definition apiKeySecret (label : string) : SecretField :=
  SingleSecret (input (label +:+ " API key") "API key" "Replace API key").

Definition bare (secret : SecretField) (spend : bool) : FieldSchema :=
  {| schema_secret := secret; schema_config := []; hasDeployments := false; hasSpendKey := spend |}.

Definition text_field (nm label placeholder : string) (required : bool) : ConfigField :=
  {| field_name := nm; field_label := label; field_placeholder := placeholder; is_url := false; field_required := required |}.

Definition providerFieldSchema (p : ModelProvider) : FieldSchema :=
  match p with
  | openai => bare (apiKeySecret "OpenAI") true
  | anthropic => bare (apiKeySecret "Anthropic") true
  | gemini => bare (SingleSecret (input "Google Gemini API key" "AI Studio API key" "Replace AI Studio API key")) false
  | azure_openai =>
      {| schema_secret := SingleSecret (input "Azure Foundry API key" "API key" "Replace API key");
         schema_config :=
           [{| field_name := "endpoint"; field_label := "Azure Foundry resource endpoint";
               field_placeholder := "https://my-resource.openai.azure.com"; is_url := true; field_required := true |};
            text_field "api_version" "Azure Foundry API version (optional)" "API version (optional)" false];
         hasDeployments := true; hasSpendKey := false |}
  | openrouter => bare (apiKeySecret "OpenRouter") false
  | bedrock =>
      {| schema_secret := SingleSecret (input "Amazon Bedrock secret access key" "Secret access key" "Replace secret access key");
         schema_config := [text_field "access_key_id" "AWS access key id" "AWS access key id" true;
                           text_field "region" "AWS region" "us-east-1" true];
         hasDeployments := false; hasSpendKey := false |}
  | fireworks =>
      {| schema_secret := apiKeySecret "Fireworks AI";
         schema_config := [text_field "account_id" "Fireworks account id" "Account id (the account slug on fireworks.ai)" true];
         hasDeployments := false; hasSpendKey := false |}
  | modal =>
      bare (SecretPair (input "Modal token id" "Token id (ak-...)" "Replace token id (ak-...)")
                       (input "Modal token secret" "Token secret (as-...)" "Replace token secret (as-...)")) false
  end.

Record FormValues := {
  form_secret : string;
  form_tokenId : string;
  form_tokenSecret : string;
  form_config : list (string * string);
  hasDeployment : bool;
}.

Definition blank (s : string) : bool := bool_decide (trim s = EmptyString).

Definition isProviderFormReady (schema : FieldSchema) (v : FormValues) : bool :=
  match schema_secret schema with
  | SecretPair _ _ => negb (blank (form_tokenId v)) && negb (blank (form_tokenSecret v))
  | SingleSecret _ => negb (blank (form_secret v))
  end &&
  forallb (fun f => negb (field_required f) || negb (blank (default EmptyString (mget (form_config v) (field_name f)))))
    (schema_config schema) &&
  (negb (hasDeployments schema) || hasDeployment v).

(** ** components/keys/provider-connect-form.tsx: what the form holds and what it submits *)

(** The rows of the deployment editor, and the ones that are sent. *)
Definition completeDeployments (rows : list (string * string)) : list (string * string) :=
  filter (fun r => negb (blank r.1) && negb (blank r.2)) rows.

Definition configPayload (schema : FieldSchema) (config rows : list (string * string)) : json :=
  JObj (omap (fun f =>
          let value := trim (default EmptyString (mget config (field_name f))) in
          if field_required f || negb (bool_decide (value = EmptyString)) then Some (field_name f, JStr value) else None)
        (schema_config schema) ++
      (if hasDeployments schema
       then [("deployments", JObj (map (fun r => (r.1, JStr r.2)) (of_pairs (map (fun r => (trim r.1, trim r.2)) (completeDeployments rows)))))]
       else [])).

(** What the form starts from: the stored configuration. *)
Definition configString (config : json) (key : string) : string := default EmptyString (jget_str config key).

Definition initial_config (schema : FieldSchema) (config : json) : list (string * string) :=
  map (fun f => (field_name f, configString config (field_name f))) (schema_config schema).

Definition initialDeployments (config : json) : list (string * string) :=
  match jget config "deployments" with
  | Some (JObj stored) =>
      let rows := omap (fun kv => (fun d => (kv.1, d)) <$> jstr kv.2) stored in
      if bool_decide (rows = []) then [(EmptyString, EmptyString)] else rows
  | _ => [(EmptyString, EmptyString)]
  end.

(** ** The configuration the route stores, by provider *)
Definition azure_json (c : AzureConfig) : json :=
  JObj ([("endpoint", JStr (endpoint c))] ++
        match api_version c with Some v => [("api_version", JStr v)] | None => [] end ++
        [("deployments", JObj (map (fun r => (r.1, JStr r.2)) (deployments c)))]).

Definition bedrock_json (c : BedrockConfig) : json :=
  JObj [("region", JStr (region c)); ("access_key_id", JStr (access_key_id c))].

Definition parse_config (parse_url : string -> option (string * string)) (p : ModelProvider) (value : option json) : string + json :=
  match p with
  | azure_openai => match parseAzureConfig parse_url value with inl e => inl e | inr c => inr (azure_json c) end
  | bedrock => match parseBedrockConfig value with inl e => inl e | inr c => inr (bedrock_json c) end
  | fireworks => match parseFireworksConfig value with inl e => inl e | inr a => inr (JObj [("account_id", JStr a)]) end
  | _ => inr (JObj [])
  end.

(** What the form of a provider submits as its configuration, left as it was seeded from a stored one. *)
Definition resubmitted (p : ModelProvider) (stored : json) : json :=
  let schema := providerFieldSchema p in configPayload schema (initial_config schema stored) (initialDeployments stored).

(** ** Lemmas *)
Definition clean_row (r : string * string) : Prop :=
  trim r.1 = r.1 /\ r.1 <> EmptyString /\ r.1 <> "__proto__" /\ trim r.2 = r.2 /\ r.2 <> EmptyString.

Lemma trimmed_idem value : trim (trimmed value) = trimmed value.
Proof. apply trim_idem. Qed.

Lemma clean_set acc k v : Forall clean_row acc -> clean_row (k, v) -> Forall clean_row (mset acc k v).
Proof.
  intros Ha Hr. induction Ha as [|[k' v'] acc Hkv Ha IH]; simpl; [by constructor|].
  case_decide; subst; constructor; auto.
Qed.

Lemma parse_deployments_clean rows acc ds :
  Forall clean_row acc -> mwf acc -> parse_deployments acc rows = inr ds -> Forall clean_row ds /\ mwf ds.
Proof.
  revert acc. induction rows as [|[m d] rows IH]; intros acc Ha Hw; simpl; [by intros [= <-]|].
  case_bool_decide as Hd; [done|]. case_bool_decide as Hm; [done|]. case_bool_decide as Hp; [by apply IH|].
  apply IH; [|by apply mwf_set]. apply clean_set; [done|]. repeat split; try done; [apply trim_idem|apply trimmed_idem].
Qed.

Lemma mset_fresh (m : list (string * string)) k v : k ∉ mkeys m -> mset m k v = m ++ [(k, v)].
Proof.
  induction m as [|[k' v'] m IH]; simpl; intros H; [done|]. apply not_elem_of_cons in H as [Hne H].
  rewrite decide_False by done. by rewrite IH.
Qed.

Lemma parse_deployments_stored ds : forall acc,
  Forall clean_row ds -> NoDup (mkeys acc ++ mkeys ds) ->
  parse_deployments acc (map (fun r => (r.1, JStr r.2)) ds) = inr (acc ++ ds).
Proof.
  induction ds as [|[k v] ds IH]; intros acc Hc Hn; simpl; [by rewrite app_nil_r|].
  apply Forall_cons in Hc as [(Hk & Hk0 & Hkp & Hv & Hv0) Hc]. simpl in *. unfold trimmed. simpl.
  rewrite Hv, Hk, !bool_decide_false by done. 
  assert (k ∉ mkeys acc) as Hf by (apply NoDup_app in Hn as (_ & Hn & _); intros Hin; apply (Hn k Hin); left).
  rewrite mset_fresh by done. rewrite IH; [by rewrite <- app_assoc|done|].
  unfold mkeys in *. rewrite map_app, <- app_assoc. exact Hn.
Qed.

Lemma complete_clean ds : Forall clean_row ds -> completeDeployments ds = ds.
Proof.
  unfold completeDeployments, blank. induction 1 as [|r ds (H1 & H2 & _ & H3 & H4) _ IH]; [done|].
  rewrite filter_cons_True; [by rewrite IH|]. by rewrite H1, H3, !bool_decide_false.
Qed.

Lemma trim_clean ds : Forall clean_row ds -> map (fun r => (trim r.1, trim r.2)) ds = ds.
Proof. induction 1 as [|[k v] ds (H1 & _ & _ & H3 & _) _ IH]; [done|]. simpl in *. by rewrite H1, H3, IH. Qed.

(** What [parseAzureConfig] returns. *)
Record azure_parsed (parse_url : string -> option (string * string)) (c : AzureConfig) : Prop := {
  endpoint_trimmed : trim (endpoint c) = endpoint c;
  endpoint_given : endpoint c <> EmptyString;
  endpoint_public : validatePublicHttps parse_url (endpoint c) = None;
  version_ok : forall v, api_version c = Some v -> v <> EmptyString /\ trim v = v /\ azure_version v = true;
  rows_clean : Forall clean_row (deployments c);
  rows_distinct : mwf (deployments c);
  rows_some : deployments c <> [];
}.

Lemma azure_parsed_by parse_url value c : parseAzureConfig parse_url value = inr c -> azure_parsed parse_url c.
Proof.
  unfold parseAzureConfig. set (raw := record_or_empty value). case_bool_decide as He; [done|].
  destruct (validatePublicHttps _ _) eqn:Hp; [done|]. destruct (_ && _); [done|].
  destruct (negb (bool_decide (trimmed (jget raw "api_version") = _)) && _) eqn:Hv; [done|].
  set (rows := match jget raw "deployments" with Some (JObj o) => o | _ => [] end).
  intros H. assert (exists ds, parse_deployments [] rows = inr ds /\ ds <> [] /\
    c = {| endpoint := trimmed (jget raw "endpoint"); api_version := present (Some (trimmed (jget raw "api_version"))); deployments := ds |})
    as (ds & Hds & Hne & ->).
  { destruct (jget raw "deployments") as [[]|]; try discriminate H.
    all: destruct (parse_deployments [] rows) as [|[|r ds]] eqn:Hds; try discriminate H; injection H as <-; by eexists. }
  apply parse_deployments_clean in Hds as [Hc Hw]; [|constructor|constructor].
  split; simpl; try done; [apply trimmed_idem|].
  intros v Hsome. apply (present_Some (Some _)) in Hsome as [[= <-] Hne']. split; [done|]. split; [apply trimmed_idem|].
  rewrite bool_decide_false in Hv by done. by apply negb_false_iff.
Qed.

Lemma azure_reparsed parse_url c : azure_parsed parse_url c -> parseAzureConfig parse_url (Some (azure_json c)) = inr c.
Proof.
  intros [H1 H2 H3 H4 H5 H6 H7]. unfold parseAzureConfig, azure_json, trimmed, jget_str.
  destruct c as [e [v|] ds]; simpl in *; rewrite H1, bool_decide_false, H3 by done.
  - destruct (H4 v eq_refl) as (Hv1 & Hv2 & Hv3). rewrite Hv2, Hv3, (bool_decide_false (v = _)) by done. cbn [negb andb].
    rewrite (parse_deployments_stored ds []) by done. destruct ds; [done|]. simpl.
    unfold truthy. by rewrite bool_decide_true.
  - rewrite (parse_deployments_stored ds []) by done. by destruct ds.
Qed.

Lemma azure_resubmitted parse_url c : azure_parsed parse_url c -> resubmitted azure_openai (azure_json c) = azure_json c.
Proof.
  intros [H1 H2 H3 H4 H5 H6 H7]. unfold resubmitted, configPayload.
  assert (initialDeployments (azure_json c) = deployments c) as ->.
  { assert (jget (azure_json c) "deployments" = Some (JObj (map (fun r => (r.1, JStr r.2)) (deployments c)))) as Hj
      by (unfold azure_json; by destruct (api_version c)).
    unfold initialDeployments. rewrite Hj. assert (forall ds : list (string * string),
      omap (fun kv : string * json => (fun d => (kv.1, d)) <$> jstr kv.2) (map (fun r => (r.1, JStr r.2)) ds) = ds) as Hrows.
    { induction ds as [|[k v] ds IH]; [done|]. simpl. f_equal. exact IH. }
    by rewrite Hrows, bool_decide_false. }
  rewrite complete_clean, trim_clean, of_pairs_NoDup by done.
  unfold azure_json, initial_config, configString, jget_str. destruct c as [e [v|] ds]; simpl in *; rewrite H1.
  - destruct (H4 v eq_refl) as (Hv1 & Hv2 & _). by rewrite Hv2, bool_decide_false.
  - done.
Qed.

(** A configuration of required fields only, as it is submitted. *)
Lemma resubmitted_bedrock c : resubmitted bedrock (bedrock_json c) =
  JObj [("access_key_id", JStr (trim (access_key_id c))); ("region", JStr (trim (region c)))].
Proof. reflexivity. Qed.

Lemma resubmitted_fireworks a : resubmitted fireworks (JObj [("account_id", JStr a)]) = JObj [("account_id", JStr (trim a))].
Proof. reflexivity. Qed.

Lemma bedrock_reparsed value c : parseBedrockConfig value = inr c ->
  parseBedrockConfig (Some (resubmitted bedrock (bedrock_json c))) = inr c.
Proof.
  rewrite resubmitted_bedrock. unfold parseBedrockConfig. set (raw := record_or_empty value).
  destruct (negb _) eqn:Hr; [discriminate|]. destruct (_ || _) eqn:Hk; [discriminate|]. intros H. injection H as <-.
  cbn [region access_key_id].
  assert (forall a b, trimmed (jget (record_or_empty (Some (JObj [("access_key_id", JStr a); ("region", JStr b)]))) "region") = trim b /\
    trimmed (jget (record_or_empty (Some (JObj [("access_key_id", JStr a); ("region", JStr b)]))) "access_key_id") = trim a) as Hg by done.
  destruct (Hg (trim (trimmed (jget raw "access_key_id"))) (trim (trimmed (jget raw "region")))) as [-> ->].
  by rewrite !trimmed_idem, Hr, Hk.
Qed.

Lemma fireworks_reparsed value a : parseFireworksConfig value = inr a ->
  parseFireworksConfig (Some (resubmitted fireworks (JObj [("account_id", JStr a)]))) = inr a.
Proof.
  rewrite resubmitted_fireworks. unfold parseFireworksConfig. set (raw := record_or_empty value).
  destruct (_ || _) eqn:Hk; [discriminate|]. intros H. injection H as <-.
  assert (forall a, trimmed (jget (record_or_empty (Some (JObj [("account_id", JStr a)]))) "account_id") = trim a) as Hg by done.
  by rewrite Hg, !trimmed_idem, Hk.
Qed.

(** ** Properties *)

(** C33. Rotating a key keeps its configuration. Whatever configuration a provider's parser accepted and
    stored, the form seeded from it submits, unedited, a configuration that the parser accepts again and
    that stores the same: endpoint, version and every deployment of Azure, region and key id of Bedrock,
    account of Fireworks. *)
Theorem rotation_keeps_config parse_url p value stored :
  parse_config parse_url p value = inr stored ->
  parse_config parse_url p (Some (resubmitted p stored)) = inr stored.
Proof.
  destruct p; try (intros H; exact H); unfold parse_config.
  - destruct (parseAzureConfig parse_url value) as [|c] eqn:Hc; [done|]. intros [= <-].
    apply azure_parsed_by in Hc. by rewrite (azure_resubmitted parse_url), (azure_reparsed parse_url) by done.
  - destruct (parseBedrockConfig value) as [|c] eqn:Hc; [done|]. intros [= <-]. by rewrite (bedrock_reparsed value).
  - destruct (parseFireworksConfig value) as [|a] eqn:Hc; [done|]. intros [= <-]. by rewrite (fireworks_reparsed value).
Qed.

Lemma rotation_keeps_config_witness :
  let parse_url := fun s => if bool_decide (s = "https://res.openai.azure.com") then Some ("https:", "res.openai.azure.com") else None in
  let submitted := JObj [("endpoint", JStr " https://res.openai.azure.com "); ("api_version", JStr "2024-05-01-preview");
                         ("deployments", JObj [(" gpt-4o ", JStr "east"); ("gpt-4o-mini", JStr " west ")])] in
  let stored := JObj [("endpoint", JStr "https://res.openai.azure.com"); ("api_version", JStr "2024-05-01-preview");
                      ("deployments", JObj [("gpt-4o", JStr "east"); ("gpt-4o-mini", JStr "west")])] in
  parse_config parse_url azure_openai (Some submitted) = inr stored /\
  parse_config parse_url azure_openai (Some (resubmitted azure_openai stored)) = inr stored.
Proof.
  cbv zeta. split; [vm_compute; reflexivity|].
  apply (rotation_keeps_config _ azure_openai (Some (JObj [("endpoint", JStr " https://res.openai.azure.com "); ("api_version", JStr "2024-05-01-preview");
    ("deployments", JObj [(" gpt-4o ", JStr "east"); ("gpt-4o-mini", JStr " west ")])]))). vm_compute. reflexivity.
Defined.

(** An address of the machine or of a private network, written as the URL parser leaves it, is taken for a
    public one: the unspecified address, a loopback address mapped into IPv6, a unique local address. *)
Lemma internal_hosts_pass parse_url endpoint host :
  host ∈ ["0.0.0.0"; "[::ffff:7f00:1]"; "[fd00::1]"] -> parse_url endpoint = Some ("https:", host) ->
  validatePublicHttps parse_url endpoint = None.
Proof.
  intros Hin Hu. unfold validatePublicHttps. rewrite Hu.
  repeat (apply elem_of_cons in Hin as [->|Hin]; [vm_compute; reflexivity|]). by apply elem_of_nil in Hin.
Qed.
