(* ===== verification/Extended.v ===== *)
(** * Routes over the tenant services and services of their own

    A route of an organization uses the tenant services ([TenantServices]) next to services of its own,
    [own]. Here is what such routes share: their commands, the two gates they open with (a member, or a
    manager, of the organization the path names; a platform operator), what their events say of the
    tenant services, and the step of each gate. *)

From S2P Require Import Prelude JsMap JsString Effects Url Json Services BackendSource OrgAccess TenantServices ApiKeys.

(** Who passed a manager's gate: the organization's id, the user's, and whether as an operator. *)
Record Manager := { manager_org : string; manager_user : string; as_operator : bool }.

(** The gate the managers' routes share: signed in, an organization, and the right to manage it. *)
Definition require_manager (ident : string) : T (option Manager) :=
  user ← gate requireAuthenticatedUser;
  org ← gate (requireOrgId ident);
  platformAdmin ← gate isPlatformAdmin;
  canManage ← (if platformAdmin : bool then mret true else gate (isOrgAdmin (user_id user) org));
  mret (if canManage : bool then Some {| manager_org := org; manager_user := user_id user; as_operator := platformAdmin |} else None).

(** Someone signed in who manages the organization [ident] addresses. *)
Definition is_manager t (ident : string) (m : Manager) : Prop :=
  exists u, granted (gate_events t) ident RoleUser (manager_org m) /\ signed_in t u /\ user_id u = manager_user m /\
    manages t u (manager_org m).

Lemma is_manager_mono t t' ident m : t ⊆ t' -> is_manager t ident m -> is_manager t' ident m.
Proof.
  intros Hg (u & H1 & H2 & H3 & H4). exists u. split; [by eapply granted_mono|].
  split; [by eapply signed_in_mono|]. split; [done|by eapply manages_mono].
Qed.

Section manager.
Context (I : list (event tenant_effects) -> cmd tenant_effects -> Prop).
Hypothesis I_gate : forall t c, cache_licensed (gate_events t) c -> I t (Gate c).

Lemma extended_manager_spec ident t0 :
  spec I (fun t o => grown t0 t /\ match o with
      | Done (Some m) => coherent tenant_reads t -> is_manager t ident m
      | _ => True end) t0 (require_manager ident).
Proof.
  unfold require_manager. apply spec_bind. eapply spec_post; [apply user_step, I_gate|].
  intros t1 [u|e] [Hg1 Hu]; [|done]. apply spec_bind. eapply spec_post; [apply org_id_step, I_gate|].
  intros t2 [org|e] [Hg2 Hid]; [|split; [by eapply grown_trans|done]].
  apply spec_bind. eapply spec_post; [apply platform_step, I_gate|].
  intros t4 [platformAdmin|e] [Hg4 Hadmin]; [|split; [by eauto using grown_trans|done]].
  apply spec_bind. eapply (spec_post _ (fun t o => grown t4 t /\ match o with
      | Done true => platformAdmin = true \/
          (coherent tenant_reads t -> exists id, granted (gate_events t) org RoleAdmin id)
      | _ => True end)).
  { destruct platformAdmin; [exec_cbn; split; [apply grown_refl|by left]|].
    eapply spec_post; [apply org_admin_step, I_gate|]. intros t [[|]|e] [Hg H]; auto. }
  intros t5 [can|e] [Hg5 H5]; exec_cbn.
  2: { split; [by eauto using grown_trans|done]. }
  split; [by eauto using grown_trans|]. destruct can; [|done].
  intros Hco. assert (t2 ⊆ t5) as Hs2 by (apply grown_subset; by eapply grown_trans).
  assert (t1 ⊆ t5) as Hs1 by (intros e He; apply Hs2; by apply (grown_subset t1 t2)).
  assert (signed_in t5 u) as Hu5 by (by apply (signed_in_mono t1)).
  exists u. split; [apply (granted_mono t2); [done|]; by apply Hid, (coherent_mono _ t5)|].
  split; [done|]. split; [done|]. apply (managed t4 t5 _ _ _ platformAdmin); try done; [intros ->; by apply Hadmin|by apply grown_subset].
Qed.
End manager.

(** ** How a method of the data source settles

    A result is returned only after the backend answered with success, and a refusal of the backend
    is what the method throws, as [throws] makes it the caller's error. *)
Definition settled {Err A} (throws : ds_error -> Err) (tr : list (event ds_effects)) (o : outcome Err A) : Prop :=
  match o with
  | Done _ => exists r res, @Ev ds_effects (Fetch r) (inr res) ∈ tr /\ response_ok res = true
  | Raised _ => True
  end /\
  forall r res, @Ev ds_effects (Fetch r) (inr res) ∈ tr -> response_ok res = false ->
    o = Raised (throws (responseError res)).

(** A method that sends [c]'s requests only, for a path, with a method and a body [P] allows, and settles. *)
Definition delivers {A} (c : client) (P : list piece -> string -> body -> Prop) (p : DS A) : Prop :=
  spec (fun tr cmd => licensed c tr cmd /\ match cmd with Fetch r => P (path r) (http_method r) (request_body r) | ActorId => True end)
    (settled (fun e => e)) [] p.

Definition fetch_answer (e : event ds_effects) : option (Thrown + http_response) :=
  match e with Ev (Fetch _) x => Some x | _ => None end.

Lemma settled_of_event {Err A} (throws : ds_error -> Err) (r : http_request) (x : Thrown + http_response) e0 (o : outcome Err A) :
  match x with
  | inl _ => exists e, o = Raised e
  | inr res => if response_ok res then True else o = Raised (throws (responseError res))
  end -> (forall c y, e0 = @Ev ds_effects c y -> c = ActorId) ->
  settled throws [e0; @Ev ds_effects (Fetch r) x] o.
Proof.
  intros H He. assert (forall r' res, @Ev ds_effects (Fetch r') (inr res) ∈ [e0; @Ev ds_effects (Fetch r) x] ->
    x = inr res) as Hx.
  { intros r' res [Hr|[Hr|Hr%elem_of_nil]%elem_of_cons]%elem_of_cons; [| |done].
    - by specialize (He _ _ (eq_sym Hr)).
    - apply (f_equal fetch_answer) in Hr. by injection Hr. }
  split.
  - destruct o as [a|e]; [|done]. destruct x as [e|res]; [by destruct H|]. exists r, res.
    split; [set_solver|]. by destruct (response_ok res).
  - intros r' res ->%Hx Hok. by rewrite Hok in H.
Qed.

Lemma settled_unsent {Err A} (throws : ds_error -> Err) e0 (e : Err) :
  (forall c y, e0 = @Ev ds_effects c y -> c = ActorId) -> settled (A := A) throws [e0] (Raised e).
Proof.
  intros He. split; [done|]. intros r res [Hr|Hr%elem_of_nil]%elem_of_cons; [|done].
  by specialize (He _ _ (eq_sym Hr)).
Qed.

(** The requests among the data source's events. *)
Definition fetches (tr : list (event ds_effects)) : list (event ds_effects) :=
  omap (fun e : event ds_effects => match e with Ev ActorId _ => None | e => Some e end) tr.

Lemma fetches_app tr tr' : fetches (tr ++ tr') = fetches tr ++ fetches tr'.
Proof. apply omap_app. Qed.

Lemma fetches_elem tr r x : @Ev ds_effects (Fetch r) x ∈ fetches tr <-> @Ev ds_effects (Fetch r) x ∈ tr.
Proof.
  unfold fetches. rewrite list_elem_of_omap. split.
  - intros ([[|r'] y] & He & Hx); [done|]. apply (inj Some) in Hx. by rewrite <- Hx.
  - intros H. by exists (@Ev ds_effects (Fetch r) x).
Qed.

Lemma settled_fetches {Err A} (throws : ds_error -> Err) tr (o : outcome ds_error A) :
  settled (fun e => e) tr o ->
  settled throws (fetches tr) (match o with Done a => Done a | Raised e => Raised (throws e) end).
Proof.
  intros [H1 H2]. split.
  - destruct o; [|done]. destruct H1 as (r & res & Hr & Hok). exists r, res. split; [by apply fetches_elem|done].
  - intros r res Hr Hok. pose proof (H2 r res (proj1 (fetches_elem _ _ _) Hr) Hok) as Ho. by subst o.
Qed.

Lemma settled_raised {Err A B} (throws : ds_error -> Err) tr e :
  settled (A := A) throws tr (Raised e) -> settled (A := B) throws tr (Raised e).
Proof. intros [_ H]. split; [done|]. intros r res Hr Hok. specialize (H r res Hr Hok). by injection H as ->. Qed.

Section delivers.
Context (c : client) (P : list piece -> string -> body -> Prop).

Lemma delivers_and {A} (p : DS A) :
  sends c p -> spec (fun (_ : list (event ds_effects)) (cmd : Effects.cmd ds_effects) => match cmd with Fetch r => P (path r) (http_method r) (request_body r) | ActorId => True end)
    (settled (fun e => e)) [] p -> delivers c P p.
Proof. intros H1 H2. eapply spec_post; [by apply spec_and|]. by intros tr o [_ H]. Qed.

#[local] Ltac settle :=
  exec; try done; cbn [app];
  first [ apply settled_unsent; intros ?? Hev; by injection Hev
        | apply settled_of_event; [|intros ?? Hev; by injection Hev] ];
  simpl; repeat case_match; simplify_eq; eauto; try congruence.

Lemma fetchJson_delivers t m b : is_Some (api_segments t) -> P t m (json_body b) -> delivers c P (fetchJson c t m b).
Proof.
  intros Ht HP. apply delivers_and; [by apply fetchJson_sends|].
  unfold fetchJson, get_headers, fetch, unwrap, parseResponse, check_ok, read_json. settle.
Qed.

Lemma fetchVoid_delivers t m : is_Some (api_segments t) -> P t m NoBody -> delivers c P (fetchVoid c t m).
Proof.
  intros Ht HP. apply delivers_and; [by apply fetchVoid_sends|].
  unfold fetchVoid, get_headers, fetch, unwrap, check_ok. settle.
Qed.

Lemma fetchText_delivers t : is_Some (api_segments t) -> P t "GET" NoBody -> delivers c P (fetchText c t).
Proof.
  intros Ht HP. apply delivers_and; [by apply fetchText_sends|].
  unfold fetchText, get_headers, fetch, unwrap, check_ok. settle.
Qed.

(** What the result is made into changes nothing. *)
Lemma delivers_bind {A B} (p : DS A) (f : A -> DS B) : delivers c P p -> (forall a, pure (f a)) -> delivers c P (mbind f p).
Proof.
  intros Hp Hf. apply spec_bind. eapply spec_post; [exact Hp|]. intros tr [a|e] H; [|by eapply settled_raised].
  apply (spec_impl (fun _ _ => False) _ (fun tr' _ => tr' = tr)); [done| |by apply spec_end, Hf].
  intros tr' o ->. split.
  - destruct o; [apply H|done].
  - intros r res Hr Hok. destruct H as [_ H]. by specialize (H r res Hr Hok).
Qed.

Lemma fetch_member_delivers k t m b : is_Some (api_segments t) -> P t m (json_body b) -> delivers c P (fetch_member c k t m b).
Proof. intros Ht HP. apply delivers_bind; [by apply fetchJson_delivers|]. intros j. apply member_pure. Qed.
End delivers.

(** ** The services of a route *)
#[export] Instance piece_eq_dec : EqDecision piece.
Proof. solve_decision. Defined.
#[export] Instance body_eq_dec : EqDecision body.
Proof. solve_decision. Defined.
#[export] Instance http_request_eq_dec : EqDecision http_request.
Proof. solve_decision. Defined.

Section extended.
Context (own : effects).

Inductive extended_cmd := Shared (c : tenant_cmd) | Backend (r : http_request) | Own (c : cmd own).

Definition extended_ans (c : extended_cmd) : Type :=
  match c with Shared c => tenant_ans c | Backend _ => Thrown + http_response | Own c => ans own c end.

Definition extended : effects := Effects extended_cmd extended_ans.

(** What React's [cache] covers. *)
Definition extended_reads (c : cmd extended) : bool := match c with Shared c => tenant_reads c | _ => false end.

#[export] Instance extended_cmd_eq_dec `{EqDecision (cmd own)} : EqDecision extended_cmd.
Proof. solve_decision. Defined.
#[export] Instance extended_eq_dec `{EqDecision (cmd own)} : EqDecision (cmd extended) := extended_cmd_eq_dec.

Definition on_tenant {X} (p : prog tenant_effects app_error X) : prog extended app_error X :=
  embed (E := tenant_effects) (F := extended) Shared (fun c x => x) (fun e => e) p.

Definition on_own (c : cmd own) : prog extended app_error (ans own c) := @call extended app_error (Own c).

(** ** lib/data-source.ts: the backend, as the signed-in user

    The client is made anew by each request, from the environment; it asks who acts when it sends. *)
Fixpoint acting {X} (p : DS X) : prog extended app_error X :=
  match p with
  | Ret a => Ret a
  | Throw e => Throw (DataSourceError e)
  | Vis c k =>
      match c return (ds_ans c -> DS X) -> prog extended app_error X with
      | ActorId => fun k => user ← on_tenant (gate requireAuthenticatedUser); acting (k (inr (Some (user_id user))))
      | Fetch r => fun k => Vis (E := extended) (Backend r) (fun x => acting (k x))
      end k
  end.

Definition getDataSource (env : Thrown + client) : prog extended app_error client := answered env.


(** ** What the events say of the tenant services *)
Implicit Types (tr : list (event extended)).

Definition tenant_event (e : event extended) : option (event tenant_effects) :=
  match e with Ev (Shared c) x => Some (@Ev tenant_effects c x) | _ => None end.

Definition tenant_events tr : list (event tenant_effects) := omap tenant_event tr.

(** What was asked of the backend, as the data source's events. *)
Definition backend_event (e : event extended) : option (event ds_effects) :=
  match e with Ev (Backend r) x => Some (@Ev ds_effects (Fetch r) x) | _ => None end.

Definition backend_events tr : list (event ds_effects) := omap backend_event tr.

Lemma backend_events_app tr tr' : backend_events (tr ++ tr') = backend_events tr ++ backend_events tr'.
Proof. apply omap_app. Qed.

Lemma backend_events_mono tr tr' : tr ⊆ tr' -> backend_events tr ⊆ backend_events tr'.
Proof. intros Hg e (x & Hx & He)%list_elem_of_omap. apply list_elem_of_omap. exists x. auto. Qed.

(** Nothing of the route's own services was asked yet. *)
Definition opening tr : Prop := Forall (fun e : event extended => match e with Ev (Shared c) _ => writes c = false | _ => False end) tr.

Lemma opening_unsent tr : opening tr -> backend_events tr = [].
Proof. induction 1 as [|[[c|r|c] x] tr Hc Ho IH]; [done|exact IH|done..]. Qed.

Lemma extended_tenant_events_app tr tr' : tenant_events (tr ++ tr') = tenant_events tr ++ tenant_events tr'.
Proof. apply omap_app. Qed.

Lemma extended_tenant_events_mono tr tr' : tr ⊆ tr' -> tenant_events tr ⊆ tenant_events tr'.
Proof. intros Hg e (x & Hx & He)%list_elem_of_omap. apply list_elem_of_omap. exists x. auto. Qed.

Lemma extended_tenant_events_same tr tr' :
  (forall e, e ∈ tr <-> e ∈ tr') -> forall e, e ∈ tenant_events tr <-> e ∈ tenant_events tr'.
Proof. intros H e. split; apply extended_tenant_events_mono; intros x; apply H. Qed.

Lemma extended_tenant_event_Some e (c : tenant_cmd) (x : tenant_ans c) :
  tenant_event e = Some (@Ev tenant_effects c x) -> e = @Ev extended (Shared c) x.
Proof.
  intros H. destruct e as [[c0|r|c0] y]; [|discriminate H..]. simpl in H.
  apply (inj Some) in H. pose proof (Ev_cmd _ _ _ _ H) as Hc. simpl in Hc. subst. by apply Ev_inj in H as ->.
Qed.

Lemma extended_coherent_tenant tr : coherent extended_reads tr -> coherent tenant_reads (tenant_events tr).
Proof.
  intros Hco c x y Hc (e & He & Hx)%list_elem_of_omap (e' & He' & Hy)%list_elem_of_omap.
  apply extended_tenant_event_Some in Hx as ->. apply extended_tenant_event_Some in Hy as ->. by eapply (Hco (Shared c)).
Qed.

Lemma extended_coherent_mono tr tr' : tr ⊆ tr' -> coherent extended_reads tr' -> coherent extended_reads tr.
Proof. intros Hg Hco c x y Hc Hx Hy. eapply Hco; eauto. Qed.

(** ** The licence of a route: its gates by the gate's rules, the rest by its own *)
Section licence.
Context (tenant_needs : list (event extended) -> tenant_cmd -> Prop) 
  (reach : list (event extended) -> http_request -> Prop) (needs : list (event extended) -> cmd own -> Prop).

Definition route_licensed tr (c : cmd extended) : Prop :=
  match c with
  | Shared (Gate c) => cache_licensed (gate_events (tenant_events tr)) c
  | Shared c => tenant_needs tr c
  | Backend r => reach tr r
  | Own c => needs tr c
  end.

#[local] Abbreviation I := (fun tr c => coherent extended_reads tr -> route_licensed tr c).

(** A tenant program inside a route, from the start; it asks the gate only. *)
Lemma opening_step {X} Q (p : T X) :
  spec (fun (t : list (event tenant_effects)) (c : cmd tenant_effects) => match c with Gate c => cache_licensed (gate_events t) c | _ => False end)
    (fun t o => grown [] t /\ Q t o) [] p ->
  spec I (fun tr o => opening tr /\ Q (tenant_events tr) o) [] (on_tenant p).
Proof.
  intros H. eapply spec_post.
  - eapply (spec_embed (E := tenant_effects) (F := extended) Shared (fun c x => x) (fun e => e) tenant_events
      ltac:(intros; by rewrite extended_tenant_events_app)); [|exact H].
    intros tr c Hc Hco. by destruct c.
  - intros tr o [(q & -> & Hq) Ho]. assert (grown [] (tenant_events q) /\ Q (tenant_events q) o) as [Hgr HQ].
    { destruct o as [a|e]; [exact Ho|]. by destruct Ho as (e' & -> & Ho). }
    split; [|exact HQ]. destruct Hgr as (q' & Hq' & Hr). simpl in Hq'. subst q'. clear Ho HQ H. simpl.
    induction q as [|e q IH]; [constructor|]. apply Forall_cons in Hq as [(c & x & ->) Hq]. simpl in Hr.
    apply Forall_cons in Hr as [Hr1 Hr]. constructor; [exact Hr1|by apply IH].
Qed.

Lemma extended_manager_step ident :
  spec I (fun tr o => opening tr /\ match o with
      | Done (Some m) => coherent extended_reads tr -> is_manager (tenant_events tr) ident m | _ => True end)
    [] (on_tenant (require_manager ident)).
Proof.
  eapply spec_post; [apply (opening_step (fun t o => match o with
      | Done (Some m) => coherent tenant_reads t -> is_manager t ident m | _ => True end)), extended_manager_spec; done|].
  intros tr [[m|]|e] [Ho H]; (split; [done|]); try done. intros Hco. by apply H, extended_coherent_tenant.
Qed.

Lemma member_step ident :
  spec I (fun tr o => opening tr /\ match o with
      | Done org => coherent extended_reads tr -> granted (gate_events (tenant_events tr)) ident RoleUser org | _ => True end)
    [] (on_tenant (gate (requireOrgId ident))).
Proof.
  eapply spec_post; [apply (opening_step (fun t o => match o with
      | Done org => coherent tenant_reads t -> granted (gate_events t) ident RoleUser org | _ => True end)), org_id_step; done|].
  intros tr [org|e] [Ho H]; (split; [done|]); try done. intros Hco. by apply H, extended_coherent_tenant.
Qed.

(** What the data source sends for [u]: to the backend, inside the resource its arguments name, under the
    deployment's bearer and in the user's name. *)
Definition sent_by (c : client) (u : AuthenticatedUser) (r : http_request) : Prop :=
  origin r = baseUrl c /\ (exists segs, confined (path r) segs) /\
  mget (headers r) "Authorization" = Some ("Bearer " +:+ apiKey c) /\
  mget (headers r) "X-Explabs-Actor-Id" = Some (user_id u).

(** A tenant program that asks the gate only, anywhere in a route. *)
Lemma gate_anywhere {X} Q tr (p : T X) :
  spec (fun (t : list (event tenant_effects)) (c : cmd tenant_effects) => match c with Gate c => cache_licensed (gate_events t) c | _ => False end)
    Q (tenant_events tr) p ->
  spec I (fun tr' o => tr ⊆ tr' /\ backend_events tr' = backend_events tr /\ Q (tenant_events tr') o) tr (on_tenant p).
Proof.
  intros H. eapply spec_post.
  - eapply (spec_embed (E := tenant_effects) (F := extended) Shared (fun c x => x) (fun e => e) tenant_events
      ltac:(intros; by rewrite extended_tenant_events_app)); [|exact H].
    intros tr' c Hc Hco. by destruct c.
  - intros tr' o [(q & -> & Hq) Ho]. split; [intros e He; apply elem_of_app; by left|].
    rewrite backend_events_app. split.
    + enough (backend_events q = []) as -> by apply app_nil_r.
      clear Ho H. induction Hq as [|e q (c & x & ->) Hq IH]; [done|exact IH].
    + destruct o as [a|e]; [exact Ho|]. by destruct Ho as (e' & -> & Ho).
Qed.

(** A method of the data source as the signed-in user, anywhere in a route that has not asked the
    backend: what it sends is the user's, and it settles. *)
Lemma acting_step {X} c (P : list piece -> string -> body -> Prop) (p : DS X) tr :
  backend_events tr = [] -> delivers c P p ->
  (forall tr' r u, tr ⊆ tr' -> signed_in (tenant_events tr') u -> sent_by c u r -> P (path r) (http_method r) (request_body r) ->
    I tr' (Backend r)) ->
  spec I (fun tr' o => tr ⊆ tr' /\ settled DataSourceError (backend_events tr') o) tr (acting p).
Proof.
  intros Hno H HI. revert H.
  enough (forall dtr tr', tr ⊆ tr' -> backend_events tr' = fetches dtr ->
    (forall actor, dtr = [@Ev ds_effects ActorId (inr actor)] -> exists u, actor = Some (user_id u) /\ signed_in (tenant_events tr') u) ->
    spec (fun (tr : list (event ds_effects)) (c0 : Effects.cmd ds_effects) => licensed c tr c0 /\
        match c0 with Fetch r => P (path r) (http_method r) (request_body r) | ActorId => True end) (settled (fun e => e)) dtr p ->
    spec I (fun tr' o => tr ⊆ tr' /\ settled DataSourceError (backend_events tr') o) tr' (acting p)) as Hgen
    by (intros H; by apply (Hgen [])).
  induction p as [a|e|[|r] k IH]; intros dtr tr' Hsub Hd Hactor H.
  - split; [done|]. rewrite Hd. by apply (settled_fetches _ _ (Done a)).
  - split; [done|]. rewrite Hd. by apply (settled_fetches _ _ (Raised e)).
  - destruct H as [[Hn _] Hk]. simpl in Hn. subst dtr. cbn [acting]. apply spec_bind.
    eapply spec_post; [apply (gate_anywhere (fun t o => match o with Done u => signed_in t u | _ => True end))|].
    { eapply spec_post; [apply user_step; done|]. by intros t [u|e] [_ Ht]. }
    intros tr1 [u|e] (Hsub1 & Hb & Hu).
    + refine (IH _ _ _ _ _ _ (Hk (inr (Some (user_id u))))); [by intros e' He; apply Hsub1, Hsub|by rewrite Hb, Hd|].
      intros actor Heq. apply (f_equal (fun l : list (event ds_effects) => match l with Ev ActorId x :: _ => Some x | _ => None end)) in Heq.
      injection Heq as <-. by exists u.
    + split; [by intros e' He; apply Hsub1, Hsub|]. rewrite Hb, Hd. split; [done|]. by intros ? ? ?%elem_of_nil.
  - destruct H as [[(actor & segs & -> & Ho & Hc & Hb & Ha & _) HPr] Hk]. destruct (Hactor actor eq_refl) as (u & -> & Hu).
    split; [apply (HI _ _ u); [exact Hsub|exact Hu| |exact HPr]; split; [done|]; split; [by exists segs|done]|].
    intros x. refine (IH _ _ _ _ _ _ (Hk _)).
    + intros e He. apply elem_of_app. left. by apply Hsub.
    + rewrite backend_events_app, fetches_app, Hd. done.
    + done.
Qed.

(** The licence and the outcome of a cached route, from those of the route on coherent events. *)
Lemma cached_route `{EqDecision (cmd own)} {X} Q (p : prog extended app_error X) :
  (forall tr tr' c, (forall e, e ∈ tr <-> e ∈ tr') -> tenant_needs tr c -> tenant_needs tr' c) ->
  (forall tr tr' r, (forall e, e ∈ tr <-> e ∈ tr') -> reach tr r -> reach tr' r) ->
  (forall tr tr' c, (forall e, e ∈ tr <-> e ∈ tr') -> needs tr c -> needs tr' c) ->
  (forall tr tr' o, (forall e, e ∈ tr <-> e ∈ tr') -> Q tr o -> Q tr' o) ->
  spec I (fun tr o => coherent extended_reads tr -> Q tr o) [] p ->
  spec route_licensed Q [] (cached extended_reads p).
Proof.
  intros Ht Hr Hn HQ Hp. apply spec_cached; [|done|done].
  intros tr tr' c Hsame. destruct c as [c|r|c]; simpl; [|by apply Hr|by apply Hn].
  destruct c; try by apply Ht. apply cache_licensed_same, gate_events_same. by apply extended_tenant_events_same.
Qed.
End licence.
End extended.
