(* ===== verification/Proxies.v ===== *)
(** * Proxies of the backend

    What the routes share whose work the backend does: they open with a gate, read the request, call
    a method of the data source as the signed-in user, and answer with what it returned. [served] is
    such an answer; [attempted] and [proxied_outcome] say how a handler ends, inside its [try] and
    after it; the lemmas step a handler from its gate to the backend, against any licence. *)

From S2P Require Import Prelude JsMap JsString JsNumber Effects Url Json Services.
From S2P Require Import BackendSource OrgAccess TenantServices ApiKeys Extended.

#[local] Open Scope Z_scope.

(** An answer: JSON with its [cache-control], a CSV download, or no content. *)
Inductive served :=
| Answered (r : response) (cache_control : option string)
| Download (csv : string)
| NoContent.

Definition no_store : option string := Some "no-store".
Definition private : option string := Some "private, no-store".

(** [jsonOk(payload, { "cache-control": cache })]; also [NextResponse.json(payload)]. *)
Definition jsonOk (payload : json) (cache : option string) : served := Answered (json_response payload) cache.

Definition refused (message : string) (http : Z) : served := Answered (json_error message http) None.

(** A JSON value [requireField] refuses. *)
Definition blank_json (j : json) : bool :=
  match j with JNull => true | JStr s => negb (truthy s) | _ => false end.

(** JavaScript's truth of a JSON value. *)
Definition json_truthy (j : json) : bool :=
  match j with
  | JNull => false
  | JBool b => b
  | JNum x => negb (PrimFloat.eqb x PrimFloat.zero) && PrimFloat.eqb x x
  | JStr s => truthy s
  | JArr _ | JObj _ => true
  end.

Section handlers.
Context {own : effects}.

#[local] Abbreviation P := (prog (extended own) app_error).

Definition request_json : P (Thrown + json) := on_tenant own (@call tenant_effects app_error RequestBody).

(** [await request.json()], what it rejects with thrown. *)
Definition read_body : P json := r ← request_json; answered r.

(** [await request.json().catch(() => null)]. *)
Definition body_or_null : P json := r ← request_json; mret (match r with inr b => b | inl _ => JNull end).

(** [payload.k]: reading a member of [null] throws. *)
Definition field (payload : json) (k : string) : P (option json) :=
  match payload with
  | JNull => raise_error ("Cannot read properties of null (reading '" +:+ k +:+ "')")
  | _ => mret (jget payload k)
  end.

Definition raise_request {A} (message : string) (http : Z) : P A :=
  Throw (DataSourceError (DataSourceRequestError message http None None)).

Definition requireField {A} (blank : A -> bool) (value : option A) (name : string) : P A :=
  match value with
  | Some v => if blank v then raise_request (name +:+ " is required.") 400 else mret v
  | None => raise_request (name +:+ " is required.") 400
  end.

(** A call of the data source. *)
Definition backend {A} (env : Thrown + client) (method : client -> DS A) : P A :=
  c ← getDataSource own env; acting own (method c).

(** What every handler does around its own work. *)
Definition guarded (p : P served) : P served := try_catch p (fun e => mret (Answered (jsonError e) None)).

(** ** How a handler ends *)
Implicit Types (tr : list (event (extended own))).

(** Nothing of the backend is in the answer. *)
Definition failed (s : served) : Prop :=
  (exists e, s = Answered (jsonError e) None) \/ (exists message http, 400 <= http /\ s = refused message http).

(** The backend answered with success. *)
Definition backend_agreed tr : Prop :=
  exists r res, @Ev ds_effects (Fetch r) (inr res) ∈ backend_events own tr /\ response_ok res = true.

(** The backend answered [res], and not with success. *)
Definition backend_refused tr (res : http_response) : Prop :=
  (exists r, @Ev ds_effects (Fetch r) (inr res) ∈ backend_events own tr) /\ response_ok res = false.

(** A proxy always answers: with what the backend agreed to give or with a failure; and what the
    backend refuses is answered with its own status, message, code and action. *)
Definition proxied_outcome tr (o : outcome app_error served) : Prop :=
  match o with
  | Done s => (failed s \/ backend_agreed tr) /\
      forall res, backend_refused tr res -> s = Answered (jsonError (DataSourceError (responseError res))) None
  | Raised _ => False
  end.

(** How a handler ends inside its [try]. *)
Definition attempted tr (o : outcome app_error served) : Prop :=
  match o with
  | Done s => (failed s \/ backend_agreed tr) /\ forall res, ~ backend_refused tr res
  | Raised e => forall res, backend_refused tr res -> e = DataSourceError (responseError res)
  end.

Lemma agreed_mono tr tr' : tr ⊆ tr' -> backend_agreed tr -> backend_agreed tr'.
Proof. intros Hg (r & res & Hr & Hok). exists r, res. by split; [eapply backend_events_mono|]. Qed.

Lemma unsent_refused tr res : backend_events own tr = [] -> ~ backend_refused tr res.
Proof. intros Hb [[r Hr] _]. rewrite Hb in Hr. by apply elem_of_nil in Hr. Qed.

Lemma unsent_raise tr e : backend_events own tr = [] -> attempted tr (Raised e).
Proof. intros Hb res Hr. by apply unsent_refused in Hr. Qed.

Lemma unsent_refuse tr message http : 400 <= http -> backend_events own tr = [] -> attempted tr (Done (refused message http)).
Proof. intros Hh Hb. split; [left; right; by eexists _, _|]. intros res. by apply unsent_refused. Qed.

Lemma guarded_spec I p : spec I attempted [] p -> spec I proxied_outcome [] (guarded p).
Proof.
  intros H. apply spec_try. eapply spec_post; [exact H|]. intros tr [s|e].
  - intros [H1 H2]. split; [done|]. intros res Hr. by apply H2 in Hr.
  - intros H1. exec_cbn. split; [left; left; by exists e|]. by intros res ->%H1.
Qed.

Lemma proxied_same tr tr' o : (forall e, e ∈ tr <-> e ∈ tr') -> proxied_outcome tr o -> proxied_outcome tr' o.
Proof.
  intros Hs. assert (backend_events own tr ⊆ backend_events own tr') as Hb1 by (apply backend_events_mono; intros e; apply Hs).
  assert (backend_events own tr' ⊆ backend_events own tr) as Hb2 by (apply backend_events_mono; intros e; apply Hs).
  destruct o as [s|e]; [|done]. intros [H1 H2]. split.
  - destruct H1 as [H1|(r & res & Hr & Hok)]; [by left|right]. exists r, res. by split; [apply Hb1|].
  - intros res [[r Hr] Hok]. apply H2. by split; [exists r; apply Hb2|].
Qed.

(** ** Steps

    [F] is what the gate found out; the licence lets the request be read, and lets the signed-in
    user's requests go where [Allowed] says once [F] holds. *)
Section steps.
Context (tenant_needs : list (event (extended own)) -> tenant_cmd -> Prop)
  (reach : list (event (extended own)) -> http_request -> Prop) (needs : list (event (extended own)) -> cmd own -> Prop).
Context (env : Thrown + client) (F : list (event (extended own)) -> Prop) (Allowed : list piece -> string -> body -> Prop).
Hypothesis body_free : forall tr, tenant_needs tr RequestBody.
Hypothesis F_mono : forall tr tr', tr ⊆ tr' -> F tr -> F tr'.
Hypothesis F_reach : forall tr c u r, coherent (extended_reads own) tr -> env = inr c -> F tr -> signed_in (tenant_events own tr) u -> sent_by c u r ->
  Allowed (path r) (http_method r) (request_body r) -> reach tr r.

#[local] Abbreviation I := (fun tr c => coherent (extended_reads own) tr -> route_licensed own tenant_needs reach needs tr c).

(** Nothing was sent yet, and the gate found [F]. *)
Definition ready tr : Prop := backend_events own tr = [] /\ (coherent (extended_reads own) tr -> F tr).

Lemma ready_mono tr tr' : tr ⊆ tr' -> backend_events own tr' = [] -> ready tr -> ready tr'.
Proof. intros Hg Hb [_ H]. split; [done|]. intros Hco. eapply F_mono, H, extended_coherent_mono; done. Qed.

Lemma ready_snoc tr (e : event (extended own)) : backend_event own e = None -> ready tr -> ready (tr ++ [e]).
Proof.
  intros He H. eapply ready_mono; [| |exact H]; [intros e' He'; apply elem_of_app; by left|].
  rewrite backend_events_app, (proj1 H). simpl. by rewrite He.
Qed.

Lemma body_then {A} tr Q (k : Thrown + json -> P A) :
  ready tr ->
  (forall x, ready (tr ++ [@Ev (extended own) (Shared own RequestBody) x]) ->
    spec I Q (tr ++ [@Ev (extended own) (Shared own RequestBody) x]) (k x)) ->
  I tr (Shared own RequestBody) /\ forall x, spec I Q (tr ++ [@Ev (extended own) (Shared own RequestBody) x]) (k x).
Proof. intros Hr Hk. split; [intros _; apply body_free|]. intros x. by apply Hk, ready_snoc. Qed.

Lemma attempted_raise tr e : ready tr -> attempted tr (Raised e).
Proof. intros [Hb _]. by apply unsent_raise. Qed.

Lemma attempted_refuse tr message http : 400 <= http -> ready tr -> attempted tr (Done (refused message http)).
Proof. intros Hh [Hb _]. by apply unsent_refuse. Qed.

(** A call of the backend: it settles, and nothing else was sent. *)
Lemma backend_step {A} tr (method : client -> DS A) :
  ready tr -> (forall c, delivers c Allowed (method c)) ->
  spec I (fun tr' o => tr ⊆ tr' /\ settled DataSourceError (backend_events own tr') o) tr (backend env method).
Proof.
  intros Hr Hd. unfold backend, getDataSource, answered, raise_thrown.
  assert (forall c', env = inr c' -> spec I (fun tr' o => tr ⊆ tr' /\ settled DataSourceError (backend_events own tr') o) tr (acting own (method c'))) as Hsend.
  { intros c Henv. apply (acting_step own _ _ _ c _ _ _ (proj1 Hr) (Hd c)).
    intros tr' r u Hsub Hu Hs HP Hco. apply (F_reach tr' c u); try done. eapply F_mono, Hr, extended_coherent_mono; done. }
  destruct env as [e|c]; exec_cbn; [|by apply Hsend].
  split; [done|]. split; [done|]. rewrite (proj1 Hr). by intros ? ? ?%elem_of_nil.
Qed.

(** A call of the backend whose result is the answer. *)
Lemma backend_then {A} tr (method : client -> DS A) (f : A -> served) :
  ready tr -> (forall c, delivers c Allowed (method c)) ->
  spec I attempted tr (x ← backend env method; mret (f x)).
Proof.
  intros Hr Hd. apply spec_bind. eapply spec_post; [by apply backend_step|].
  intros tr' [a|e] (_ & H1 & H2); exec_cbn.
  - split; [by right|]. intros res [[r Hin] Hok]. by specialize (H2 r res Hin Hok).
  - intros res [[r Hin] Hok]. by injection (H2 r res Hin Hok).
Qed.
End steps.
End handlers.

(** A method of the data source delivers where it is allowed to. *)
Ltac delivered_at c tac :=
  cbv beta;
  lazymatch goal with |- delivers _ _ ?p => let f := head_of p in unfold f end; cbv zeta;
  first
  [ apply fetchJson_delivers | apply fetchVoid_delivers | apply fetchText_delivers | apply fetch_member_delivers
  | apply delivers_bind; [apply fetchJson_delivers|intros ?; only_computes] ];
  first [ segments | suffix_segments | tac ].

Ltac delivered_by tac := intros c; delivered_at c tac.

(** A handler behind its gate: what it reads of the body, then the backend or a refusal. [called]
    and [read] apply the client's instances of [backend_then] and [body_then]. *)
Ltac proxied_step Hr called read :=
  first
  [ by eapply attempted_raise
  | eapply (attempted_refuse _ _ _ 400); [done|exact Hr]
  | called
  | read; [exact Hr|clear Hr; intros ? Hr]
  | lazymatch goal with |- spec _ _ _ ?p => match p with context [match ?x with _ => _ end] => destruct x end end ].

Ltac proxied_by Hr called read :=
  unfold read_body, body_or_null, request_json, field, requireField, raise_request, raise_error, raise_thrown, answered, on_tenant;
  exec_cbn; repeat (proxied_step Hr called read; exec_cbn).
