(* ===== verification/OrgProxies.v ===== *)
(** * The backend's proxies of an organization (app/api/orgs/[orgId]/...)

    The routes under one organization that hold no state of their own: each resolves the identifier
    in its path through the access gate, reads its body or its query, calls one method of the data
    source for the organization found, and answers with the result. The tool accounts and the checks
    of a provider key also ask for the right to manage the organization. [next/server] and
    [routeParams] (the path's parameters) are the arguments [ident] and those that follow it. *)

From S2P Require Import Prelude JsMap JsString JsNumber Effects Url QueryStrings Json Services.
From S2P Require Import BackendSource OrgAccess TenantServices ApiKeys ModelProviders Extended Proxies.

#[local] Open Scope Z_scope.

(** ** Services: the tenant services, the backend, and the organization's labels *)
Inductive label_cmd := SelectYcLabel (org : string).

Definition label_effects : effects := Effects label_cmd (fun _ => db_result (list string)).

#[export] Instance label_cmd_eq_dec : EqDecision label_cmd.
Proof. solve_decision. Defined.
#[export] Instance label_effects_eq_dec : EqDecision (cmd label_effects) := label_cmd_eq_dec.

Abbreviation proxied := (extended label_effects).
Abbreviation P := (prog proxied app_error).

(** [payload.name] of a team, a non-empty string. *)
Definition team_name : P string :=
  payload ← read_body;
  name ← field payload "name";
  requireField (fun s => negb (truthy s)) (name ≫= jstr) "name".

(** [WINDOW_KEYS.includes(raw) ? raw : undefined] of the query's [window]. *)
Definition window_param (query : params) : option ServingWindow := window_of (params_get query "window").

Section routes.
Variables (env : Thrown + client) (query : params).

(** A handler whose only gate is membership. *)
Definition as_member (ident : string) (k : string -> P served) : P served :=
  guarded (org ← on_tenant label_effects (gate (requireOrgId ident)); k org).

(** The plain read or call: the result is the answer. *)
Definition forward (ident : string) (cache : option string) (method : client -> string -> DS json) : P served :=
  as_member ident (fun org => j ← backend env (fun c => method c org); mret (jsonOk j cache)).

(** *** audit-log *)
Definition limit_param : option Z :=
  n ← parse_int (default EmptyString (params_get query "limit"));
  let x := number_of_Z n in
  if is_finite x && PrimFloat.ltb PrimFloat.zero x then trunc x else None.

Definition audit_query : AuditLogQuery :=
  {| action := params_get query "action"; QueryStrings.objectType := params_get query "object_type";
     before := params_get query "before"; audit_limit := limit_param |}.

Definition audit_log_GET (ident : string) : P served :=
  as_member ident (fun org =>
    if bool_decide (params_get query "format" = Some "csv")
    then csv ← backend env (fun c => getOrgAuditLogCsv c org audit_query); mret (Download csv)
    else events ← backend env (fun c => getOrgAuditLog c org audit_query); mret (jsonOk events private)).

(** *** Money: budget, budgets, credit/ledger, spend-alerts, yc/claim *)
Definition budget_GET (ident : string) : P served :=
  as_member ident (fun org =>
    budget ← backend env (fun c => getOrgBudget c org); mret (jsonOk (JObj [("budget", budget)]) no_store)).

Definition budgets_GET (ident : string) : P served :=
  forward ident None (fun c org => listBudgets c org (default EmptyString (params_get query "period"))).

Definition budgets_PUT (ident : string) : P served :=
  as_member ident (fun org =>
    input ← read_body; j ← backend env (fun c => setBudget c org input); mret (jsonOk j None)).

Definition budget_DELETE (ident budgetId : string) : P served :=
  forward ident None (fun c org => deleteBudget c org budgetId).

Definition ledger_GET (ident : string) : P served := forward ident no_store getOrgCreditLedger.

Definition spend_alerts_GET (ident : string) : P served := forward ident None listSpendAlerts.

Definition spend_alerts_POST (ident : string) : P served :=
  as_member ident (fun org =>
    input ← read_body; j ← backend env (fun c => createSpendAlert c org input); mret (jsonOk j None)).

Definition spend_alert_DELETE (ident alertId : string) : P served :=
  forward ident None (fun c org => deleteSpendAlert c org alertId).

Definition yc_claim_POST (ident : string) : P served := forward ident no_store postYcClaim.

(** *** People: domains, the SSO provider, SCIM, teams, identities, join requests *)
Definition domains_GET (ident : string) : P served := forward ident private listOrgDomains.

Definition domains_POST (ident : string) : P served :=
  as_member ident (fun org =>
    payload ← read_body;
    value ← field payload "domain";
    domain ← requireField blank_json value "domain";
    created ← backend env (fun c => createOrgDomain c org domain);
    mret (jsonOk created private)).

Definition domain_PATCH (ident domain : string) : P served :=
  as_member ident (fun org =>
    payload ← read_body;
    sso_required ← field payload "sso_required";
    match sso_required ≫= jbool with
    | None => raise_request "sso_required must be a boolean." 400
    | Some ssoRequired =>
        updated ← backend env (fun c => setOrgDomainSsoRequired c org domain ssoRequired);
        mret (jsonOk updated private)
    end).

Definition domain_DELETE (ident domain : string) : P served :=
  forward ident private (fun c org => deleteOrgDomain c org domain).

Definition domain_verify_POST (ident domain : string) : P served :=
  forward ident private (fun c org => verifyOrgDomain c org domain).

Definition sso_provider_GET (ident : string) : P served := forward ident private getOrgSsoProvider.

Definition is_true (v : option json) : bool := bool_decide (v = Some (JBool true)).

(** The typed registration; [provider_type] is already checked. *)
Definition sso_input (provider_type : string) (payload : json) : json :=
  obj [("provider_type", Some (JStr provider_type));
       ("metadata", Some (match jget payload "metadata" with None | Some JNull => JObj [] | Some m => m end));
       ("default_role", Some (JStr (if bool_decide (jget_str payload "default_role" = Some "admin") then "admin" else "user")));
       ("enabled", Some (JBool (is_true (jget payload "enabled"))));
       ("client_secret", jget payload "client_secret" ≫= fun s => if json_truthy s then Some s else None)].

Definition sso_provider_PUT (ident : string) : P served :=
  as_member ident (fun org =>
    payload ← read_body;
    type ← field payload "provider_type";
    match type ≫= jstr with
    | Some t =>
        if bool_decide (t = "saml") || bool_decide (t = "oidc")
        then provider ← backend env (fun c => putOrgSsoProvider c org (sso_input t payload)); mret (jsonOk provider private)
        else raise_request "provider_type must be saml or oidc." 400
    | None => raise_request "provider_type must be saml or oidc." 400
    end).

Definition sso_provider_DELETE (ident : string) : P served := forward ident private deleteOrgSsoProvider.

Definition scim_GET (ident : string) : P served := forward ident private getScimTokenStatus.

Definition scim_POST (ident : string) : P served :=
  as_member ident (fun org =>
    r ← request_json;
    policy ← field (match r with inr payload => payload | inl _ => JObj [] end) "key_policy";
    minted ← backend env (fun c => mintScimToken c org (if bool_decide (policy = Some (JStr "keep")) then "keep" else "revoke"));
    mret (jsonOk minted private)).

Definition scim_DELETE (ident : string) : P served := forward ident private revokeScimToken.

Definition teams_GET (ident : string) : P served := forward ident private listOrgTeams.

Definition teams_POST (ident : string) : P served :=
  as_member ident (fun org => name ← team_name; j ← backend env (fun c => createOrgTeam c org name); mret (jsonOk j None)).

Definition team_PATCH (ident teamId : string) : P served :=
  as_member ident (fun org =>
    name ← team_name; j ← backend env (fun c => renameOrgTeam c org teamId name); mret (jsonOk j None)).

Definition team_DELETE (ident teamId : string) : P served :=
  forward ident None (fun c org => deleteOrgTeam c org teamId (bool_decide (params_get query "force" = Some "true"))).

Definition team_members_GET (ident teamId : string) : P served :=
  forward ident private (fun c org => listOrgTeamMembers c org teamId).

Definition team_member_PUT (ident teamId userId : string) : P served :=
  forward ident None (fun c org => addOrgTeamMember c org teamId userId).

Definition team_member_DELETE (ident teamId userId : string) : P served :=
  forward ident None (fun c org => removeOrgTeamMember c org teamId userId).

Definition team_key_PUT (ident teamId keyId : string) : P served :=
  forward ident None (fun c org => assignOrgTeamKey c org teamId keyId).

Definition team_key_DELETE (ident teamId keyId : string) : P served :=
  forward ident None (fun c org => unassignOrgTeamKey c org teamId keyId).

Definition identities_GET (ident : string) : P served := forward ident None listIdentities.

Definition identities_POST (ident : string) : P served :=
  as_member ident (fun org =>
    input ← read_body; j ← backend env (fun c => createIdentity c org input); mret (jsonOk j None)).

Definition identity_PATCH (ident identityId : string) : P served :=
  as_member ident (fun org =>
    input ← read_body; j ← backend env (fun c => updateIdentity c org identityId input); mret (jsonOk j None)).

Definition identity_DELETE (ident identityId : string) : P served :=
  forward ident None (fun c org => disableIdentity c org identityId).

Definition grants_GET (ident : string) : P served := forward ident None getGrantMatrix.

Definition grant_PUT (ident identityId aliasId : string) : P served :=
  forward ident None (fun c org => addGrant c org identityId aliasId).

Definition grant_DELETE (ident identityId aliasId : string) : P served :=
  forward ident None (fun c org => removeGrant c org identityId aliasId).

Definition join_requests_GET (ident : string) : P served := forward ident None listJoinRequests.

Definition join_request_approve_POST (ident requestId : string) : P served :=
  forward ident None (fun c org => approveJoinRequest c org requestId).

Definition join_request_deny_POST (ident requestId : string) : P served :=
  forward ident None (fun c org => denyJoinRequest c org requestId).

(** *** Data: capabilities, provider data controls and policy, telemetry settings *)
Definition capabilities_GET (ident : string) : P served := forward ident private getOrgCapabilities.

Definition provider_data_controls_GET (ident : string) : P served := forward ident private getProviderDataControls.

Definition provider_policy_GET (ident : string) : P served := forward ident private getProviderPolicy.

(** [null], absent, or a list of strings; [None] is anything else. *)
Definition allowed_list (v : option json) : option json :=
  match v with
  | None | Some JNull => Some JNull
  | Some (JArr l) => if forallb (fun p => match p with JStr _ => true | _ => false end) l then Some (JArr l) else None
  | Some _ => None
  end.

Definition provider_policy_PUT (ident : string) : P served :=
  as_member ident (fun org =>
    payload ← read_body;
    allowed ← field payload "allowed_providers";
    match allowed_list allowed with
    | None => raise_request "allowed_providers must be null or a list of provider ids." 400
    | Some providers =>
        j ← backend env (fun c => putProviderPolicy c org (JObj
          [("allowed_providers", providers);
           ("require_zdr", JBool (is_true (jget payload "require_zdr")));
           ("require_no_training", JBool (is_true (jget payload "require_no_training")))]));
        mret (jsonOk j private)
    end).

Definition provider_policy_DELETE (ident : string) : P served := forward ident private deleteProviderPolicy.

Definition telemetry_settings_GET (ident : string) : P served := forward ident private getTelemetrySettings.

Definition telemetry_settings_PUT (ident : string) : P served :=
  as_member ident (fun org =>
    payload ← read_body;
    j ← backend env (fun c => setTelemetrySettings c org (JObj
      [("capture_prompt_content", JBool (default false (json_truthy <$> jget payload "capture_prompt_content")))]));
    mret (jsonOk j None)).

(** *** Usage, serving, insights *)
Definition usage_GET (ident : string) : P served := forward ident private getOrgUsage.

Definition usage_timeseries_GET (ident : string) : P served :=
  forward ident private (fun c org => getUsageTimeseries c org (usageTimeseriesQueryFromSearchParams query)).

Definition usage_by_key_GET (ident : string) : P served :=
  forward ident private (fun c org => getUsageByKey c org (window_param query)).

Definition usage_by_prompt_GET (ident : string) : P served :=
  forward ident private (fun c org => getUsageByPrompt c org (window_param query)).

Definition usage_by_provider_GET (ident : string) : P served :=
  forward ident private (fun c org => getUsageByProvider c org (window_param query)).

Definition usage_requests_GET (ident : string) : P served :=
  forward ident private (fun c org => listUsageRequests c org (usageRequestsQueryFromSearchParams query)).

Definition captured_prompt_GET (ident requestId : string) : P served :=
  forward ident private (fun c org => getCapturedPrompt c org requestId).

Definition serving_request_GET (ident requestId : string) : P served :=
  as_member ident (fun org =>
    found ← backend env (fun c => getServingRequest c org requestId); mret (jsonOk (obj [("request", found)]) None)).

Definition serving_requests_GET (ident : string) : P served :=
  forward ident None (fun c org => listServingRequests c org (servingRequestQueryFromSearchParams query)).

Definition serving_summary_GET (ident : string) : P served :=
  forward ident None (fun c org => getServingSummary c org (params_get query "endpoint") (window_param query)).

Definition suggestions_GET (ident : string) : P served :=
  forward ident private (fun c org => getSuggestions c org (window_param query)).

Definition agent_advice_POST (ident : string) : P served :=
  forward ident private (fun c org => runAgentAdvice c org (window_param query)).

Definition MAX_QUESTION_LENGTH : nat := 300.

Definition insights_query_POST (ident : string) : P served :=
  as_member ident (fun org =>
    r ← request_json;
    let question := match r with inr b => trim (default EmptyString (jget_str b "question")) | inl _ => EmptyString end in
    if bool_decide (String.length question = 0)%nat || bool_decide (MAX_QUESTION_LENGTH < String.length question)%nat
    then mret (refused ("question must be 1-" +:+ string_of_Z (Z.of_nat MAX_QUESTION_LENGTH) +:+ " characters.") 400)
    else answer ← backend env (fun c => queryInsights c org question); mret (jsonOk answer private)).

(** *** The managers' routes: tool accounts, and the checks of a provider key *)
Definition as_manager (ident : string) (k : string -> P served) : P served :=
  m ← on_tenant label_effects (require_manager ident);
  match m with None => mret (refused "Not found" 404) | Some m => k (manager_org m) end.

Definition tool_accounts_GET (ident : string) : P served :=
  guarded (as_manager ident (fun org =>
    accounts ← backend env (fun c => listToolAccounts c org); mret (jsonOk (JArr accounts) None))).

(** lib/tool-accounts.ts *)
Definition YC_GATED_TOOL_VENDORS : list string := ["greptile"; "cursor"; "devin"].
Definition isYcGatedToolVendor (vendor : string) : bool := bool_decide (vendor ∈ YC_GATED_TOOL_VENDORS).

(** lib/billing/tool-accounts-server.ts *)
Definition orgIsYcCompany (org : string) : P bool :=
  _ ← on_tenant label_effects (gate OrgAccess.createServerSupabaseClient);
  r ← on_own label_effects (SelectYcLabel org);
  match error r with
  | Some e => raise_error ("Unable to load YC label: " +:+ error_message e)
  | None => mret (bool_decide (default [] (data r) <> []))
  end.

Definition requireToolAccountManager (ident vendor : string) (k : string -> P served) : P served :=
  if negb (isTrackedToolVendor vendor)
  then mret (refused ("vendor must be one of: " +:+ join ", " TRACKED_TOOL_VENDORS +:+ ".") 400)
  else as_manager ident (fun org =>
    if isYcGatedToolVendor vendor
    then yc ← orgIsYcCompany org; if yc : bool then k org else mret (refused "Not found" 404)
    else k org).

(** [typeof v === "number" && Number.isFinite(v) && v >= 0]. *)
Definition amount (v : json) : option number :=
  x ← jnum v; if is_finite x && PrimFloat.leb PrimFloat.zero x then Some x else None.

(** An amount that may be absent, and, where [clears], [null]. *)
Definition optional_amount (clears : bool) (v : option json) (message : string) : string + option json :=
  match v with
  | None => inr None
  | Some v =>
      if clears && bool_decide (v = JNull) then inr (Some JNull)
      else match amount v with Some x => inr (Some (JNum x)) | None => inl message end
  end.

(** The changes of the upsert, or why they are refused. *)
Definition tool_changes (body : json) : string + json :=
  match optional_amount true (jget body "declared_balance_usd")
          "declared_balance_usd must be a non-negative number, or null to stop tracking." with
  | inl message => inl message
  | inr declared =>
      match optional_amount false (jget body "low_balance_threshold_usd")
              "low_balance_threshold_usd must be a non-negative number." with
      | inl message => inl message
      | inr threshold =>
          inr (obj [("declared_balance_usd", declared); ("low_balance_threshold_usd", threshold);
                    ("dashboard_secret", JStr <$> jget_str body "dashboard_secret")])
      end
  end.

Definition tool_account_PUT (ident vendor : string) : P served :=
  guarded (requireToolAccountManager ident vendor (fun org =>
    r ← request_json;
    match r with
    | inl _ | inr JNull => mret (refused "A JSON body is required." 400)
    | inr body =>
        match tool_changes body with
        | inl message => mret (refused message 400)
        | inr changes =>
            account ← backend env (fun c => upsertToolAccount c org vendor changes); mret (jsonOk account None)
        end
    end)).

Definition tool_account_DELETE (ident vendor : string) : P served :=
  guarded (requireToolAccountManager ident vendor (fun org =>
    _ ← backend env (fun c => deleteToolAccount c org vendor); mret NoContent)).

Definition fetch_balance_POST (ident vendor : string) : P served :=
  guarded (requireToolAccountManager ident vendor (fun org =>
    result ← backend env (fun c => fetchToolAccountBalance c org vendor); mret (jsonOk result None))).

(** A provider's check: the provider must be one the product knows. *)
Definition as_provider_manager (ident provider : string) (k : string -> ModelProvider -> P served) : P served :=
  guarded (match isModelProvider provider with
    | None => mret (refused ("provider must be one of: " +:+ join ", " (map provider_name MODEL_PROVIDERS) +:+ ".") 400)
    | Some p => as_manager ident (fun org => k org p)
    end).

Definition provider_check_POST (ident provider : string) : P served :=
  as_provider_manager ident provider (fun org p =>
    check ← backend env (fun c => checkProviderConnection c org (provider_name p)); mret (jsonOk check None)).

Definition spend_refresh_POST (ident provider : string) : P served :=
  as_provider_manager ident provider (fun org p =>
    refresh ← backend env (fun c => refreshProviderSpend c org (provider_name p)); mret (jsonOk refresh None)).

Definition deployment_check_POST (ident provider : string) : P served :=
  as_provider_manager ident provider (fun org p =>
    r ← request_json;
    let body := match r with inr b => b | inl _ => JNull end in
    let model := trim (default EmptyString (jget_str body "model")) in
    if bool_decide (String.length model = 0)%nat
    then mret (refused "model must name the catalog model slug the deployment serves." 400)
    else
      match jget body "deployment" with
      | None | Some (JStr _) =>
          let deployment := trim (default EmptyString (jget_str body "deployment")) in
          check ← backend env (fun c => checkModelDeployment c org (provider_name p)
            (obj [("model", Some (JStr model));
                  ("deployment", if bool_decide (String.length deployment = 0)%nat then None else Some (JStr deployment))]));
          mret (jsonOk check None)
      | Some _ => mret (refused "deployment must be the Azure deployment name as text." 400)
      end).
End routes.

(** Every handler: whether it only reads, and whether it asks for the right to manage. *)
Inductive org_handler (env : Thrown + client) (query : params) (ident : string) : bool -> bool -> P served -> Prop :=
| serve_audit_log : org_handler env query ident true false (audit_log_GET env query ident)
| serve_budget : org_handler env query ident true false (budget_GET env ident)
| serve_budgets : org_handler env query ident true false (budgets_GET env query ident)
| serve_set_budget : org_handler env query ident false false (budgets_PUT env ident)
| serve_delete_budget id : org_handler env query ident false false (budget_DELETE env ident id)
| serve_ledger : org_handler env query ident true false (ledger_GET env ident)
| serve_spend_alerts : org_handler env query ident true false (spend_alerts_GET env ident)
| serve_create_spend_alert : org_handler env query ident false false (spend_alerts_POST env ident)
| serve_delete_spend_alert id : org_handler env query ident false false (spend_alert_DELETE env ident id)
| serve_yc_claim : org_handler env query ident false false (yc_claim_POST env ident)
| serve_domains : org_handler env query ident true false (domains_GET env ident)
| serve_claim_domain : org_handler env query ident false false (domains_POST env ident)
| serve_patch_domain domain : org_handler env query ident false false (domain_PATCH env ident domain)
| serve_delete_domain domain : org_handler env query ident false false (domain_DELETE env ident domain)
| serve_verify_domain domain : org_handler env query ident false false (domain_verify_POST env ident domain)
| serve_sso : org_handler env query ident true false (sso_provider_GET env ident)
| serve_put_sso : org_handler env query ident false false (sso_provider_PUT env ident)
| serve_delete_sso : org_handler env query ident false false (sso_provider_DELETE env ident)
| serve_scim : org_handler env query ident true false (scim_GET env ident)
| serve_mint_scim : org_handler env query ident false false (scim_POST env ident)
| serve_revoke_scim : org_handler env query ident false false (scim_DELETE env ident)
| serve_teams : org_handler env query ident true false (teams_GET env ident)
| serve_create_team : org_handler env query ident false false (teams_POST env ident)
| serve_rename_team team : org_handler env query ident false false (team_PATCH env ident team)
| serve_delete_team team : org_handler env query ident false false (team_DELETE env query ident team)
| serve_team_members team : org_handler env query ident true false (team_members_GET env ident team)
| serve_add_team_member team user : org_handler env query ident false false (team_member_PUT env ident team user)
| serve_remove_team_member team user : org_handler env query ident false false (team_member_DELETE env ident team user)
| serve_assign_key team key : org_handler env query ident false false (team_key_PUT env ident team key)
| serve_unassign_key team key : org_handler env query ident false false (team_key_DELETE env ident team key)
| serve_identities : org_handler env query ident true false (identities_GET env ident)
| serve_create_identity : org_handler env query ident false false (identities_POST env ident)
| serve_update_identity identity : org_handler env query ident false false (identity_PATCH env ident identity)
| serve_disable_identity identity : org_handler env query ident false false (identity_DELETE env ident identity)
| serve_grants : org_handler env query ident true false (grants_GET env ident)
| serve_add_grant identity alias : org_handler env query ident false false (grant_PUT env ident identity alias)
| serve_remove_grant identity alias : org_handler env query ident false false (grant_DELETE env ident identity alias)
| serve_join_requests : org_handler env query ident true false (join_requests_GET env ident)
| serve_approve_join id : org_handler env query ident false false (join_request_approve_POST env ident id)
| serve_deny_join id : org_handler env query ident false false (join_request_deny_POST env ident id)
| serve_capabilities : org_handler env query ident true false (capabilities_GET env ident)
| serve_data_controls : org_handler env query ident true false (provider_data_controls_GET env ident)
| serve_policy : org_handler env query ident true false (provider_policy_GET env ident)
| serve_put_policy : org_handler env query ident false false (provider_policy_PUT env ident)
| serve_delete_policy : org_handler env query ident false false (provider_policy_DELETE env ident)
| serve_telemetry : org_handler env query ident true false (telemetry_settings_GET env ident)
| serve_put_telemetry : org_handler env query ident false false (telemetry_settings_PUT env ident)
| serve_usage : org_handler env query ident true false (usage_GET env ident)
| serve_timeseries : org_handler env query ident true false (usage_timeseries_GET env query ident)
| serve_by_key : org_handler env query ident true false (usage_by_key_GET env query ident)
| serve_by_prompt : org_handler env query ident true false (usage_by_prompt_GET env query ident)
| serve_by_provider : org_handler env query ident true false (usage_by_provider_GET env query ident)
| serve_usage_requests : org_handler env query ident true false (usage_requests_GET env query ident)
| serve_prompt id : org_handler env query ident true false (captured_prompt_GET env ident id)
| serve_serving_request id : org_handler env query ident true false (serving_request_GET env ident id)
| serve_serving_requests : org_handler env query ident true false (serving_requests_GET env query ident)
| serve_serving_summary : org_handler env query ident true false (serving_summary_GET env query ident)
| serve_suggestions : org_handler env query ident true false (suggestions_GET env query ident)
| serve_advice : org_handler env query ident false false (agent_advice_POST env query ident)
| serve_insights : org_handler env query ident false false (insights_query_POST env ident)
| serve_tool_accounts : org_handler env query ident true true (tool_accounts_GET env ident)
| serve_put_tool vendor : org_handler env query ident false true (tool_account_PUT env ident vendor)
| serve_delete_tool vendor : org_handler env query ident false true (tool_account_DELETE env ident vendor)
| serve_fetch_balance vendor : org_handler env query ident false true (fetch_balance_POST env ident vendor)
| serve_check provider : org_handler env query ident false true (provider_check_POST env ident provider)
| serve_spend_refresh provider : org_handler env query ident false true (spend_refresh_POST env ident provider)
| serve_deployment_check provider : org_handler env query ident false true (deployment_check_POST env ident provider).

(** ** What a proxy may ask, and how it answers *)
Implicit Types (tr : list (event proxied)).

(** A path under one organization. *)
Definition in_org (org : string) (path : list piece) : Prop :=
  exists rest, path = Lit "/api/orgs/" :: Enc org :: rest.

(** Who was let into [org], found from [ident]. *)
Definition let_in (ident : string) (manages : bool) tr (org : string) : Prop :=
  granted (gate_events (tenant_events label_effects tr)) ident RoleUser org /\
  (manages = true -> exists m, is_manager (tenant_events label_effects tr) ident m /\ manager_org m = org).

(** A request to the backend: the signed-in user's, inside the organization they were let into. *)
Definition org_reach (env : Thrown + client) (ident : string) (reads manages : bool) tr (r : http_request) : Prop :=
  exists c u org, env = inr c /\ signed_in (tenant_events label_effects tr) u /\ sent_by c u r /\
    let_in ident manages tr org /\ in_org org (path r) /\ (reads = true -> http_method r = "GET").

Definition label_needs (ident : string) tr (c : cmd label_effects) : Prop :=
  match c with SelectYcLabel org => let_in ident true tr org end.

Definition proxy_licensed (env : Thrown + client) (ident : string) (reads manages : bool) :
    list (event proxied) -> cmd proxied -> Prop :=
  route_licensed label_effects (fun _ c => c = RequestBody) (org_reach env ident reads manages) (label_needs ident).

Lemma let_in_mono ident manages tr tr' org : tr ⊆ tr' -> let_in ident manages tr org -> let_in ident manages tr' org.
Proof.
  intros Hg [H1 H2]. apply (extended_tenant_events_mono label_effects) in Hg.
  split; [by eapply granted_mono|]. intros Hm. destruct (H2 Hm) as (m & Hm1 & Hm2). exists m.
  split; [by eapply is_manager_mono|done].
Qed.

Section proofs.
Context (ident : string) (reads manages : bool).

#[local] Abbreviation I env := (fun tr c => coherent (extended_reads label_effects) tr -> proxy_licensed env ident reads manages tr c).

Lemma let_in_reach env org tr c u r :
  coherent (extended_reads label_effects) tr -> env = inr c -> let_in ident manages tr org -> signed_in (tenant_events label_effects tr) u -> sent_by c u r ->
  (fun path m _ => in_org org path /\ (reads = true -> m = "GET")) (path r) (http_method r) (request_body r) ->
  org_reach env ident reads manages tr r.
Proof. intros _ -> Hl Hu Hs [Hp Hm]. by exists c, u, org. Qed.

Lemma org_backend_then {A} env org tr (method : client -> DS A) (f : A -> served) :
  ready (fun tr => let_in ident manages tr org) tr ->
  (forall c, delivers c (fun path m _ => in_org org path /\ (reads = true -> m = "GET")) (method c)) ->
  spec (I env) attempted tr (x ← backend env method; mret (f x)).
Proof. apply backend_then; [intros ??; apply let_in_mono|intros *; apply let_in_reach]. Qed.

Lemma org_body_then {A} env org tr Q (k : Thrown + json -> P A) :
  ready (fun tr => let_in ident manages tr org) tr ->
  (forall x, ready (fun tr => let_in ident manages tr org) (tr ++ [@Ev proxied (Shared label_effects RequestBody) x]) ->
    spec (I env) Q (tr ++ [@Ev proxied (Shared label_effects RequestBody) x]) (k x)) ->
  I env tr (Shared label_effects RequestBody) /\ forall x, spec (I env) Q (tr ++ [@Ev proxied (Shared label_effects RequestBody) x]) (k x).
Proof. apply body_then; [done|intros ??; apply let_in_mono]. Qed.

Lemma member_spec env k :
  manages = false ->
  (forall tr org, ready (fun tr => let_in ident manages tr org) tr -> spec (I env) attempted tr (k org)) ->
  spec (I env) proxied_outcome [] (as_member ident k).
Proof.
  intros Hm Hk. apply guarded_spec, spec_bind. eapply spec_post; [apply member_step|].
  intros tr [org|e] [Ho H]; apply (opening_unsent label_effects) in Ho; [|by apply unsent_raise].
  apply Hk. split; [done|]. intros Hco. split; [by apply H|]. by rewrite Hm.
Qed.

Lemma as_manager_spec env k :
  (forall tr org, ready (fun tr => let_in ident manages tr org) tr ->
    (coherent (extended_reads label_effects) tr -> let_in ident true tr org) -> spec (I env) attempted tr (k org)) ->
  spec (I env) attempted [] (as_manager ident k).
Proof.
  intros Hk. apply spec_bind. eapply spec_post; [apply extended_manager_step|].
  intros tr [[m|]|e] [Ho H]; apply (opening_unsent label_effects) in Ho; exec_cbn;
    [|by apply (unsent_refuse _ _ 404)|by apply unsent_raise].
  assert (coherent (extended_reads label_effects) tr -> forall b, let_in ident b tr (manager_org m)) as Hin.
  { intros Hco b. pose proof (H Hco) as Hm. split; [by destruct Hm as (u & Hgr & _)|]. intros _. by exists m. }
  apply Hk; [split; [done|]|]; intros Hco; by apply Hin.
Qed.

Lemma yc_then {A} env tr org (k : bool -> P A) Q :
  ready (fun tr => let_in ident manages tr org) tr ->
  (coherent (extended_reads label_effects) tr -> let_in ident true tr org) ->
  (forall tr', ready (fun tr => let_in ident manages tr org) tr' ->
    (forall b, spec (I env) Q tr' (k b)) /\ forall e, Q tr' (Raised e)) ->
  spec (I env) Q tr (b ← orgIsYcCompany org; k b).
Proof.
  intros Hr Hin Hk. apply spec_bind. unfold orgIsYcCompany. apply spec_bind.
  eapply spec_post; [apply (gate_anywhere label_effects _ _ _ (fun _ _ => True))|].
  { eapply spec_post; [apply (client_step _)|done]. by intros t c Hc. }
  intros tr1 o (Hs & Hb & _).
  assert (ready (fun tr => let_in ident manages tr org) tr1) as Hr1.
  { eapply ready_mono; [intros ??; apply let_in_mono|exact Hs|by rewrite Hb; apply Hr|done]. }
  destruct o as [[]|e]; [|by apply Hk].
  unfold on_own, raise_error, raise_thrown. exec_cbn. split.
  { intros Hco. apply (let_in_mono _ _ tr); [done|]. by apply Hin, (extended_coherent_mono _ _ tr1). }
  intros r. assert (ready (fun tr => let_in ident manages tr org) (tr1 ++ [@Ev proxied (Own label_effects (SelectYcLabel org)) r])) as Hr2.
  { apply ready_snoc; [intros ??; apply let_in_mono|done..]. }
  destruct (Hk _ Hr2) as [Hk1 Hk2]. destruct (error r); exec_cbn; [apply Hk2|apply Hk1].
Qed.
End proofs.

(** A manager's handler of a tool account. *)
Lemma tool_manager_spec env ident reads vendor k :
  (forall tr org, ready (fun tr => let_in ident true tr org) tr -> spec (fun tr c => coherent (extended_reads label_effects) tr ->
     proxy_licensed env ident reads true tr c) attempted tr (k org)) ->
  spec (fun tr c => coherent (extended_reads label_effects) tr -> proxy_licensed env ident reads true tr c)
    proxied_outcome [] (guarded (requireToolAccountManager ident vendor k)).
Proof.
  intros Hk. apply guarded_spec. unfold requireToolAccountManager.
  destruct (negb _); [by apply (unsent_refuse _ _ 400)|]. apply as_manager_spec. intros tr org Hr Hin.
  destruct (isYcGatedToolVendor vendor); [|by apply Hk].
  eapply yc_then; [exact Hr|exact Hin|]. intros tr' Hr'. split; [intros [|]; [by apply Hk|]|intros e].
  - exec_cbn. by eapply (attempted_refuse _ _ _ 404).
  - by eapply attempted_raise.
Qed.

Lemma cached_proxy env ident reads manages p :
  spec (fun tr c => coherent (extended_reads label_effects) tr -> proxy_licensed env ident reads manages tr c)
    proxied_outcome [] p ->
  spec (proxy_licensed env ident reads manages) proxied_outcome [] (cached (extended_reads label_effects) p).
Proof.
  intros Hp. apply cached_route; [done| | |intros *; apply proxied_same|by eapply spec_post].
  - intros tr tr' r Hs (c & u & org & H1 & H2 & H3 & H4 & H5). assert (tr ⊆ tr') as Hsub by (intros e; apply Hs).
    exists c, u, org. split; [done|]. split; [by eapply signed_in_mono; [apply extended_tenant_events_mono|]|].
    split; [done|]. split; [by eapply let_in_mono|done].
  - intros tr tr' [org] Hs H. eapply let_in_mono, H. intros e. apply Hs.
Qed.

Ltac proxied Hr :=
  unfold team_name;
  proxied_by Hr ltac:(eapply org_backend_then; [exact Hr|delivered_by ltac:(split; [by eexists|by intros ?])])
    ltac:(eapply org_body_then).

(** C30. The organization proxies stay inside the organization. Of every handler, whatever the
    services answer: each request to the backend is the signed-in user's own, under the deployment's
    bearer, for a path under the organization the access gate let that user into for the identifier in
    the URL; a handler that only reads sends GET; the managers' handlers send nothing before the right
    to manage that organization is established. And the handler always answers: success is never made
    up (unless the backend agreed, the answer is an error), and a refusal of the backend reaches the
    browser with its own status, message, code and action. *)
Theorem proxies_stay_in_org env query ident reads manages p :
  org_handler env query ident reads manages p ->
  spec (proxy_licensed env ident reads manages) proxied_outcome [] (cached (extended_reads label_effects) p).
Proof.
  intros Hp. apply cached_proxy. destruct Hp.
  all: lazymatch goal with |- spec _ _ _ ?p => let f := head_of p in unfold f end.
  all: try unfold forward.
  all: try (apply member_spec; [done|]; intros tr org Hr; proxied Hr).
  all: try (apply tool_manager_spec; intros tr org Hr; proxied Hr).
  all: unfold as_provider_manager; apply guarded_spec; try (destruct (isModelProvider _) as [mp|]; [|by apply (unsent_refuse _ _ 400)]).
  all: apply as_manager_spec; intros tr org Hr _; proxied Hr.
Qed.

Definition demo_client : client := {| baseUrl := "https://api"; servingBaseUrl := "https://api"; apiKey := "k" |}.

Lemma proxies_stay_in_org_witness :
  let p := team_DELETE (inr demo_client) [("force", "true")] "acme" "t/1" in
  org_handler (inr demo_client) [("force", "true")] "acme" false false p /\
  spec (proxy_licensed (inr demo_client) "acme" false false) proxied_outcome [] (cached (extended_reads label_effects) p).
Proof.
  cbv zeta. split; [apply serve_delete_team|].
  apply (proxies_stay_in_org _ [("force", "true")]). apply serve_delete_team.
Defined.
