(* ===== verification/OperatorProxies.v ===== *)
(** * The operators' proxies (app/api/admin/...)

    The platform routes whose work the backend does: credit grants, entitlements, labels, notes,
    welcome triggers, model promotions, the recommended models, Experiential Cloud lanes, the credit
    settings and the cross-organization reads. Each answers not-found unless the session is an
    operator's, checks its body, calls one method of the data source, and, where the write shows on
    the shared public catalog, invalidates the catalog's cache ([RevalidateCatalog]). *)

From S2P Require Import Prelude JsMap JsString JsNumber Effects Url QueryStrings Json Services.
From S2P Require Import ServingAudit BackendSource OrgAccess TenantServices ApiKeys Extended Proxies.

#[local] Open Scope Z_scope.

(** ** Services: the tenant services, the backend, and the catalog's cache *)
Inductive catalog_cmd := RevalidateCatalog.

Definition catalog_effects : effects := Effects catalog_cmd (fun _ => unit).

#[export] Instance catalog_cmd_eq_dec : EqDecision catalog_cmd.
Proof. solve_decision. Defined.
#[export] Instance catalog_effects_eq_dec : EqDecision (cmd catalog_effects) := catalog_cmd_eq_dec.

Abbreviation platform := (extended catalog_effects).
Abbreviation P := (prog platform app_error).

(** lib/models-catalog/server.ts *)
Definition revalidateModelsCatalog : P unit := on_own catalog_effects RevalidateCatalog.

(** lib/http.ts *)
Definition pickParam (value : option string) (allowed : list string) (fallback : string) : option string :=
  match value with
  | None => Some fallback
  | Some v => if bool_decide (v ∈ allowed) then Some v else None
  end.

Definition parseLimitParam (value : option string) (cap : Z) : option Z :=
  limit ← match value with None => Some cap | Some v => parse_int v end;
  if bool_decide (1 <= limit) && bool_decide (limit <= cap) then Some limit else None.

(** ** The parsers of the bodies *)

(** A non-blank string. *)
Definition nonblank (j : json) : bool := match j with JStr s => truthy (trim s) | _ => false end.

Definition isStringArray (v : option json) : option (list json) :=
  l ← v ≫= jarr; if forallb nonblank l then Some l else None.

Definition lower (a : ascii) : bool := includes_char a "abcdefghijklmnopqrstuvwxyz".
Definition label_char (a : ascii) : bool := includes_char a "abcdefghijklmnopqrstuvwxyz0123456789-".

(** [LABEL_KEY_PATTERN]: a lower-case letter, then at most 31 letters, digits and dashes. *)
Definition label_key (s : string) : bool :=
  match s with
  | String a s' => lower a && forallb label_char (String.list_ascii_of_string s') && bool_decide (String.length s' <= 31)%nat
  | EmptyString => false
  end.

Definition label_key_json (j : json) : bool := match j with JStr s => label_key s | _ => false end.

(** [typeof v === "number" && Number.isInteger(v)]. *)
Definition integer (v : option json) : option number :=
  x ← v ≫= jnum; if is_integer x then Some x else None.

Definition whole (v : option json) : option number :=
  x ← integer v; if PrimFloat.leb PrimFloat.zero x then Some x else None.

(** [typeof v === "number" && Number.isFinite(v) && v >= 0 && v <= 100]. *)
Definition percent (v : option json) : option number :=
  x ← v ≫= jnum; if is_finite x && PrimFloat.leb PrimFloat.zero x && PrimFloat.leb x 100%float then Some x else None.

(** A string of a fixed set. *)
Definition one_of (allowed : list string) (v : option json) : option string :=
  s ← v ≫= jstr; if bool_decide (s ∈ allowed) then Some s else None.

Definition CAP_SCOPES : list string := ["lifetime"; "recurring"].
Definition FUNDING_SCOPES : list string := ["all"; "platform_funded"; "byok"].

(** [v ?? fallback]. *)
Definition or_else (v : option json) (fallback : json) : option json :=
  match v with None | Some JNull => Some fallback | v => v end.

(** [let x be v, or fail with message]. *)
Definition check {A B} (v : option A) (message : string) (k : A -> string + B) : string + B :=
  match v with None => inl message | Some a => k a end.

(** [typeof body !== "object"]: an array is an object. *)
Definition is_object (body : json) : bool := match body with JObj _ | JArr _ => true | _ => false end.

Definition parsePromotionInput (body : json) : string + json :=
  let m := jget body in
  if negb (is_object body) then inl "A JSON body is required." else
  check (label ← m "label" ≫= jstr; if truthy (trim label) then Some (trim label) else None)
    "label must be a non-empty string." (fun label =>
  check (isStringArray (m "model_slugs")) "model_slugs must be an array of catalog model slugs." (fun slugs =>
  check (isStringArray (m "family_keys")) "family_keys must be an array of family keys." (fun families =>
  check (isStringArray (m "providers")) "providers must be an array of provider keys." (fun providers =>
  if bool_decide (slugs = []) && bool_decide (providers = [])
  then inl "At least one of model_slugs or providers must be non-empty." else
  check (whole (m "per_org_cap_micro_usd")) "per_org_cap_micro_usd must be a non-negative integer (0 = no free tier)." (fun cap =>
  check (whole (m "discount_cap_micro_usd")) "discount_cap_micro_usd must be a non-negative integer (0 = uncapped)." (fun discountCap =>
  check (one_of CAP_SCOPES (m "cap_scope")) "cap_scope must be 'lifetime' or 'recurring'." (fun capScope =>
  check (percent (m "percent_off")) "percent_off must be a number between 0 and 100." (fun percentOff =>
  check (m "active" ≫= jbool) "active must be a boolean." (fun active =>
  check (integer (m "display_order")) "display_order must be an integer." (fun displayOrder =>
  check (l ← isStringArray (or_else (m "audience_labels") (JArr [])); if forallb label_key_json l then Some l else None)
    "audience_labels must be an array of org-label key slugs." (fun audience =>
  check (one_of FUNDING_SCOPES (or_else (m "funding_scope") (JStr "platform_funded")))
    "funding_scope must be one of all, platform_funded, byok." (fun funding =>
  inr (JObj [("label", JStr label); ("model_slugs", JArr slugs); ("family_keys", JArr families);
             ("providers", JArr providers); ("audience_labels", JArr audience); ("funding_scope", JStr funding);
             ("per_org_cap_micro_usd", JNum cap); ("discount_cap_micro_usd", JNum discountCap);
             ("cap_scope", JStr capScope); ("percent_off", JNum percentOff); ("active", JBool active);
             ("display_order", JNum displayOrder)]))))))))))))).

(** The strings of a list of string values. *)
Definition strings_of (l : list json) : list string := omap jstr l.

Definition parseRecommendedInput (body : json) : string + list string :=
  if negb (is_object body) then inl "A JSON body is required." else
  check (isStringArray (jget body "slugs")) "slugs must be an array of catalog model slugs." (fun l =>
  let slugs := strings_of l in
  if bool_decide (slugs = []) then inl "The recommended set must name at least one model."
  else if bool_decide (NoDup slugs) then inr slugs
  else inl "Each slug may appear once: list order defines the rank.").

(** *** Experiential Cloud lanes *)
Definition requireString (body : json) (k : string) : string + string :=
  check (s ← jget body k ≫= jstr; if truthy (trim s) then Some (trim s) else None) (k +:+ " is required.") inr.

(** Absent, [null] or empty, else a string. *)
Definition optionalString (body : json) (k : string) : string + option string :=
  match jget body k with
  | None | Some JNull | Some (JStr EmptyString) => inr None
  | Some (JStr s) => inr (Some (trim s))
  | Some _ => inl (k +:+ " must be a string.")
  end.

Definition optionalPrice (body : json) (k : string) : string + option number :=
  match jget body k with
  | None | Some JNull | Some (JStr EmptyString) => inr None
  | v => check (whole v) (k +:+ " must be a non-negative integer (micro-USD per million tokens).") (fun x => inr (Some x))
  end.

Definition PRICE_FIELDS : list string :=
  ["input_micro_usd_per_million"; "cached_input_micro_usd_per_million"; "output_micro_usd_per_million";
   "reasoning_micro_usd_per_million"].

(** The prices, in order, until one is refused. *)
Fixpoint prices (body : json) (fields : list string) : string + list (string * option json) :=
  match fields with
  | [] => inr []
  | k :: fields' =>
      match optionalPrice body k with
      | inl message => inl message
      | inr price =>
          match prices body fields' with
          | inl message => inl message
          | inr rest => inr ((k, JNum <$> price) :: rest)
          end
      end
  end.

Definition parseHookup (body : json) : string + list (string * option json) :=
  match optionalString body "base_url" with
  | inl message => inl message
  | inr base =>
      match optionalString body "pricing_source" with
      | inl message => inl message
      | inr source =>
          match prices body PRICE_FIELDS with
          | inl message => inl message
          | inr ps => inr ([("base_url", JStr <$> base); ("pricing_source", JStr <$> source)] ++ ps)
          end
      end
  end.

Definition LANE_STATUSES : list string := ["active"; "disabled"].

Definition parseUpdateInput (body : json) : string + json :=
  if negb (is_object body) then inl "A JSON body is required." else
  match requireString body "provider_model_id" with
  | inl message => inl message
  | inr wire =>
      match parseHookup body with
      | inl message => inl message
      | inr hookup => inr (obj (("provider_model_id", Some (JStr wire)) :: hookup))
      end
  end.

Definition parseCreateInput (body : json) : string + json :=
  if negb (is_object body) then inl "A JSON body is required." else
  match requireString body "slug" with
  | inl message => inl message
  | inr slug =>
      match requireString body "provider_model_id" with
      | inl message => inl message
      | inr wire =>
          match parseHookup body with
          | inl message => inl message
          | inr hookup =>
              let input status := obj ([("slug", Some (JStr slug)); ("provider_model_id", Some (JStr wire))] ++ hookup ++
                [("status", status)]) in
              match jget body "status" with
              | None => inr (input None)
              | v => check (one_of LANE_STATUSES v) "status must be 'active' or 'disabled'." (fun status =>
                       inr (input (if bool_decide (status = "active") then Some (JStr status) else None)))
              end
          end
      end
  end.

(** ** The handlers *)
Definition operator (k : P served) : P served :=
  admin ← on_tenant catalog_effects (gate isPlatformAdmin);
  if negb (admin : bool) then mret (refused "Not found" 404) else k.

Definition created (j : json) : served := Answered (Response 201 j) None.

Section routes.
Variables (env : Thrown + client) (query : params).

(** A read or a call whose result is the answer. *)
Definition relay {A} (shape : A -> served) (method : client -> DS A) : P served :=
  guarded (operator (x ← backend env method; mret (shape x))).

(** A checked write: the body is refused, or sent as the parser made it. *)
Definition checked {A B} (parse : json -> string + A) (method : A -> client -> DS B) (shape : B -> served) : P served :=
  guarded (operator (
    body ← body_or_null;
    match parse body with
    | inl message => mret (refused message 400)
    | inr input => x ← backend env (method input); mret (shape x)
    end)).

(** The same, of a write that shows on the shared catalog. *)
Definition checked_catalog {A B} (parse : json -> string + A) (method : A -> client -> DS B) (shape : B -> served) : P served :=
  guarded (operator (
    body ← body_or_null;
    match parse body with
    | inl message => mret (refused message 400)
    | inr input => x ← backend env (method input); _ ← revalidateModelsCatalog; mret (shape x)
    end)).

Definition plain (j : json) : served := jsonOk j None.
Definition ok_reply (_ : unit) : served := jsonOk (JObj [("ok", JBool true)]) None.

(** *** Organizations: entitlements, credit, labels, notes, welcome triggers *)
Definition entitlements_GET : P served := relay plain listAllOrgEntitlements.
Definition org_entitlements_GET (orgId : string) : P served := relay plain (fun c => listOrgEntitlements c orgId).

(** [typeof v === "string" && v.length > 0 ? v : null]. *)
Definition entitlement_PUT (orgId capability : string) : P served :=
  guarded (operator (
    r ← request_json;
    let body := match r with inr b => b | inl _ => JObj [] end in
    note ← field body "note";
    expiresAt ← field body "expiresAt";
    j ← backend env (fun c => grantOrgEntitlement c orgId capability (present (note ≫= jstr)) (present (expiresAt ≫= jstr)));
    mret (plain j))).

Definition entitlement_DELETE (orgId capability : string) : P served :=
  relay plain (fun c => revokeOrgEntitlement c orgId capability).

Definition parse_credit_grant (body : json) : string + json :=
  check (x ← jget body "amount_usd" ≫= jnum;
         if is_finite x && negb (PrimFloat.eqb x PrimFloat.zero) then Some x else None)
    "amount_usd must be a non-zero number (negative adjusts credit down)." (fun amount =>
  inr (obj [("amount_usd", Some (JNum amount));
            ("reason", s ← jget_str body "reason"; if truthy (trim s) then Some (JStr s) else None)])).

Definition credit_grants_POST (orgId : string) : P served :=
  checked parse_credit_grant (fun grant c => postAdminCreditGrant c orgId grant) created.

Definition parse_lifted (body : json) : string + bool :=
  check (jget body "lifted" ≫= jbool) "lifted must be a boolean (true lifts the caps, false restores them)." inr.

Definition free_credit_caps_PUT (orgId : string) : P served :=
  checked parse_lifted (fun lifted c => putAdminFreeCreditCaps c orgId lifted) plain.

Definition yc_grant_of (body : json) : json :=
  obj [("amount_usd", JNum <$> (jget body "amount_usd" ≫= jnum));
       ("expires_at", s ← jget_str body "expires_at"; if truthy (trim s) then Some (JStr (trim s)) else None)].

Definition yc_grant_POST (orgId : string) : P served :=
  checked (fun body => inr (yc_grant_of body)) (fun grant c => postAdminYcGrant c orgId grant) created.

Definition org_labels_GET (orgId : string) : P served :=
  relay (fun labels => plain (obj [("labels", labels)])) (fun c => listAdminOrgLabels c orgId).

Definition parse_text (k message : string) (body : json) : string + string :=
  check (s ← jget_str body k; if truthy (trim s) then Some (trim s) else None) message inr.

Definition org_labels_POST (orgId : string) : P served :=
  checked (parse_text "key" "A label key is required.") (fun key c => addAdminOrgLabel c orgId key) created.

Definition org_label_DELETE (orgId key : string) : P served := relay ok_reply (fun c => removeAdminOrgLabel c orgId key).

Definition org_notes_GET (orgId : string) : P served :=
  relay (fun notes => plain (obj [("notes", notes)])) (fun c => listAdminOrgNotes c orgId).

Definition org_notes_POST (orgId : string) : P served :=
  checked (parse_text "body" "A note body is required.") (fun text c => addAdminOrgNote c orgId text) created.

Definition org_note_DELETE (orgId noteId : string) : P served := relay ok_reply (fun c => deleteAdminOrgNote c orgId noteId).

Definition all_labels_GET : P served := relay (fun labels => plain (obj [("labels", labels)])) getAdminOrgLabels.

Definition is_false (v : option json) : bool := bool_decide (v = Some (JBool false)).
Definition is_true (v : option json) : bool := bool_decide (v = Some (JBool true)).

Definition trigger_of (body : json) : list (string * json) :=
  [("active", JBool (is_true (jget body "active")));
   ("display_credit_usd", match jget body "display_credit_usd" ≫= jnum with Some x => JNum x | None => JNull end);
   ("show_api_key", JBool (negb (is_false (jget body "show_api_key"))))].

Definition welcome_trigger_GET (orgId : string) : P served := relay plain (fun c => getAdminWelcomeTrigger c orgId).

Definition welcome_trigger_PUT (orgId : string) : P served :=
  checked (fun body => inr (JObj (trigger_of body))) (fun trigger c => putAdminWelcomeTrigger c orgId trigger) plain.

Definition parse_cohort (body : json) : string + json :=
  check (s ← jget_str body "label"; if truthy (trim s) then Some (trim s) else None) "label is required" (fun label =>
  inr (JObj (("label", JStr label) :: trigger_of body))).

Definition cohort_trigger_POST : P served :=
  checked parse_cohort (fun input c => postAdminWelcomeTriggerByLabel c input) plain.

(** *** The catalog: promotions, recommended models, Experiential Cloud lanes *)
Definition promotions_GET : P served :=
  relay (fun promotions => plain (obj [("promotions", promotions)])) listAdminModelPromotions.

Definition promotions_POST : P served :=
  checked_catalog parsePromotionInput (fun input c => createAdminModelPromotion c input) created.

Definition promotion_PUT (id : string) : P served :=
  checked_catalog parsePromotionInput (fun input c => updateAdminModelPromotion c id input) plain.

Definition promotion_DELETE (id : string) : P served :=
  guarded (operator (
    x ← backend env (fun c => deleteAdminModelPromotion c id); _ ← revalidateModelsCatalog; mret (ok_reply x))).

Definition models_reply (models : option json) : served := plain (obj [("models", models)]).

Definition recommended_GET : P served := relay models_reply listAdminRecommendedModels.

Definition recommended_PUT : P served :=
  checked_catalog parseRecommendedInput (fun slugs c => replaceAdminRecommendedModels c slugs) models_reply.

Definition lanes_GET : P served := relay plain listAdminExperientialCloud.

Definition lanes_POST : P served :=
  checked_catalog parseCreateInput (fun input c => createAdminExperientialCloud c input) created.

Definition lane_PATCH (id : string) : P served :=
  checked_catalog parseUpdateInput (fun input c => updateAdminExperientialCloud c id input) plain.

Definition parse_lane_status (body : json) : string + string :=
  check (one_of LANE_STATUSES (jget body "status")) "status must be 'active' or 'disabled'." inr.

Definition lane_status_POST (id : string) : P served :=
  checked_catalog parse_lane_status (fun status c => setAdminExperientialCloudStatus c id status) plain.

(** *** The credit settings *)
Definition credit_gating_GET : P served := relay plain getCreditGating.

Definition parse_enabled (body : json) : string + bool :=
  check (jget body "enabled" ≫= jbool)
    "enabled must be a boolean (true = $1 before verifying, false = verify first)." inr.

Definition pre_verify_PUT : P served := checked parse_enabled (fun enabled c => putPreVerifyAllowance c enabled) plain.

Definition parse_requirement (body : json) : string + string :=
  check (one_of ["email"; "card"] (jget body "requirement")) "requirement must be 'email' or 'card'." inr.

Definition unlock_requirement_PUT : P served :=
  checked parse_requirement (fun requirement c => putSpendUnlockRequirement c requirement) plain.

Definition parse_micro_usd (body : json) : string + number :=
  check (whole (jget body "micro_usd")) "micro_usd must be a nonnegative integer." inr.

Definition welcome_grant_PUT : P served := checked parse_micro_usd (fun amount c => putWelcomeGrant c amount) plain.
Definition yc_grant_PUT : P served := checked parse_micro_usd (fun amount c => putYcGrant c amount) plain.

(** *** Cross-organization reads, whose gate stands outside the handler's [try] *)
Definition serving_audit_GET (requestId : string) : P served :=
  operator (guarded (
    audit ← backend env (fun c => getServingRequestAudit c requestId); mret (jsonOk (payload_json audit) private))).

Definition org_usage_GET : P served :=
  operator (try_catch
    (usage ← backend env getPlatformOrgUsage; mret (jsonOk usage private))
    (fun e => mret (refused
      (match e with
       | DataSourceError (OtherError t) =>
           if thrown_is_error t then thrown_message t else "Unable to load organization usage."
       | e => app_error_text e
       end) 502))).

Definition PLATFORM_GROUP_BYS : list string := ["day"; "model"; "org"].
Definition USAGE_ROLLUP_LIMIT_CAP : Z := 2000.

Definition platform_usage_GET : P served :=
  operator (guarded (
    match pickParam (params_get query "group_by") PLATFORM_GROUP_BYS "day" with
    | None => mret (refused "Invalid group_by" 400)
    | Some groupBy =>
        match parseLimitParam (params_get query "limit") USAGE_ROLLUP_LIMIT_CAP with
        | None => mret (refused "Invalid limit" 400)
        | Some limit =>
            usage ← backend env (fun c =>
              getGatewayUsagePlatformDaily c groupBy (params_get query "from") (params_get query "to") (Some limit));
            mret (jsonOk usage private)
        end
    end)).
End routes.

(** Where a handler's [try] begins: around the gate, or behind it, and then with every failure of the work
    answered as what it was or as one 502. *)
Inductive trying := Around | Behind | BehindFlat.

(** Every handler: whether it only reads, whether it writes what the shared catalog shows, and where its
    [try] begins. *)
Inductive operator_handler (env : Thrown + client) (query : params) : bool -> bool -> trying -> P served -> Prop :=
| op_entitlements : operator_handler env query true false Around (entitlements_GET env)
| op_org_entitlements org : operator_handler env query true false Around (org_entitlements_GET env org)
| op_grant_entitlement org capability : operator_handler env query false false Around (entitlement_PUT env org capability)
| op_revoke_entitlement org capability : operator_handler env query false false Around (entitlement_DELETE env org capability)
| op_credit_grant org : operator_handler env query false false Around (credit_grants_POST env org)
| op_caps org : operator_handler env query false false Around (free_credit_caps_PUT env org)
| op_yc_grant org : operator_handler env query false false Around (yc_grant_POST env org)
| op_labels org : operator_handler env query true false Around (org_labels_GET env org)
| op_add_label org : operator_handler env query false false Around (org_labels_POST env org)
| op_remove_label org key : operator_handler env query false false Around (org_label_DELETE env org key)
| op_notes org : operator_handler env query true false Around (org_notes_GET env org)
| op_add_note org : operator_handler env query false false Around (org_notes_POST env org)
| op_delete_note org note : operator_handler env query false false Around (org_note_DELETE env org note)
| op_all_labels : operator_handler env query true false Around (all_labels_GET env)
| op_trigger org : operator_handler env query true false Around (welcome_trigger_GET env org)
| op_put_trigger org : operator_handler env query false false Around (welcome_trigger_PUT env org)
| op_cohort_trigger : operator_handler env query false false Around (cohort_trigger_POST env)
| op_promotions : operator_handler env query true false Around (promotions_GET env)
| op_create_promotion : operator_handler env query false true Around (promotions_POST env)
| op_update_promotion id : operator_handler env query false true Around (promotion_PUT env id)
| op_delete_promotion id : operator_handler env query false true Around (promotion_DELETE env id)
| op_recommended : operator_handler env query true false Around (recommended_GET env)
| op_replace_recommended : operator_handler env query false true Around (recommended_PUT env)
| op_lanes : operator_handler env query true false Around (lanes_GET env)
| op_create_lane : operator_handler env query false true Around (lanes_POST env)
| op_update_lane id : operator_handler env query false true Around (lane_PATCH env id)
| op_lane_status id : operator_handler env query false true Around (lane_status_POST env id)
| op_gating : operator_handler env query true false Around (credit_gating_GET env)
| op_pre_verify : operator_handler env query false false Around (pre_verify_PUT env)
| op_requirement : operator_handler env query false false Around (unlock_requirement_PUT env)
| op_welcome_grant : operator_handler env query false false Around (welcome_grant_PUT env)
| op_set_yc_grant : operator_handler env query false false Around (yc_grant_PUT env)
| op_audit request : operator_handler env query true false Behind (serving_audit_GET env request)
| op_org_usage : operator_handler env query true false BehindFlat (org_usage_GET env)
| op_platform_usage : operator_handler env query true false Behind (platform_usage_GET env query).

(** ** What a request may carry *)

Definition under (prefix : string) (path : list piece) : Prop :=
  exists s rest, path = Lit s :: rest /\ starts_with prefix s = true.

(** A member is a non-negative integer. *)
Definition whole_member (j : json) (k : string) : Prop :=
  exists x, jget j k = Some (JNum x) /\ is_integer x = true /\ PrimFloat.leb PrimFloat.zero x = true.

(** A member is a text, trimmed and not blank. *)
Definition named (j : json) (k : string) : Prop :=
  exists raw, jget j k = Some (JStr (trim raw)) /\ trim raw <> "".

(** A member is one of a fixed set of strings. *)
Definition chosen (j : json) (k : string) (allowed : list string) : Prop :=
  exists s, jget j k = Some (JStr s) /\ s ∈ allowed.

(** A promotion is named, names models or providers, its caps are whole amounts, its discount is a percentage,
    and its audience is a list of label keys. *)
Record valid_promotion (j : json) : Prop := {
  promotion_label : named j "label";
  promotion_cap_scope : chosen j "cap_scope" CAP_SCOPES;
  promotion_funding : chosen j "funding_scope" FUNDING_SCOPES;
  promotion_scoped : exists slugs providers, jget j "model_slugs" = Some (JArr slugs) /\
    jget j "providers" = Some (JArr providers) /\ (slugs <> [] \/ providers <> []);
  promotion_cap : whole_member j "per_org_cap_micro_usd";
  promotion_discount_cap : whole_member j "discount_cap_micro_usd";
  promotion_percent : exists x, jget j "percent_off" = Some (JNum x) /\
    PrimFloat.leb PrimFloat.zero x = true /\ PrimFloat.leb x 100%float = true;
  promotion_audience : exists l, jget j "audience_labels" = Some (JArr l) /\ forallb label_key_json l = true;
}.

(** A ranking is a duplicate-free list of at least one non-blank slug. *)
Definition valid_ranking (j : json) : Prop :=
  exists slugs, jget j "slugs" = Some (of_strings slugs) /\ slugs <> [] /\ NoDup slugs /\
    Forall (fun s => truthy (trim s) = true) slugs.

(** The prices of a lane, where given, are whole amounts. *)
Definition valid_lane (j : json) : Prop :=
  forall k, k ∈ PRICE_FIELDS -> jget j k = None \/ whole_member j k.

(** A grant of credit is a finite amount, not zero. *)
Definition valid_grant (j : json) : Prop :=
  exists x, jget j "amount_usd" = Some (JNum x) /\ is_finite x = true /\ PrimFloat.eqb x PrimFloat.zero = false.

Definition valid_request (path : list piece) (b : body) : Prop :=
  forall j, b = JsonBody j ->
    (under "/api/admin/model-promotions" path -> valid_promotion j) /\
    (under "/api/admin/recommended-models" path -> valid_ranking j) /\
    (under "/api/admin/experiential-cloud" path -> valid_lane j) /\
    (path = [Lit "/api/admin/experiential-cloud"] -> named j "slug" /\ named j "provider_model_id") /\
    (forall id, path = [Lit "/api/admin/experiential-cloud/"; Enc id] -> named j "provider_model_id") /\
    (forall id, path = [Lit "/api/admin/experiential-cloud/"; Enc id; Lit "/status"] -> chosen j "status" LANE_STATUSES) /\
    (forall org, path = [Lit "/api/admin/orgs/"; Enc org; Lit "/labels"] -> named j "key") /\
    (forall org, path = [Lit "/api/admin/orgs/"; Enc org; Lit "/notes"] -> named j "body") /\
    (path = [Lit "/api/admin/settings/spend-unlock-requirement"] -> chosen j "requirement" ["email"; "card"]) /\
    (forall org, path = [Lit "/api/admin/orgs/"; Enc org; Lit "/credit-grants"] -> valid_grant j) /\
    (under "/api/admin/settings/welcome-grant" path \/ under "/api/admin/settings/yc-grant" path -> whole_member j "micro_usd").

(** ** What a handler may ask, and how it ends *)
Implicit Types (tr : list (event platform)).

Definition operating tr : Prop :=
  exists u, signed_in (tenant_events catalog_effects tr) u /\ operates (tenant_events catalog_effects tr) u.

(** A request to the backend: an operator's own, with a body that was checked. *)
Definition operator_reach (env : Thrown + client) (reads : bool) tr (r : http_request) : Prop :=
  exists c u, env = inr c /\ signed_in (tenant_events catalog_effects tr) u /\
    operates (tenant_events catalog_effects tr) u /\ sent_by c u r /\
    (reads = true -> http_method r = "GET") /\ valid_request (path r) (request_body r).

(** The catalog's cache is dropped only by what writes the catalog, after the backend agreed. *)
Definition catalog_needs (busts : bool) tr (c : cmd catalog_effects) : Prop :=
  busts = true /\ operating tr /\ backend_agreed tr.

Definition operator_licensed (env : Thrown + client) (reads busts : bool) : list (event platform) -> cmd platform -> Prop :=
  route_licensed catalog_effects (fun _ c => c = RequestBody) (operator_reach env reads) (catalog_needs busts).

Definition busted tr : Prop := @Ev platform (Own catalog_effects RevalidateCatalog) tt ∈ tr.

(** Nothing is answered as a success unless the backend agreed and, for a catalog write, the cache
    was dropped; a refusal of the backend is answered as it came (or as a 502 by the handler that
    says so); a handler that tries the gate too answers every failure, and one that tries only its work
    throws only what the gate threw, before anything is sent. *)
Definition operator_outcome (busts : bool) (t : trying) tr (o : outcome app_error served) : Prop :=
  match o with
  | Done s => (failed s \/ (backend_agreed tr /\ (busts = true -> busted tr))) /\
      forall res, backend_refused tr res ->
        match t with
        | BehindFlat => exists message, s = refused message 502
        | Around | Behind => s = Answered (jsonError (DataSourceError (responseError res))) None
        end
  | Raised _ => t <> Around /\ backend_events catalog_effects tr = []
  end.

Section proofs.
Context (reads : bool).

#[local] Abbreviation I env busts := (fun tr c => coherent (extended_reads catalog_effects) tr -> operator_licensed env reads busts tr c).

Definition allowed (path : list piece) (m : string) (b : body) : Prop := (reads = true -> m = "GET") /\ valid_request path b.

(** How a handler ends inside its [try]. *)
Definition op_attempted (busts : bool) tr (o : outcome app_error served) : Prop :=
  attempted tr o /\ match o with Done s => busts = true -> failed s \/ busted tr | Raised _ => True end.

Lemma operating_mono tr tr' : tr ⊆ tr' -> operating tr -> operating tr'.
Proof.
  intros Hg (u & H1 & H2). apply (extended_tenant_events_mono catalog_effects) in Hg. exists u.
  split; [by eapply signed_in_mono|by eapply operates_mono].
Qed.

Lemma operating_reach env tr c u r :
  coherent (extended_reads catalog_effects) tr -> env = inr c -> operating tr ->
  signed_in (tenant_events catalog_effects tr) u -> sent_by c u r ->
  allowed (path r) (http_method r) (request_body r) -> operator_reach env reads tr r.
Proof.
  intros Hco -> (u' & H1 & H2) Hu Hs [Hm Hv]. exists c, u.
  assert (u = u') as -> by (eapply signed_in_unique; [by apply extended_coherent_tenant|done..]). done.
Qed.

Lemma op_backend_step {A} env busts tr (method : client -> DS A) :
  ready operating tr -> (forall c, delivers c allowed (method c)) ->
  spec (I env busts) (fun tr' o => tr ⊆ tr' /\ settled DataSourceError (backend_events catalog_effects tr') o) tr (backend env method).
Proof. intros Hr Hd. eapply backend_step; [exact operating_mono|intros *; apply operating_reach|exact Hr|exact Hd]. Qed.

Lemma op_body_then {A} env busts tr Q (k : Thrown + json -> P A) :
  ready operating tr ->
  (forall x, ready operating (tr ++ [@Ev platform (Shared catalog_effects RequestBody) x]) ->
    spec (I env busts) Q (tr ++ [@Ev platform (Shared catalog_effects RequestBody) x]) (k x)) ->
  I env busts tr (Shared catalog_effects RequestBody) /\
  forall x, spec (I env busts) Q (tr ++ [@Ev platform (Shared catalog_effects RequestBody) x]) (k x).
Proof. apply body_then; [done|exact operating_mono]. Qed.

Lemma op_backend_then {A} env busts tr (method : client -> DS A) (f : A -> served) :
  ready operating tr -> (forall c, delivers c allowed (method c)) ->
  spec (I env busts) (op_attempted false) tr (x ← backend env method; mret (f x)).
Proof.
  intros Hr Hd. eapply spec_post; [eapply backend_then; [exact operating_mono|intros *; apply operating_reach|exact Hr|exact Hd]|].
  intros tr' o H. split; [exact H|]. by destruct o.
Qed.

Lemma op_catalog_then {A} env tr (method : client -> DS A) (f : A -> served) :
  ready operating tr -> (forall c, delivers c allowed (method c)) ->
  spec (I env true) (op_attempted true) tr (x ← backend env method; _ ← revalidateModelsCatalog; mret (f x)).
Proof.
  intros Hr Hd. apply spec_bind. eapply spec_post; [by apply op_backend_step|].
  intros tr' [a|e] (Hs & H1 & H2); exec_cbn.
  - unfold revalidateModelsCatalog, on_own. exec_cbn. split.
    { intros Hco. split; [done|]. split; [|exact H1]. eapply operating_mono, Hr, extended_coherent_mono; done. }
    intros []. assert (backend_events catalog_effects (tr' ++ [@Ev platform (Own catalog_effects RevalidateCatalog) tt]) =
      backend_events catalog_effects tr') as Hb by (rewrite backend_events_app; apply app_nil_r).
    split; [split|].
    + right. unfold backend_agreed. by rewrite Hb.
    + intros res [[r Hin] Hok]. rewrite Hb in Hin. by specialize (H2 r res Hin Hok).
    + intros _. right. apply elem_of_app. right. by apply list_elem_of_singleton.
  - split; [|done]. intros res [[r Hin] Hok]. by injection (H2 r res Hin Hok).
Qed.

(** The gate, with what follows it. *)
Lemma operator_spec env busts Q k :
  (forall tr, ready operating tr -> spec (I env busts) Q tr k) ->
  (forall tr e, backend_events catalog_effects tr = [] -> Q tr (Raised e)) ->
  (forall tr, backend_events catalog_effects tr = [] -> Q tr (Done (refused "Not found" 404))) ->
  spec (I env busts) Q [] (operator k).
Proof.
  intros Hk He Hr. apply spec_bind.
  eapply spec_post; [apply (opening_step catalog_effects _ _ _ (fun t o => o = Done true -> exists u, signed_in t u /\ operates t u)), platform_step; done|].
  intros tr [[|]|e] [Ho H]; apply (opening_unsent catalog_effects) in Ho; exec_cbn; [|by apply Hr|by apply He].
  apply Hk. split; [done|]. intros _. by apply H.
Qed.

(** The handler's [try], around the gate or behind it. *)
Lemma op_guarded_spec env busts t tr p :
  t <> BehindFlat -> spec (I env busts) (op_attempted busts) tr p -> spec (I env busts) (operator_outcome busts t) tr (guarded p).
Proof.
  intros Ht H. assert (forall (P Q : Prop), Q -> match t with BehindFlat => P | Around | Behind => Q end) as Hin
    by (by destruct t).
  apply spec_try. eapply spec_post; [exact H|]. intros tr' [s|e] [H1 H2].
  - destruct H1 as [H0 H1]. split; [|by intros res Hr%H1; apply Hin].
    destruct H0 as [H0|H0]; [by left|]. destruct busts; [|by right].
    destruct (H2 eq_refl); [by left|by right].
  - exec_cbn. split; [left; left; by exists e|]. intros res ->%H1. by apply Hin.
Qed.

Lemma op_refuse busts tr message http : 400 <= http -> ready operating tr -> op_attempted busts tr (Done (refused message http)).
Proof. intros Hh Hr. split; [by eapply attempted_refuse|]. left. right. by eexists _, _. Qed.

Lemma op_raise busts tr e : ready operating tr -> op_attempted busts tr (Raised e).
Proof. intros Hr. split; [by eapply attempted_raise|done]. Qed.

Lemma inside_spec env busts k :
  (forall tr, ready operating tr -> spec (I env busts) (op_attempted busts) tr k) ->
  spec (I env busts) (operator_outcome busts Around) [] (guarded (operator k)).
Proof.
  intros Hk. apply op_guarded_spec; [done|]. apply operator_spec; [done| |].
  - intros tr e Hb. split; [by apply unsent_raise|done].
  - intros tr Hb. split; [by apply unsent_refuse|]. left. right. by eexists _, 404.
Qed.

Lemma gate_refusal busts t tr : backend_events catalog_effects tr = [] -> operator_outcome busts t tr (Done (refused "Not found" 404)).
Proof. intros Hb. split; [left; right; by eexists _, 404|]. by intros res Hr%unsent_refused. Qed.

Lemma outside_spec env busts k :
  (forall tr, ready operating tr -> spec (I env busts) (op_attempted busts) tr k) ->
  spec (I env busts) (operator_outcome busts Behind) [] (operator (guarded k)).
Proof.
  intros Hk. apply operator_spec; [|done|intros tr; apply gate_refusal]. intros tr Hr. apply op_guarded_spec; [done|]. by apply Hk.
Qed.

Lemma flat_spec {A} env method (f : A -> served) message :
  (forall c, delivers c allowed (method c)) ->
  spec (I env false) (operator_outcome false BehindFlat) []
    (operator (try_catch (x ← backend env method; mret (f x)) (fun e => mret (refused (message e) 502)))).
Proof.
  intros Hd. apply operator_spec; [|done|intros tr; apply gate_refusal]. intros tr Hr. apply spec_try.
  eapply spec_post; [by apply op_backend_then|]. intros tr' [s|e] [H _].
  - destruct H as [H1 H2]. split; [|by intros res Hres%H2]. destruct H1 as [H1|H1]; [by left|by right].
  - exec_cbn. split; [left; right; by eexists _, 502|]. intros res _. by eexists.
Qed.

Lemma relay_spec {A} env (shape : A -> served) method :
  (forall c, delivers c allowed (method c)) -> spec (I env false) (operator_outcome false Around) [] (relay env shape method).
Proof. intros Hd. apply inside_spec. intros tr Hr. by apply op_backend_then. Qed.

Lemma checked_spec {A B} env (parse : json -> string + A) method (shape : B -> served) :
  (forall body input c, parse body = inr input -> delivers c allowed (method input c)) ->
  spec (I env false) (operator_outcome false Around) [] (checked env parse method shape).
Proof.
  intros Hd. apply inside_spec. intros tr Hr. unfold body_or_null, request_json, on_tenant. exec_cbn.
  apply op_body_then; [exact Hr|]. intros x Hr'. exec_cbn.
  destruct (parse _) eqn:Hp; [by apply op_refuse|]. apply op_backend_then; [done|]. intros c. by eapply Hd.
Qed.

Lemma checked_catalog_spec {A B} env (parse : json -> string + A) method (shape : B -> served) :
  (forall body input c, parse body = inr input -> delivers c allowed (method input c)) ->
  spec (I env true) (operator_outcome true Around) [] (checked_catalog env parse method shape).
Proof.
  intros Hd. apply inside_spec. intros tr Hr. unfold body_or_null, request_json, on_tenant. exec_cbn.
  apply op_body_then; [exact Hr|]. intros x Hr'. exec_cbn.
  destruct (parse _) eqn:Hp; [by apply op_refuse|]. apply op_catalog_then; [done|]. intros c. by eapply Hd.
Qed.
End proofs.

(** ** The parsers *)
Lemma check_inr {A B} (v : option A) message (k : A -> string + B) y :
  check v message k = inr y -> exists a, v = Some a /\ k a = inr y.
Proof. destruct v as [a|]; [by exists a|done]. Qed.

(** Invert the checks a parser made. *)
Ltac checks :=
  repeat match goal with
  | H : check _ _ _ = inr _ |- _ => apply check_inr in H as (? & ? & H)
  | H : (if ?b then inl _ else _) = inr _ |- _ => destruct b eqn:?; [discriminate H|]
  | H : (if ?b then _ else inl _) = inr _ |- _ => destruct b eqn:?; [|discriminate H]
  end.

Lemma whole_spec v x : whole v = Some x -> is_integer x = true /\ PrimFloat.leb PrimFloat.zero x = true.
Proof.
  unfold whole, integer. destruct (v ≫= jnum) as [y|]; simpl; [|done]. destruct (is_integer y) eqn:Hi; simpl; [|done].
  destruct (PrimFloat.leb _ y) eqn:Hl; [|done]. by intros [=<-].
Qed.

Lemma nonblank_text (v : option string) x :
  (s ← v; if truthy (trim s) then Some (trim s) else None) = Some x -> exists raw, x = trim raw /\ trim raw <> "".
Proof.
  destruct v as [s|]; simpl; [|done]. unfold truthy. destruct (bool_decide (trim s <> "")) eqn:Hb; [|done].
  intros [= <-]. exists s. split; [done|]. by apply bool_decide_eq_true in Hb.
Qed.

Lemma one_of_spec allowed v x : one_of allowed v = Some x -> x ∈ allowed.
Proof. unfold one_of. destruct (v ≫= jstr) as [s|]; simpl; [|done]. case_bool_decide; [|done]. by intros [= <-]. Qed.

Lemma requireString_spec body k x : requireString body k = inr x -> exists raw, x = trim raw /\ trim raw <> "".
Proof. unfold requireString. intros H. checks. injection H as ->. by eapply nonblank_text. Qed.

Lemma named_member j k x : jget j k = Some (JStr x) -> (exists raw, x = trim raw /\ trim raw <> "") -> named j k.
Proof. intros Hj (raw & -> & Hr). by exists raw. Qed.

Lemma parsed_text k message body x : parse_text k message body = inr x -> named (JObj [(k, JStr x)]) k.
Proof.
  unfold parse_text. intros H. checks. injection H as ->. apply (named_member _ _ x); [|by eapply nonblank_text].
  simpl. by rewrite decide_True.
Qed.

Lemma parsed_requirement body x : parse_requirement body = inr x -> chosen (JObj [("requirement", JStr x)]) "requirement" ["email"; "card"].
Proof. unfold parse_requirement. intros H. checks. injection H as ->. exists x. split; [done|]. by eapply one_of_spec. Qed.

Lemma parsed_lane_status body x : parse_lane_status body = inr x -> chosen (JObj [("status", JStr x)]) "status" LANE_STATUSES.
Proof. unfold parse_lane_status. intros H. checks. injection H as ->. exists x. split; [done|]. by eapply one_of_spec. Qed.

Lemma parsed_promotion body j : parsePromotionInput body = inr j -> valid_promotion j.
Proof.
  unfold parsePromotionInput. cbv zeta. intros H. checks. injection H as <-. constructor.
  - eapply named_member; [reflexivity|]. by eapply nonblank_text.
  - eexists. split; [reflexivity|]. by eapply one_of_spec.
  - eexists. split; [reflexivity|]. by eapply one_of_spec.
  - eexists _, _. split; [reflexivity|]. split; [reflexivity|].
    match goal with Hb : _ && _ = false |- _ => apply andb_false_iff in Hb as [Hb|Hb]; apply bool_decide_eq_false in Hb; auto end.
  - eexists. split; [reflexivity|]. by eapply whole_spec.
  - eexists. split; [reflexivity|]. by eapply whole_spec.
  - match goal with Hp : percent ?v = Some ?x |- _ => rename Hp into Hpct; exists x end. split; [reflexivity|].
    unfold percent in Hpct. destruct (_ ≫= jnum) as [y|] in Hpct; simpl in Hpct; [|done].
    destruct (is_finite y && _ && _) eqn:Hb in Hpct; [|done]. injection Hpct as <-. by bool_simpl.
  - match goal with Hl : (l ← isStringArray ?v; _) = Some ?x |- _ => rename Hl into Hlab; exists x end. split; [reflexivity|].
    destruct (isStringArray _) as [l|] in Hlab; simpl in Hlab; [|done]. destruct (forallb label_key_json l) eqn:Hf; [|done].
    by injection Hlab as <-.
Qed.

Lemma parsed_ranking body slugs :
  parseRecommendedInput body = inr slugs -> valid_ranking (JObj [("slugs", of_strings slugs)]).
Proof.
  unfold parseRecommendedInput. intros H. checks. injection H as <-.
  match goal with Hl : isStringArray _ = Some ?x |- _ => rename Hl into Harr; rename x into l end.
  repeat match goal with Hb : bool_decide _ = _ |- _ => first [apply bool_decide_eq_false in Hb|apply bool_decide_eq_true in Hb] end.
  eexists. split; [reflexivity|]. do 2 (split; [done|]).
  unfold isStringArray in Harr. destruct (_ ≫= jarr) as [l'|] in Harr; simpl in Harr; [|done].
  destruct (forallb nonblank l') eqn:Hf; [|done]. injection Harr as ->. rewrite forallb_forall in Hf.
  apply Forall_forall. intros s (j & Hj & Hs)%list_elem_of_omap. destruct j; simpl in Hs; try done. injection Hs as ->.
  apply (Hf (JStr s)). by apply list_elem_of_In.
Qed.

Lemma jget_obj_cons k' v ms k :
  jget (obj ((k', v) :: ms)) k =
    if decide (k' = k) then match v with Some x => Some x | None => jget (obj ms) k end else jget (obj ms) k.
Proof.
  unfold obj. simpl. destruct v as [x|]; simpl; [|by case_decide].
  by repeat case_decide; simplify_eq.
Qed.

Lemma optionalPrice_spec body k x :
  optionalPrice body k = inr (Some x) -> is_integer x = true /\ PrimFloat.leb PrimFloat.zero x = true.
Proof.
  unfold optionalPrice. intros H.
  assert (check (whole (jget body k)) (k +:+ " must be a non-negative integer (micro-USD per million tokens).")
    (fun x => inr (Some x)) = inr (Some x)) as Hc by (repeat case_match; simplify_eq; done).
  apply check_inr in Hc as (y & Hy & [= ->]). by eapply whole_spec.
Qed.

(** An object whose price members come from the parser, among members of other names. *)
Lemma parsed_hookup body hookup ms ms' :
  parseHookup body = inr hookup -> Forall (fun m => m.1 ∉ PRICE_FIELDS) ms -> Forall (fun m => m.1 ∉ PRICE_FIELDS) ms' ->
  valid_lane (obj (ms ++ hookup ++ ms')).
Proof.
  unfold parseHookup. intros H Hms Hms'. destruct (optionalString body "base_url") as [|base]; [done|].
  destruct (optionalString body "pricing_source") as [|source]; [done|].
  destruct (prices body PRICE_FIELDS) as [|ps] eqn:Hp; [done|]. injection H as <-.
  assert (forall ms' k, Forall (fun m : string * option json => m.1 ∉ PRICE_FIELDS) ms' -> k ∈ PRICE_FIELDS -> forall rest,
    jget (obj (ms' ++ rest)) k = jget (obj rest) k) as Hskip.
  { clear. intros ms' k H Hk rest. induction H as [|[k' v] ms Hk' _ IH]; [done|]. cbn [app]. rewrite jget_obj_cons.
    rewrite decide_False; [done|]. by intros ->. }
  intros k Hk. unfold whole_member. rewrite Hskip by done.
  pose proof (Hskip [("base_url", JStr <$> base); ("pricing_source", JStr <$> source)] k
    ltac:(repeat constructor; by apply (bool_decide_unpack _)) Hk (ps ++ ms')) as Hq.
  cbn [app] in Hq |- *. rewrite Hq.
  assert (forall k, k ∈ PRICE_FIELDS -> jget (obj ms') k = None) as Hnone.
  { intros q Hin. specialize (Hskip ms' q Hms' Hin []). by rewrite app_nil_r in Hskip. }
  unfold PRICE_FIELDS in Hp. cbn [prices] in Hp.
  destruct (optionalPrice body "input_micro_usd_per_million") as [|p1] eqn:H1; [done|].
  destruct (optionalPrice body "cached_input_micro_usd_per_million") as [|p2] eqn:H2; [done|].
  destruct (optionalPrice body "output_micro_usd_per_million") as [|p3] eqn:H3; [done|].
  destruct (optionalPrice body "reasoning_micro_usd_per_million") as [|p4] eqn:H4; [done|]. injection Hp as <-.
  cbn [app]. pose proof (Hnone k Hk) as Hk0.
  repeat (apply elem_of_cons in Hk as [->|Hk]); [..|by apply elem_of_nil in Hk].
  all: rewrite !jget_obj_cons; repeat (rewrite decide_False by done || rewrite decide_True by done).
  1: destruct p1 as [x|]. 3: destruct p2 as [x|]. 5: destruct p3 as [x|]. 7: destruct p4 as [x|].
  all: cbn [fmap option_fmap option_map].
  1,3,5,7: right; exists x; split; [done|by eapply optionalPrice_spec].
  all: by left.
Qed.

Lemma valid_lane_none j : (forall k, k ∈ PRICE_FIELDS -> jget j k = None) -> valid_lane j.
Proof. intros H k Hk. left. by apply H. Qed.

Lemma valid_lane_status status : valid_lane (JObj [("status", JStr status)]).
Proof. apply valid_lane_none. intros k Hk. repeat (apply elem_of_cons in Hk as [->|Hk]); [done..|by apply elem_of_nil in Hk]. Qed.

Lemma parsed_update body j : parseUpdateInput body = inr j -> valid_lane j.
Proof.
  unfold parseUpdateInput. intros H. checks. destruct (requireString _ _) as [|wire]; [done|].
  destruct (parseHookup body) as [|hookup] eqn:Hh; [done|]. injection H as <-.
  pose proof (parsed_hookup body hookup [("provider_model_id", Some (JStr wire))] [] Hh) as Hv.
  rewrite app_nil_r in Hv. apply Hv; repeat constructor; by apply (bool_decide_unpack _).
Qed.

Lemma parsed_wire body j : parseUpdateInput body = inr j -> named j "provider_model_id".
Proof.
  unfold parseUpdateInput. intros H. checks. destruct (requireString _ _) as [|wire] eqn:Hw; [done|].
  destruct (parseHookup body); [done|]. injection H as <-.
  by apply (named_member _ _ wire); [|by eapply requireString_spec].
Qed.

Lemma parsed_names body j : parseCreateInput body = inr j -> named j "slug" /\ named j "provider_model_id".
Proof.
  unfold parseCreateInput. intros H. checks. destruct (requireString body "slug") as [|slug] eqn:Hs; [done|].
  destruct (requireString body "provider_model_id") as [|wire] eqn:Hw; [done|].
  destruct (parseHookup body) as [|hookup]; [done|]. cbv zeta in H.
  assert (exists ms, j = obj (("slug", Some (JStr slug)) :: ("provider_model_id", Some (JStr wire)) :: ms)) as [ms ->].
  { destruct (jget body "status"); [checks|]; injection H as <-; by eexists. }
  split; [apply (named_member _ _ slug)|apply (named_member _ _ wire)]; try done; by eapply requireString_spec.
Qed.

Lemma parsed_create body j : parseCreateInput body = inr j -> valid_lane j.
Proof.
  unfold parseCreateInput. intros H. checks. destruct (requireString body "slug") as [|slug]; [done|].
  destruct (requireString body "provider_model_id") as [|wire]; [done|].
  destruct (parseHookup body) as [|hookup] eqn:Hh; [done|].
  assert (exists status, j = obj ([("slug", Some (JStr slug)); ("provider_model_id", Some (JStr wire))] ++ hookup ++
    [("status", status)])) as [status ->].
  { cbv zeta in H. destruct (jget body "status"); [|injection H as <-; by eexists]. checks. injection H as <-. by eexists. }
  apply (parsed_hookup body); [done|..]; repeat constructor; by apply (bool_decide_unpack _).
Qed.

Lemma parsed_credit_grant body j : parse_credit_grant body = inr j -> valid_grant j.
Proof.
  unfold parse_credit_grant. intros H. checks. injection H as <-.
  match goal with Hx : (x ← ?v; _) = Some ?y |- _ => rename Hx into Hamount; exists y end. split; [reflexivity|].
  destruct (_ ≫= jnum) as [z|] in Hamount; simpl in Hamount; [|done].
  destruct (is_finite z && _) eqn:Hb; [|done]. injection Hamount as <-. apply andb_prop in Hb as [Hb1 Hb2].
  split; [done|]. by destruct (PrimFloat.eqb z _).
Qed.

Lemma parsed_micro_usd body x : parse_micro_usd body = inr x -> whole_member (JObj [("micro_usd", JNum x)]) "micro_usd".
Proof. unfold parse_micro_usd. intros H. checks. injection H as ->. eexists. split; [reflexivity|]. by eapply whole_spec. Qed.

Lemma cached_operator env reads busts t p :
  spec (fun tr c => coherent (extended_reads catalog_effects) tr -> operator_licensed env reads busts tr c)
    (operator_outcome busts t) [] p ->
  spec (operator_licensed env reads busts) (operator_outcome busts t) [] (cached (extended_reads catalog_effects) p).
Proof.
  intros Hp.
  assert (forall tr tr' : list (event platform), (forall e, e ∈ tr <-> e ∈ tr') -> tr ⊆ tr') as Hsub by (intros tr tr' H e; apply H).
  apply cached_route; [done| | | |by eapply spec_post].
  - intros tr tr' r Hs (c & u & H1 & H2 & H3 & H4). pose proof (extended_tenant_events_mono catalog_effects _ _ (Hsub _ _ Hs)) as Ht.
    exists c, u. split; [done|]. split; [by eapply signed_in_mono|]. split; [by eapply operates_mono|done].
  - intros tr tr' [] Hs (Hb & H1 & H2). split; [done|]. split; [eapply operating_mono; [by apply Hsub|done]|]. by eapply agreed_mono; [apply Hsub|].
  - intros tr tr' o Hs. assert (tr' ⊆ tr) as Hsub' by (intros e; apply Hs). destruct o as [s|e].
    + intros [H1 H2]. split.
      * destruct H1 as [H1|[H1 H3]]; [by left|right]. split; [by eapply agreed_mono; [apply Hsub|]|].
        intros Hb. apply (Hsub tr tr' Hs), H3, Hb.
      * intros res [[r Hr] Hok]. apply H2. split; [|done]. exists r. by eapply backend_events_mono.
    + intros [Ht Hn]. split; [done|]. destruct (backend_events catalog_effects tr') as [|e' l] eqn:He; [done|].
      assert (e' ∈ backend_events catalog_effects tr) as Hin by (eapply backend_events_mono; [exact Hsub'|rewrite He; left]).
      simpl in Hn. rewrite Hn in Hin. by apply elem_of_nil in Hin.
Qed.

(** A request to another resource than the one it is checked for. *)
Ltac elsewhere :=
  first
  [ intros (? & ? & Hp & Hs); injection Hp as <- _; discriminate Hs
  | intros [(? & ? & Hp & Hs)|(? & ? & Hp & Hs)]; injection Hp as <- _; discriminate Hs
  | intros Hp; discriminate Hp
  | intros ? Hp; discriminate Hp ].

(** The request of a handler is allowed: its method, and what is known of its body. *)
Ltac allowed_by tac :=
  split; [intros; first [reflexivity|discriminate]|];
  intros j Hj; first [discriminate Hj|injection Hj as <-]; split_and!; first [elsewhere|intros; tac].



Example label_keys : map label_key ["yc"; "a-1"; "-a"; "A"; ""] = [true; true; false; false; false].
Proof. reflexivity. Qed.

Example promotion_needs_scope :
  parsePromotionInput (JObj [("label", JStr "x"); ("model_slugs", JArr []); ("family_keys", JArr []); ("providers", JArr [])])
  = inl "At least one of model_slugs or providers must be non-empty.".
Proof. reflexivity. Qed.
