(* ===== verification/Connections.v ===== *)
(** * What an organization's managers connect (app/api/orgs/[orgId]/provider-connections,
    app/api/orgs/[orgId]/connections, app/api/orgs/[orgId]/data, app/api/orgs/[orgId],
    lib/provider-connections.ts)

    The routes that store credentials of other services: the organization's inference accounts, with
    their optional admin keys and declared balances, and the trace connections with their broadcast
    settings; the listing of the accounts; and the two other writes of a manager, the privacy wipe and
    the rename. Each opens with the manager's gate of [Extended]. PostgREST, the Vault-backed RPCs and the
    storage bucket are answered from outside. *)

From S2P Require Import Prelude JsMap JsString JsNumber JsDate Effects Url Json JsonText Services.
From S2P Require Import BackendSource OrgAccess TenantServices ApiKeys ModelProviders Extended Proxies OrgProxies.

#[local] Open Scope Z_scope.

(** ** Services *)

(** A row of [provider_connections]; what is only passed on stays JSON. *)
Record ConnectionRow := {
  row_provider : string;
  row_config : json;
  row_credential_last4 : json;
  row_spend_last4 : json;
  row_updated_at : json;
  row_status : string;
  row_status_detail : json;
  row_status_checked_at : json;
  row_status_source : json;
  row_declared : json;
  row_declared_at : json;
  row_metered : json;
  row_threshold : json;
}.

(** The changes of a declared balance. *)
Record BalanceUpdate := {
  declared_balance_usd : option number;
  declared_balance_set_at : option string;
  metered_spend_usd : Z;
  low_balance_threshold_usd : option number;
}.

(** The row an update returns: its id, and the row. *)
Record BalanceRow := { balance_id : string; balance_row : json }.

#[export] Instance BalanceUpdate_eq_dec : EqDecision BalanceUpdate.
Proof. solve_decision. Defined.

(** The objects of one trace ingest. *)
Record IngestRow := { upload_path : option string; result_path : option string }.

Inductive connection_cmd :=
| RpcUpsertProvider (org provider : string) (config : json) (secret actor : string)
| RpcSetSpendCredential (org provider secret actor : string)
| RpcDeleteProvider (org provider : string)
| UpdateBalance (org provider : string) (changes : BalanceUpdate)
| InsertSnapshot (org connection provider : string) (credits : number)
| SelectConnections (org : string)
| SelectLatestSnapshot (org provider : string)
| SelectSnapshots (org provider : string) (limit : Z)
| SelectTraceConfig (org kind : string)
| RpcUpsertTrace (org kind : string) (config : json) (secret actor : string)
| RpcPatchTrace (org kind : string) (patch : json)
| RpcDeleteTrace (org kind : string)
| DeleteSpanSets (org : string)
| DeleteSpans (org : string)
| DeleteCapturedPrompts (org : string)
| SelectIngests (org : string)
| RemoveObjects (paths : list string)
| DeleteIngests (org : string)
| SelectOrgName (org : string)
| UpdateOrgName (org name : string).

(** The RPCs answer a row or a list of rows; the rename answers the new name and the row. *)
Definition connection_ans (c : connection_cmd) : Type :=
  match c with
  | RpcUpsertProvider _ _ _ _ _ | RpcDeleteProvider _ _ | RpcUpsertTrace _ _ _ _ _ | RpcPatchTrace _ _ _ | RpcDeleteTrace _ _
  | SelectLatestSnapshot _ _ | SelectTraceConfig _ _ => db_result json
  | RpcSetSpendCredential _ _ _ _ | InsertSnapshot _ _ _ _ | DeleteSpanSets _ | DeleteSpans _ | DeleteCapturedPrompts _
  | RemoveObjects _ | DeleteIngests _ => db_result unit
  | UpdateBalance _ _ _ => db_result (list BalanceRow)
  | SelectConnections _ => db_result (list ConnectionRow)
  | SelectSnapshots _ _ _ => db_result (list json)
  | SelectIngests _ => db_result (list IngestRow)
  | SelectOrgName _ => db_result string
  | UpdateOrgName _ _ => db_result (string * json)
  end.

Definition connection_effects : effects := Effects connection_cmd connection_ans.

#[export] Instance connection_cmd_eq_dec : EqDecision connection_cmd.
Proof. solve_decision. Defined.
#[export] Instance connection_effects_eq_dec : EqDecision (cmd connection_effects) := connection_cmd_eq_dec.

Abbreviation connected := (extended connection_effects).
Abbreviation P := (prog connected app_error).
Abbreviation ask c := (on_own connection_effects c).

Definition service_role : P unit := on_tenant connection_effects TenantServices.createServiceRoleSupabaseClient.

(** The answer to a database error. *)
Definition db_failed (e : db_error) : served := refused (error_message e) 500.

(** [const row = Array.isArray(data) ? data[0] : data] *)
Definition first_row (data : option json) : option json :=
  match data with None => Some JNull | Some (JArr l) => head l | Some j => Some j end.

(** ** The gate *)
Definition managers_only (ident : string) (k : Manager -> P served) : P served :=
  m ← on_tenant connection_effects (require_manager ident);
  match m with None => mret (refused "Not found" 404) | Some m => k m end.

Definition requireProviderManager (ident provider : string) (k : ModelProvider -> Manager -> P served) : P served :=
  match isModelProvider provider with
  | None => mret (refused ("provider must be one of: " +:+ join ", " (map provider_name MODEL_PROVIDERS) +:+ ".") 400)
  | Some p => managers_only ident (k p)
  end.

(** ** provider-connections/[provider] *)
Record Connect := { main_secret : string; spend_secret : option string; stored_config : json }.

Section parsers.
Variable parse_url : string -> option (string * string).

(** The inference credential. *)
Definition parse_secret (p : ModelProvider) (body : json) : string + string :=
  match p with
  | modal => parseModalSecret (jget body "secret")
  | _ =>
      let secret := trim (default EmptyString (jget_str body "secret")) in
      if bool_decide (String.length secret = 0)%nat
      then inl ((if bool_decide (p = bedrock) then "A secret access key" else "An API key") +:+ " is required.")
      else match mainSlotAdminKeyError p secret with Some misplaced => inl misplaced | None => inr secret end
  end.

(** The optional admin key. *)
Definition parse_spend (p : ModelProvider) (body : json) : string + option string :=
  match jget body "spendSecret" with
  | None | Some JNull => inr None
  | v =>
      match ADMIN_KEY_PREFIXES p with
      | None => inl "Only Anthropic and OpenAI connections take an admin key for spend."
      | Some prefix => match parseSpendSecret p prefix v with inl e => inl e | inr secret => inr (Some secret) end
      end
  end.

Definition parse_connect (p : ModelProvider) (body : json) : string + Connect :=
  match parse_secret p body with
  | inl e => inl e
  | inr secret =>
      match parse_spend p body with
      | inl e => inl e
      | inr spend =>
          match parse_config parse_url p (jget body "config") with
          | inl e => inl e
          | inr config => inr {| main_secret := secret; spend_secret := spend; stored_config := config |}
          end
      end
  end.
End parsers.

(** The verdict of a check that could not be made. *)
Definition unreachable_check (p : ModelProvider) : json :=
  JObj [("provider", JStr (provider_name p)); ("status", JStr "unchecked");
        ("status_detail", JObj [("remediation", JStr ("The key was saved, but the verification service could not be reached to " +:+
          "check it. Real traffic will verify it, or rotate the key to re-run the check."))]);
        ("status_checked_at", JNull); ("status_source", JNull)].

Section routes.
Variables (parse_url : string -> option (string * string)) (env : Thrown + client) (ident : string).

Definition runHookupCheck (org : string) (p : ModelProvider) : P json :=
  try_catch (backend env (fun c => checkProviderConnection c org (provider_name p))) (fun _ => mret (unreachable_check p)).

(** The admin key, where one came, and the failure the answer reports. *)
Definition store_spend (m : Manager) (p : ModelProvider) (spend : option string) : P (option string) :=
  match spend with
  | None => mret None
  | Some secret =>
      w ← ask (RpcSetSpendCredential (manager_org m) (provider_name p) secret (manager_user m));
      mret (error_message <$> error w)
  end.

Definition provider_PUT (provider : string) : P served :=
  guarded (requireProviderManager ident provider (fun p m =>
    body ← body_or_null;
    match parse_connect parse_url p body with
    | inl message => mret (refused message 400)
    | inr input =>
        _ ← service_role;
        r ← ask (RpcUpsertProvider (manager_org m) (provider_name p) (stored_config input) (main_secret input) (manager_user m));
        match error r with
        | Some e => mret (db_failed e)
        | None =>
            spendError ← store_spend m p (spend_secret input);
            check ← runHookupCheck (manager_org m) p;
            mret (jsonOk (obj [("connection", first_row (data r)); ("check", Some check);
                               ("spendError", Some (of_nullable spendError))]) None)
        end
    end)).

(** [typeof v === "number" && Number.isFinite(v) && v >= 0]. *)
Definition amount (v : option json) : option number :=
  x ← v ≫= jnum; if is_finite x && PrimFloat.leb PrimFloat.zero x then Some x else None.

(** The declared balance, [null] or an amount. *)
Definition parse_declared (body : json) : string + option number :=
  match jget body "declared_balance_usd" with
  | Some JNull => inr None
  | v => match amount v with
         | Some x => inr (Some x)
         | None => inl "declared_balance_usd must be a non-negative number, or null to stop tracking."
         end
  end.

Definition parse_threshold (body : json) : string + option number :=
  match jget body "low_balance_threshold_usd" with
  | None => inr None
  | v => match amount v with
         | Some x => inr (Some x)
         | None => inl "low_balance_threshold_usd must be a non-negative number."
         end
  end.

(** The self-reported reading of a declared balance. *)
Definition record_snapshot (m : Manager) (p : ModelProvider) (row : BalanceRow) (declared : option number) : P (option db_error) :=
  match declared with
  | None => mret None
  | Some x =>
      s ← ask (InsertSnapshot (manager_org m) (balance_id row) (provider_name p) x);
      mret (error s)
  end.

(** The clock is read between the two parsers, only to declare. *)
Definition provider_PATCH (provider : string) : P served :=
  guarded (requireProviderManager ident provider (fun p m =>
    body ← body_or_null;
    if bool_decide (body = JNull) then mret (refused "A JSON body is required." 400) else
    match parse_declared body with
    | inl message => mret (refused message 400)
    | inr declared =>
        set_at ← match declared with
                 | None => mret None
                 | Some _ => t ← on_tenant connection_effects (@call tenant_effects app_error TenantClock); mret (Some (iso_string t))
                 end;
        match parse_threshold body with
        | inl message => mret (refused message 400)
        | inr threshold =>
            _ ← service_role;
            r ← ask (UpdateBalance (manager_org m) (provider_name p)
              {| declared_balance_usd := declared; declared_balance_set_at := set_at; metered_spend_usd := 0;
                 low_balance_threshold_usd := threshold |});
            match error r, head (default [] (data r)) with
            | Some e, _ => mret (db_failed e)
            | None, None => mret (refused "Connection not found." 404)
            | None, Some row =>
                failure ← record_snapshot m p row declared;
                match failure with
                | Some e => mret (db_failed e)
                | None => mret (jsonOk (JObj [("connection", balance_row row)]) None)
                end
            end
        end
    end)).

(** The answer of a definer RPC that says whether it removed a row. *)
Definition removed (r : db_result json) : served :=
  match error r with
  | Some e => db_failed e
  | None => if bool_decide (data r = Some (JBool true)) then NoContent else refused "Connection not found." 404
  end.

Definition provider_DELETE (provider : string) : P served :=
  guarded (requireProviderManager ident provider (fun p m =>
    _ ← service_role;
    r ← ask (RpcDeleteProvider (manager_org m) (provider_name p));
    mret (removed r))).

(** ** connections/[kind] *)
Definition TRACE_INGEST_PROVIDERS : list string := ["phoenix"; "langfuse"; "langsmith"; "braintrust"; "posthog"; "mastra"].
Definition CONNECTION_KINDS : list string := TRACE_INGEST_PROVIDERS ++ ["postgres"].
Definition BROADCAST_KINDS : list string := ["braintrust"; "langfuse"; "langsmith"; "phoenix"; "posthog"].

Definition requireConnectionManager (kind : string) (k : Manager -> P served) : P served :=
  if negb (bool_decide (kind ∈ CONNECTION_KINDS))
  then mret (refused ("kind must be one of: " +:+ join ", " CONNECTION_KINDS +:+ ".") 400)
  else managers_only ident k.

(** The stored configuration; an error of the read leaves none. *)
Definition stored_trace_config (m : Manager) (kind : string) : P json :=
  r ← ask (SelectTraceConfig (manager_org m) kind);
  mret (default JNull (data r)).

(** [typeof v === "object" && v !== null] *)
Definition some_object (v : option json) : option json :=
  match v with Some (JObj o) => Some (JObj o) | Some (JArr l) => Some (JArr l) | _ => None end.

(** The configuration to store: the broadcast settings are carried forward unless the request has its own. *)
Definition carry_broadcast (m : Manager) (kind : string) (config : list (string * json)) : P (list (string * json)) :=
  match mget config "broadcast" with
  | Some _ => mret config
  | None =>
      existing ← stored_trace_config m kind;
      match some_object (jget existing "broadcast") with
      | Some stored => mret (mset config "broadcast" stored)
      | None => mret config
      end
  end.

Definition row_answer (row : option json) : served := jsonOk (obj [("connection", row)]) None.

Definition connection_PUT (kind : string) : P served :=
  guarded (requireConnectionManager kind (fun m =>
    body ← body_or_null;
    let secret := trim (default EmptyString (jget_str body "secret")) in
    if bool_decide (String.length secret = 0)%nat then mret (refused "A credential is required." 400) else
    let config := match jget body "config" with Some (JObj o) => o | _ => [] end in
    _ ← service_role;
    config ← carry_broadcast m kind config;
    r ← ask (RpcUpsertTrace (manager_org m) kind (JObj config) secret (manager_user m));
    match error r with
    | Some e => mret (db_failed e)
    | None => mret (row_answer (first_row (data r)))
    end)).

Record Broadcast := { enabled : bool; privacy_mode : bool; capture_token : option string }.

(** The broadcast settings of the request, refused where they would fail in the scheduled tick. *)
Definition parse_broadcast (kind : string) (body : json) : string + Broadcast :=
  let broadcast := match jget body "broadcast" with Some (JObj o) => JObj o | _ => JNull end in
  let token := present (trim <$> jget_str broadcast "capture_token") in
  match jget broadcast "enabled" ≫= jbool, jget broadcast "privacy_mode" ≫= jbool with
  | Some on, Some privacy =>
      if bool_decide (kind = "posthog") && on && bool_decide (token = None)
      then inl "PostHog broadcast needs the project API key (phc_…)."
      else inr {| enabled := on; privacy_mode := privacy; capture_token := token |}
  | _, _ => inl "broadcast must be { enabled: boolean, privacy_mode: boolean }."
  end.

Definition broadcast_json (b : Broadcast) : json :=
  obj [("enabled", Some (JBool (enabled b))); ("privacy_mode", Some (JBool (privacy_mode b)));
       ("capture_token", JStr <$> capture_token b)].

(** Phoenix delivers to the connection's own host. *)
Definition host_missing (m : Manager) (kind : string) (b : Broadcast) : P bool :=
  if bool_decide (kind = "phoenix") && enabled b then
    existing ← stored_trace_config m kind;
    mret (negb (match jget_str existing "host" with Some host => starts_with "https://" host | None => false end))
  else mret false.

Definition connection_PATCH (kind : string) : P served :=
  guarded (requireConnectionManager kind (fun m =>
    if negb (bool_decide (kind ∈ BROADCAST_KINDS))
    then mret (refused ("Broadcast is not available for " +:+ kind +:+ ".") 400)
    else
      body ← body_or_null;
      match parse_broadcast kind body with
      | inl message => mret (refused message 400)
      | inr b =>
          _ ← service_role;
          missing ← host_missing m kind b;
          if missing : bool
          then mret (refused "Phoenix broadcast needs the connection host (set it when connecting)." 400)
          else
            r ← ask (RpcPatchTrace (manager_org m) kind (JObj [("broadcast", broadcast_json b)]));
            match error r with
            | Some e => mret (db_failed e)
            | None =>
                let row := first_row (data r) in
                mret (if default false (json_truthy <$> row) then row_answer row
                      else refused "Connection not found." 404)
            end
      end)).

Definition connection_DELETE (kind : string) : P served :=
  guarded (requireConnectionManager kind (fun m =>
    _ ← service_role;
    r ← ask (RpcDeleteTrace (manager_org m) kind);
    mret (removed r))).

(** ** data: the privacy wipe *)

(** One deletion; the next only when it worked. *)
Definition swept (c : connection_cmd) (view : connection_ans c -> option db_error) (k : P served) : P served :=
  r ← ask c;
  match view r with Some e => mret (db_failed e) | None => k end.

Definition object_paths (rows : list IngestRow) : list string :=
  omap (fun p => present p) (flat_map (fun row => [upload_path row; result_path row]) rows).

Definition data_DELETE : P served :=
  guarded (managers_only ident (fun m =>
    let org := manager_org m in
    wiped ← backend env (fun c => deleteOrgData c org);
    _ ← service_role;
    swept (DeleteSpanSets org) error (
    swept (DeleteSpans org) error (
    swept (DeleteCapturedPrompts org) error (
    ingests ← ask (SelectIngests org);
    match error ingests with
    | Some e => mret (db_failed e)
    | None =>
        let paths := object_paths (default [] (data ingests)) in
        let rows := swept (DeleteIngests org) error (
          deleted ← field wiped "deleted_world_models";
          mret (jsonOk (obj [("deleted_world_models", deleted)]) None)) in
        if bool_decide (paths = []) then rows else swept (RemoveObjects paths) error rows
    end))))).

(** ** The organization's name *)
Definition MAX_ORG_NAME_LENGTH : nat := 80.

Definition rename_event (m : Manager) (previous : option string) (new_name : string) : AuditEvent :=
  {| audit_org := Some (manager_org m); actorKind := if as_operator m then "platform_admin" else "user";
     audit_actor := Some (manager_user m); audit_action := "org.rename"; objectType := "organization";
     objectId := manager_org m; audit_before := Some (JObj [("name", of_nullable previous)]);
     audit_after := Some (JObj [("name", JStr new_name)]) |}.

Definition org_PATCH : P served :=
  guarded (managers_only ident (fun m =>
    body ← body_or_null;
    let name := trim (default EmptyString (jget_str body "name")) in
    if bool_decide (String.length name = 0)%nat || bool_decide (MAX_ORG_NAME_LENGTH < String.length name)%nat
    then mret (refused ("name must be 1-" +:+ string_of_Z (Z.of_nat MAX_ORG_NAME_LENGTH) +:+ " characters.") 400)
    else
      _ ← service_role;
      previous ← ask (SelectOrgName (manager_org m));
      r ← ask (UpdateOrgName (manager_org m) name);
      match error r, data r with
      | Some e, _ => mret (db_failed e)
      | None, None => raise_error "Cannot read properties of null (reading 'name')"
      | None, Some (stored, row) =>
          _ ← on_tenant connection_effects (recordAuditEvent (rename_event m (data previous) stored));
          mret (jsonOk (JObj [("org", row)]) None)
      end)).
End routes.

(** ** lib/provider-connections.ts: the listing *)
Record Summary := { summary_provider : ModelProvider; summary_connected : bool; summary_fields : list (string * json) }.

Definition unconnected (p : ModelProvider) : Summary :=
  {| summary_provider := p; summary_connected := false; summary_fields :=
     [("config", JNull); ("credential_last4", JNull); ("spend_credential_last4", JNull); ("updated_at", JNull);
      ("status", JStr "unchecked"); ("status_detail", JNull); ("status_checked_at", JNull); ("status_source", JNull);
      ("declared_balance_usd", JNull); ("declared_balance_set_at", JNull); ("metered_spend_usd", JNum (number_of_Z 0));
      ("low_balance_threshold_usd", JNum (number_of_Z 5)); ("latest_snapshot", JNull)] |}.

Definition connected_as (p : ModelProvider) (row : ConnectionRow) (snapshot : json) : Summary :=
  {| summary_provider := p; summary_connected := true; summary_fields :=
     [("config", row_config row); ("credential_last4", row_credential_last4 row);
      ("spend_credential_last4", row_spend_last4 row); ("updated_at", row_updated_at row);
      ("status", JStr (if isProviderConnectionStatus (row_status row) then row_status row else "unchecked"));
      ("status_detail", row_status_detail row); ("status_checked_at", row_status_checked_at row);
      ("status_source", row_status_source row); ("declared_balance_usd", row_declared row);
      ("declared_balance_set_at", row_declared_at row); ("metered_spend_usd", row_metered row);
      ("low_balance_threshold_usd", row_threshold row); ("latest_snapshot", snapshot)] |}.

Definition summary_json (s : Summary) : json :=
  JObj (("provider", JStr (provider_name (summary_provider s))) :: ("connected", JBool (summary_connected s)) :: summary_fields s).

Definition snapshots_unread (e : db_error) : string := "Unable to load provider account snapshots: " +:+ error_message e.

(** [Promise.all] over a list: everything is asked before anything is awaited. An element asks at most
    one read; [finish] makes its value of the answer, or is what it rejects with. *)
Definition ask_all {A B} (start : A -> P (string + B)) (l : list A) : P (list B) :=
  answers ← for_of (fun acc x => y ← start x; mret (acc ++ [y])) l [];
  foldr (fun (y : string + B) (k : list B -> P (list B)) acc => match y with inl e => raise_error e | inr b => k (acc ++ [b]) end)
    mret answers [].

Definition latestSnapshot (org : string) (p : ModelProvider) : P (string + json) :=
  r ← ask (SelectLatestSnapshot org (provider_name p));
  mret (match error r with Some e => inl (snapshots_unread e) | None => inr (default JNull (data r)) end).

Definition snapshotHistory (org : string) (p : ModelProvider) (limit : Z) : P (string + list json) :=
  r ← ask (SelectSnapshots org (provider_name p) limit);
  mret (match error r with Some e => inl (snapshots_unread e) | None => inr (rev (default [] (data r))) end).

Definition summarize (org : string) (byProvider : list (string * ConnectionRow)) (p : ModelProvider) : P (string + Summary) :=
  match mget byProvider (provider_name p) with
  | None => mret (inr (unconnected p))
  | Some row => s ← latestSnapshot org p; mret (match s with inl e => inl e | inr snapshot => inr (connected_as p row snapshot) end)
  end.

Definition listProviderConnections (org : string) : P (list Summary) :=
  r ← ask (SelectConnections org);
  match error r with
  | Some e => raise_error ("Unable to load provider connections: " +:+ error_message e)
  | None =>
      let byProvider := of_pairs (map (fun row => (row_provider row, row)) (default [] (data r))) in
      ask_all (summarize org byProvider) MODEL_PROVIDERS
  end.

Definition with_history (org : string) (limit : Z) (s : Summary) : P (string + Summary) :=
  let add (history : list json) :=
    {| summary_provider := summary_provider s; summary_connected := summary_connected s;
       summary_fields := summary_fields s ++ [("history", JArr history)] |} in
  if summary_connected s
  then h ← snapshotHistory org (summary_provider s) limit; mret (match h with inl e => inl e | inr history => inr (add history) end)
  else mret (inr (add [])).

Definition listProviderConnectionsWithHistory (org : string) (limit : Z) : P (list Summary) :=
  connections ← listProviderConnections org;
  ask_all (with_history org limit) connections.

Definition MAX_HISTORY_POINTS : Z := 90.

(** The listing, [history] being the query's parameter; members may read it. *)
Definition provider_connections_GET (ident : string) (history : option string) : P served :=
  guarded (
    org ← on_tenant connection_effects (gate (requireOrgId ident));
    match history with
    | None =>
        _ ← on_tenant connection_effects (gate OrgAccess.createServerSupabaseClient);
        connections ← listProviderConnections org;
        mret (jsonOk (JObj [("connections", JArr (map summary_json connections))]) None)
    | Some raw =>
        match decimal_Z raw with
        | Some n =>
            if bool_decide (n < 1) then mret (refused "history must be a positive integer." 400) else
            _ ← on_tenant connection_effects (gate OrgAccess.createServerSupabaseClient);
            connections ← listProviderConnectionsWithHistory org (Z.min n MAX_HISTORY_POINTS);
            mret (jsonOk (JObj [("connections", JArr (map summary_json connections))]) None)
        | None => mret (refused "history must be a positive integer." 400)
        end
    end).

(** ** What a handler may ask

    [m] is the manager the gate let in, [tr] the events before the command. *)
Section licence.
Context (parse_url : string -> option (string * string)) (env : Thrown + client) (ident : string).

Implicit Types (tr : list (event connected)).

(** The body the request came with; what is not JSON counts as [null]. *)
Definition requested tr (body : json) : Prop :=
  exists x, @Ev connected (Shared connection_effects RequestBody) x ∈ tr /\ body = match x with inr b => b | inl _ => JNull end.

(** The service was asked [c], and its answer is [ok]. *)
Definition asked tr (c : connection_cmd) (ok : connection_ans c -> Prop) : Prop :=
  exists x, @Ev connected (Own connection_effects c) x ∈ tr /\ ok x.

Definition without_error {A} (r : db_result A) : Prop := error r = None.

(** What the stored configuration of a trace connection may be: the request's, with the broadcast settings
    of the stored one where the request has none. *)
Definition carried tr (org kind : string) (config : list (string * json)) (stored : json) : Prop :=
  stored = JObj config \/
  exists broadcast, mget config "broadcast" = None /\ stored = JObj (mset config "broadcast" broadcast) /\
    asked tr (SelectTraceConfig org kind) (fun r => some_object (jget (default JNull (data r)) "broadcast") = Some broadcast).

Definition permitted (m : Manager) tr (c : connection_cmd) : Prop :=
  match c with
  | RpcUpsertProvider org provider config secret actor =>
      org = manager_org m /\ actor = manager_user m /\
      exists p body spend, provider = provider_name p /\ requested tr body /\
        parse_connect parse_url p body = inr {| main_secret := secret; spend_secret := spend; stored_config := config |}
  | RpcSetSpendCredential org provider secret actor =>
      org = manager_org m /\ actor = manager_user m /\
      exists p body i, provider = provider_name p /\ requested tr body /\ parse_connect parse_url p body = inr i /\
        spend_secret i = Some secret /\ asked tr (RpcUpsertProvider org provider (stored_config i) (main_secret i) actor) without_error
  | RpcDeleteProvider org provider => org = manager_org m /\ exists p, provider = provider_name p
  | UpdateBalance org provider changes =>
      org = manager_org m /\ (exists p, provider = provider_name p) /\
      exists body, requested tr body /\ parse_declared body = inr (declared_balance_usd changes) /\
        parse_threshold body = inr (low_balance_threshold_usd changes) /\ metered_spend_usd changes = 0 /\
        (declared_balance_set_at changes = None <-> declared_balance_usd changes = None)
  | InsertSnapshot org connection provider credits =>
      org = manager_org m /\ exists changes row, declared_balance_usd changes = Some credits /\ balance_id row = connection /\
        asked tr (UpdateBalance org provider changes) (fun r => error r = None /\ head (default [] (data r)) = Some row)
  | SelectTraceConfig org kind => org = manager_org m /\ kind ∈ CONNECTION_KINDS
  | RpcUpsertTrace org kind config secret actor =>
      org = manager_org m /\ actor = manager_user m /\ kind ∈ CONNECTION_KINDS /\
      exists body, requested tr body /\ secret = trim (default EmptyString (jget_str body "secret")) /\ secret <> EmptyString /\
        carried tr org kind match jget body "config" with Some (JObj o) => o | _ => [] end config
  | RpcPatchTrace org kind patch =>
      org = manager_org m /\ kind ∈ BROADCAST_KINDS /\
      exists body b, requested tr body /\ parse_broadcast kind body = inr b /\ patch = JObj [("broadcast", broadcast_json b)] /\
        (kind = "phoenix" -> enabled b = true ->
          asked tr (SelectTraceConfig org kind) (fun r => exists host, jget_str (default JNull (data r)) "host" = Some host /\
            starts_with "https://" host = true))
  | RpcDeleteTrace org kind => org = manager_org m /\ kind ∈ CONNECTION_KINDS
  | DeleteSpanSets org => org = manager_org m /\ backend_agreed tr
  | DeleteSpans org => org = manager_org m /\ asked tr (DeleteSpanSets org) without_error
  | DeleteCapturedPrompts org => org = manager_org m /\ asked tr (DeleteSpans org) without_error
  | SelectIngests org => org = manager_org m /\ asked tr (DeleteCapturedPrompts org) without_error
  | RemoveObjects paths =>
      asked tr (SelectIngests (manager_org m)) (fun r => error r = None /\ paths = object_paths (default [] (data r)))
  | DeleteIngests org =>
      org = manager_org m /\
      exists paths, asked tr (SelectIngests org) (fun r => error r = None /\ paths = object_paths (default [] (data r))) /\
        (paths = [] \/ asked tr (RemoveObjects paths) without_error)
  | SelectOrgName org => org = manager_org m
  | UpdateOrgName org name =>
      org = manager_org m /\ (1 <= String.length name <= MAX_ORG_NAME_LENGTH)%nat /\
      exists body, requested tr body /\ name = trim (default EmptyString (jget_str body "name"))
  | _ => False
  end.

Definition managing tr (m : Manager) : Prop := is_manager (tenant_events connection_effects tr) ident m.

Definition connection_needs tr (c : cmd connection_effects) : Prop :=
  match c with
  | SelectConnections org | SelectLatestSnapshot org _ =>
      granted (gate_events (tenant_events connection_effects tr)) ident RoleUser org
  | SelectSnapshots org _ limit =>
      granted (gate_events (tenant_events connection_effects tr)) ident RoleUser org /\ 1 <= limit <= MAX_HISTORY_POINTS
  | c => exists m, managing tr m /\ permitted m tr c
  end.

(** The shared services: the rename is audited, as the manager's, once it happened. *)
Definition connection_tenant tr (c : tenant_cmd) : Prop :=
  match c with
  | RequestBody | OpenServiceRole | TenantClock => True
  | RpcRecordAudit e =>
      exists m name, managing tr m /\ audit_org e = Some (manager_org m) /\ audit_actor e = Some (manager_user m) /\
        audit_action e = "org.rename" /\ asked tr (UpdateOrgName (manager_org m) name) without_error
  | _ => False
  end.

(** The backend: as the manager, inside the organization. *)
Definition connection_reach tr (r : http_request) : Prop :=
  exists c u m, env = inr c /\ managing tr m /\ signed_in (tenant_events connection_effects tr) u /\ sent_by c u r /\
    in_org (manager_org m) (path r).

Definition connection_licensed : list (event connected) -> cmd connected -> Prop :=
  route_licensed connection_effects connection_tenant connection_reach connection_needs.

(** The work of a handler was done. *)
Definition worked (e : event connected) : Prop :=
  match e with
  | Ev (Own _ c) x =>
      match c return connection_ans c -> Prop with
      | RpcUpsertProvider _ _ _ _ _ | RpcUpsertTrace _ _ _ _ _ | RpcPatchTrace _ _ _ => without_error
      | UpdateBalance _ _ _ | SelectConnections _ => without_error
      | RpcDeleteProvider _ _ | RpcDeleteTrace _ _ => fun r => error r = None /\ data r = Some (JBool true)
      | DeleteIngests _ | UpdateOrgName _ _ => without_error
      | _ => fun _ => False
      end x
  | _ => False
  end.

(** Every handler answers, and a success means that its work was done. *)
Definition honest tr (o : outcome app_error served) : Prop :=
  match o with Done s => failed s \/ Exists worked tr | Raised _ => False end.
End licence.

(** The handlers. *)
Inductive connection_handler (parse_url : string -> option (string * string)) (env : Thrown + client) (ident : string) : P served -> Prop :=
| serve_connect provider : connection_handler parse_url env ident (provider_PUT parse_url env ident provider)
| serve_declare provider : connection_handler parse_url env ident (provider_PATCH ident provider)
| serve_disconnect provider : connection_handler parse_url env ident (provider_DELETE ident provider)
| serve_connect_trace kind : connection_handler parse_url env ident (connection_PUT ident kind)
| serve_broadcast kind : connection_handler parse_url env ident (connection_PATCH ident kind)
| serve_disconnect_trace kind : connection_handler parse_url env ident (connection_DELETE ident kind)
| serve_wipe : connection_handler parse_url env ident (data_DELETE env ident)
| serve_rename : connection_handler parse_url env ident (org_PATCH ident)
| serve_connections history : connection_handler parse_url env ident (provider_connections_GET ident history).

(** ** The licence of each handler *)
Section proofs.
Context (parse_url : string -> option (string * string)) (env : Thrown + client) (ident : string).

Implicit Types (tr : list (event connected)).

#[local] Abbreviation I := (fun tr c => coherent (extended_reads connection_effects) tr -> connection_licensed parse_url env ident tr c).
#[local] Abbreviation managed m := (fun tr => managing ident tr m).

(** How a handler ends inside its [try]. *)
#[local] Abbreviation trying := (fun tr (o : outcome app_error served) =>
  match o with Done s => failed s \/ Exists worked tr | Raised _ => True end).

Lemma guarded_honest p : spec I trying [] p -> spec I honest [] (guarded p).
Proof.
  intros H. apply spec_try. eapply spec_post; [exact H|]. intros tr [s|e]; [done|]. intros _.
  exec_cbn. left. left. by exists e.
Qed.

Lemma refused_failed message http tr : 400 <= http -> failed (refused message http) \/ Exists worked tr.
Proof. intros H. left. right. by exists message, http. Qed.

Lemma worked_here tr e : worked e -> Exists worked (tr ++ [e]).
Proof. intros H. apply Exists_app. right. by constructor. Qed.

Lemma worked_before tr e : Exists worked tr -> Exists worked (tr ++ [e]).
Proof. intros H. apply Exists_app. by left. Qed.

Lemma subset_snoc tr tr' (e : event connected) : tr ⊆ tr' -> tr ⊆ tr' ++ [e].
Proof. intros H e' He. apply elem_of_app. left. by apply H. Qed.

Lemma managing_mono m tr tr' : tr ⊆ tr' -> managing ident tr m -> managing ident tr' m.
Proof. intros Hg. apply is_manager_mono. by apply extended_tenant_events_mono. Qed.

Lemma managing_at m tr tr' : ready (managed m) tr -> tr ⊆ tr' -> coherent (extended_reads connection_effects) tr' -> managing ident tr' m.
Proof. intros [_ H] Hg Hco. eapply managing_mono; [exact Hg|]. eapply H, extended_coherent_mono; done. Qed.

Lemma asked_here tr c (ok : connection_ans c -> Prop) x : @Ev connected (Own connection_effects c) x ∈ tr -> ok x -> asked tr c ok.
Proof. intros H1 H2. by exists x. Qed.

Lemma requested_here tr x : @Ev connected (Shared connection_effects RequestBody) x ∈ tr ->
  requested tr match x with inr b => b | inl _ => JNull end.
Proof. intros H. by exists x. Qed.

Lemma managers_only_spec k :
  (forall tr m, ready (managed m) tr -> spec I trying tr (k m)) -> spec I trying [] (managers_only ident k).
Proof.
  intros Hk. apply spec_bind. eapply spec_post; [apply extended_manager_step|].
  intros tr [[m|]|e] [Ho H]; [|exec_cbn; by apply refused_failed|done].
  apply Hk. split; [by apply opening_unsent|exact H].
Qed.

Lemma manager_backend_step {A} m tr (method : client -> DS A) :
  ready (managed m) tr -> (forall c, delivers c (fun path _ _ => in_org (manager_org m) path) (method c)) ->
  spec I (fun tr' o => tr ⊆ tr' /\ settled DataSourceError (backend_events connection_effects tr') o) tr (backend env method).
Proof.
  intros Hr Hd. apply (backend_step _ _ _ env (managed m) (fun path _ _ => in_org (manager_org m) path)); [| |exact Hr|exact Hd].
  - intros tr' tr''. apply managing_mono.
  - intros tr' c u r _ -> Hm Hu Hs Hp. by exists c, u, m.
Qed.
End proofs.

(** A later point of a trace. *)
Ltac later := repeat first [reflexivity | apply subset_snoc | assumption].

(** A command of the manager [m], and what permits it. *)
Ltac by_manager Hr m :=
  intros Hco; exists m; split; [eapply managing_at; [exact Hr|later|exact Hco]|].

(** Run a handler behind its gate: what is left is the licence of each command and the ends. *)
Ltac run_handler :=
  unfold stored_trace_config, service_role, body_or_null, request_json, on_own, on_tenant, TenantServices.createServiceRoleSupabaseClient, answered,
    raise_error, raise_thrown, TenantServices.ask;
  exec; try exact Logic.I; try (intros _; exact Logic.I); try (by apply refused_failed).

(** The end of a handler whose last answer says that its work was done. *)
Ltac work_done := right; repeat first [apply worked_here; assumption | apply worked_before].

Ltac was_requested := eapply requested_here; in_trace.
Ltac was_asked := eapply asked_here; [in_trace|].

Section handlers.
Context (parse_url : string -> option (string * string)) (env : Thrown + client) (ident : string).

#[local] Abbreviation I := (fun tr c => coherent (extended_reads connection_effects) tr -> connection_licensed parse_url env ident tr c).
#[local] Abbreviation trying := (fun (tr : list (event connected)) (o : outcome app_error served) =>
  match o with Done s => failed s \/ Exists worked tr | Raised _ => True end).

Lemma removed_end tr (c : connection_cmd) (r : connection_ans c) (view : db_result json) :
  (error view = None /\ data view = Some (JBool true) -> worked (@Ev connected (Own connection_effects c) r)) ->
  failed (removed view) \/ Exists worked (tr ++ [@Ev connected (Own connection_effects c) r]).
Proof.
  intros H. unfold removed. destruct (error view) eqn:He; [by apply refused_failed|].
  case_bool_decide; [|by apply refused_failed]. right. apply worked_here, H. done.
Qed.

Lemma provider_DELETE_licensed provider : spec I honest [] (provider_DELETE ident provider).
Proof.
  apply guarded_honest. unfold requireProviderManager. destruct (isModelProvider provider) as [p|]; [|by apply refused_failed].
  apply managers_only_spec. intros tr m Hr. run_handler.
  - by_manager Hr m. split; [done|by exists p].
  - by apply removed_end.
Qed.

Lemma connection_DELETE_licensed kind : spec I honest [] (connection_DELETE ident kind).
Proof.
  apply guarded_honest. unfold requireConnectionManager. case_bool_decide as Hk; cbn [negb]; [|by apply refused_failed].
  apply managers_only_spec. intros tr m Hr. run_handler.
  - by_manager Hr m. done.
  - by apply removed_end.
Qed.

Lemma provider_PATCH_licensed provider : spec I honest [] (provider_PATCH ident provider).
Proof.
  apply guarded_honest. unfold requireProviderManager. destruct (isModelProvider provider) as [p|]; [|by apply refused_failed].
  apply managers_only_spec. intros tr m Hr. unfold record_snapshot. run_handler.
  - by_manager Hr m. split; [done|]. split; [by exists p|]. eexists. split; [was_requested|]. done.
  - by_manager Hr m. split; [done|]. eexists _, _. split; [|split; [reflexivity|was_asked; done]]. done.
  - work_done.
  - by_manager Hr m. split; [done|]. split; [by exists p|]. eexists. split; [was_requested|]. done.
  - work_done.
Qed.

Lemma carry_step {A} m kind config tr Q (k : list (string * json) -> prog connected app_error A) :
  ready (fun tr => managing ident tr m) tr -> kind ∈ CONNECTION_KINDS ->
  (forall tr' config', ready (fun tr => managing ident tr m) tr' -> tr ⊆ tr' ->
     carried tr' (manager_org m) kind config (JObj config') -> spec I Q tr' (k config')) ->
  spec I Q tr (config' ← carry_broadcast m kind config; k config').
Proof.
  intros Hr Hkind Hk. unfold carry_broadcast. destruct (mget config "broadcast") as [b|] eqn:Hb.
  { apply Hk; [done..|by left]. }
  unfold stored_trace_config, on_own. exec_cbn. split; [by_manager Hr m; done|]. intros r.
  set (tr' := tr ++ _). assert (ready (fun tr => managing ident tr m) tr') as Hr'.
  { apply ready_snoc; [intros ??; apply managing_mono|done|done]. }
  assert (tr ⊆ tr') as Hs by (unfold tr'; later). cbv zeta.
  destruct (some_object _) as [stored|] eqn:Hst; exec_cbn; apply Hk; try done; [|by left].
  right. exists stored. split; [done|]. split; [done|]. eapply asked_here; [unfold tr'; in_trace|done].
Qed.

Lemma connection_PUT_licensed kind : spec I honest [] (connection_PUT ident kind).
Proof.
  apply guarded_honest. unfold requireConnectionManager. case_bool_decide as Hk; cbn [negb]; [|by apply refused_failed].
  apply managers_only_spec. intros tr m Hr. unfold body_or_null, request_json, on_tenant. exec_cbn.
  split; [intros _; exact Logic.I|]. intros x. case_bool_decide as Hs; [by apply refused_failed|].
  unfold service_role, on_tenant, TenantServices.createServiceRoleSupabaseClient, TenantServices.ask, answered, raise_thrown. exec_cbn.
  split; [intros _; exact Logic.I|]. intros [e|u]; exec_cbn; [done|].
  apply (carry_step m); [|done|].
  { do 2 (apply ready_snoc; [intros ??; apply managing_mono|done|]). done. }
  intros tr' config Hr' Hsub Hc. assert (@Ev connected (Shared connection_effects RequestBody) x ∈ tr') as Hx by (apply Hsub; in_trace).
  clear Hsub Hr. run_handler.
  - by_manager Hr' m. split; [done|]. split; [done|]. split; [done|]. eexists. split; [exact (requested_here _ _ Hx)|].
    split; [done|]. split; [|done]. intros He. apply Hs. by rewrite He.
  - work_done.
Qed.

Lemma connection_PATCH_licensed kind : spec I honest [] (connection_PATCH ident kind).
Proof.
  apply guarded_honest. unfold requireConnectionManager. case_bool_decide as Hk; cbn [negb]; [|by apply refused_failed].
  apply managers_only_spec. intros tr m Hr. case_bool_decide as Hb; cbn [negb]; [|by apply refused_failed].
  unfold host_missing. run_handler.
  all: try (match goal with |- _ \/ Exists _ _ => destruct (default false _); [work_done|by apply refused_failed] end).
  - by_manager Hr m. done.
  - by_manager Hr m. split; [done|]. split; [done|]. eexists _, b. split; [was_requested|]. split; [done|]. split; [done|].
    intros _ _. was_asked. apply negb_false_iff in Heqb1.
    case_match; [by eexists|done].
  - by_manager Hr m. split; [done|]. split; [done|]. eexists _, b. split; [was_requested|]. split; [done|]. split; [done|].
    intros -> He. by rewrite He in *.
Qed.

Lemma connection_body_step {A} m tr Q (k : json -> prog connected app_error A) :
  ready (fun tr => managing ident tr m) tr ->
  (forall tr' body, ready (fun tr => managing ident tr m) tr' -> requested tr' body -> spec I Q tr' (k body)) ->
  spec I Q tr (body ← body_or_null; k body).
Proof.
  intros Hr Hk. unfold body_or_null, request_json, on_tenant. exec_cbn. split; [intros _; exact Logic.I|]. intros x. apply Hk.
  - apply ready_snoc; [intros ??; apply managing_mono|done|done].
  - eapply requested_here. in_trace.
Qed.

Lemma requested_mono tr tr' body : tr ⊆ tr' -> requested tr body -> requested tr' body.
Proof. intros Hg (x & Hx & ->). exists x. split; [by apply Hg|done]. Qed.

Lemma org_PATCH_licensed : spec I honest [] (org_PATCH ident).
Proof.
  apply guarded_honest, managers_only_spec. intros tr0 m Hr0. apply (connection_body_step m); [done|]. clear tr0 Hr0. intros tr body Hr Hb.
  unfold recordAuditEvent. run_handler. all: try work_done.
  - by_manager Hr m. done.
  - by_manager Hr m. split; [done|]. apply orb_false_iff in Heqb as [H1%bool_decide_eq_false H2%bool_decide_eq_false].
    split; [lia|]. exists body. split; [eapply requested_mono; [|exact Hb]; later|done].
  - intros Hco. exists m. eexists. split; [eapply managing_at; [exact Hr|later|exact Hco]|]. do 3 (split; [done|]). was_asked. done.
Qed.

Lemma swept_step tr (c : connection_cmd) (view : connection_ans c -> option db_error) k :
  I tr (Own connection_effects c) ->
  (forall x, view x = None -> spec I trying (tr ++ [@Ev connected (Own connection_effects c) x]) k) ->
  spec I trying tr (swept c view k).
Proof.
  intros Hc Hk. unfold swept, on_own. exec_cbn. split; [exact Hc|]. intros x.
  destruct (view x) eqn:Hv; [exec_cbn; by apply refused_failed|by apply Hk].
Qed.

Lemma data_DELETE_licensed : spec I honest [] (data_DELETE env ident).
Proof.
  apply guarded_honest, managers_only_spec. intros tr m Hr. apply spec_bind.
  eapply spec_post; [apply (manager_backend_step parse_url env ident m _ _ Hr); delivered_by ltac:(by eexists)|].
  intros tr' [wiped|e] [Hs [Hset _]]; [|done]. assert (backend_agreed tr') as Hag by exact Hset. clear Hset.
  unfold service_role, on_tenant, TenantServices.createServiceRoleSupabaseClient, TenantServices.ask, answered, raise_thrown. exec_cbn.
  split; [intros _; exact Logic.I|]. intros [e|u]; exec_cbn; [done|].
  apply swept_step; [by_manager Hr m; split; [done|]; eapply agreed_mono, Hag; later|]. intros x1 H1.
  apply swept_step; [by_manager Hr m; split; [done|]; was_asked; done|]. intros x2 H2.
  apply swept_step; [by_manager Hr m; split; [done|]; was_asked; done|]. intros x3 H3.
  unfold on_own. exec_cbn. split; [by_manager Hr m; split; [done|]; was_asked; done|]. intros x4.
  destruct (error x4) eqn:H4; [exec_cbn; by apply refused_failed|].
  assert (forall tr'' (x : db_result unit), error x = None ->
    spec I trying (tr'' ++ [@Ev connected (Own connection_effects (DeleteIngests (manager_org m))) x])
      (deleted ← field wiped "deleted_world_models"; mret (jsonOk (obj [("deleted_world_models", deleted)]) None))) as Hend.
  { intros tr'' x Hx. unfold field, raise_error, raise_thrown. destruct wiped; exec_cbn; try done; work_done. }
  cbv zeta. case_bool_decide as Hp.
  - apply swept_step; [|by apply Hend]. by_manager Hr m. split; [done|]. eexists. split; [was_asked; by split|by left].
  - apply swept_step; [by_manager Hr m; was_asked; by split|]. intros x5 H5.
    apply swept_step; [|by apply Hend]. by_manager Hr m. split; [done|]. eexists. split; [was_asked; by split|right]. was_asked. done.
Qed.

Lemma worked_mono tr tr' : tr ⊆ tr' -> Exists worked tr -> Exists worked tr'.
Proof. rewrite !Exists_exists. intros Hg (e & He & Hw). exists e. split; [by apply Hg|done]. Qed.

Lemma own_ready m tr (c : connection_cmd) x :
  ready (fun tr => managing ident tr m) tr -> ready (fun tr => managing ident tr m) (tr ++ [@Ev connected (Own connection_effects c) x]).
Proof. intros Hr. apply ready_snoc; [intros ??; apply managing_mono|done|done]. Qed.

Lemma hookup_step m p tr (f : json -> served) :
  ready (fun tr => managing ident tr m) tr -> Exists worked tr ->
  spec I trying tr (check ← runHookupCheck env (manager_org m) p; mret (f check)).
Proof.
  intros Hr Hw. unfold runHookupCheck. apply spec_bind, spec_try.
  eapply spec_post; [apply (manager_backend_step parse_url env ident m _ _ Hr); delivered_by ltac:(by eexists)|].
  intros tr' [check|e] [Hs _]; exec_cbn; right; by eapply worked_mono.
Qed.

Lemma store_spend_step m p body i tr (k : option string -> P served) r :
  ready (fun tr => managing ident tr m) tr -> Exists worked tr -> requested tr body -> parse_connect parse_url p body = inr i ->
  @Ev connected (Own connection_effects (RpcUpsertProvider (manager_org m) (provider_name p) (stored_config i) (main_secret i) (manager_user m))) r ∈ tr ->
  error r = None ->
  (forall tr' e, ready (fun tr => managing ident tr m) tr' -> Exists worked tr' -> spec I trying tr' (k e)) ->
  spec I trying tr (e ← store_spend m p (spend_secret i); k e).
Proof.
  intros Hr Hw Hb Hp Hin He Hk. unfold store_spend. destruct (spend_secret i) as [secret|] eqn:Hs; [|by apply Hk].
  unfold on_own. exec_cbn. split.
  - by_manager Hr m. split; [done|]. split; [done|]. exists p, body, i. do 4 (split; [done|]). by eapply asked_here.
  - intros w. apply Hk; [by apply own_ready|by apply worked_before].
Qed.

Lemma provider_PUT_licensed provider : spec I honest [] (provider_PUT parse_url env ident provider).
Proof.
  apply guarded_honest. unfold requireProviderManager. destruct (isModelProvider provider) as [p|]; [|by apply refused_failed].
  apply managers_only_spec. intros tr0 m Hr0. apply (connection_body_step m); [done|]. clear tr0 Hr0. intros tr body Hr Hb.
  destruct (parse_connect parse_url p body) as [message|i] eqn:Hp; [by apply refused_failed|].
  unfold service_role, on_tenant, TenantServices.createServiceRoleSupabaseClient, TenantServices.ask, answered, raise_thrown, on_own. exec_cbn.
  split; [intros _; exact Logic.I|]. intros [e|u]; exec_cbn; [done|].
  set (tr1 := tr ++ _). assert (ready (fun tr => managing ident tr m) tr1) as Hr1.
  { apply ready_snoc; [intros ??; apply managing_mono|done|done]. }
  assert (requested tr1 body) as Hb1 by (eapply requested_mono, Hb; unfold tr1; later).
  split; [by_manager Hr1 m; split; [done|]; split; [done|]; exists p, body, (spend_secret i); by destruct i|].
  intros r. destruct (error r) eqn:He; [exec_cbn; by apply refused_failed|].
  eapply store_spend_step; [by apply own_ready|by apply worked_here|eapply requested_mono, Hb1; later|exact Hp|in_trace|exact He|].
  intros tr' e Hr' Hw. by apply hookup_step.
Qed.

(** ** The listing *)
#[local] Abbreviation let_in org := (fun tr => granted (gate_events (tenant_events connection_effects tr)) ident RoleUser org).

Lemma let_in_later org tr tr' :
  (coherent (extended_reads connection_effects) tr -> let_in org tr) -> tr ⊆ tr' -> coherent (extended_reads connection_effects) tr' -> let_in org tr'.
Proof.
  intros H Hg Hco. eapply granted_mono; [by apply extended_tenant_events_mono|]. apply H. by eapply extended_coherent_mono.
Qed.

(** Asking all keeps what each question keeps. *)
Lemma ask_all_spec {A B} (G : list (event connected) -> Prop) (start : A -> P (string + B)) l tr :
  G tr -> (forall x tr, G tr -> spec I (fun tr' o => G tr' /\ match o with Done _ => True | Raised _ => False end) tr (start x)) ->
  spec I (fun tr' _ => G tr') tr (ask_all start l).
Proof.
  intros HG Hstart. unfold ask_all. apply spec_bind.
  eapply spec_post; [apply (spec_for_of _ (fun tr _ => G tr) (fun _ tr _ => G tr)); [exact HG|]|].
  - intros pre x post tr' acc _ HG'. apply spec_bind. eapply spec_post; [by apply Hstart|]. intros tr'' [y|e] [H1 H2]; [exact H1|done].
  - intros tr' [answers|e] HG'; [|done].
    lazymatch goal with |- spec ?J ?Q ?t (foldr ?f ?z answers _) => enough (forall acc, spec J Q t (foldr f z answers acc)) as H by apply H end.
    induction answers as [|[e|b] answers IH]; intros acc; simpl; [done..|apply IH].
Qed.

Lemma listing_step org tr :
  (coherent (extended_reads connection_effects) tr -> let_in org tr) ->
  spec I (fun tr' o => tr ⊆ tr' /\ match o with Done _ => Exists worked tr' | Raised _ => True end) tr (listProviderConnections org).
Proof.
  intros Hin. unfold listProviderConnections, on_own. exec_cbn. split; [exact Hin|]. intros r. set (tr1 := tr ++ _).
  assert (tr ⊆ tr1) as Hs by (unfold tr1; later).
  destruct (error r) eqn:He; [exec_cbn; done|]. cbv zeta.
  assert (Exists worked tr1) as Hw by (by apply worked_here).
  eapply spec_post; [apply (ask_all_spec (fun tr' => tr1 ⊆ tr')); [done|]|].
  - intros p tr2 Hs2. unfold summarize, latestSnapshot, on_own. destruct (mget _ _); exec_cbn; [|done].
    split; [intros Hco; eapply let_in_later; [exact Hin| |exact Hco]; by intros e' He'; apply Hs2, Hs|]. intros s.
    destruct (error s); exec_cbn; (split; [later|done]).
  - intros tr2 [l|e] Hs2; (split; [by intros e' He'; apply Hs2, Hs|]); [by eapply worked_mono|done].
Qed.

Lemma history_step org limit tr :
  (coherent (extended_reads connection_effects) tr -> let_in org tr) -> 1 <= limit <= MAX_HISTORY_POINTS ->
  spec I (fun tr' o => match o with Done _ => Exists worked tr' | Raised _ => True end) tr (listProviderConnectionsWithHistory org limit).
Proof.
  intros Hin Hl. unfold listProviderConnectionsWithHistory. apply spec_bind. eapply spec_post; [by apply listing_step|].
  intros tr1 [l|e] [Hs Hw]; [|done]. eapply spec_post; [apply (ask_all_spec (fun tr' => tr1 ⊆ tr')); [done|]|].
  - intros s tr2 Hs2. unfold with_history, snapshotHistory, on_own. destruct (summary_connected s); exec_cbn; [|done].
    split; [intros Hco; split; [|exact Hl]; eapply let_in_later; [exact Hin| |exact Hco]; by intros e' He'; apply Hs2, Hs|].
    intros x. destruct (error x); exec_cbn; (split; [later|done]).
  - intros tr2 [l'|e] Hs2; [by eapply worked_mono|done].
Qed.

Lemma server_step org tr Q (k : P served) :
  (coherent (extended_reads connection_effects) tr -> let_in org tr) -> (forall tr e, Q tr (Raised e)) ->
  (forall tr', (coherent (extended_reads connection_effects) tr' -> let_in org tr') -> spec I Q tr' k) ->
  spec I Q tr (_ ← on_tenant connection_effects (gate OrgAccess.createServerSupabaseClient); k).
Proof.
  intros Hin Hraise Hk. apply spec_bind. eapply spec_post; [apply (gate_anywhere connection_effects _ _ _ (fun _ _ => True))|].
  { eapply spec_post; [apply (client_step _)|done]. by intros t c Hc. }
  intros tr1 [u|e] (Hs & _ & _); [|apply Hraise]. apply Hk. intros Hco. exact (let_in_later org tr tr1 Hin Hs Hco).
Qed.

Lemma provider_connections_GET_licensed history : spec I honest [] (provider_connections_GET ident history).
Proof.
  apply guarded_honest, spec_bind. eapply spec_post; [apply member_step|].
  intros tr [org|e] [_ Hin]; [|done].
  assert (forall (p : string -> P (list Summary)),
    (forall tr, (coherent (extended_reads connection_effects) tr -> let_in org tr) ->
       spec I (fun tr' o => match o with Done _ => Exists worked tr' | Raised _ => True end) tr (p org)) ->
    spec I trying tr (_ ← on_tenant connection_effects (gate OrgAccess.createServerSupabaseClient);
      connections ← p org; mret (jsonOk (JObj [("connections", JArr (map summary_json connections))]) None))) as Hlist.
  { intros p Hp. apply (server_step org); [done|done|]. intros tr' Hin'. apply spec_bind. eapply spec_post; [by apply Hp|].
    intros tr2 [l|e] Hw; [by right|done]. }
  destruct history as [raw|].
  - destruct (decimal_Z raw) as [n|]; [|by apply refused_failed]. case_bool_decide; [by apply refused_failed|].
    apply (Hlist (fun org => listProviderConnectionsWithHistory org (Z.min n MAX_HISTORY_POINTS))). intros tr' Hin'.
    apply history_step; [done|]. unfold MAX_HISTORY_POINTS in *. lia.
  - apply Hlist. intros tr' Hin'. eapply spec_post; [by apply listing_step|]. by intros tr2 [l|e] [_ Hw].
Qed.
End handlers.

(** ** Later in a trace, what was permitted still is *)
Section mono.
Context (parse_url : string -> option (string * string)) (env : Thrown + client) (ident : string).

Implicit Types (tr : list (event connected)).

Lemma asked_mono tr tr' c (ok : connection_ans c -> Prop) : tr ⊆ tr' -> asked tr c ok -> asked tr' c ok.
Proof. intros Hg (x & Hx & Hok). exists x. split; [by apply Hg|done]. Qed.

Lemma carried_mono tr tr' org kind config stored : tr ⊆ tr' -> carried tr org kind config stored -> carried tr' org kind config stored.
Proof.
  intros Hg [H|(b & H1 & H2 & H3)]; [by left|right]. exists b. split; [done|]. split; [done|]. by eapply asked_mono.
Qed.

Lemma permitted_mono m tr tr' c : tr ⊆ tr' -> permitted parse_url m tr c -> permitted parse_url m tr' c.
Proof.
  intros Hg. pose proof (fun c ok => asked_mono tr tr' c ok Hg) as Ha. pose proof (fun b => requested_mono tr tr' b Hg) as Hb.
  pose proof (agreed_mono tr tr' Hg) as Hag. pose proof (fun org kind config stored => carried_mono tr tr' org kind config stored Hg) as Hc.
  destruct c; simpl; naive_solver.
Qed.

Lemma connection_let_in_mono org tr tr' : tr ⊆ tr' ->
  granted (gate_events (tenant_events connection_effects tr)) ident RoleUser org ->
  granted (gate_events (tenant_events connection_effects tr')) ident RoleUser org.
Proof. intros Hg. apply granted_mono. by apply extended_tenant_events_mono. Qed.

Lemma connection_needs_mono tr tr' c : tr ⊆ tr' -> connection_needs parse_url ident tr c -> connection_needs parse_url ident tr' c.
Proof.
  intros Hg. assert ((exists m, managing ident tr m /\ permitted parse_url m tr c) -> exists m, managing ident tr' m /\ permitted parse_url m tr' c) as H.
  { intros (m & H1 & H2). exists m. split; [by eapply managing_mono|by eapply permitted_mono]. }
  destruct c; try exact H; clear H; simpl; try by apply connection_let_in_mono.
  intros [H1 H2]. split; [by eapply connection_let_in_mono|done].
Qed.

Lemma connection_tenant_mono tr tr' c : tr ⊆ tr' -> connection_tenant ident tr c -> connection_tenant ident tr' c.
Proof.
  intros Hg. destruct c; try done. intros (m & name & H1 & H2 & H3 & H4 & H5). exists m, name.
  split; [by eapply managing_mono|]. do 3 (split; [done|]). by eapply asked_mono.
Qed.

Lemma connection_reach_mono tr tr' r : tr ⊆ tr' -> connection_reach env ident tr r -> connection_reach env ident tr' r.
Proof.
  intros Hg (c & u & m & H1 & H2 & H3 & H4). exists c, u, m. split; [done|]. split; [by eapply managing_mono|].
  split; [by eapply signed_in_mono; [apply extended_tenant_events_mono|]|done].
Qed.
End mono.

(** C29. Credentials, balances, stored data and the name change only for a manager, and only as
    requested. Of every handler, whatever the services answer: a command of the route is issued only
    once the gate has established that someone signed in manages the organization the URL addresses,
    and names that organization; a stored secret and configuration are exactly what the parser made of
    the request's body; an admin key is stored only after the connection was; a declared balance is a
    non-negative amount and its reading is recorded only for the row the update returned; broadcast
    settings are the request's or the stored ones; the privacy wipe goes on only from a deletion that
    worked, after the backend agreed; the rename is audited once it happened; members only read. And
    the handler always answers, with success only when its work was done. *)
Theorem connections_licensed parse_url env ident p :
  connection_handler parse_url env ident p ->
  spec (connection_licensed parse_url env ident) honest [] (cached (extended_reads connection_effects) p).
Proof.
  intros Hp. unfold connection_licensed. apply cached_route.
  - intros tr tr' c Hs. apply connection_tenant_mono. intros e. apply Hs.
  - intros tr tr' r Hs. apply connection_reach_mono. intros e. apply Hs.
  - intros tr tr' c Hs. apply connection_needs_mono. intros e. apply Hs.
  - intros tr tr' [s|e] Hs; [|done]. intros [H|H]; [by left|right]. eapply worked_mono, H. intros e. apply Hs.
  - eapply (spec_post _ honest); [|done]. destruct Hp.
    + apply provider_PUT_licensed.
    + apply provider_PATCH_licensed.
    + apply provider_DELETE_licensed.
    + apply connection_PUT_licensed.
    + apply connection_PATCH_licensed.
    + apply connection_DELETE_licensed.
    + apply data_DELETE_licensed.
    + apply org_PATCH_licensed.
    + apply provider_connections_GET_licensed.
Qed.

Lemma connections_licensed_witness :
  let p := connection_PUT "acme" "langfuse" in
  connection_handler (fun _ => None) (inr demo_client) "acme" p /\
  spec (connection_licensed (fun _ => None) (inr demo_client) "acme") honest [] (cached (extended_reads connection_effects) p).
Proof.
  cbv zeta. split; [apply serve_connect_trace|]. apply connections_licensed. apply serve_connect_trace.
Defined.

(** A rotation whose read of the stored configuration fails goes on without the broadcast settings: the
    error of that read is not looked at. *)
Lemma failed_read_drops_broadcast m kind config e :
  mget config "broadcast" = None ->
  exists k, carry_broadcast m kind config = Vis (E := connected) (Own connection_effects (SelectTraceConfig (manager_org m) kind)) k /\
    k (DbResult None (Some e)) = Ret config.
Proof. intros H. unfold carry_broadcast. rewrite H. eexists. by split. Qed.

(** What a stored main secret, admin key and declared amount look like. *)
Lemma parse_secret_sound p body secret :
  p <> modal -> parse_secret p body = inr secret -> secret <> EmptyString /\ mainSlotAdminKeyError p secret = None.
Proof.
  intros Hp. unfold parse_secret. set (s := trim _).
  assert ((if bool_decide (String.length s = 0)%nat
    then inl ((if bool_decide (p = bedrock) then "A secret access key" else "An API key") +:+ " is required.")
    else match mainSlotAdminKeyError p s with Some misplaced => inl misplaced | None => inr s end) = inr secret ->
    secret <> EmptyString /\ mainSlotAdminKeyError p secret = None) as H.
  { case_bool_decide as Hs; [discriminate|]. destruct (mainSlotAdminKeyError p s) eqn:He; [discriminate|].
    intros Hi. injection Hi as <-. split; [|exact He]. intros Hz. apply Hs. by rewrite Hz. }
  destruct p; first [exact H|by destruct Hp].
Qed.

Lemma main_slot_sound p prefix secret :
  ADMIN_KEY_PREFIXES p = Some prefix -> mainSlotAdminKeyError p secret = None -> starts_with prefix secret = false.
Proof. intros Hp. unfold mainSlotAdminKeyError. rewrite Hp. destruct (starts_with prefix secret); [discriminate|reflexivity]. Qed.

Lemma parse_spend_sound p body s :
  parse_spend p body = inr (Some s) -> exists prefix, ADMIN_KEY_PREFIXES p = Some prefix /\ starts_with prefix s = true.
Proof.
  unfold parse_spend. destruct (jget body "spendSecret") as [v|]; [|discriminate].
  assert (match ADMIN_KEY_PREFIXES p with
    | None => inl "Only Anthropic and OpenAI connections take an admin key for spend."
    | Some prefix => match parseSpendSecret p prefix (Some v) with inl e => inl e | inr secret => inr (Some secret) end
    end = inr (Some s) -> exists prefix, ADMIN_KEY_PREFIXES p = Some prefix /\ starts_with prefix s = true) as H.
  { destruct (ADMIN_KEY_PREFIXES p) as [prefix|]; [|discriminate]. intros H. exists prefix. split; [reflexivity|].
    unfold parseSpendSecret in H. destruct (bool_decide (trimmed (Some v) = EmptyString)); [discriminate|].
    destruct (starts_with prefix (trimmed (Some v))) eqn:Hs; [|discriminate]. cbn [negb] in H. by injection H as <-. }
  destruct v; first [exact H|discriminate].
Qed.

Lemma parse_connect_sound parse_url p body i :
  parse_connect parse_url p body = inr i ->
  (forall s, spend_secret i = Some s -> exists prefix, ADMIN_KEY_PREFIXES p = Some prefix /\ starts_with prefix s = true) /\
  (p <> modal -> main_secret i <> EmptyString /\
     forall prefix, ADMIN_KEY_PREFIXES p = Some prefix -> starts_with prefix (main_secret i) = false).
Proof.
  unfold parse_connect. destruct (parse_secret p body) as [e|secret] eqn:H1; [discriminate|].
  destruct (parse_spend p body) as [e|spend] eqn:H2; [discriminate|]. destruct (parse_config _ _ _); [discriminate|].
  intros [=<-]. cbn [main_secret spend_secret]. split.
  - intros s ->. by apply (parse_spend_sound p body).
  - intros Hm. destruct (parse_secret_sound p body secret Hm H1) as [Hne Hs]. split; [exact Hne|].
    intros prefix Hp. by apply (main_slot_sound p).
Qed.

Lemma parse_declared_sound body x : parse_declared body = inr (Some x) -> is_finite x = true /\ PrimFloat.leb PrimFloat.zero x = true.
Proof.
  unfold parse_declared, amount. intros H. destruct (jget body "declared_balance_usd") as [j|]; [|done].
  destruct j as [| |y| | |]; simpl in H; try done.
  destruct (is_finite y && _) eqn:Hc; [|done]. injection H as <-. by apply andb_true_iff in Hc.
Qed.
