(* ===== verification/SelfService.v ===== *)
(** * What a user's own account does (app/api/account, app/api/welcome)

    Deleting one's account, and the two greetings that are shown once: the credit greeting, whose row is
    inserted once per user, and the celebration an operator arms, whose showing is claimed once per
    activation; with the read of the sign-in dialog's last step. The tables and the definer function are
    answered from outside; what the database promises of them is stated where it is used. *)

From S2P Require Import Prelude JsMap JsString JsNumber JsDate Effects Url Json Services.
From S2P Require Import BackendSource OrgAccess TenantServices ActiveOrg ApiKeys Billing Extended Proxies OrgProxies.

#[local] Open Scope Z_scope.

(** ** Services *)

(** A row of [org_welcome_trigger]; a [numeric] column comes as a number or as text. *)
Record Trigger := {
  trigger_active : json;
  display_credit_usd : option (number + string);
  trigger_show_api_key : json;
  triggered_at : json;
}.

Inductive self_cmd :=
| SelectAdminOrgs (user : string)
| SelectOperators
| CountMembers (org : string)
| CountAdmins (org : string)
| DeleteUser (user : string)
| SelectLedger (org : string)
| InsertCreditWelcome (user : string)
| SelectTrigger (org : string)
| RpcClaimShowing (org : string) (at_ : json)
| SelectNewestKey (service_role : bool) (org now : string)
| YcLabel (org : string).

(** The count of a [head] request may be [null]. *)
Definition self_ans (c : self_cmd) : Type :=
  match c with
  | SelectAdminOrgs _ | SelectOperators => db_result (list string)
  | CountMembers _ | CountAdmins _ => db_result Z
  | DeleteUser _ | InsertCreditWelcome _ => db_result unit
  | SelectLedger _ => db_result (list GrantRow)
  | SelectTrigger _ => db_result Trigger
  | RpcClaimShowing _ _ => db_result json
  | SelectNewestKey _ _ _ => db_result (list (json * json))
  | YcLabel _ => db_result (list unit)
  end.

Definition self_effects : effects := Effects self_cmd self_ans.

#[export] Instance self_cmd_eq_dec : EqDecision self_cmd.
Proof. solve_decision. Defined.
#[export] Instance self_effects_eq_dec : EqDecision (cmd self_effects) := self_cmd_eq_dec.

Abbreviation own_account := (extended self_effects).
Abbreviation P := (prog own_account app_error).
Abbreviation ask c := (on_own self_effects c).
Abbreviation tenant p := (on_tenant self_effects p).

(** ** DELETE /api/account *)
Definition only_operator_message : string := "You are the only experiential admin; grant another before deleting.".
Definition only_admin_message : string :=
  "You are the only admin of an organization with other members. Make someone else an admin first.".

(** One organization the user administers: an answer where it stands in the way. *)
Definition check_org (org : string) : P (option served) :=
  members ← ask (CountMembers org);
  admins ← ask (CountAdmins org);
  match error members, error admins with
  | Some e, _ | None, Some e => mret (Some (refused (error_message e) 500))
  | None, None =>
      mret (if bool_decide (1 < default 0 (data members)) && bool_decide (default 0 (data admins) = 1)
            then Some (refused only_admin_message 409) else None)
  end.

(** The organizations in turn, until one stands in the way. *)
Definition check_orgs (orgs : list string) : P (option served) :=
  for_of (fun (found : option served) org => match found with Some _ => mret found | None => check_org org end) orgs None.

Definition account_DELETE : P served :=
  guarded (
    user ← tenant (gate requireAuthenticatedUser);
    _ ← tenant TenantServices.createServiceRoleSupabaseClient;
    adminRows ← ask (SelectAdminOrgs (user_id user));
    platformRows ← ask SelectOperators;
    match error adminRows, error platformRows with
    | Some e, _ | None, Some e => mret (refused (error_message e) 500)
    | None, None =>
        if bool_decide (default [] (data platformRows) = [user_id user]) then mret (refused only_operator_message 409)
        else
          found ← check_orgs (default [] (data adminRows));
          match found with
          | Some answer => mret answer
          | None =>
              r ← ask (DeleteUser (user_id user));
              mret (match error r with Some e => refused (error_message e) 500 | None => NoContent end)
          end
    end).

(** ** The greetings *)
Section greetings.
(** What Next's [redirect] throws; the routes' own [catch] answers it. *)
Variable redirect : string -> Thrown.

Definition active_org : P org_ident :=
  r ← tenant resolveActiveOrg;
  match r with inl url => raise_thrown (redirect url) | inr org => mret org end.

(** The answer to a session without a membership, then the active organization. *)
Definition in_active_org (memberless : served) (k : org_ident -> P served) : P served :=
  authorizedOrgIds ← tenant (gate requireAuthorizedOrgIds);
  if bool_decide (authorizedOrgIds = []) then mret memberless else org ← active_org; k org.

Definition open_session : P unit := tenant (gate OrgAccess.createServerSupabaseClient).

Definition amount_json (x : option number) : json := match x with Some x => JNum x | None => JNull end.

(** *** POST /api/account/credit-welcome *)
Definition greeting (firstView : bool) (grant : option number) : served :=
  jsonOk (JObj [("firstView", JBool firstView); ("welcomeGrantUsd", amount_json grant)]) no_store.

Definition ALREADY_EXISTS : string := "23505".

Definition credit_welcome_POST : P served :=
  guarded (
    user ← tenant (gate requireAuthenticatedUser);
    in_active_org (greeting false None) (fun org =>
      _ ← open_session;
      r ← ask (SelectLedger (org_uuid org));
      match readLaunchGrantUsd r with
      | None => mret (greeting false None)
      | Some grant =>
          if PrimFloat.leb grant PrimFloat.zero then mret (greeting false None)
          else
            w ← ask (InsertCreditWelcome (user_id user));
            mret (match error w with
                  | None => greeting true (Some grant)
                  | Some e => if bool_decide (error_code e = ALREADY_EXISTS) then greeting false (Some grant)
                              else refused (error_message e) 500
                  end)
      end)).

(** *** POST /api/account/welcome-trigger *)
Definition SILENT : served :=
  jsonOk (JObj [("show", JBool false); ("displayCreditUsd", JNull); ("showApiKey", JBool false)]) no_store.

(** [Number(v)] of a [numeric] column. *)
Definition column_number (v : option (number + string)) : number :=
  match v with None => PrimFloat.zero | Some (inl x) => x | Some (inr s) => to_number s end.

(** lib/billing/tool-accounts-server.ts, with these routes' services; its failure counts as no. *)
Definition is_yc (org : string) : P bool :=
  try_catch
    (_ ← open_session;
     r ← ask (YcLabel org);
     match error r with
     | Some e => raise_error ("Unable to load YC label: " +:+ error_message e)
     | None => mret (bool_decide (default [] (data r) <> []))
     end)
    (fun _ => mret false).

(** The figure to announce: the chosen one, else the launch grant. *)
Definition announced (org : string) (t : Trigger) : P (option number) :=
  let chosen := column_number (display_credit_usd t) in
  if is_finite chosen && PrimFloat.ltb PrimFloat.zero chosen then mret (Some chosen)
  else r ← ask (SelectLedger org); mret (readLaunchGrantUsd r).

Definition positive (x : option number) : option number :=
  x ← x; if PrimFloat.ltb PrimFloat.zero x then Some x else None.

Definition celebration (credit : option number) (show_key yc : bool) : served :=
  jsonOk (JObj [("show", JBool true); ("displayCreditUsd", amount_json (positive credit)); ("showApiKey", JBool show_key);
                ("isYcCompany", JBool yc)]) no_store.

Definition is_true (j : json) : bool := bool_decide (j = JBool true).

Definition welcome_trigger_POST : P served :=
  guarded (
    _ ← tenant (gate requireAuthenticatedUser);
    in_active_org SILENT (fun org =>
      _ ← open_session;
      r ← ask (SelectTrigger (org_uuid org));
      match data r with
      | None => mret SILENT
      | Some t =>
          if negb (is_true (trigger_active t)) then mret SILENT
          else
            w ← ask (RpcClaimShowing (org_uuid org) (triggered_at t));
            if bool_decide (error w = None) && bool_decide (data w = Some (JBool true)) then
              credit ← announced (org_uuid org) t;
              yc ← is_yc (org_uuid org);
              mret (celebration credit (is_true (trigger_show_api_key t)) yc)
            else mret SILENT
      end)).

(** *** GET /api/welcome *)
Definition no_org : served :=
  Answered (Response 404 (JObj [("code", JStr "no_org"); ("error", JStr "No organization membership yet.")])) None.

Definition welcome_json (org : org_ident) (key : option (json * json)) (canManageKeys yc : bool) (grant : option number)
    (billable : option json) : json :=
  JObj [("org", JObj [("id", JStr (org_uuid org)); ("slug", JStr (org_slug org))]);
        ("apiKey", match key with Some (prefix, suffix) => JObj [("keyPrefix", prefix); ("keySuffix", suffix)] | None => JNull end);
        ("canManageKeys", JBool canManageKeys); ("isYcCompany", JBool yc);
        ("credit", obj [("grantedUsd", Some (JNum (default PrimFloat.zero grant))); ("billableUsd", billable)])].

(** One of several promises: the others are asked all the same, and what it rejects with is thrown after. *)
Definition settle {A} (p : P A) : P (app_error + A) := try_catch (x ← p; mret (inr x)) (fun e => mret (inl e)).
Definition resolve {A} (r : app_error + A) : P A := match r with inl e => Throw e | inr x => mret x end.

Definition welcome_GET (env : Thrown + client) : P served :=
  guarded (
    user ← tenant (gate requireAuthenticatedUser);
    in_active_org no_org (fun org =>
      platformAdmin ← tenant (gate isPlatformAdmin);
      canManageKeys ← (if platformAdmin : bool then mret true else tenant (gate (isOrgAdmin (user_id user) (org_uuid org))));
      _ ← (if platformAdmin : bool then tenant TenantServices.createServiceRoleSupabaseClient else open_session);
      now ← tenant (@call tenant_effects app_error TenantClock);
      r ← ask (SelectNewestKey platformAdmin (org_uuid org) (iso_string now));
      match error r with
      | Some e => mret (refused (error_message e) 500)
      | None =>
          c ← getDataSource self_effects env;
          budget ← settle (acting self_effects (getOrgBudget c (org_uuid org)));
          ledger ← ask (SelectLedger (org_uuid org));
          yc ← is_yc (org_uuid org);
          budget ← resolve budget;
          billable ← field budget "billable_spend_usd";
          mret (jsonOk (welcome_json org (head (default [] (data r))) canManageKeys yc (readLaunchGrantUsd ledger) billable) no_store)
      end)).
End greetings.

(** ** Deletion *)
Implicit Types (tr : list (event own_account)).

Notation "'own_event' c x" := (@Ev own_account (Own self_effects c) x) (at level 10, c at level 9, x at level 9).

#[local] Abbreviation session tr u := (signed_in (tenant_events self_effects tr) u).

Definition deletes (e : event own_account) : bool := match e with Ev (Own _ (DeleteUser _)) _ => true | _ => false end.

Definition undeleted tr : Prop := forall e, e ∈ tr -> deletes e = false.

(** The operators were read, and were not the user alone. *)
Definition another_operator tr (user : string) : Prop :=
  exists r, own_event SelectOperators r ∈ tr /\ error r = None /\ default [] (data r) <> [user].

(** The organization was counted, and has not one admin over several members. *)
Definition not_needed tr (org : string) : Prop :=
  exists members admins, own_event (CountMembers org) members ∈ tr /\ own_event (CountAdmins org) admins ∈ tr /\
    error members = None /\ error admins = None /\ ~ (1 < default 0 (data members) /\ default 0 (data admins) = 1).

Definition no_org_needs tr (user : string) : Prop :=
  exists r, own_event (SelectAdminOrgs user) r ∈ tr /\ error r = None /\ forall org, org ∈ default [] (data r) -> not_needed tr org.

Definition deletion_needs tr (c : cmd self_effects) : Prop :=
  match c with
  | DeleteUser user => (exists u, session tr u /\ user_id u = user) /\ another_operator tr user /\ no_org_needs tr user /\ undeleted tr
  | SelectAdminOrgs user => exists u, session tr u /\ user_id u = user
  | SelectOperators | CountMembers _ | CountAdmins _ => True
  | _ => False
  end.

Definition deletion_licensed : list (event own_account) -> cmd own_account -> Prop :=
  route_licensed self_effects (fun _ c => c = OpenServiceRole) (fun _ _ => False) deletion_needs.

(** No content, exactly after a deletion that succeeded. *)
Definition deletion_outcome tr (o : outcome app_error served) : Prop :=
  match o with
  | Done s => failed s \/ (s = NoContent /\ exists user r, own_event (DeleteUser user) r ∈ tr /\ error r = None)
  | Raised _ => False
  end.

Section deletion.
#[local] Abbreviation I := (fun tr c => coherent (extended_reads self_effects) tr -> deletion_licensed tr c).
#[local] Abbreviation trying := (fun tr (o : outcome app_error served) => match o with Done _ => deletion_outcome tr o | Raised _ => True end).

Lemma refused_is_failed message http : 400 <= http -> failed (refused message http).
Proof. intros H. right. by exists message, http. Qed.

Lemma not_needed_mono tr tr' org : tr ⊆ tr' -> not_needed tr org -> not_needed tr' org.
Proof. intros Hg (m & a & H1 & H2 & H). exists m, a. auto. Qed.

Lemma undeleted_snoc tr e : undeleted tr -> deletes e = false -> undeleted (tr ++ [e]).
Proof. intros H He x [Hx|Hx%list_elem_of_singleton]%elem_of_app; [by apply H|by subst]. Qed.

(** The check of one organization: a refusal, or it is not needed. *)
Lemma check_org_spec tr org :
  undeleted tr ->
  spec I (fun tr' o => tr ⊆ tr' /\ undeleted tr' /\ match o with
      | Done (Some s) => failed s
      | Done None => not_needed tr' org
      | Raised _ => True end) tr (check_org org).
Proof.
  intros Hun. unfold check_org, on_own. exec_cbn. split; [done|]. intros members. split; [done|]. intros admins.
  set (tr2 := (tr ++ _) ++ _).
  assert (tr ⊆ tr2) as Hsub by (intros e He; apply elem_of_app; left; apply elem_of_app; by left).
  assert (undeleted tr2) as Hun2 by (by repeat apply undeleted_snoc).
  destruct (error members) as [e|] eqn:Hm; [|destruct (error admins) as [e|] eqn:Ha;
      [|destruct (bool_decide _ && bool_decide _) eqn:Hc]]; exec_cbn; (split; [done|]; split; [done|]).
  1-3: by apply refused_is_failed.
  exists members, admins. split; [in_trace|]. split; [in_trace|]. split; [done|]. split; [done|].
  intros [H1 H2]. rewrite !bool_decide_eq_true_2 in Hc by done. done.
Qed.

Lemma check_orgs_spec tr orgs :
  undeleted tr ->
  spec I (fun tr' o => tr ⊆ tr' /\ undeleted tr' /\ match o with
      | Done (Some s) => failed s
      | Done None => forall org, org ∈ orgs -> not_needed tr' org
      | Raised _ => True end) tr (check_orgs orgs).
Proof.
  intros Hun. unfold check_orgs.
  set (Inv := fun (visited : list string) tr' (found : option served) => tr ⊆ tr' /\ undeleted tr' /\
    match found with Some s => failed s | None => forall org, org ∈ visited -> not_needed tr' org end).
  eapply spec_post; [apply (spec_for_of I (fun tr' _ => tr ⊆ tr' /\ undeleted tr') Inv)|].
  - split; [done|]. split; [done|]. by intros org ?%elem_of_nil.
  - intros pre org post tr1 found _ (Hs & Hu & Hf). destruct found as [s|]; [by repeat split|].
    eapply spec_post; [by apply check_org_spec|]. intros tr2 [[s|]|e] (Hs2 & Hu2 & H2).
    1,2: split; [by etrans|]; split; [done|]. 1: done.
    + intros org' [Ho|Ho%list_elem_of_singleton]%elem_of_app; [by eapply not_needed_mono, Hf|by subst].
    + split; [by etrans|done].
  - intros tr' [s|e]; [by intros (H1 & H2 & H3)|]. intros [H1 H2]. by repeat split.
Qed.

(** Nobody is deleted while the gate is passed. *)
Lemma opening_undeleted tr : opening self_effects tr -> undeleted tr.
Proof.
  intros Ho e He. apply (proj1 (Forall_forall _ _) Ho) in He. by destruct e as [[c|r|c] x].
Qed.

Lemma account_user_step :
  spec I (fun tr o => opening self_effects tr /\ match o with Done u => session tr u | Raised _ => True end) []
    (tenant (gate requireAuthenticatedUser)).
Proof.
  apply (opening_step self_effects _ _ _ (fun t o => match o with Done u => signed_in t u | Raised _ => True end)).
  by apply user_step.
Qed.

Lemma session_mono tr tr' u : tr ⊆ tr' -> session tr u -> session tr' u.
Proof. intros Hg. apply signed_in_mono. by apply extended_tenant_events_mono. Qed.

Lemma elem_snoc tr tr' (e : event own_account) : tr ⊆ tr' -> tr ⊆ tr' ++ [e].
Proof. intros H e' He. apply elem_of_app. left. by apply H. Qed.

(** From the checked organizations on. *)
Lemma delete_step tr u adminRows platformRows :
  undeleted tr -> session tr u ->
  own_event (SelectAdminOrgs (user_id u)) adminRows ∈ tr -> error adminRows = None ->
  own_event SelectOperators platformRows ∈ tr -> error platformRows = None ->
  default [] (data platformRows) <> [user_id u] ->
  spec I trying tr
    (found ← check_orgs (default [] (data adminRows));
     match found with
     | Some answer => mret answer
     | None =>
         r ← ask (DeleteUser (user_id u));
         mret (match error r with Some e => refused (error_message e) 500 | None => NoContent end)
     end).
Proof.
  intros Hun Hu Ha Hae Hp Hpe Hne. apply spec_bind. eapply spec_post; [by apply check_orgs_spec|].
  intros tr' [[s|]|e] (Hsub & Hun' & H); [by left| |done].
  unfold on_own. exec_cbn. split.
  - intros _. split; [exists u; by split; [eapply session_mono|]|].
    split; [exists platformRows; auto|]. split; [exists adminRows; auto|done].
  - intros r. destruct (error r) eqn:Hr; [left; by apply refused_is_failed|].
    right. split; [done|]. exists (user_id u), r. split; [in_trace|done].
Qed.

Lemma account_DELETE_spec : spec I deletion_outcome [] account_DELETE.
Proof.
  unfold account_DELETE, guarded. apply spec_try. eapply (spec_post _ trying).
  2: { intros tr [s|e]; [done|]. intros _. left. left. by exists e. }
  apply spec_bind. eapply spec_post; [apply account_user_step|]. intros tr [u|e] [Ho Hu]; [|done].
  apply opening_undeleted in Ho as Hun.
  unfold on_tenant, TenantServices.createServiceRoleSupabaseClient, TenantServices.ask, on_own, answered, raise_thrown.
  exec_cbn. split; [done|]. intros [e|[]]; exec_cbn; [done|].
  split; [intros _; exists u; split; [by apply (session_mono tr); [apply elem_snoc|]|done]|]. intros adminRows.
  split; [done|]. intros platformRows.
  destruct (error adminRows) eqn:Ha; [left; by apply refused_is_failed|].
  destruct (error platformRows) eqn:Hp; [left; by apply refused_is_failed|].
  case_bool_decide; [left; by apply refused_is_failed|].
  apply (delete_step _ u adminRows platformRows); try done; [by repeat apply undeleted_snoc| |in_trace..].
  apply (session_mono tr); [by repeat apply elem_snoc|done].
Qed.

Lemma session_same tr tr' u : (forall e, e ∈ tr <-> e ∈ tr') -> session tr u -> session tr' u.
Proof. intros H. apply session_mono. intros e. apply H. Qed.

Lemma deletion_needs_same tr tr' c : (forall e, e ∈ tr <-> e ∈ tr') -> deletion_needs tr c -> deletion_needs tr' c.
Proof.
  intros Hs. destruct c; try done; simpl.
  - intros (u & Hu & Hid). exists u. by split; [eapply session_same|].
  - intros ((u & Hu & Hid) & (r & Hr & H1) & (r' & Hr' & H2 & H3) & Hun). split; [|split; [|split]].
    + exists u. by split; [eapply session_same|].
    + exists r. by split; [apply Hs|].
    + exists r'. split; [by apply Hs|]. split; [done|]. intros org Ho. eapply not_needed_mono; [|by apply H3]. intros e. apply Hs.
    + intros e He. by apply Hun, Hs.
Qed.

Lemma deletion_spec : spec deletion_licensed deletion_outcome [] (cached (extended_reads self_effects) account_DELETE).
Proof.
  apply cached_route; [by intros|done|apply deletion_needs_same| |].
  - intros tr tr' [s|e] Hs; [|done]. intros [H|(H & u & r & Hr & He)]; [by left|right].
    split; [done|]. exists u, r. by split; [apply Hs|].
  - eapply spec_post; [apply account_DELETE_spec|]. by intros.
Qed.
End deletion.

(** ** The membership store

    A database as the deletion sees it: what it reads is what it holds, deleting a user removes that user
    everywhere or does nothing, and nothing else the route asks changes who belongs where. *)
Section store.
Context {W : Type}.
Context (members admins : W -> string -> list string) (operators : W -> list string).

Record account_store (h : handler own_account W) : Prop := {
  reads_operators : forall w r, (h w (Own self_effects SelectOperators)).2 = r -> error r = None -> default [] (data r) = operators w;
  reads_admin_orgs : forall w user r org, (h w (Own self_effects (SelectAdminOrgs user))).2 = r -> error r = None ->
    user ∈ admins w org -> org ∈ default [] (data r);
  counts_members : forall w org r, (h w (Own self_effects (CountMembers org))).2 = r -> error r = None ->
    default 0 (data r) = Z.of_nat (length (members w org));
  counts_admins : forall w org r, (h w (Own self_effects (CountAdmins org))).2 = r -> error r = None ->
    default 0 (data r) = Z.of_nat (length (admins w org));
  holds_distinct : forall w org, NoDup (members w org) /\ NoDup (admins w org) /\ admins w org ⊆ members w org;
  operators_distinct : forall w, NoDup (operators w);
  deletes_everywhere : forall w user, let w' := (h w (Own self_effects (DeleteUser user))).1 in
    ((forall org, members w' org = members w org /\ admins w' org = admins w org) /\ operators w' = operators w) \/
    ((forall org, members w' org = filter (.≠ user) (members w org) /\ admins w' org = filter (.≠ user) (admins w org)) /\
      operators w' = filter (.≠ user) (operators w));
  others_read : forall w c, deletes (@Ev own_account c (h w c).2) = false -> let w' := (h w c).1 in
    (forall org, members w' org = members w org /\ admins w' org = admins w org) /\ operators w' = operators w;
}.

(** An organization with members and no admin. *)
Definition stranded (w : W) (org : string) : Prop := members w org <> [] /\ admins w org = [].

Definition same (w w' : W) : Prop :=
  (forall org, members w' org = members w org /\ admins w' org = admins w org) /\ operators w' = operators w.

(** Deletions asked by the sessions [hs], served one after the other. *)
Definition serve_deletions (hs : list (handler own_account W)) (w : W) : W :=
  foldl (fun w h => (run h (cached (extended_reads self_effects) account_DELETE) w).2) w hs.

Section one.
Context (h : handler own_account W) (Hstore : account_store h).

Lemma same_trans w1 w2 w3 : same w1 w2 -> same w2 w3 -> same w1 w3.
Proof.
  intros [H1 O1] [H2 O2]. split; [|congruence]. intros org. destruct (H1 org), (H2 org). split; congruence.
Qed.

Lemma undeleted_same tr w w' : follows h w tr w' -> undeleted tr -> same w w'.
Proof.
  revert w. induction tr as [|[c x] tr IH]; intros w Hf Hun; simpl in Hf; [by subst|].
  destruct Hf as [<- Hf]. eapply same_trans; [apply (others_read h Hstore); apply Hun; by left|].
  apply IH; [done|]. intros e He. apply Hun. by right.
Qed.

(** What a read before any deletion says of the store now. *)
Lemma read_now tr w w1 c x : follows h w tr w1 -> undeleted tr -> @Ev own_account c x ∈ tr ->
  exists w0, (h w0 c).2 = x /\ same w0 w1.
Proof.
  intros Hf Hun Hin. apply list_elem_of_split in Hin as (t1 & t2 & ->).
  apply follows_app in Hf as (w0 & _ & Hx & Hf). exists w0. split; [done|].
  assert (deletes (@Ev own_account c x) = false) as Hc by (apply Hun, elem_of_app; right; by left).
  eapply same_trans; [|eapply undeleted_same; [exact Hf|]].
  - rewrite <- Hx in Hc. by apply (others_read h Hstore).
  - intros e He. apply Hun, elem_of_app. right. by right.
Qed.

(** Of several distinct, one is someone else. *)
Lemma someone_else (l : list string) user : NoDup l -> l <> [] -> l <> [user] -> filter (.≠ user) l <> [].
Proof.
  intros Hnd Hne Hone Hf. destruct l as [|a [|b l]]; [done| |].
  - rewrite filter_cons in Hf. case_decide; [done|]. assert (a = user) by (by destruct (decide (a = user))). congruence.
  - apply NoDup_cons in Hnd as [Hab _].
    assert (forall x, x ∈ a :: b :: l -> x = user) as Hall.
    { intros x Hx. destruct (decide (x = user)); [done|].
      assert (x ∈ filter (.≠ user) (a :: b :: l)) as Hin by (by apply list_elem_of_filter).
      rewrite Hf in Hin. by apply elem_of_nil in Hin. }
    apply Hab. rewrite (Hall a), <- (Hall b); [left|right; left|left].
Qed.

Lemma deletion_step pre w w1 c org :
  follows h w pre w1 -> deletion_licensed pre c ->
  (operators w1 <> [] /\ ~ stranded w1 org) -> (operators (h w1 c).1 <> [] /\ ~ stranded (h w1 c).1 org).
Proof.
  intros Hf Hc Hinv. destruct (deletes (@Ev own_account c (h w1 c).2)) eqn:Hd.
  2: { destruct (others_read h Hstore w1 c Hd) as [Hv Ho]. unfold stranded. destruct (Hv org) as [-> ->]. by rewrite Ho. }
  destruct c as [c|r|[]]; try discriminate Hd.
  destruct Hc as (_ & (r & Hr & Hre & Hne) & (r' & Hr' & Hre' & Horgs) & Hun).
  destruct (deletes_everywhere h Hstore w1 user) as [[Hv Ho]|[Hv Ho]]; unfold stranded; destruct (Hv org) as [-> ->]; rewrite Ho; [done|].
  destruct Hinv as [Hop Hst]. split.
  - destruct (read_now _ _ _ _ _ Hf Hun Hr) as (w0 & Hw0 & _ & Hs). apply someone_else; [by apply (operators_distinct h Hstore)|done|].
    by rewrite Hs, <- (reads_operators h Hstore w0 r Hw0 Hre).
  - intros [Hm Ha]. destruct (holds_distinct h Hstore w1 org) as (Hnm & Hna & Hsub).
    assert (admins w1 org <> []) as Hane.
    { intros Hnil. apply Hst. split; [|done]. intros Hmn. by rewrite Hmn in Hm. }
    destruct (decide (admins w1 org = [user])) as [Hone|]; [|by apply (someone_else _ user Hna) in Ha].
    destruct (read_now _ _ _ _ _ Hf Hun Hr') as (w0 & Hw0 & Hv0 & _).
    destruct (Horgs org) as (rm & ra & Hrm & Hra & Hme & Hae & Hn).
    { apply (reads_admin_orgs h Hstore w0 user r' org Hw0 Hre'). destruct (Hv0 org) as [_ <-]. rewrite Hone. left. }
    destruct (read_now _ _ _ _ _ Hf Hun Hrm) as (wm & Hwm & Hvm & _), (read_now _ _ _ _ _ Hf Hun Hra) as (wa & Hwa & Hva & _).
    rewrite (counts_members h Hstore wm org rm Hwm Hme), (counts_admins h Hstore wa org ra Hwa Hae) in Hn.
    destruct (Hvm org) as [Em _], (Hva org) as [_ Ea]. rewrite <- Em, <- Ea, Hone in Hn.
    assert (members w1 org <> [user]) as Hmu.
    { intros Hmu. rewrite Hmu, filter_cons in Hm. by rewrite decide_False in Hm by naive_solver. }
    assert (user ∈ members w1 org) as Hin by (apply Hsub; rewrite Hone; left).
    destruct (members w1 org) as [|a [|b l]]; [by apply elem_of_nil in Hin| |apply Hn; simpl; lia].
    apply list_elem_of_singleton in Hin. by subst.
Qed.

Lemma deletion_keeps w org :
  operators w <> [] /\ ~ stranded w org ->
  let w' := (run h (cached (extended_reads self_effects) account_DELETE) w).2 in operators w' <> [] /\ ~ stranded w' org.
Proof.
  intros H. cbv zeta. apply (run_keeps h deletion_licensed deletion_outcome _ (fun w => operators w <> [] /\ ~ stranded w org));
    [apply deletion_spec|done|].
  intros pre w1 c Hf Hc Hw. by eapply deletion_step.
Qed.
End one.
End store.

(** ** The greetings

    What a thread of each route says of its greeting: it is shown exactly when its claim succeeded. *)
Section shown.
Context (redirect : string -> Thrown).

#[local] Abbreviation free := (fun (_ : list (event own_account)) (_ : cmd own_account) => True).

(** Only the tenant services were asked. *)
Definition tenant_only tr tr' : Prop := exists q, tr' = tr ++ q /\ Forall (fun e : event own_account => is_Some (tenant_event self_effects e)) q.

Lemma tenant_only_trans tr1 tr2 tr3 : tenant_only tr1 tr2 -> tenant_only tr2 tr3 -> tenant_only tr1 tr3.
Proof. intros (q & -> & ?) (q' & -> & ?). exists (q ++ q'). rewrite app_assoc. by split; [|apply Forall_app]. Qed.

Lemma tenant_only_subset tr tr' : tenant_only tr tr' -> tr ⊆ tr'.
Proof. intros (q & -> & _) e He. apply elem_of_app. by left. Qed.

Lemma tenant_step {A} tr (p : prog tenant_effects app_error A) : spec free (fun tr' _ => tenant_only tr tr') tr (tenant p).
Proof.
  eapply spec_post.
  - eapply (spec_embed (E := tenant_effects) (F := own_account) (Shared self_effects) (fun c x => x) (fun e => e) (tenant_events self_effects)
      ltac:(intros; by rewrite extended_tenant_events_app) (fun _ _ => True) (fun _ _ => True)); [done|apply spec_any].
  - intros tr' o [(q & -> & Hq) _]. exists q. split; [done|]. eapply Forall_impl; [exact Hq|]. intros e (c & x & ->). by eexists.
Qed.

Lemma user_found : spec free (fun tr o => tenant_only [] tr /\ match o with Done u => session tr u | Raised _ => True end) []
  (tenant (gate requireAuthenticatedUser)).
Proof.
  eapply spec_impl; [..|apply (spec_and _ _ _ _ [] _ (tenant_step [] _) account_user_step)]; [done|].
  intros tr o [H [_ Hu]]. by split.
Qed.

(** The greeting's row was inserted; the showing was claimed. *)
Definition inserted (e : event own_account) : bool :=
  match e with
  | Ev (Own _ c) x =>
      match c return self_ans c -> bool with
      | InsertCreditWelcome _ => fun r => bool_decide (error r = None)
      | _ => fun _ => false
      end x
  | _ => false
  end.

Definition claimed (e : event own_account) : bool :=
  match e with
  | Ev (Own _ c) x =>
      match c return self_ans c -> bool with
      | RpcClaimShowing _ _ => fun r => bool_decide (error r = None) && bool_decide (data r = Some (JBool true))
      | _ => fun _ => false
      end x
  | _ => false
  end.

Definition none_of (won : event own_account -> bool) tr : Prop := forall e, e ∈ tr -> won e = false.

Lemma none_of_snoc won tr e : none_of won tr -> won e = false -> none_of won (tr ++ [e]).
Proof. intros H He x [Hx|Hx%list_elem_of_singleton]%elem_of_app; [by apply H|by subst]. Qed.

Lemma none_of_tenant won tr tr' :
  (forall (c : tenant_cmd) x, won (@Ev own_account (Shared self_effects c) x) = false) ->
  tenant_only tr tr' -> none_of won tr -> none_of won tr'.
Proof.
  intros Hw (q & -> & Hq) H e [He|He]%elem_of_app; [by apply H|].
  apply (proj1 (Forall_forall _ _) Hq) in He as [x Hx]. destruct e as [[c|r|c] y]; [apply Hw|done|done].
Qed.

(** A route that resolves the active organization: it has nothing to show until then. *)
Lemma in_active_org_spec R tr memberless (k : org_ident -> P served) :
  (forall tr', tenant_only tr tr' -> R tr' (Done memberless)) ->
  (forall tr' e, tenant_only tr tr' -> R tr' (Raised e)) ->
  (forall tr' org, tenant_only tr tr' -> spec free R tr' (k org)) ->
  spec free R tr (in_active_org redirect memberless k).
Proof.
  intros Hm He Hk. unfold in_active_org. apply spec_bind. eapply spec_post; [apply tenant_step|].
  intros tr1 [ids|e] H1; [|by apply He]. case_bool_decide; [by apply Hm|].
  apply spec_bind. unfold active_org. apply spec_bind. eapply spec_post; [apply tenant_step|].
  intros tr2 [[url|org]|e] H2; pose proof (tenant_only_trans _ _ _ H1 H2); unfold raise_thrown; exec_cbn; auto.
Qed.

(** *** The credit greeting *)
Definition credit_outcome tr (o : outcome app_error served) : Prop :=
  match o with
  | Done s =>
      (forall g, s = greeting true g -> exists u r org ledger grant, session tr u /\
        own_event (InsertCreditWelcome (user_id u)) r ∈ tr /\ error r = None /\
        own_event (SelectLedger org) ledger ∈ tr /\ readLaunchGrantUsd ledger = Some grant /\
        g = Some grant /\ PrimFloat.leb grant PrimFloat.zero = false) /\
      (forall e, e ∈ tr -> inserted e = true -> exists g, s = greeting true g)
  | Raised _ => False
  end.

Lemma silent_credit tr s : none_of inserted tr -> (forall g, s <> greeting true g) -> credit_outcome tr (Done s).
Proof. intros Hn Hs. split; [by intros g ?%Hs|]. intros e He Hi. by rewrite Hn in Hi. Qed.

Lemma credit_welcome_spec : spec free credit_outcome [] (credit_welcome_POST redirect).
Proof.
  unfold credit_welcome_POST, guarded. apply spec_try.
  eapply (spec_post _ (fun tr o => match o with Done _ => credit_outcome tr o | Raised _ => none_of inserted tr end)).
  2: { intros tr [s|e]; [done|]. intros Hn. exec_cbn. by apply silent_credit. }
  apply spec_bind. eapply spec_post; [apply user_found|]. intros tr0 [u|e] [H0 Hu].
  all: assert (none_of inserted tr0) as N0 by (eapply none_of_tenant; [..|exact H0|]; [done|intros e' He'; by apply elem_of_nil in He']).
  2: done.
  apply in_active_org_spec.
  - intros tr1 H1. apply silent_credit; [by eapply none_of_tenant|done].
  - intros tr1 e H1. by eapply none_of_tenant.
  - intros tr1 org H1. apply spec_bind. eapply spec_post; [apply tenant_step|]. intros tr2 o H2.
    assert (tenant_only tr0 tr2) as H02 by (by eapply tenant_only_trans).
    assert (none_of inserted tr2) as N2 by (by eapply none_of_tenant).
    destruct o as [[]|e]; [|done]. unfold on_own. exec_cbn. split; [done|]. intros ledger.
    destruct (readLaunchGrantUsd ledger) as [grant|] eqn:Hg; [|apply silent_credit; [by apply none_of_snoc|done]].
    destruct (PrimFloat.leb grant PrimFloat.zero) eqn:Hpos; [apply silent_credit; [by apply none_of_snoc|done]|].
    exec_cbn. split; [done|]. intros r. set (tr3 := (tr2 ++ _) ++ _).
    destruct (error r) as [err|] eqn:He; exec_cbn.
    + assert (none_of inserted tr3) as N3.
      { apply none_of_snoc; [by apply none_of_snoc|]. simpl. by rewrite He. }
      case_bool_decide; by apply silent_credit.
    + split; [|by eexists]. intros g Heq.
      assert (g = Some grant) as -> by (unfold greeting, jsonOk in Heq; injection Heq; by destruct g as [x|]; intros [= ->]).
      exists u, r, (org_uuid org), ledger, grant. split; [|split; [in_trace|]; split; [done|]; split; [in_trace|done]].
      eapply session_mono; [|exact Hu]. do 2 apply elem_snoc. by apply tenant_only_subset.
Qed.

(** *** The celebration *)
Definition shows (s : served) : Prop := exists credit show_key yc, s = celebration credit show_key yc.

Definition trigger_outcome tr (o : outcome app_error served) : Prop :=
  match o with
  | Done s => shows s <-> exists e, e ∈ tr /\ claimed e = true
  | Raised _ => False
  end.

Lemma silent_trigger tr s : none_of claimed tr -> ~ shows s -> trigger_outcome tr (Done s).
Proof. intros Hn Hs. split; [done|]. intros (e & He & Hc). by rewrite Hn in Hc. Qed.

Lemma silent_not_shown : ~ shows SILENT.
Proof. by intros (? & ? & ? & ?). Qed.

Lemma is_yc_total tr org : spec free (fun tr' o => match o with Done _ => tr ⊆ tr' | Raised _ => False end) tr (is_yc org).
Proof.
  unfold is_yc. apply spec_try, spec_bind. eapply spec_post; [apply tenant_step|].
  intros tr1 [[]|e] H1%tenant_only_subset; [|done]. unfold on_own, raise_error, raise_thrown. exec_cbn. split; [done|].
  intros r. destruct (error r); exec_cbn; by apply elem_snoc.
Qed.

Lemma announced_total tr org t : spec free (fun tr' o => match o with Done _ => tr ⊆ tr' | Raised _ => False end) tr (announced org t).
Proof. unfold announced, on_own. case_match; exec_cbn; [done|]. split; [done|]. intros r. by apply elem_snoc. Qed.

Lemma welcome_trigger_spec : spec free trigger_outcome [] (welcome_trigger_POST redirect).
Proof.
  unfold welcome_trigger_POST, guarded. apply spec_try.
  eapply (spec_post _ (fun tr o => match o with Done _ => trigger_outcome tr o | Raised _ => none_of claimed tr end)).
  2: { intros tr [s|e]; [done|]. intros Hn. exec_cbn. apply silent_trigger; [done|]. by intros (? & ? & ? & ?). }
  apply spec_bind. eapply spec_post; [apply tenant_step|]. intros tr0 o H0.
  assert (none_of claimed tr0) as N0 by (eapply none_of_tenant; [..|exact H0|]; [done|intros e' He'; by apply elem_of_nil in He']).
  destruct o as [u|e]; [|done]. apply in_active_org_spec.
  - intros tr1 H1. apply silent_trigger; [by eapply none_of_tenant|apply silent_not_shown].
  - intros tr1 e H1. by eapply none_of_tenant.
  - intros tr1 org H1. apply spec_bind. eapply spec_post; [apply tenant_step|]. intros tr2 o H2.
    assert (none_of claimed tr2) as N2 by (eapply none_of_tenant; [done| |exact N0]; by eapply tenant_only_trans).
    destruct o as [[]|e]; [|done]. unfold on_own. exec_cbn. split; [done|]. intros r.
    destruct (data r) as [t|]; [|apply silent_trigger; [by apply none_of_snoc|apply silent_not_shown]].
    destruct (negb _); [apply silent_trigger; [by apply none_of_snoc|apply silent_not_shown]|].
    exec_cbn. split; [done|]. intros w. set (tr3 := (tr2 ++ _) ++ _).
    destruct (bool_decide _ && bool_decide _) eqn:Hc.
    2: { apply silent_trigger; [|apply silent_not_shown]. apply none_of_snoc; [by apply none_of_snoc|exact Hc]. }
    apply spec_bind. eapply spec_post; [apply announced_total|]. intros tr4 [credit|e] H4; [|done].
    apply spec_bind. eapply spec_post; [apply is_yc_total|]. intros tr5 [yc|e] H5; [|done].
    split; [|by eexists _, _, _]. intros _. exists (own_event (RpcClaimShowing (org_uuid org) (triggered_at t)) w).
    split; [|exact Hc]. apply H5, H4. in_trace.
Qed.
End shown.

(** ** Several tabs at once *)
Section tabs.
Context {W : Type} (h : handler own_account W).

Abbreviation tab := (P served).

Definition ended (t : tab) : Prop := exists s, t = Ret s.

(** Of the tabs, at most one has an answer that [shows]; and one has, once all have answered, if what
    is shown was not [before] and is [after]. *)
Definition shown_once (shows : served -> Prop) (tabs : list tab) (before after : Prop) : Prop :=
  (forall i j s s', tabs !! i = Some (Ret s) -> shows s -> tabs !! j = Some (Ret s') -> shows s' -> i = j) /\
  (~ before -> after -> Forall ended tabs -> exists i s, tabs !! i = Some (Ret s) /\ shows s).

Lemma takes_shown_once (won : event own_account -> bool) (taken : W -> Prop) answers (shows : served -> Prop) Q p n w sched :
  (forall w c, won (Ev c (h w c).2) = true -> ~ taken w /\ taken (h w c).1) ->
  (forall w c, won (Ev c (h w c).2) = false -> taken (h w c).1 <-> taken w) ->
  (forall w c, answers (Ev c (h w c).2)) ->
  spec (fun _ _ => True) Q [] p ->
  (forall tr s, Forall answers tr -> Q tr (Done s) -> shows s <-> exists e, e ∈ tr /\ won e = true) ->
  let st := pool h (w, repeat p n) sched in shown_once shows st.2 (taken w) (taken st.1).
Proof.
  intros Ht Hs Ha Hp HQ. cbv zeta.
  destruct (pool_takes_once h won taken answers Ht Hs Ha (fun _ _ => True) Q w (repeat p n) sched) as (hs & Hsp & Han & Hone & Hall).
  { apply Forall_forall. by intros q ->%list_elem_of_In%repeat_spec. }
  assert (forall i s, (pool h (w, repeat p n) sched).2 !! i = Some (Ret s) -> exists tr, hs !! i = Some tr /\
    (shows s <-> exists e, e ∈ tr /\ won e = true)) as Hi.
  { intros i s Hi. destruct (Forall2_lookup_r _ _ _ _ _ Hsp Hi) as (tr & Htr & HQi). exists tr. split; [done|].
    apply HQ; [by eapply Forall_lookup_1|exact HQi]. }
  split.
  - intros i j s s' H1 S1 H2 S2. apply Hone.
    + destruct (Hi i s H1) as (tr & Htr & Hw). destruct (proj1 Hw S1) as (e & He & Hwe). by exists tr, e.
    + destruct (Hi j s' H2) as (tr & Htr & Hw). destruct (proj1 Hw S2) as (e & He & Hwe). by exists tr, e.
  - intros Hb Hta Hend. apply Hall in Hta as [?|(i & tr & e & Htr & He & Hwe)]; [done|].
    destruct (Forall2_lookup_l _ _ _ _ _ Hsp Htr) as (t & Hti & _).
    destruct (Forall_lookup_1 _ _ _ _ Hend Hti) as [s ->]. exists i, s. split; [done|].
    destruct (Hi i s Hti) as (tr' & Htr' & Hw). rewrite Htr in Htr'. injection Htr' as <-. apply Hw. eauto.
Qed.

(** The sessions are the user's. *)
Definition session_of (user : string) : Prop :=
  forall w r claims u, (h w (Shared self_effects (Gate SessionClaims))).2 = inr r -> data r = Some claims ->
    authenticatedUserFromClaims claims = Some u -> user_id u = user.

(** A unique row: an insert that succeeds found none and leaves one, and nothing else changes it. *)
Record unique_greeting (user : string) (greeted : W -> Prop) : Prop := {
  insert_takes : forall w r, (h w (Own self_effects (InsertCreditWelcome user))).2 = r -> error r = None ->
    ~ greeted w /\ greeted (h w (Own self_effects (InsertCreditWelcome user))).1;
  insert_refused : forall w r, (h w (Own self_effects (InsertCreditWelcome user))).2 = r -> error r <> None ->
    greeted (h w (Own self_effects (InsertCreditWelcome user))).1 <-> greeted w;
  others_greet : forall w c, c <> Own self_effects (InsertCreditWelcome user) -> greeted (h w c).1 <-> greeted w;
}.

(** One activation: a claim that answers [true] found it unseen and leaves it seen, and nothing else
    changes that. *)
Record one_activation (seen : W -> Prop) : Prop := {
  claim_takes : forall w c, claimed (Ev c (h w c).2) = true -> ~ seen w /\ seen (h w c).1;
  others_see : forall w c, claimed (Ev c (h w c).2) = false -> seen (h w c).1 <-> seen w;
}.

Context (redirect : string -> Thrown).

#[local] Abbreviation cached_route p := (cached (extended_reads self_effects) p).

Definition greets (s : served) : Prop := exists g, s = greeting true g.

Definition of_user (user : string) (e : event own_account) : Prop :=
  match e with
  | Ev (Shared _ (Gate c)) x =>
      match c return access_ans c -> Prop with
      | SessionClaims => fun x => forall r claims u, x = inr r -> data r = Some claims ->
          authenticatedUserFromClaims claims = Some u -> user_id u = user
      | _ => fun _ => True
      end x
  | _ => True
  end.

Definition inserted_for (user : string) (e : event own_account) : bool :=
  inserted e && match e with Ev (Own _ (InsertCreditWelcome u)) _ => bool_decide (u = user) | _ => false end.

Lemma session_is user tr u : Forall (of_user user) tr -> session tr u -> user_id u = user.
Proof.
  intros Hall (_ & claims & (r & Hr & He & Hd) & Hu).
  apply list_elem_of_omap in Hr as (e & He1 & He2). apply gate_event_Some in He2 as ->.
  apply list_elem_of_omap in He1 as (e & He1 & He2). apply extended_tenant_event_Some in He2 as ->.
  apply (proj1 (Forall_forall _ _) Hall) in He1. by eapply He1.
Qed.

Lemma credit_cached : spec (fun _ _ => True) credit_outcome [] (cached_route (credit_welcome_POST redirect)).
Proof.
  apply spec_cached; [done| |].
  - intros tr tr' [s|e] Hs; [|done]. intros [H1 H2]. split; [|intros e He; by apply H2, Hs].
    intros g Hg. destruct (H1 g Hg) as (u & r & org & ledger & grant & Hu & Hr & He & Hl & H).
    exists u, r, org, ledger, grant. split; [by eapply session_same|]. split; [by apply Hs|]. split; [done|]. split; [by apply Hs|done].
  - eapply spec_impl; [..|apply credit_welcome_spec]; auto.
Qed.

Lemma trigger_cached : spec (fun _ _ => True) trigger_outcome [] (cached_route (welcome_trigger_POST redirect)).
Proof.
  apply spec_cached; [done| |].
  - intros tr tr' [s|e] Hs; [|done]. simpl. intros ->. split; intros (e & He & Hc); exists e; split; try done; by apply Hs.
  - eapply spec_impl; [..|apply welcome_trigger_spec]; auto.
Qed.

(** The user's tabs: the greeting of [user] is shown once. *)
Lemma credit_once user greeted n w sched :
  session_of user -> unique_greeting user greeted ->
  let st := pool h (w, repeat (cached_route (credit_welcome_POST redirect)) n) sched in
  shown_once greets st.2 (greeted w) (greeted st.1).
Proof.
  intros Hses Hu. apply (takes_shown_once (inserted_for user) greeted (of_user user) greets credit_outcome).
  - intros w1 [c|r|[]]; try done. unfold inserted_for. cbn -[bool_decide]. intros [He Hu']%andb_true_iff.
    apply bool_decide_eq_true in He, Hu'. subst user0. exact (insert_takes _ _ Hu w1 _ eq_refl He).
  - intros w1 c Hc. destruct (decide (c = Own self_effects (InsertCreditWelcome user))) as [->|Hne]; [|by apply (others_greet _ _ Hu)].
    unfold inserted_for in Hc. cbn -[bool_decide] in Hc.
    rewrite (bool_decide_eq_true_2 (user = user)), andb_true_r in Hc by done. apply bool_decide_eq_false in Hc.
    exact (insert_refused _ _ Hu w1 _ eq_refl Hc).
  - intros w1 [[]|r|c]; try done. destruct c; try done. simpl. intros r claims u Hr Hd Hau. by eapply Hses.
  - apply credit_cached.
  - intros tr s Hall [H1 H2]. split.
    + intros [g Hg]. destruct (H1 g Hg) as (u & r & org & ledger & grant & Hsu & Hr & He & _).
      exists (own_event (InsertCreditWelcome (user_id u)) r). split; [done|]. unfold inserted_for. cbn -[bool_decide].
      rewrite (session_is user tr u Hall Hsu). by rewrite !bool_decide_eq_true_2.
    + intros (e & He & [Hi _]%andb_true_iff). by eapply H2.
Qed.

(** The tabs of a session: a celebration is shown once per activation. *)
Lemma celebration_once seen n w sched :
  one_activation seen ->
  let st := pool h (w, repeat (cached_route (welcome_trigger_POST redirect)) n) sched in
  shown_once shows st.2 (seen w) (seen st.1).
Proof.
  intros Hs. apply (takes_shown_once claimed seen (fun _ => True) shows trigger_outcome); try done.
  - apply (claim_takes _ Hs).
  - apply (others_see _ Hs).
  - apply trigger_cached.
Qed.
End tabs.

(** C21. Deleting accounts strands nobody: whatever users delete their accounts, served one after the
    other over a store that reads back what it holds, a deployment that has an operator keeps one, and an
    organization that is not left with members but no admin is never left so. *)
Theorem deletion_strands_nobody {W} members admins operators (hs : list (handler own_account W)) w org :
  Forall (account_store members admins operators) hs ->
  operators w <> [] -> ~ stranded members admins w org ->
  operators (serve_deletions hs w) <> [] /\ ~ stranded members admins (serve_deletions hs w) org.
Proof.
  intros Hhs Hop Hst. unfold serve_deletions. revert w Hop Hst.
  induction Hhs as [|h hs Hh _ IH]; intros w Hop Hst; simpl; [done|].
  destruct (deletion_keeps members admins operators h Hh w org (conj Hop Hst)). by apply IH.
Qed.

(** ** A concrete store: the members of organization ["o1"], the operators, and whose sessions come next *)
Module Demo.
Record world := World { rows : list (string * bool); platform : list string; sessions : list string }.

Definition in_o1 {A} (org : string) (l : list A) : list A := if bool_decide (org = "o1") then l else [].

Definition members (w : world) (org : string) : list string := in_o1 org (remove_dups (rows w).*1).

Definition admins (w : world) (org : string) : list string :=
  in_o1 org (filter (fun u => (u, true) ∈ rows w) (remove_dups (rows w).*1)).

Definition operators (w : world) : list string := remove_dups (platform w).

Definition claims (w : world) : Thrown + db_result json :=
  inr match sessions w with [] => DbResult None None | u :: _ => db_ok (JObj [("sub", JStr u)]) end.

Definition handle : handler own_account world :=
  fun w c =>
    (match c with
     | Shared _ (Gate SessionClaims) => World (rows w) (platform w) (tail (sessions w))
     | Own _ (DeleteUser user) =>
         World (filter (fun r => r.1 <> user) (rows w)) (filter (fun u => u <> user) (platform w)) (sessions w)
     | _ => w
     end,
     match c return extended_ans self_effects c with
     | Shared _ c =>
         match c return tenant_ans c with
         | Gate c => match c return access_ans c with SessionClaims => claims w | c => ApiKeys.Demo.access_answer c end
         | c => (ApiKeys.Demo.handle (ApiKeys.Demo.World None []) c).2
         end
     | Backend _ _ => inl (new_Error "offline")
     | Own _ c =>
         match c return self_ans c with
         | SelectAdminOrgs user => db_ok (if bool_decide (user ∈ admins w "o1") then ["o1"] else [])
         | SelectOperators => db_ok (operators w)
         | CountMembers org => db_ok (Z.of_nat (length (members w org)))
         | CountAdmins org => db_ok (Z.of_nat (length (admins w org)))
         | DeleteUser _ | InsertCreditWelcome _ => db_ok tt
         | SelectLedger _ => db_ok []
         | SelectTrigger _ => DbResult None None
         | RpcClaimShowing _ _ => db_ok JNull
         | SelectNewestKey _ _ _ => db_ok []
         | YcLabel _ => db_ok []
         end
     end).

Definition start : world := World [("u1", true); ("u2", true); ("u3", false)] ["u1"; "u2"] ["u1"; "u2"; "u3"].

Lemma remove_dups_filter (user : string) l : remove_dups (filter (fun u => u <> user) l) = filter (fun u => u <> user) (remove_dups l).
Proof.
  induction l as [|a l IH]; [done|]. rewrite filter_cons. simpl.
  destruct (decide (a <> user)) as [Ha|Ha]; simpl; rewrite IH.
  - destruct (decide_rel _ a l) as [Hin|Hin], (decide_rel _ a (filter _ l)) as [Hf|Hf]; rewrite list_elem_of_filter in Hf;
      [done|naive_solver|naive_solver|by rewrite filter_cons_True].
  - destruct (decide_rel _ a l); [done|]. by rewrite filter_cons_False.
Qed.

Lemma without_names user (l : list (string * bool)) : (filter (fun r => r.1 <> user) l).*1 = filter (fun u => u <> user) l.*1.
Proof.
  induction l as [|[a b] l IH]; [done|]. rewrite fmap_cons. destruct (decide (a <> user)).
  - rewrite !filter_cons_True by done. by rewrite fmap_cons, IH.
  - by rewrite !filter_cons_False.
Qed.

Lemma in_o1_filter {A} org (f : list A -> list A) (l : list A) : f [] = [] -> in_o1 org (f l) = f (in_o1 org l).
Proof. intros H. unfold in_o1. by case_bool_decide. Qed.

Lemma admins_without user w org : admins (handle w (Own self_effects (DeleteUser user))).1 org = filter (fun u => u <> user) (admins w org).
Proof.
  unfold admins. simpl. rewrite without_names, remove_dups_filter.
  rewrite <- (in_o1_filter org (filter (fun u => u <> user))) by done. f_equal.
  rewrite !list_filter_filter. apply list_filter_iff. intros x. rewrite list_elem_of_filter. simpl. tauto.
Qed.

Lemma deletion_store : account_store members admins operators handle.
Proof.
  split.
  - by intros w r <-.
  - intros w user r org <- _. simpl. unfold admins at 1, in_o1. case_bool_decide as Ho; [|by intros ?%elem_of_nil].
    intros Hu. rewrite bool_decide_eq_true_2; [subst; left|exact Hu].
  - by intros w org r <-.
  - by intros w org r <-.
  - intros w org. unfold members, admins, in_o1. case_bool_decide; [|by repeat split; try constructor].
    split; [apply NoDup_remove_dups|]. split; [apply NoDup_filter, NoDup_remove_dups|]. by intros x [_ ?]%list_elem_of_filter.
  - intros w. apply NoDup_remove_dups.
  - intros w user. right. split; [intros org; split; [|apply admins_without]|]; unfold members, operators; simpl.
    + rewrite without_names, remove_dups_filter. by apply (in_o1_filter org (filter (fun u => u <> user))).
    + apply remove_dups_filter.
  - intros w [c|r|c] Hc; [destruct c; try done; by destruct c|done|by destruct c].
Qed.
End Demo.

Lemma deletion_strands_nobody_witness :
  let w := serve_deletions [Demo.handle; Demo.handle; Demo.handle] Demo.start in
  Demo.operators w <> [] /\ ~ stranded Demo.members Demo.admins w "o1".
Proof.
  apply (deletion_strands_nobody Demo.members Demo.admins Demo.operators [Demo.handle; Demo.handle; Demo.handle] Demo.start "o1").
  - repeat (constructor; [apply Demo.deletion_store|]). constructor.
  - vm_compute. discriminate.
  - vm_compute. intros [_ H]. discriminate H.
Defined.

(** In turn: the first leaves, the second is the only operator and stays, the third leaves. *)
Example deletions_in_turn :
  let w := serve_deletions [Demo.handle; Demo.handle; Demo.handle] Demo.start in
  Demo.members w "o1" = ["u2"] /\ Demo.admins w "o1" = ["u2"] /\ Demo.operators w = ["u2"].
Proof. vm_compute. repeat split. Qed.

(** Served together, two deletions may both read both admins before either deletes; the organization
    is left with a member and no admin, and the deployment without an operator. *)
Theorem concurrent_deletions_strand :
  let deletion := cached (extended_reads self_effects) account_DELETE in
  let w := (pool Demo.handle (Demo.start, [deletion; deletion]) (repeat 0 8 ++ repeat 1 8 ++ [0; 1])%nat).1 in
  stranded Demo.members Demo.admins w "o1" /\ Demo.operators w = [].
Proof. vm_compute. repeat split. discriminate. Qed.

(** C32. A greeting is shown once: of a user's tabs, opened at the same instant and interleaved in any way,
    at most one is told that its view of the credit greeting is the first, and at most one to show an
    activation's celebration; and the claim is not lost, for once every tab is answered, a greeting or a
    celebration that was claimed in between is shown by one of them. *)
Theorem greetings_shown_once {W} (h : handler own_account W) redirect user greeted seen n w sched :
  session_of h user -> unique_greeting h user greeted -> one_activation h seen ->
  (let st := pool h (w, repeat (cached (extended_reads self_effects) (credit_welcome_POST redirect)) n) sched in
    shown_once greets st.2 (greeted w) (greeted st.1)) /\
  (let st := pool h (w, repeat (cached (extended_reads self_effects) (welcome_trigger_POST redirect)) n) sched in
    shown_once shows st.2 (seen w) (seen st.1)).
Proof. intros Hses Hu Ha. split; [by apply credit_once with user|by apply celebration_once]. Qed.

(** *** A concrete user: ["u1"], of organization ["o1"], granted $20, whose celebration is armed *)
Module Tabs.
Record world := World { greeted : bool; seen : bool }.

Definition grant : GrantRow := {| grant_entry_type := JStr "grant"; grant_amount := JNum 20%float; grant_source_ref := JNull |}.

Definition handle : handler own_account world :=
  fun w c =>
    (match c with
     | Own _ (InsertCreditWelcome "u1") => World true (seen w)
     | Own _ (RpcClaimShowing _ _) => World (greeted w) true
     | _ => w
     end,
     match c return extended_ans self_effects c with
     | Shared _ c => (ActiveOrg.demo_answer [ActiveOrg.o1] None tt c).2
     | Backend _ _ => inl (new_Error "offline")
     | Own _ c =>
         match c return self_ans c with
         | InsertCreditWelcome "u1" =>
             if greeted w then DbResult None (Some {| error_code := ALREADY_EXISTS; error_message := "duplicate key" |}) else db_ok tt
         | InsertCreditWelcome _ => db_ok tt
         | RpcClaimShowing _ _ => db_ok (JBool (negb (seen w)))
         | SelectTrigger _ => db_ok {| trigger_active := JBool true; display_credit_usd := Some (inr "50.00");
                                       trigger_show_api_key := JBool true; triggered_at := JStr "2026-01-01" |}
         | SelectLedger _ => db_ok [grant]
         | c => (Demo.handle Demo.start (Own self_effects c)).2
         end
     end).

Definition tabs (p : P served) : world * list (P served) := (World false false, repeat (cached (extended_reads self_effects) p) 2).

Definition redirect (url : string) : Thrown := new_Error "NEXT_REDIRECT".
End Tabs.

(** Both tabs ask together; the first to claim shows it. *)
Example tabs_together :
  let together := repeat 0%nat 30 ++ repeat 1%nat 30 in
  (pool Tabs.handle (Tabs.tabs (credit_welcome_POST Tabs.redirect)) (repeat 1 10 ++ together)%nat).2 =
    [Ret (greeting true (Some 20%float)); Ret (greeting false (Some 20%float))] /\
  (pool Tabs.handle (Tabs.tabs (welcome_trigger_POST Tabs.redirect)) (repeat 1 10 ++ together)%nat).2 =
    [Ret (celebration (Some 50%float) true false); Ret SILENT].
Proof. vm_compute. repeat split. Qed.

Lemma tabs_session : session_of Tabs.handle "u1".
Proof. intros w r claims u. simpl. intros [= <-]. simpl. intros [= <-]. vm_compute. by intros [= <-]. Qed.

Lemma tabs_greeting : unique_greeting Tabs.handle "u1" (fun w => Tabs.greeted w = true).
Proof.
  split.
  - intros w r <-. simpl. destruct (Tabs.greeted w) eqn:Hg; simpl; [done|]. intros _. split; [discriminate|done].
  - intros w r <-. simpl. by destruct (Tabs.greeted w).
  - intros w [c|r|c] Hc; [done..|]. destruct c; try done. simpl.
    destruct (decide (user = "u1")) as [->|Hne]; [done|]. by repeat (case_match; try done).
Qed.

Lemma tabs_activation : one_activation Tabs.handle (fun w => Tabs.seen w = true).
Proof.
  split; intros w [c|r|c]; try done; destruct c; try done; simpl.
  - by destruct (Tabs.seen w).
  - intros _. by repeat (case_match; try done).
  - by destruct (Tabs.seen w).
Qed.

Lemma greetings_shown_once_witness :
  let run_tabs p := pool Tabs.handle (Tabs.tabs p) (repeat 0%nat 30 ++ repeat 1%nat 30) in
  let st := run_tabs (credit_welcome_POST Tabs.redirect) in
  let st' := run_tabs (welcome_trigger_POST Tabs.redirect) in
  shown_once greets st.2 False (Tabs.greeted st.1 = true) /\ shown_once shows st'.2 False (Tabs.seen st'.1 = true).
Proof.
  pose proof (greetings_shown_once Tabs.handle Tabs.redirect "u1" (fun w => Tabs.greeted w = true) (fun w => Tabs.seen w = true)
    2 (Tabs.World false false) (repeat 0%nat 30 ++ repeat 1%nat 30) tabs_session tabs_greeting tabs_activation) as [H1 H2].
  split.
  - split; [exact (proj1 H1)|]. intros _. apply (proj2 H1). discriminate.
  - split; [exact (proj1 H2)|]. intros _. apply (proj2 H2). discriminate.
Defined.

(** The sign-in dialog's last step, of a member with a budget. *)
Definition budget_answer : http_response :=
  {| http_status := 200; payload := Some (JObj [("billable_spend_usd", JNum 3%float)]); text := EmptyString; has_body := true |}.

Definition with_budget : handler own_account Tabs.world :=
  fun w c =>
    (w, match c return extended_ans self_effects c with Backend _ _ => inr budget_answer | c => (Tabs.handle w c).2 end).

Example welcomed :
  (run with_budget (cached (extended_reads self_effects) (welcome_GET Tabs.redirect (inr demo_client))) (Tabs.World false false)).1.1 =
  Done (jsonOk (welcome_json ActiveOrg.o1 None false false (Some 20%float) (Some (JNum 3%float))) no_store).
Proof. vm_compute. reflexivity. Qed.
