(* ===== verification/UserProxies.v ===== *)
(** * The proxies that leave the organization to the backend (app/api/aliases, models, gateway, join-requests)

    These routes hold no gate of their own but the session: what they send is the signed-in user's, and
    the backend decides what that user may. They check what they are given before they send it: a key's
    limits against their rails, an alias' and a waterfall's required fields, the enumerations of a usage
    query, which alone resolves its organization through the access gate. A new custom model drops the
    shared catalog's cache, as an operator's writes do ([OperatorProxies]). *)

From S2P Require Import Prelude JsMap JsString JsNumber Effects Url QueryStrings Json Services.
From S2P Require Import BackendSource OrgAccess TenantServices ApiKeys Extended Proxies OperatorProxies.

#[local] Open Scope Z_scope.

(** ** The backend's methods, at arguments that come unchecked from a JSON body *)
Definition createNamedAliasOf (c : client) (orgId name model : json) : DS json :=
  fetchJson c [Lit "/api/aliases"] "POST" (Some (JObj [("org_id", orgId); ("name", name); ("model", model)])).

Definition repointNamedAliasOf (c : client) (orgId : json) (name : string) (model : json) : DS json :=
  fetchJson c [Lit "/api/aliases/"; Enc name] "PUT" (Some (JObj [("org_id", orgId); ("model", model)])).

Definition rollbackNamedAliasOf (c : client) (orgId : json) (name : string) (revisionId : json) : DS json :=
  fetchJson c [Lit "/api/aliases/"; Enc name; Lit "/rollback"] "POST" (Some (JObj [("org_id", orgId); ("revision_id", revisionId)])).

Definition putCatalogWaterfallOf (c : client) (slug orgId : string) (modelProviderIds : list json) : DS json :=
  fetchJson c [Lit "/api/models/"; Enc slug; Lit "/waterfall"] "PUT"
    (Some (JObj [("model_provider_ids", JArr modelProviderIds); ("org_id", JStr orgId)])).

(** At strings they are the methods as declared. *)
Lemma methods_at_strings c orgId name model revision slug ids :
  createNamedAliasOf c (JStr orgId) (JStr name) (JStr model) = createNamedAlias c orgId name model /\
  repointNamedAliasOf c (JStr orgId) name (JStr model) = repointNamedAlias c orgId name model /\
  rollbackNamedAliasOf c (JStr orgId) name (JStr revision) = rollbackNamedAlias c orgId name revision /\
  putCatalogWaterfallOf c slug orgId (map JStr ids) = putCatalogWaterfall c slug orgId ids.
Proof. repeat split. Qed.

Section routes.
Variables (env : Thrown + client) (query : params).

(** The call whose result is the answer. *)
Definition passed (cache : option string) (method : client -> DS json) : P served :=
  j ← backend env method; mret (jsonOk j cache).

(** A required field of the query. *)
Definition query_field (name : string) : P string :=
  requireField (fun s => negb (truthy s)) (params_get query name) name.

(** A required field of the body. *)
Definition body_field (body : json) (name : string) : P json :=
  v ← field body name; requireField blank_json v name.

(** *** gateway/keys/[apiKeyId]/limits *)
Definition CAP_MIN : number := 0%float.
Definition CAP_MAX : number := 1e15%float.
Definition RPM_MIN : number := 1%float.
Definition RPM_MAX : number := 100000%float.
Definition TPM_MIN : number := 1%float.
Definition TPM_MAX : number := 1e9%float.

(** [None] where the code answers ["invalid"]. *)
Definition boundedInt (value : option json) (min max : number) : option json :=
  match value with
  | None | Some JNull => Some JNull
  | Some (JNum x) => if is_integer x && PrimFloat.leb min x && PrimFloat.leb x max then Some (JNum x) else None
  | Some _ => None
  end.

Definition limits_message : string :=
  "Limits must be integers: daily_spend_cap_micro_usd 0 to 1e15, " +:+
  "requests_per_minute 1 to 100000, tokens_per_minute 1 to 1e9; null means uncapped.".

Definition parse_limits (payload : json) : option json :=
  cap ← boundedInt (jget payload "daily_spend_cap_micro_usd") CAP_MIN CAP_MAX;
  requestsPerMinute ← boundedInt (jget payload "requests_per_minute") RPM_MIN RPM_MAX;
  tokensPerMinute ← boundedInt (jget payload "tokens_per_minute") TPM_MIN TPM_MAX;
  Some (JObj [("daily_spend_cap_micro_usd", cap); ("requests_per_minute", requestsPerMinute);
              ("tokens_per_minute", tokensPerMinute)]).

Definition limits_GET (apiKeyId : string) : P served := guarded (passed no_store (fun c => getGatewayKeyLimits c apiKeyId)).

Definition limits_PUT (apiKeyId : string) : P served :=
  guarded (
    payload ← body_or_null;
    match payload with
    | JObj _ =>
        match parse_limits payload with
        | None => mret (refused limits_message 400)
        | Some limits => passed no_store (fun c => putGatewayKeyLimits c apiKeyId limits)
        end
    | _ => mret (refused "A JSON object body is required." 400)
    end).

(** *** gateway/usage/daily *)
Definition SCOPES : list string := ["self"; "org"].
Definition GROUP_BYS : list string := ["day"; "day_model"; "model"; "member"].

Definition usage_daily_GET : P served :=
  guarded (
    match params_get query "org" with
    | None => mret (refused "Missing org parameter" 400)
    | Some orgIdentifier =>
        match pickParam (params_get query "scope") SCOPES "self", pickParam (params_get query "group_by") GROUP_BYS "day" with
        | Some scope, Some groupBy =>
            match parseLimitParam (params_get query "limit") USAGE_ROLLUP_LIMIT_CAP with
            | None => mret (refused "Invalid limit" 400)
            | Some limit =>
                orgId ← on_tenant catalog_effects (gate (requireOrgId orgIdentifier));
                passed no_store (fun c =>
                  getGatewayUsageDaily c orgId scope groupBy (params_get query "from") (params_get query "to") (Some limit))
            end
        | _, _ => mret (refused "Invalid scope or group_by" 400)
        end
    end).

(** *** models, models/[modelSlug]/providers and waterfall *)
Definition models_POST : P served :=
  guarded (
    input ← read_body;
    created ← backend env (fun c => createCatalogModel c input);
    _ ← revalidateModelsCatalog;
    mret (jsonOk created None)).

Definition providers_POST (modelSlug : string) : P served :=
  guarded (input ← read_body; passed None (fun c => addCatalogDeployment c modelSlug input)).

Definition waterfall_GET (modelSlug : string) : P served :=
  guarded (
    let orgId := default EmptyString (params_get query "orgId") in
    if negb (truthy orgId) then mret (refused "orgId is required." 400)
    else passed None (fun c => getCatalogWaterfall c modelSlug orgId)).

Definition waterfall_PUT (modelSlug : string) : P served :=
  guarded (
    input ← read_body;
    org ← field input "org_id";
    match present (org ≫= jstr) with
    | None => mret (refused "org_id is required." 400)
    | Some orgId =>
        match jget input "model_provider_ids" with
        | Some (JArr ids) => passed None (fun c => putCatalogWaterfallOf c modelSlug orgId ids)
        | _ => mret (refused "model_provider_ids must be a list." 400)
        end
    end).

(** *** aliases *)
Definition aliases_GET : P served :=
  guarded (orgId ← query_field "org_id"; passed None (fun c => listNamedAliases c orgId)).

Definition aliases_POST : P served :=
  guarded (
    body ← read_body;
    orgId ← body_field body "org_id"; name ← body_field body "name"; model ← body_field body "model";
    passed None (fun c => createNamedAliasOf c orgId name model)).

Definition alias_PUT (name : string) : P served :=
  guarded (
    body ← read_body;
    orgId ← body_field body "org_id"; model ← body_field body "model";
    passed None (fun c => repointNamedAliasOf c orgId name model)).

Definition alias_DELETE (name : string) : P served :=
  guarded (
    orgId ← query_field "org_id";
    _ ← backend env (fun c => deactivateNamedAlias c orgId name);
    mret (jsonOk (JObj [("ok", JBool true)]) None)).

Definition alias_revisions_GET (name : string) : P served :=
  guarded (orgId ← query_field "org_id"; passed None (fun c => listNamedAliasRevisions c orgId name)).

Definition alias_rollback_POST (name : string) : P served :=
  guarded (
    body ← read_body;
    orgId ← body_field body "org_id"; revisionId ← body_field body "revision_id";
    passed None (fun c => rollbackNamedAliasOf c orgId name revisionId)).

(** *** join-requests *)
Definition join_requests_POST : P served := guarded (passed None requestOrgAccess).

Definition join_offer_GET : P served := guarded (passed None getJoinOffer).
End routes.

(** Every handler: whether it only reads, the identifier it resolves through the access gate, whether
    it writes what the shared catalog shows. *)
Inductive user_handler (env : Thrown + client) (query : params) : bool -> option string -> bool -> P served -> Prop :=
| user_limits key : user_handler env query true None false (limits_GET env key)
| user_set_limits key : user_handler env query false None false (limits_PUT env key)
| user_usage ident : params_get query "org" = Some ident -> user_handler env query true (Some ident) false (usage_daily_GET env query)
| user_create_model : user_handler env query false None true (models_POST env)
| user_add_provider slug : user_handler env query false None false (providers_POST env slug)
| user_waterfall slug : user_handler env query true None false (waterfall_GET env query slug)
| user_set_waterfall slug : user_handler env query false None false (waterfall_PUT env slug)
| user_aliases : user_handler env query true None false (aliases_GET env query)
| user_create_alias : user_handler env query false None false (aliases_POST env)
| user_repoint_alias name : user_handler env query false None false (alias_PUT env name)
| user_retire_alias name : user_handler env query false None false (alias_DELETE env query name)
| user_alias_revisions name : user_handler env query true None false (alias_revisions_GET env query name)
| user_rollback_alias name : user_handler env query false None false (alias_rollback_POST env name)
| user_join : user_handler env query false None false (join_requests_POST env)
| user_offer : user_handler env query true None false (join_offer_GET env).

(** ** What a request may carry *)
Definition within (j : json) (k : string) (lo hi : number) : Prop :=
  jget j k = Some JNull \/
  exists x, jget j k = Some (JNum x) /\ is_integer x = true /\ PrimFloat.leb lo x = true /\ PrimFloat.leb x hi = true.

(** A key's limits: each explicitly uncapped, or a whole number inside its rails. *)
Record valid_limits (j : json) : Prop := {
  cap_within : within j "daily_spend_cap_micro_usd" CAP_MIN CAP_MAX;
  requests_within : within j "requests_per_minute" RPM_MIN RPM_MAX;
  tokens_within : within j "tokens_per_minute" TPM_MIN TPM_MAX;
}.

Definition valid_user_request (path : list piece) (b : body) : Prop :=
  forall j, b = JsonBody j ->
    (forall key, path = [Lit "/api/gateway/keys/"; Enc key; Lit "/limits"] -> valid_limits j) /\
    (under "/api/aliases" path -> is_Some (jget j "org_id") /\ forall k v, jget j k = Some v -> blank_json v = false) /\
    (forall slug, path = [Lit "/api/models/"; Enc slug; Lit "/waterfall"] ->
      exists org ids, j = JObj [("model_provider_ids", JArr ids); ("org_id", JStr org)] /\ truthy org = true).

(** A usage query of one organization. *)
Definition usage_of (org : string) (path : list piece) : Prop :=
  exists ps, path = [Lit "/api/gateway/usage/daily?"; Raw (params_string (("org_id", org) :: ps))].

(** ** What a handler may ask, and how it ends *)
Implicit Types (tr : list (event platform)).

Section licence.
Context (env : Thrown + client) (gated : option string) (reads : bool).

(** The organization the gate let the user into, where the handler asks it. *)
Definition let_into (org : string) tr : Prop :=
  forall ident, gated = Some ident -> granted (gate_events (tenant_events catalog_effects tr)) ident RoleUser org.

Definition user_allowed (org : string) (path : list piece) (m : string) (b : body) : Prop :=
  (reads = true -> m = "GET") /\ valid_user_request path b /\ (gated = None \/ usage_of org path).

Definition user_reach tr (r : http_request) : Prop :=
  exists c u org, env = inr c /\ signed_in (tenant_events catalog_effects tr) u /\ sent_by c u r /\
    let_into org tr /\ user_allowed org (path r) (http_method r) (request_body r).

Definition user_licensed : list (event platform) -> cmd platform -> Prop :=
  route_licensed catalog_effects (fun _ c => c = RequestBody) user_reach (fun tr _ => backend_agreed tr).

(** It answers like every proxy; and after a write of the catalog, its cache was dropped. *)
Definition user_outcome (busts : bool) tr (o : outcome app_error served) : Prop :=
  proxied_outcome tr o /\ match o with Done s => busts = true -> failed s \/ busted tr | Raised _ => True end.

#[local] Abbreviation I := (fun tr c => coherent (extended_reads catalog_effects) tr -> user_licensed tr c).

Lemma let_into_mono org tr tr' : tr ⊆ tr' -> let_into org tr -> let_into org tr'.
Proof. intros Hg H ident Hi. eapply granted_mono; [|by apply H]. by apply extended_tenant_events_mono. Qed.

Lemma user_backend_step {A} org tr (method : client -> DS A) :
  ready (let_into org) tr -> (forall c, delivers c (user_allowed org) (method c)) ->
  spec I (fun tr' o => tr ⊆ tr' /\ settled DataSourceError (backend_events catalog_effects tr') o) tr (backend env method).
Proof.
  intros Hr Hd. eapply backend_step; [intros ??; apply let_into_mono| |exact Hr|exact Hd].
  intros tr' c u r _ Henv Hl Hu Hs Ha. by exists c, u, org.
Qed.

Lemma user_backend_then {A} org tr (method : client -> DS A) (f : A -> served) :
  ready (let_into org) tr -> (forall c, delivers c (user_allowed org) (method c)) ->
  spec I attempted tr (x ← backend env method; mret (f x)).
Proof.
  intros Hr Hd. eapply backend_then; [intros ??; apply let_into_mono| |exact Hr|exact Hd].
  intros tr' c u r _ Henv Hl Hu Hs Ha. by exists c, u, org.
Qed.

Lemma user_body_then {A} org tr Q (k : Thrown + json -> P A) :
  ready (let_into org) tr ->
  (forall x, ready (let_into org) (tr ++ [@Ev platform (Shared catalog_effects RequestBody) x]) ->
    spec I Q (tr ++ [@Ev platform (Shared catalog_effects RequestBody) x]) (k x)) ->
  I tr (Shared catalog_effects RequestBody) /\ forall x, spec I Q (tr ++ [@Ev platform (Shared catalog_effects RequestBody) x]) (k x).
Proof. apply body_then; [done|intros ??; apply let_into_mono]. Qed.

Lemma user_guarded p : spec I attempted [] p -> spec I (user_outcome false) [] (guarded p).
Proof. intros H. eapply spec_post; [by apply guarded_spec|]. intros tr [s|e] Ho; by split. Qed.

Lemma ungated_ready : gated = None -> ready (let_into EmptyString) [].
Proof. intros Hg. split; [done|]. intros _ ident Hi. by rewrite Hg in Hi. Qed.
End licence.

(** ** The parsers *)
Lemma boundedInt_within v lo hi j ms k :
  boundedInt v lo hi = Some j -> jget (JObj ms) k = Some j -> within (JObj ms) k lo hi.
Proof.
  intros Hb Hj. unfold within. rewrite Hj. destruct v as [[]|]; simpl in Hb; try discriminate Hb; [by injection Hb as <-; left| |by injection Hb as <-; left].
  destruct (is_integer x && _ && _) eqn:Hx in Hb; [|done]. injection Hb as <-. right. exists x. by bool_simpl.
Qed.

Lemma parsed_limits payload j : parse_limits payload = Some j -> valid_limits j.
Proof.
  unfold parse_limits. destruct (boundedInt _ CAP_MIN _) as [cap|] eqn:H1; simpl; [|done].
  destruct (boundedInt _ RPM_MIN RPM_MAX) as [rpm|] eqn:H2; simpl; [|done].
  destruct (boundedInt _ TPM_MIN TPM_MAX) as [tpm|] eqn:H3; simpl; [|done]. intros [= <-].
  split; by eapply boundedInt_within.
Qed.

(** ** The licence of each handler *)
Section proofs.
Context (env : Thrown + client) (query : params) (gated : option string) (reads : bool).

#[local] Abbreviation I := (fun tr c => coherent (extended_reads catalog_effects) tr -> user_licensed env gated reads tr c).
#[local] Abbreviation ready_for org := (ready (let_into gated org)).

Lemma user_raise org tr e : ready_for org tr -> attempted tr (Raised e).
Proof. by apply attempted_raise. Qed.

Lemma field_then org tr body name (k : option json -> P served) :
  ready_for org tr -> (forall v, spec I attempted tr (k v)) -> spec I attempted tr (v ← field body name; k v).
Proof. intros Hr Hk. unfold field, raise_error, raise_thrown. destruct body; exec_cbn; first [by apply (user_raise org)|apply Hk]. Qed.

Lemma body_field_then org tr body name (k : json -> P served) :
  ready_for org tr -> (forall v, blank_json v = false -> spec I attempted tr (k v)) ->
  spec I attempted tr (v ← body_field body name; k v).
Proof.
  intros Hr Hk. unfold body_field, field, requireField, raise_error, raise_thrown, raise_request.
  assert (forall v, spec I attempted tr (v ← requireField blank_json v name; k v)) as Hv.
  { intros [v|]; unfold requireField, raise_request; exec_cbn; [|by apply (user_raise org)].
    destruct (blank_json v) eqn:Hb; exec_cbn; [by apply (user_raise org)|by apply Hk]. }
  destruct body; exec_cbn; first [by apply (user_raise org)|apply Hv].
Qed.

Lemma query_field_then org tr name (k : string -> P served) :
  ready_for org tr -> (forall s, spec I attempted tr (k s)) -> spec I attempted tr (s ← query_field query name; k s).
Proof.
  intros Hr Hk. unfold query_field, requireField, raise_request. destruct (params_get query name) as [s|]; exec_cbn;
    [|by apply (user_raise org)]. destruct (negb _); exec_cbn; [by apply (user_raise org)|apply Hk].
Qed.

Lemma read_body_then org (k : json -> P served) :
  ready_for org [] -> (forall tr j, ready_for org tr -> spec I attempted tr (k j)) -> spec I attempted [] (j ← read_body; k j).
Proof.
  intros Hr Hk. unfold read_body, request_json, on_tenant, answered, raise_thrown. exec_cbn.
  eapply user_body_then; [exact Hr|]. intros [e|j] Hr'; exec_cbn; [by apply (user_raise org)|by apply Hk].
Qed.

(** A new model: its cache is dropped once the backend agreed. *)
Lemma models_POST_spec : gated = None -> reads = false -> spec I (user_outcome true) [] (models_POST env).
Proof.
  intros Hg Hread. pose proof (ungated_ready gated Hg) as Hr0.
  set (Q := fun tr (o : outcome app_error served) => attempted tr o /\
    match o with Done s => busted tr | Raised _ => True end).
  enough (spec I Q [] (input ← read_body; created ← backend env (fun c => createCatalogModel c input);
      _ ← revalidateModelsCatalog; mret (jsonOk created None))) as H.
  { apply spec_try. eapply spec_post; [exact H|]. intros tr [s|e] [H1 H2].
    - destruct H1 as [H0 H1]. split; [|by right]. split; [done|]. by intros res Hres%H1.
    - exec_cbn. split; [split; [left; left; by exists e|]; by intros res ->%H1|]. intros _. left. left. by exists e. }
  unfold read_body, request_json, on_tenant, answered, raise_thrown. exec_cbn.
  eapply user_body_then; [exact Hr0|]. intros [e|input] Hr; exec_cbn; [split; [by apply (user_raise EmptyString)|done]|].
  apply spec_bind. eapply spec_post; [eapply user_backend_step; [exact Hr|]|].
  { delivered_by ltac:(split; [by rewrite Hread|split; [|by left]]; intros j [= <-]; split_and!; elsewhere). }
  intros tr' [a|e] (_ & H1 & H2); exec_cbn.
  - unfold revalidateModelsCatalog, on_own. exec_cbn. split; [intros _; exact H1|]. intros [].
    assert (backend_events catalog_effects (tr' ++ [@Ev platform (Own catalog_effects RevalidateCatalog) tt]) =
      backend_events catalog_effects tr') as Hb by (rewrite backend_events_app; apply app_nil_r).
    split; [split|].
    + right. unfold backend_agreed. by rewrite Hb.
    + intros res [[r Hin] Hok]. rewrite Hb in Hin. by specialize (H2 r res Hin Hok).
    + apply elem_of_app. right. by apply list_elem_of_singleton.
  - split; [|done]. intros res [[r Hin] Hok]. by injection (H2 r res Hin Hok).
Qed.

(** The usage of one organization: behind its gate. *)
Lemma usage_daily_spec ident :
  params_get query "org" = Some ident -> gated = Some ident -> spec I (user_outcome false) [] (usage_daily_GET env query).
Proof.
  intros Hq Hg. apply user_guarded. rewrite Hq.
  destruct (pickParam _ SCOPES _) as [scope|]; [|by apply (unsent_refuse _ _ 400)].
  destruct (pickParam _ GROUP_BYS _) as [groupBy|]; [|by apply (unsent_refuse _ _ 400)].
  destruct (parseLimitParam _ _) as [limit|]; [|by apply (unsent_refuse _ _ 400)].
  apply spec_bind. eapply spec_post; [apply member_step|].
  intros tr [org|e] [Ho H]; apply (opening_unsent catalog_effects) in Ho; [|by apply unsent_raise].
  eapply (user_backend_then _ _ _ org).
  - split; [done|]. intros Hco ident'. rewrite Hg. intros [= <-]. by apply H.
  - delivered_by ltac:(split; [done|split; [intros j [=]|right]]; destruct (params_get query "from"), (params_get query "to"); by eexists).
Qed.
End proofs.

Lemma cached_user env gated reads busts p :
  spec (fun tr c => coherent (extended_reads catalog_effects) tr -> user_licensed env gated reads tr c) (user_outcome busts) [] p ->
  spec (user_licensed env gated reads) (user_outcome busts) [] (cached (extended_reads catalog_effects) p).
Proof.
  intros Hp. assert (forall tr tr' : list (event platform), (forall e, e ∈ tr <-> e ∈ tr') -> tr ⊆ tr') as Hsub by (intros tr tr' H e; apply H).
  apply cached_route; [done| | | |by eapply spec_post].
  - intros tr tr' r Hs (c & u & org & H1 & H2 & H3 & H4 & H5). exists c, u, org. split; [done|].
    split; [eapply signed_in_mono, H2; by apply extended_tenant_events_mono, Hsub|]. split; [done|].
    split; [eapply let_into_mono, H4; by apply Hsub|done].
  - intros tr tr' c Hs. by apply agreed_mono, Hsub.
  - intros tr tr' o Hs [H1 H2]. split; [by eapply proxied_same|]. destruct o as [s|e]; [|done].
    intros Hb. destruct (H2 Hb) as [?|H]; [by left|right]. by apply Hs.
Qed.

Lemma present_truthy o s : present o = Some s -> truthy s = true.
Proof. destruct o as [s'|]; simpl; [|done]. destruct (truthy s') eqn:Ht; [|done]. by intros [= <-]. Qed.

(** One step of a handler that asks the session only. *)
Ltac user_step Hr :=
  first
  [ eapply read_body_then; [exact Hr|clear Hr; intros ? ? Hr]
  | eapply field_then; [exact Hr|intros ?]
  | eapply body_field_then; [exact Hr|intros ? ?]
  | eapply query_field_then; [exact Hr|intros ?]
  | by eapply (attempted_refuse _ _ _ 400)
  | by eapply attempted_raise
  | eapply user_backend_then; [exact Hr|]
  | lazymatch goal with |- spec _ _ _ ?p => match p with context [match ?x with _ => _ end] => destruct x eqn:? end end ].

(** Its requests: the method, and what is known of the body. *)
Ltac user_allowed_by tac :=
  split; [intros; first [reflexivity|discriminate]|split; [|by left]];
  let j' := fresh "j" in let Hj := fresh "Hj" in
  intros j' Hj; first [discriminate Hj|injection Hj as <-]; split_and!; first [elsewhere|tac].

(** Whatever the services answer, a user's proxy sends what is asked in that user's own name, under the
    deployment's bearer; GET from a handler that only reads; a key's limits only when each is uncapped or
    a whole number inside its rails, an alias only with every field given, a waterfall only for a named
    organization; a usage query only for the organization the access gate let the user into. It always
    answers, a success only when the backend agreed, a refusal as it came; and the shared catalog's cache
    is dropped after a new model, and only then. *)
Theorem user_proxies_licensed env query reads gated busts p :
  user_handler env query reads gated busts p ->
  spec (user_licensed env gated reads) (user_outcome busts) [] (cached (extended_reads catalog_effects) p).
Proof.
  intros Hp. apply cached_user. destruct Hp.
  3: by apply (usage_daily_spec _ _ _ _ ident).
  3: by apply models_POST_spec.
  all: lazymatch goal with |- spec _ _ _ ?p => let f := head_of p in unfold f end.
  all: apply user_guarded; pose proof (ungated_ready None eq_refl) as Hr; unfold passed.
  2: { unfold body_or_null, request_json, on_tenant. exec_cbn. eapply user_body_then; [exact Hr|]. clear Hr. intros x Hr. exec_cbn.
       destruct (match x with inr b => b | inl _ => JNull end); try by eapply (attempted_refuse _ _ _ 400).
       all: repeat user_step Hr; delivered_by ltac:(user_allowed_by ltac:(intros _ _; by eapply parsed_limits)). }
  all: repeat user_step Hr.
  all: delivered_by ltac:(user_allowed_by ltac:(first
    [ by intros _ _; eapply parsed_limits
    | intros _; split; [by eexists|]; intros k v' Hk; simpl in Hk; repeat case_decide; by simplify_eq
    | intros _ _; eexists _, _; split; [reflexivity|]; by eapply present_truthy ])).
Qed.

(** The rails: whole numbers, zero dollars allowed and zero requests not, [null] for no limit. *)
Example rails :
  map (fun x => boundedInt (Some (JNum x)) RPM_MIN RPM_MAX) [0; 1; 1.5; 100000; 100001]%float =
    [None; Some (JNum 1%float); None; Some (JNum 100000%float); None] /\
  boundedInt (Some (JNum 0%float)) CAP_MIN CAP_MAX = Some (JNum 0%float) /\
  boundedInt None TPM_MIN TPM_MAX = Some JNull /\ boundedInt (Some (JStr "5")) TPM_MIN TPM_MAX = None.
Proof. vm_compute. repeat split. Qed.
