(* ===== verification/GatewayUsage.v ===== *)
(** * The Overview's usage rollups (lib/gateway-usage.ts)

    Periods of UTC days, sums of a metric over the rows of a period, the zero-filled daily series,
    the per-model stacks whose "Other" band is the residual against the daily totals, the top
    groups and the activity statistics. Days are the strings of [JsDate]; amounts are integers
    (spend in micro-dollars). *)

From S2P Require Import Prelude JsMap JsString JsSort JsDate JsNumber.
From Stdlib Require Import PrimFloat Sorting.Sorted.
From stdpp Require Import list sorting.

#[local] Open Scope Z_scope.

(** ** Data *)

Record UsageMetricRow := MetricRow {
  requests : Z;
  input_tokens : Z;
  output_tokens : Z;
  spend_micro_usd : Z
}.

Record GatewayUsageRow := UsageRow {
  metrics :> UsageMetricRow;
  day : option string;
  user_id : option string;
  alias : option string
}.

Inductive UsageMetric := Spend | Tokens | Requests.

Inductive UsagePeriod := Today | P7d | P30d | P1y | AllTime.

#[export] Instance UsagePeriod_eq_dec : EqDecision UsagePeriod.
Proof. solve_decision. Defined.

#[export] Instance UsageMetricRow_eq_dec : EqDecision UsageMetricRow.
Proof. solve_decision. Defined.

(** [from] is null for an unbounded history. *)
Record DayRange := Range { from : option string; to : string }.

(** ** Days and periods *)

(** [addDays]; [None] when the day string is not a date ([toISOString] throws a RangeError). *)
Definition addDays (day : string) (delta : Z) : option string :=
  match parse_day day with
  | Some d =>
      let c := civil_of_day d in
      Some (day_string (make_day (cy c) (cm c) (cd c + delta)))
  | None => None
  end.

(** [PERIOD_DAYS]; the type of the source excludes ["all"]. *)
Definition PERIOD_DAYS (p : UsagePeriod) : Z :=
  match p with Today => 1 | P7d => 7 | P30d => 30 | P1y => 365 | AllTime => 0 end.

Definition periodRange (period : UsagePeriod) (today : string) : option DayRange :=
  if decide (period = AllTime) then Some (Range None today)
  else from ← addDays today (- (PERIOD_DAYS period - 1)); Some (Range (Some from) today).

(** The outer option is a thrown error, the inner one the source's [null]. *)
Definition previousPeriodRange (period : UsagePeriod) (today : string) : option (option DayRange) :=
  if decide (period = AllTime) then Some None
  else
    let days := PERIOD_DAYS period in
    to ← addDays today (- days);
    from ← addDays to (- (days - 1));
    Some (Some (Range (Some from) to)).

(** ** Metrics *)

Definition metricValue (row : UsageMetricRow) (metric : UsageMetric) : Z :=
  match metric with
  | Spend => spend_micro_usd row
  | Tokens => input_tokens row + output_tokens row
  | Requests => requests row
  end.

Definition dayInRange (day : string) (range : DayRange) : bool :=
  match from range with None => true | Some f => str_le f day end && str_le day (to range).

Definition row_in_range {T} (day : T -> option string) (range : DayRange) (row : T) : bool :=
  match day row with Some d => dayInRange d range | None => false end.

Definition rowsInRange {T} (day : T -> option string) (rows : list T) (range : DayRange) : list T :=
  filter (fun row => row_in_range day range row = true) rows.

Definition sumMetric (rows : list UsageMetricRow) (metric : UsageMetric) : Z :=
  foldl (fun sum row => sum + metricValue row metric) 0 rows.

(** [deltaPercent]: null when there is no positive baseline, else the float quotient. *)
Definition deltaPercent (current previous : Z) : option number :=
  if decide (previous <= 0) then None
  else Some ((number_of_Z (current - previous) / number_of_Z previous) * 100)%float.

(** ** The daily series *)

Record DailyPoint := Point { point_day : string; value : Z }.

(** The loop [for (day = from; day <= to; day = addDays(day, 1)) push(day)]. *)
Fixpoint day_loop (fuel : nat) (d to : string) : option (list string) :=
  if str_le d to then
    match fuel with
    | O => None
    | S n => match addDays d 1 with Some d' => (fun l => d :: l) <$> day_loop n d' to | None => None end
    end
  else Some [].

(** As many iterations as there are days between the two ends. *)
Definition loop_fuel (from to : string) : nat :=
  match parse_day from, parse_day to with Some a, Some b => Z.to_nat (b - a + 1) | _, _ => O end.

Definition day_axis (from to : string) : option (list string) := day_loop (loop_fuel from to) from to.

(** The left edge: the range's, else the first recorded day, else the right edge. *)
Definition first_day {V} (range : DayRange) (byDay : list (string * V)) : string :=
  match from range with
  | Some f => f
  | None => match js_sort str_cmp (mkeys byDay) with d :: _ => d | [] => to range end
  end.

Definition day_of {T} (day : T -> option string) (row : T) : string := default ""%string (day row).

Definition dailySeries (rows : list GatewayUsageRow) (range : DayRange) (metric : UsageMetric) :
    option (list DailyPoint) :=
  let byDay := accumulate (day_of day) (fun v (row : GatewayUsageRow) => v + metricValue row metric) 0
                 (rowsInRange day rows range) in
  axis ← day_axis (first_day range byDay) (to range);
  Some (map (fun d => Point d (default 0 (mget byDay d))) axis).

(** ** Per-day, per-model stacks *)

Definition MAX_DAILY_MODEL_SERIES : nat := 8.

Definition OTHER_SERIES_KEY : string := " other".

Definition ZERO_METRICS : UsageMetricRow := MetricRow 0 0 0 0.

Record DailyStackSeries := Stack { key : string; label : string; detail : list UsageMetricRow }.

Record DailyModelStacks := Stacks {
  days : list string;
  series : list DailyStackSeries;
  totals : list UsageMetricRow
}.

Definition addMetrics (at_ row : UsageMetricRow) : UsageMetricRow :=
  MetricRow (requests at_ + requests row) (input_tokens at_ + input_tokens row)
    (output_tokens at_ + output_tokens row) (spend_micro_usd at_ + spend_micro_usd row).

Definition hasAnyMetric (cell : UsageMetricRow) : bool :=
  bool_decide (requests cell > 0 \/ input_tokens cell > 0 \/ output_tokens cell > 0 \/
    spend_micro_usd cell > 0).

(** [Math.max(0, total - named)] in every column. *)
Definition residual (total namedSum : UsageMetricRow) : UsageMetricRow :=
  MetricRow (Z.max 0 (requests total - requests namedSum))
    (Z.max 0 (input_tokens total - input_tokens namedSum))
    (Z.max 0 (output_tokens total - output_tokens namedSum))
    (Z.max 0 (spend_micro_usd total - spend_micro_usd namedSum)).

Definition series_alias (row : GatewayUsageRow) : string := default "unknown"%string (alias row).

Section locale.
(** [String.prototype.localeCompare], which the language leaves to the implementation: the
    theorems below only ask for a consistent comparator, and most ask for nothing. *)
Context (localeCompare : string -> string -> Z).

(** Spend first, then requests, then the name. *)
Definition rank_cmp (x y : string * UsageMetricRow) : Z :=
  cmp_or (cmp_or (spend_micro_usd y.2 - spend_micro_usd x.2) (requests y.2 - requests x.2))
    (localeCompare x.1 y.1).

(** [entry.detail[index] = addMetrics(entry.detail[index], row)] on the one series of the key. *)
Definition add_cell (k : string) (index : nat) (row : UsageMetricRow) (s : list DailyStackSeries) :
    list DailyStackSeries :=
  map (fun e => if decide (key e = k)
                then Stack (key e) (label e) (alter (fun at_ => addMetrics at_ row) index (detail e))
                else e) s.

Definition bucket_cell (dayIndex : list (string * nat)) (s : list DailyStackSeries)
    (row : GatewayUsageRow) : list DailyStackSeries :=
  match mget dayIndex (day_of day row) with
  | Some index => add_cell (series_alias row) index row s
  | None => s
  end.

Definition named_sum (s : list DailyStackSeries) (index : nat) : UsageMetricRow :=
  foldl (fun sum e => addMetrics sum (default ZERO_METRICS (detail e !! index))) ZERO_METRICS s.

Definition dailyModelStacks (dayRows modelDayRows : list GatewayUsageRow) (range : DayRange)
    (rankRows : option (list GatewayUsageRow)) (maxSeries : nat) : option DailyModelStacks :=
  let totalsByDay := accumulate (day_of day) (fun at_ row => addMetrics at_ (metrics row)) ZERO_METRICS
                       (rowsInRange day dayRows range) in
  days ← day_axis (first_day range totalsByDay) (to range);
  let dayIndex := of_pairs (imap (fun i d => (d, i)) days) in
  let totals := map (fun d => default ZERO_METRICS (mget totalsByDay d)) days in
  let cells := rowsInRange day modelDayRows range in
  let perModel := accumulate series_alias (fun at_ row => addMetrics at_ (metrics row)) ZERO_METRICS
                    (default cells rankRows) in
  let ranked := js_sort rank_cmp perModel in
  let named := map fst (take maxSeries ranked) in
  let blank := map (fun a => Stack a a (map (fun _ => ZERO_METRICS) days)) named in
  let series := foldl (bucket_cell dayIndex) blank cells in
  let other := Stack OTHER_SERIES_KEY "Other"
                 (imap (fun index total => residual total (named_sum series index)) totals) in
  Some (Stacks days (if existsb hasAnyMetric (detail other) then series ++ [other] else series) totals).

(** ** Top groups and activity *)

Definition topGroups {T} (metrics_of : T -> UsageMetricRow) (rows : list T) (metric : UsageMetric)
    (label : T -> string) (count : nat) : list (string * Z) :=
  let totals := accumulate label (fun v row => v + metricValue (metrics_of row) metric) 0 rows in
  take count (js_sort (fun x y => cmp_or (y.2 - x.2) (localeCompare x.1 y.1))
                (filter (fun group => group.2 > 0) totals)).
End locale.

Record ActivityStats := Stats {
  longestStreakDays : Z;
  averagePerDay : number;
  averagePerWeek : number;
  total : Z
}.

(** The body of the loop: (longest, run, total). *)
Definition activity_step (st : Z * Z * Z) (p : DailyPoint) : Z * Z * Z :=
  let '(longest, run, total) := st in
  let run := if decide (value p > 0) then run + 1 else 0 in
  (Z.max longest run, run, total + value p).

Definition activityStats (series : list DailyPoint) : ActivityStats :=
  let '(longest, _, total) := foldl activity_step (0, 0, 0) series in
  let days := Z.max (Z.of_nat (length series)) 1 in
  let averagePerDay := (number_of_Z total / number_of_Z days)%float in
  Stats longest averagePerDay (averagePerDay * 7)%float total.

(** ** Lemmas *)

(** A day string with room for the loop's last increment. *)
Definition last_day (s : string) : Prop := exists d, parse_day s = Some d /\ day_ok (d + 1).

Definition valid_day (s : string) : Prop := is_Some (parse_day s).

(** The rows' days and the range's ends are calendar days. *)
Definition valid_rows {T} (day : T -> option string) (rows : list T) : Prop :=
  forall row s, row ∈ rows -> day row = Some s -> valid_day s.

Definition valid_range (r : DayRange) : Prop :=
  last_day (to r) /\ forall f, from r = Some f -> valid_day f.

Lemma valid_day_inv s : valid_day s -> exists d, day_ok d /\ s = day_string d /\ parse_day s = Some d.
Proof. intros [d Hd]. destruct (parse_day_Some _ _ Hd) as [Hok <-]. eauto. Qed.

Lemma last_day_inv s :
  last_day s -> exists d, day_ok d /\ day_ok (d + 1) /\ s = day_string d /\ parse_day s = Some d.
Proof. intros (d & Hd & Hs). destruct (parse_day_Some _ _ Hd) as [Hok <-]. eauto 6. Qed.

Lemma last_day_valid s : last_day s -> valid_day s.
Proof. intros (d & Hd & _). by exists d. Qed.

#[local] Hint Resolve last_day_valid : js.

(** [addDays] adds days, over month and year ends and leap days. *)
Lemma addDays_day_string d delta :
  day_ok d -> addDays (day_string d) delta = Some (day_string (d + delta)).
Proof.
  intros Hd. unfold addDays. rewrite parse_day_string by done. do 2 f_equal.
  pose proof (make_day_civil d). unfold make_day in *. lia.
Qed.

Lemma day_loop_spec fuel a b :
  day_ok a -> day_ok b -> day_ok (b + 1) -> b - a + 1 <= Z.of_nat fuel ->
  day_loop fuel (day_string a) (day_string b) = Some (map day_string (seqZ a (b - a + 1))).
Proof.
  intros Ha Hb Hb1. revert a Ha. induction fuel as [|n IH]; intros a Ha Hn; simpl;
    rewrite day_le_iff by done; case_bool_decide as Hab.
  - lia.
  - by rewrite seqZ_nil by lia.
  - rewrite addDays_day_string by done.
    assert (day_ok (a + 1)) by (eapply day_ok_between; [exact Ha|exact Hb1|lia]).
    rewrite IH by (done || lia).
    rewrite (seqZ_cons a) by lia. simpl. unfold Z.succ, Z.pred.
    by replace (b - a + 1 + -1) with (b - (a + 1) + 1) by lia.
  - by rewrite seqZ_nil by lia.
Qed.

Lemma day_axis_spec a b :
  day_ok a -> day_ok b -> day_ok (b + 1) ->
  day_axis (day_string a) (day_string b) = Some (map day_string (seqZ a (b - a + 1))).
Proof.
  intros Ha Hb Hb1. unfold day_axis, loop_fuel. rewrite !parse_day_string by done.
  apply day_loop_spec; [done..|]. lia.
Qed.

Lemma axis_NoDup a b :
  day_ok a -> day_ok b -> NoDup (map day_string (seqZ a (b - a + 1))).
Proof.
  intros Ha Hb. apply NoDup_fmap_2_strong; [|apply NoDup_seqZ].
  intros x y Hx Hy. rewrite elem_of_seqZ in Hx, Hy.
  apply day_string_inj; apply (day_ok_between a b); done || lia.
Qed.

Lemma elem_axis a b d :
  day_ok a -> day_ok b -> day_ok d ->
  day_string d ∈ map day_string (seqZ a (b - a + 1)) <-> a <= d <= b.
Proof.
  intros Ha Hb Hd. rewrite list_elem_of_fmap. setoid_rewrite elem_of_seqZ. split.
  - intros (x & Hx & Hr). apply day_string_inj in Hx; [lia|done|].
    apply (day_ok_between a b); done || lia.
  - intros Hr. exists d. split; [done|lia].
Qed.

Lemma elem_rowsInRange {T} (day : T -> option string) rows range row :
  row ∈ rowsInRange day rows range <-> row ∈ rows /\ row_in_range day range row = true.
Proof. unfold rowsInRange. rewrite list_elem_of_filter. tauto. Qed.

Lemma row_in_range_valid {T} (day : T -> option string) (range : DayRange) (row : T) t :
  day row = Some (day_string t) -> day_ok t -> valid_range range ->
  row_in_range day range row = true <->
  (forall f a, from range = Some f -> parse_day f = Some a -> a <= t) /\ (forall b, parse_day (to range) = Some b -> t <= b).
Proof.
  intros Hday Ht [Hto Hfrom]. unfold row_in_range, dayInRange. rewrite Hday.
  destruct (valid_day_inv (to range)) as (b & Hb & -> & Hpb); [auto with js|].
  rewrite andb_true_iff, day_le_iff, bool_decide_eq_true by done. rewrite Hpb.
  destruct (from range) as [f|] eqn:Hf; simpl.
  - destruct (valid_day_inv f) as (a & Ha & -> & Hpa); [by apply Hfrom|].
    rewrite day_le_iff, bool_decide_eq_true by done. split; [naive_solver|].
    intros [H1 H2]. split; [by apply (H1 (day_string a))|by apply H2].
  - naive_solver.
Qed.

(** The days of the rows inside a range are calendar days of that range. *)
Lemma row_day_valid {T} (day : T -> option string) rows range row :
  valid_rows day rows -> row ∈ rowsInRange day rows range ->
  exists t, day_ok t /\ day row = Some (day_string t).
Proof.
  intros Hv Hin. apply elem_rowsInRange in Hin as [Hin Hr]. unfold row_in_range in Hr.
  destruct (day row) as [s|] eqn:Hd; [|done].
  destruct (valid_day_inv s) as (t & Ht & -> & _); eauto.
Qed.

(** The left edge is a calendar day, no recorded day of the range is before it. *)
Lemma first_day_spec {T V} (day : T -> option string) rows range (g : V -> T -> V) z :
  valid_rows day rows -> valid_range range ->
  let byDay := accumulate (day_of day) g z (rowsInRange day rows range) in
  exists a, day_ok a /\ first_day range byDay = day_string a /\
    forall t, day_ok t -> day_string t ∈ mkeys byDay -> a <= t.
Proof.
  intros Hrows Hrange byDay. unfold first_day.
  assert (forall k, k ∈ mkeys byDay -> exists row t, row ∈ rowsInRange day rows range /\
    day_ok t /\ day row = Some (day_string t) /\ k = day_string t) as Hkeys.
  { intros k Hk. apply elem_keys_accumulate, list_elem_of_fmap in Hk as (row & -> & Hrow).
    destruct (row_day_valid _ _ _ _ Hrows Hrow) as (t & Ht & Hd). exists row, t.
    unfold day_of. by rewrite Hd. }
  destruct (from range) as [f|] eqn:Hf.
  - destruct (valid_day_inv f) as (a & Ha & -> & Hpa); [by apply Hrange|].
    exists a. split_and!; [done..|]. intros t Ht Hk.
    destruct (Hkeys _ Hk) as (row & t' & Hrow & Ht' & Hd & Heq).
    apply day_string_inj in Heq as <-; [|done..]. apply elem_rowsInRange in Hrow as [_ Hr].
    eapply row_in_range_valid in Hr as [Hr _]; [|done..]. by apply (Hr (day_string a)).
  - destruct (js_sort str_cmp (mkeys byDay)) as [|k l] eqn:Hs.
    + destruct (valid_day_inv (to range)) as (b & Hb & -> & _); [apply last_day_valid, Hrange|].
      exists b. split_and!; [done..|]. intros t _ Hk.
      apply (elem_sort str_cmp) in Hk. rewrite Hs in Hk. set_solver.
    + assert (k ∈ mkeys byDay) as Hk by (apply (elem_sort str_cmp); rewrite Hs; left).
      destruct (Hkeys _ Hk) as (row & a & Hrow & Ha & Hd & ->). exists a. split_and!; [done..|].
      intros t Ht Hkt. pose proof (sort_head_le str_cmp _ _ _ Hs _ Hkt) as Hle.
      unfold str_cmp in Hle. rewrite day_compare in Hle by done.
      destruct (Z.compare_spec a t); lia.
Qed.

Lemma sumMetric_sumZ rows metric : sumMetric rows metric = sumZ (map (fun r => metricValue r metric) rows).
Proof. apply (foldl_add_sumZ (fun r => metricValue r metric) rows 0). Qed.

(** What one map of a series holds, over the axis of the range. *)
Section axis.
Context (rows : list GatewayUsageRow) (range : DayRange).
Context (Hrows : valid_rows day rows) (Hrange : valid_range range).

Let inside := rowsInRange day rows range.

(** Whatever the loop accumulates per day, the axis of the range covers its keys without
    repetition, from the left edge to the right one. *)
Lemma axis_covers {V} (g : V -> GatewayUsageRow -> V) z :
  let byDay := accumulate (day_of day) g z inside in
  exists a b, day_ok a /\ day_ok b /\ parse_day (to range) = Some b /\
    (forall f, from range = Some f -> f = day_string a) /\
    day_axis (first_day range byDay) (to range) = Some (map day_string (seqZ a (b - a + 1))) /\
    NoDup (map day_string (seqZ a (b - a + 1))) /\
    (forall k, k ∈ mkeys byDay -> k ∈ map day_string (seqZ a (b - a + 1))).
Proof.
  intros byDay. destruct (last_day_inv (to range)) as (b & Hb & Hb1 & Hto & Hpb); [apply Hrange|].
  destruct (first_day_spec day rows range g z Hrows Hrange) as (a & Ha & Hfirst & Hmin).
  fold inside in Hfirst, Hmin. fold byDay in Hfirst, Hmin. exists a, b.
  split_and!; [done..| | | |].
  - intros f Hf. revert Hfirst. unfold first_day. by rewrite Hf.
  - rewrite Hfirst, Hto. by apply day_axis_spec.
  - by apply axis_NoDup.
  - intros k Hk. pose proof Hk as Hk0.
    apply elem_keys_accumulate, list_elem_of_fmap in Hk as (row & -> & Hrow).
    destruct (row_day_valid _ _ _ _ Hrows Hrow) as (t & Ht & Hd).
    unfold day_of in *. rewrite Hd in *. simpl in *. apply elem_axis; [done..|].
    split; [by apply Hmin|]. apply elem_rowsInRange in Hrow as [_ Hr].
    eapply row_in_range_valid in Hr as [_ Hr]; [|done..]. by apply Hr.
Qed.
End axis.

(** The sum of a metric over the rows of one day. *)
Definition day_total (rows : list GatewayUsageRow) (d : string) (metric : UsageMetric) : Z :=
  sumMetric (map metrics (filter (fun row => day_of day row = d) rows)) metric.

Lemma foldl_metric_sum (rows : list GatewayUsageRow) metric :
  foldl (fun v (row : GatewayUsageRow) => v + metricValue row metric) 0 rows =
  sumMetric (map metrics rows) metric.
Proof.
  rewrite sumMetric_sumZ, map_map. apply (foldl_add_sumZ (fun r : GatewayUsageRow => metricValue r metric)).
Qed.

(** C40. The daily series of a period never disagrees with its summary figure: for rows and ranges
    made of calendar days the loop over days ends, the series has exactly one point per day from
    the left edge to the right one, oldest first and without gaps, each point holds the metric's
    sum over the rows of its day, and the points add up to [sumMetric] over [rowsInRange]. *)
Theorem dailySeries_conserves rows range metric :
  valid_rows day rows -> valid_range range ->
  exists s a b, dailySeries rows range metric = Some s /\
    parse_day (to range) = Some b /\ (forall f, from range = Some f -> f = day_string a) /\
    map point_day s = map day_string (seqZ a (b - a + 1)) /\
    (forall p, p ∈ s -> value p = day_total (rowsInRange day rows range) (point_day p) metric) /\
    sumZ (map value s) = sumMetric (map metrics (rowsInRange day rows range)) metric.
Proof.
  intros Hrows Hrange. unfold dailySeries.
  destruct (axis_covers rows range Hrows Hrange
    (fun v (row : GatewayUsageRow) => v + metricValue row metric) 0)
    as (a & b & Ha & Hb & Hto & Hfrom & Haxis & Hnd & Hcov).
  rewrite Haxis. simpl. eexists _, a, b. split_and!; [done..| | |].
  - rewrite map_map. apply map_id.
  - intros p Hp. apply list_elem_of_fmap in Hp as (d & -> & _). simpl.
    rewrite mget_accumulate_default. apply foldl_metric_sum.
  - rewrite map_map. simpl. rewrite sumZ_covering; [|apply mwf_accumulate|done|done].
    rewrite <- (List.map_id (mvalues _)).
    rewrite (sumZ_values_accumulate (fun v => v) _ _ 0 (fun r : GatewayUsageRow => metricValue r metric));
      [|done|done].
    by rewrite sumMetric_sumZ, map_map.
Qed.

(** ** The stacked chart *)

Inductive column := CRequests | CInput | COutput | CSpend.

Definition column_of (c : column) (row : UsageMetricRow) : Z :=
  match c with
  | CRequests => requests row
  | CInput => input_tokens row
  | COutput => output_tokens row
  | CSpend => spend_micro_usd row
  end.

Lemma column_add c x y : column_of c (addMetrics x y) = column_of c x + column_of c y.
Proof. by destruct c. Qed.

Lemma column_zero c : column_of c ZERO_METRICS = 0.
Proof. by destruct c. Qed.

Lemma column_residual c t n : column_of c (residual t n) = Z.max 0 (column_of c t - column_of c n).
Proof. by destruct c. Qed.

Lemma hasAnyMetric_false c cell : hasAnyMetric cell = false -> column_of c cell <= 0.
Proof. unfold hasAnyMetric. rewrite bool_decide_eq_false. destruct c; simpl; lia. Qed.

#[local] Hint Rewrite column_add column_zero column_residual : jsrw.

Definition add_rows (rows : list GatewayUsageRow) : UsageMetricRow :=
  foldl (fun at_ row => addMetrics at_ (metrics row)) ZERO_METRICS rows.

Lemma column_add_rows c rows : column_of c (add_rows rows) = sumZ (map (fun r : GatewayUsageRow => column_of c r) rows).
Proof.
  unfold add_rows. rewrite <- (Z.add_0_l (sumZ _)), <- (column_zero c).
  generalize ZERO_METRICS. induction rows as [|r rows IH]; intros z; simpl; [lia|].
  rewrite IH, column_add. lia.
Qed.

(** The cells of one model and day. *)
Definition cells_of (cells : list GatewayUsageRow) (a d : string) : list GatewayUsageRow :=
  filter (fun row => series_alias row = a /\ day_of day row = d) cells.

Definition model_series (days : list string) (cells : list GatewayUsageRow) (a : string) : DailyStackSeries :=
  Stack a a (map (fun d => add_rows (cells_of cells a d)) days).

Lemma day_index_lookup (days : list string) d i :
  NoDup days -> mget (of_pairs (imap (fun i d => (d, i)) days)) d = Some i <-> days !! i = Some d.
Proof.
  intros Hnd. assert (mkeys (imap (fun i d => (d, i)) days) = days) as Hk.
  { unfold mkeys. rewrite fmap_imap. apply list_eq. intros j. rewrite list_lookup_imap. by destruct (days !! j). }
  assert (mwf (imap (fun i d => (d, i)) days)) as Hwf by (unfold mwf; by rewrite Hk).
  rewrite of_pairs_NoDup by done. split.
  - intros Hg%mget_Some_elem. apply elem_of_lookup_imap_1 in Hg as (j & d' & [= -> ->] & Hj). done.
  - intros Hi. apply elem_get_Some; [done|]. apply elem_of_lookup_imap. eauto.
Qed.

Lemma add_rows_snoc rows row : add_rows (rows ++ [row]) = addMetrics (add_rows rows) (metrics row).
Proof. unfold add_rows. by rewrite foldl_app. Qed.

(** Bucketing the cells one by one gives every named series the sum of its own cells. *)
Lemma bucket_cells_spec days named cells :
  NoDup days ->
  foldl (bucket_cell (of_pairs (imap (fun i d => (d, i)) days)))
    (map (fun a => Stack a a (map (fun _ => ZERO_METRICS) days)) named) cells =
  map (model_series days cells) named.
Proof.
  intros Hnd. induction cells as [|row cells IH] using rev_ind; [done|].
  rewrite foldl_app, IH. simpl. unfold bucket_cell.
  destruct (mget _ (day_of day row)) as [i|] eqn:Hi.
  - apply day_index_lookup in Hi; [|done]. unfold add_cell. rewrite map_map. apply map_ext. intros a.
    unfold model_series. simpl. unfold cells_of. case_decide as Ha.
    + f_equal. apply list_eq. intros j. rewrite list_lookup_alter.
      destruct (decide (i = j)) as [<-|Hij]; rewrite !list_lookup_fmap.
      * rewrite Hi. simpl. rewrite filter_app, filter_cons, filter_nil, decide_True by done.
        by rewrite add_rows_snoc.
      * destruct (days !! j) as [d|] eqn:Hj; [|done]. simpl.
        rewrite filter_app, filter_cons, filter_nil, decide_False, app_nil_r; [done|].
        intros [_ Hd]. subst d. by eapply Hij, (NoDup_lookup days).
    + f_equal. apply map_ext. intros d.
      rewrite filter_app, filter_cons, filter_nil, decide_False, app_nil_r; [done|]. naive_solver.
  - apply map_ext_in. intros a _. unfold model_series, cells_of. f_equal. apply map_ext_in. intros d Hd.
    rewrite filter_app, filter_cons, filter_nil, decide_False, app_nil_r; [done|].
    intros [_ Hday]. subst d. apply list_elem_of_In, list_elem_of_lookup in Hd as [i Hd].
    apply (day_index_lookup days) in Hd; [|done]. congruence.
Qed.

(** Disjoint groups never add up to more than the whole. *)
Lemma groups_le_whole (f : GatewayUsageRow -> Z) d named cells :
  NoDup named -> (forall row, row ∈ cells -> 0 <= f row) ->
  sumZ (map (fun a => sumZ (map f (cells_of cells a d))) named) <=
  sumZ (map f (filter (fun row => day_of day row = d) cells)).
Proof.
  intros Hnd. unfold cells_of. induction cells as [|row cells IH]; intros Hf.
  { rewrite (sumZ_map_ext_in _ (fun _ => 0)); [|done]. by rewrite sumZ_zeros. }
  rewrite (sumZ_map_ext_in _ (fun a =>
    (if decide (series_alias row = a /\ day_of day row = d) then f row else 0) +
    sumZ (map f (filter (fun r => series_alias r = a /\ day_of day r = d) cells)))).
  2:{ intros a _. rewrite filter_cons. by case_decide. }
  rewrite sumZ_map_add, filter_cons.
  assert (forall l, NoDup l -> sumZ (map (fun a => if decide (series_alias row = a /\ day_of day row = d)
      then f row else 0) l) <= if decide (day_of day row = d) then f row else 0) as Hone.
  { pose proof (Hf row ltac:(left)) as Hpos. induction l as [|a l IHl]; intros Hl; simpl.
    { case_decide; lia. }
    apply NoDup_cons in Hl as [Ha Hl]. specialize (IHl Hl).
    destruct (decide (series_alias row = a /\ day_of day row = d)) as [[<- Hd]|]; [|lia].
    rewrite decide_True by done. rewrite (sumZ_map_ext_in _ (fun _ => 0)).
    - rewrite sumZ_zeros. lia.
    - intros x Hx. rewrite decide_False; [done|]. intros [<- _]. done. }
  specialize (Hone named Hnd). specialize (IH ltac:(intros r Hr; apply Hf; by right)).
  destruct (decide (day_of day row = d)); simpl; lia.
Qed.

Lemma named_sum_column c (s : list DailyStackSeries) i :
  column_of c (named_sum s i) = sumZ (map (fun e => column_of c (default ZERO_METRICS (detail e !! i))) s).
Proof.
  unfold named_sum. rewrite <- (Z.add_0_l (sumZ _)), <- (column_zero c).
  generalize ZERO_METRICS at 2 3. induction s as [|e s IH]; intros z; simpl; [lia|].
  rewrite IH, column_add. lia.
Qed.

(** A column of the whole stack at one day. *)
Definition stack_at (c : column) (i : nat) (s : list DailyStackSeries) : Z :=
  sumZ (map (fun e => column_of c (default ZERO_METRICS (detail e !! i))) s).

(** With the residual band on top (or left out when it is empty) the stack is the larger of the
    day's total and the named models' sum. *)
Lemma stack_with_residual c i t s totals :
  totals !! i = Some t ->
  let other := Stack OTHER_SERIES_KEY "Other" (imap (fun index total => residual total (named_sum s index)) totals) in
  stack_at c i (if existsb hasAnyMetric (detail other) then s ++ [other] else s) =
  Z.max (column_of c t) (stack_at c i s).
Proof.
  intros Ht other. unfold stack_at. rewrite <- (named_sum_column c s i).
  destruct (existsb hasAnyMetric (detail other)) eqn:Hex; simpl.
  - rewrite map_app, sumZ_app, <- named_sum_column. simpl. rewrite list_lookup_imap, Ht. simpl.
    rewrite column_residual. lia.
  - rewrite <- named_sum_column.
    assert (hasAnyMetric (residual t (named_sum s i)) = false) as Hno.
    { destruct (hasAnyMetric _) eqn:Hh; [|done]. rewrite <- Hex. symmetry. apply existsb_exists.
      eexists. split; [|exact Hh]. apply list_elem_of_In, elem_of_lookup_imap. eauto. }
    apply (hasAnyMetric_false c) in Hno. rewrite column_residual in Hno. lia.
Qed.

Lemma named_NoDup lc maxSeries (perModel : list (string * UsageMetricRow)) :
  mwf perModel -> NoDup (map fst (take maxSeries (js_sort (rank_cmp lc) perModel))).
Proof.
  intros Hwf. rewrite <- (List.firstn_map). 
  apply (sublist_NoDup _ (mkeys (js_sort (rank_cmp lc) perModel))); [|apply sublist_take].
  unfold mkeys, mwf in *. by rewrite sort_Permutation.
Qed.

(** Two accumulations over the same rows have the same left edge. *)
Lemma first_day_accumulate {T V W} (day : T -> option string) range (g : V -> T -> V) z (g' : W -> T -> W) z' rows :
  first_day range (accumulate (day_of day) g z rows) = first_day range (accumulate (day_of day) g' z' rows).
Proof. unfold first_day. by rewrite (mkeys_accumulate _ g z g' z'). Qed.

Lemma metricValue_add_rows rows metric : metricValue (add_rows rows) metric = sumMetric (map metrics rows) metric.
Proof.
  rewrite sumMetric_sumZ, map_map.
  pose proof (fun c => column_add_rows c rows) as Hc.
  destruct metric; simpl; [apply (Hc CSpend)| |apply (Hc CRequests)].
  rewrite sumZ_map_add. f_equal; [apply (Hc CInput)|apply (Hc COutput)].
Qed.

(** The stacked chart agrees with the summary. Its day axis and per-day totals are those of
    [dailySeries] in every metric; at every day and in every column (requests, input tokens, output
    tokens, spend) the stack is at least the day's total, and it equals the total unless the
    per-model cells of that day add up to more than it (a skew between the two reads). This holds
    whatever models are ranked first, whether or not cells are missing, and for any
    [localeCompare]. *)
Theorem dailyModelStacks_adds_up lc dayRows modelDayRows range rankRows maxSeries :
  valid_rows day dayRows -> valid_range range ->
  exists st, dailyModelStacks lc dayRows modelDayRows range rankRows maxSeries = Some st /\
    (forall metric, exists s, dailySeries dayRows range metric = Some s /\
       map point_day s = days st /\ map value s = map (fun t => metricValue t metric) (totals st)) /\
    (forall i d t c, days st !! i = Some d -> totals st !! i = Some t ->
       (forall row : GatewayUsageRow, row ∈ modelDayRows -> 0 <= column_of c row) ->
       let cells := filter (fun row => day_of day row = d) (rowsInRange day modelDayRows range) in
       column_of c t <= stack_at c i (series st) /\
       (sumZ (map (fun row : GatewayUsageRow => column_of c row) cells) <= column_of c t ->
        stack_at c i (series st) = column_of c t)).
Proof.
  intros Hrows Hrange. unfold dailyModelStacks.
  destruct (axis_covers dayRows range Hrows Hrange
    (fun at_ (row : GatewayUsageRow) => addMetrics at_ (metrics row)) ZERO_METRICS)
    as (a & b & Ha & Hb & _ & _ & Haxis & Hnd & _).
  rewrite Haxis. cbn [mbind option_bind]. eexists. split; [reflexivity|]. cbn [days series totals].
  split.
  - intros metric. unfold dailySeries.
    rewrite (first_day_accumulate _ _ _ _ (fun at_ (row : GatewayUsageRow) => addMetrics at_ (metrics row)) ZERO_METRICS).
    rewrite Haxis. simpl. eexists. split_and!; [reflexivity| |].
    + rewrite map_map. apply map_id.
    + rewrite !map_map. apply map_ext. intros d. simpl.
      rewrite !mget_accumulate_default, foldl_metric_sum. by rewrite <- metricValue_add_rows.
  - intros i d t c Hd Ht Hpos. rewrite bucket_cells_spec by done.
    rewrite (stack_with_residual c i t) by done. split; [lia|]. intros Hle.
    apply Z.max_l. etrans; [|exact Hle]. etrans; [|apply groups_le_whole; [|]].
    + apply Z.eq_le_incl. unfold stack_at. rewrite map_map. apply sumZ_map_ext_in. intros m _. simpl.
      rewrite list_lookup_fmap, Hd. simpl. apply column_add_rows.
    + apply named_NoDup, mwf_accumulate.
    + intros row Hrow. apply elem_rowsInRange in Hrow as [Hrow _]. by apply Hpos.
Qed.

(** ** Periods *)

Definition inside_day (range : DayRange) (d : Z) : bool := dayInRange (day_string d) range.

Lemma dayInRange_days a b d :
  day_ok a -> day_ok b -> day_ok d ->
  dayInRange (day_string d) (Range (Some (day_string a)) (day_string b)) = bool_decide (a <= d <= b).
Proof.
  intros Ha Hb Hd. unfold dayInRange. simpl. rewrite !day_le_iff by done.
  repeat case_bool_decide; done || lia.
Qed.

Lemma PERIOD_DAYS_pos p : p <> AllTime -> 1 <= PERIOD_DAYS p <= 365.
Proof. destruct p; simpl; done || lia. Qed.

(** A bounded period ends today and has its length in days, and the previous period is the
    equal-length one immediately before it: together they are the last [2 n] days and no day, over
    any month, year or leap-day boundary, is counted in both. *)
Theorem previousPeriodRange_adjacent period today t :
  period <> AllTime -> parse_day today = Some t -> day_ok (t - 2 * PERIOD_DAYS period) ->
  exists cur prev, periodRange period today = Some cur /\
    previousPeriodRange period today = Some (Some prev) /\
    forall d, day_ok d ->
      let n := PERIOD_DAYS period in
      inside_day cur d = bool_decide (t - n < d <= t) /\
      inside_day prev d = bool_decide (t - 2 * n < d <= t - n).
Proof.
  intros Hp Ht Hok. pose proof (PERIOD_DAYS_pos period Hp) as Hn.
  destruct (parse_day_Some _ _ Ht) as [Htok <-].
  set (n := PERIOD_DAYS period) in *.
  assert (forall k, 0 <= k <= 2 * n -> day_ok (t - k)) as Hback.
  { intros k Hk. eapply day_ok_between; [exact Hok|exact Htok|lia]. }
  unfold periodRange, previousPeriodRange. rewrite !decide_False by done. fold n.
  rewrite !addDays_day_string by done. cbn [mbind option_bind].
  rewrite addDays_day_string by by apply (Hback n); lia. cbn [mbind option_bind].
  eexists _, _. split_and!; [reflexivity..|]. intros d Hd. unfold inside_day. split.
  - rewrite dayInRange_days; [|apply (Hback (n - 1)); lia|done|done]. apply bool_decide_ext. lia.
  - rewrite dayInRange_days; [| |apply (Hback n); lia|done].
    + apply bool_decide_ext. lia.
    + replace (t + - n + - (n - 1)) with (t - (2 * n - 1)) by lia. apply Hback. lia.
Qed.

(** ** Streaks *)

(** [n] consecutive active days somewhere in the series. *)
Definition streak (l : list DailyPoint) (n : Z) : Prop :=
  exists pre mid post, l = pre ++ mid ++ post /\ Z.of_nat (length mid) = n /\ Forall (fun p => value p > 0) mid.

(** The run that is still open at the end of the series. *)
Definition open_streak (l : list DailyPoint) (n : Z) : Prop :=
  exists pre mid, l = pre ++ mid /\ Z.of_nat (length mid) = n /\ Forall (fun p => value p > 0) mid.

Lemma streak_snoc l p n :
  streak (l ++ [p]) n <-> streak l n \/ (0 < n /\ value p > 0 /\ open_streak l (n - 1)).
Proof.
  split.
  - intros (pre & mid & post & Heq & Hlen & Hmid).
    destruct post as [|q post _] using rev_ind.
    + rewrite app_nil_r in Heq. destruct mid as [|q mid _] using rev_ind.
      * left. exists l, [], []. by rewrite app_nil_r.
      * rewrite app_assoc in Heq. apply app_inj_tail in Heq as [-> ->].
        apply Forall_snoc in Hmid as [Hmid Hq].
        rewrite length_app in Hlen. simpl in Hlen. right. split_and!; [lia|done|].
        exists pre, mid. split_and!; [done|lia|done].
    + rewrite !app_assoc in Heq. apply app_inj_tail in Heq as [-> _]. left.
      exists pre, mid, post. by rewrite app_assoc.
  - intros [(pre & mid & post & -> & Hlen & Hmid)|(Hn & Hp & pre & mid & -> & Hlen & Hmid)].
    + exists pre, mid, (post ++ [p]). by rewrite <- !app_assoc.
    + exists pre, (mid ++ [p]), []. rewrite app_nil_r, <- app_assoc, length_app. simpl.
      split_and!; [done|lia|]. by apply Forall_snoc.
Qed.

Lemma open_streak_snoc l p n :
  open_streak (l ++ [p]) n <-> n = 0 \/ (0 < n /\ value p > 0 /\ open_streak l (n - 1)).
Proof.
  split.
  - intros (pre & mid & Heq & Hlen & Hmid). destruct mid as [|q mid _] using rev_ind; [by left|].
    rewrite app_assoc in Heq. apply app_inj_tail in Heq as [-> ->].
    apply Forall_snoc in Hmid as [Hmid Hq].
    rewrite length_app in Hlen. simpl in Hlen. right. split_and!; [lia|done|].
    exists pre, mid. split_and!; [done|lia|done].
  - intros [->|(Hn & Hp & pre & mid & -> & Hlen & Hmid)].
    + exists (l ++ [p]), []. by rewrite app_nil_r.
    + exists pre, (mid ++ [p]). rewrite <- app_assoc, length_app. simpl.
      split_and!; [done|lia|]. by apply Forall_snoc.
Qed.

(** The loop's invariant: the longest streak so far, the longest open one, the sum. *)
Lemma activity_loop l :
  let '(longest, run, total) := foldl activity_step (0, 0, 0) l in
  (forall n, streak l n -> n <= longest) /\ streak l longest /\
  (forall n, open_streak l n -> n <= run) /\ open_streak l run /\
  0 <= run <= longest /\ total = sumZ (map value l).
Proof.
  induction l as [|p l IH] using rev_ind.
  { simpl. assert (forall n, streak [] n -> n <= 0).
    { intros n (pre & mid & post & Heq & <- & _). destruct pre, mid; done. }
    assert (forall n, open_streak [] n -> n <= 0).
    { intros n (pre & mid & Heq & <- & _). destruct pre, mid; done. }
    split_and!; try done; [by exists [], [], []|by exists [], []]. }
  rewrite foldl_app. destruct (foldl activity_step (0, 0, 0) l) as [[longest run] total].
  destruct IH as (Hub & Hst & Hob & Hop & Hle & ->). simpl.
  setoid_rewrite streak_snoc. setoid_rewrite open_streak_snoc.
  rewrite map_app, sumZ_app. simpl. case_decide as Hp.
  - split_and!; try lia.
    + intros n [Hn|(_ & _ & Hn)]; [specialize (Hub n Hn)|specialize (Hob _ Hn)]; lia.
    + destruct (Z.max_spec longest (run + 1)) as [[_ ->]|[_ ->]]; [right|by left].
      split_and!; [lia|done|]. by replace (run + 1 - 1) with run by lia.
    + intros n [->|(_ & _ & Hn)]; [lia|]. specialize (Hob _ Hn). lia.
    + right. split_and!; [lia|done|]. by replace (run + 1 - 1) with run by lia.
  - split_and!; try lia.
    + intros n [Hn|(_ & ? & _)]; [specialize (Hub n Hn)|]; lia.
    + left. by rewrite Z.max_l by lia.
Qed.

(** [activityStats] finds the longest streak: some run of consecutive active days has that
    length, no run is longer, and the total is the sum of the series. *)
Theorem activityStats_longest series :
  streak series (longestStreakDays (activityStats series)) /\
  (forall n, streak series n -> n <= longestStreakDays (activityStats series)) /\
  total (activityStats series) = sumZ (map value series).
Proof.
  unfold activityStats. pose proof (activity_loop series) as H.
  destruct (foldl activity_step (0, 0, 0) series) as [[longest run] tot]. naive_solver.
Qed.

(** ** Top groups *)

Section top.
Context (localeCompare : string -> string -> Z) `{!Comparator localeCompare}.
Context {T : Type} (metrics_of : T -> UsageMetricRow) (rows : list T) (metric : UsageMetric)
  (label_of : T -> string) (count : nat).

(** A group's total: the metric over the rows with its label. *)
Definition group_total (l : string) : Z :=
  sumZ (map (fun r => metricValue (metrics_of r) metric) (filter (fun r => label_of r = l) rows)).

Lemma top_totals p :
  p ∈ accumulate label_of (fun v r => v + metricValue (metrics_of r) metric) 0 rows <->
  p.1 ∈ map label_of rows /\ p.2 = group_total p.1.
Proof.
  destruct p as [l v]. simpl. unfold group_total.
  pose proof (mget_accumulate label_of (fun v r => v + metricValue (metrics_of r) metric) 0 rows l) as Hg.
  pose proof (foldl_add_sumZ (fun r => metricValue (metrics_of r) metric)
    (filter (fun r => label_of r = l) rows) 0) as Hf. simpl in Hf.
  split.
  - intros Hin. apply elem_get_Some in Hin; [|apply mwf_accumulate].
    rewrite Hin in Hg. case_bool_decide; [|done]. split; [done|]. injection Hg as ->. lia.
  - intros [Hin ->]. rewrite bool_decide_true in Hg by done. apply mget_Some_elem.
    rewrite Hg. f_equal. lia.
Qed.

(** [topGroups] returns at most [count] groups, each with the metric's exact total over its
    own rows and a positive value, largest first, and never leaves out a positive group in
    favour of a smaller one. *)
Theorem topGroups_correct :
  let out := topGroups localeCompare metrics_of rows metric label_of count in
  (length out <= count)%nat /\
  (forall l v, (l, v) ∈ out -> v = group_total l /\ 0 < v /\ l ∈ map label_of rows) /\
  StronglySorted (fun x y => y.2 <= x.2) out /\
  (forall l, l ∈ map label_of rows -> 0 < group_total l -> l ∉ map fst out ->
     length out = count /\ forall l' v', (l', v') ∈ out -> group_total l <= v').
Proof.
  intros out. set (cmp := fun x y : string * Z => cmp_or (y.2 - x.2) (localeCompare x.1 y.1)).
  set (groups := filter (fun group : string * Z => group.2 > 0)
    (accumulate label_of (fun v r => v + metricValue (metrics_of r) metric) 0 rows)).
  assert (out = take count (js_sort cmp groups)) as Hout by done.
  assert (Comparator cmp) as Hcmp.
  { apply (cmp_or_comparator (by_key_desc snd) (fun x y : string * Z => localeCompare x.1 y.1)). }
  assert (forall p, p ∈ groups <-> p.2 > 0 /\ p.1 ∈ map label_of rows /\ p.2 = group_total p.1) as Hgroups.
  { intros p. unfold groups. by rewrite list_elem_of_filter, top_totals. }
  assert (forall x y, cmp x y <= 0 -> y.2 <= x.2) as Hle.
  { intros x y. unfold cmp, cmp_or. case_decide; lia. }
  assert (StronglySorted (fun x y : string * Z => y.2 <= x.2) (js_sort cmp groups)) as Hsorted.
  { eapply StronglySorted_weaken; [exact Hle|]. exact (sort_sorted cmp groups). }
  rewrite <- (take_drop count (js_sort cmp groups)), <- Hout in Hsorted.
  split_and!.
  - rewrite Hout, length_take. lia.
  - intros l v Hin. assert ((l, v) ∈ groups) as Hg.
    { apply (elem_sort cmp). rewrite Hout in Hin. by apply (subseteq_take count). }
    apply Hgroups in Hg. simpl in Hg. naive_solver lia.
  - by eapply StronglySorted_app_1_l.
  - intros l Hl Hpos Hnot.
    assert ((l, group_total l) ∈ js_sort cmp groups) as Hin.
    { apply elem_sort, Hgroups. simpl. naive_solver lia. }
    rewrite <- (take_drop count (js_sort cmp groups)), <- Hout in Hin.
    apply elem_of_app in Hin as [Hin|Hin].
    { exfalso. apply Hnot. apply list_elem_of_fmap. by exists (l, group_total l). }
    split.
    + rewrite Hout, length_take. apply Nat.min_l.
      destruct (decide (count <= length (js_sort cmp groups)))%nat; [done|].
      rewrite drop_ge in Hin by lia. set_solver.
    + intros l' v' Hin'. exact (StronglySorted_app_1_elem_of _ _ _ _ _ Hsorted Hin' Hin).
Qed.
End top.

(** ** Concrete inputs *)

Definition valid_rows_b {T} (day : T -> option string) (rows : list T) : bool :=
  forallb (fun row => match day row with Some s => bool_decide (is_Some (parse_day s)) | None => true end) rows.

Lemma valid_rows_check {T} (day : T -> option string) (rows : list T) :
  valid_rows_b day rows = true -> valid_rows day rows.
Proof.
  unfold valid_rows_b. rewrite forallb_forall. intros H row s Hin Hd.
  specialize (H row). rewrite <- list_elem_of_In, Hd in H. specialize (H Hin). by bool_simpl.
Qed.

Definition demo_range : DayRange := Range (Some "2024-02-27") "2024-03-02".

Definition demo_row (d a : string) (r i o sp : Z) : GatewayUsageRow :=
  UsageRow (MetricRow r i o sp) (Some d) None (Some a).

Definition demo_days : list GatewayUsageRow :=
  [demo_row "2024-02-28" "" 3 10 20 700; demo_row "2024-03-01" "" 1 5 5 200;
   demo_row "2024-03-01" "" 2 1 1 50; demo_row "2024-03-09" "" 9 9 9 9].

Definition demo_cells : list GatewayUsageRow :=
  [demo_row "2024-02-28" "gpt" 1 4 8 500; demo_row "2024-02-28" "claude" 1 3 6 150;
   demo_row "2024-03-01" "claude" 2 2 2 90].

Lemma demo_valid : valid_rows day demo_days /\ valid_range demo_range.
Proof.
  split; [apply valid_rows_check; vm_compute; reflexivity|]. split.
  - exists 19784. split; [vm_compute; reflexivity|]. vm_compute. split; discriminate.
  - intros f [= <-]. exists 19780. vm_compute. reflexivity.
Defined.

Lemma dailySeries_conserves_witness :
  exists s, dailySeries demo_days demo_range Spend = Some s /\ sumZ (map value s) = 950.
Proof.
  destruct (dailySeries_conserves demo_days demo_range Spend (proj1 demo_valid) (proj2 demo_valid))
    as (s & a & b & Hs & _ & _ & _ & _ & Hsum).
  exists s. split; [exact Hs|]. rewrite Hsum. vm_compute. reflexivity.
Defined.

Example dailySeries_leap :
  dailySeries demo_days demo_range Spend =
  Some [Point "2024-02-27" 0; Point "2024-02-28" 700; Point "2024-02-29" 0; Point "2024-03-01" 250;
        Point "2024-03-02" 0].
Proof. vm_compute. reflexivity. Qed.

Lemma dailyModelStacks_adds_up_witness :
  exists st, dailyModelStacks str_cmp demo_days demo_cells demo_range None 1 = Some st /\ stack_at CSpend 3 (series st) = 250.
Proof.
  destruct (dailyModelStacks_adds_up str_cmp demo_days demo_cells demo_range None 1
    (proj1 demo_valid) (proj2 demo_valid)) as (st & Hst & _ & Hstack).
  exists st. split; [exact Hst|]. vm_compute in Hst. injection Hst as <-.
  refine (proj2 (Hstack 3%nat "2024-03-01"%string (MetricRow 3 6 6 250) CSpend eq_refl eq_refl _) _).
  - intros row Hrow. unfold demo_cells in Hrow. rewrite !elem_of_cons in Hrow.
    destruct Hrow as [->|[->|[->|Hrow]]]; [vm_compute; discriminate..|]. inversion Hrow.
  - vm_compute. discriminate.
Defined.

Lemma previousPeriodRange_adjacent_witness :
  exists cur prev, periodRange P7d "2024-03-02" = Some cur /\ previousPeriodRange P7d "2024-03-02" = Some (Some prev) /\ inside_day prev 19777 = true /\ inside_day cur 19777 = false.
Proof.
  destruct (previousPeriodRange_adjacent P7d "2024-03-02" 19784) as (cur & prev & Hc & Hp & Hd).
  - discriminate.
  - vm_compute. reflexivity.
  - vm_compute. split; discriminate.
  - exists cur, prev. destruct (Hd 19777) as [H1 H2]; [vm_compute; split; discriminate|].
    split; [exact Hc|]. split; [exact Hp|]. rewrite H1, H2. split; vm_compute; reflexivity.
Defined.

Lemma topGroups_correct_witness :
  let out := topGroups str_cmp (fun r : GatewayUsageRow => metrics r) demo_cells Spend series_alias 1 in
  out = [("gpt"%string, 500)] /\ (length out <= 1)%nat.
Proof.
  intros out. destruct (topGroups_correct str_cmp (fun r : GatewayUsageRow => metrics r) demo_cells Spend
    series_alias 1) as [Hlen _].
  split; [vm_compute; reflexivity|exact Hlen].
Defined.
